(* ===== verification/_CoqProject ===== *)
-Q . S2P
Prelude.v
Clib.v
Logging.v
LogConc.v
Layout.v
DList.v
Disk.v
Reader.v
XzCache.v
XzReader.v
XzFacts.v
GzipReader.v
GzipFacts.v
GzipIndex.v
GzipTokens.v
Constructors.v
Example.v
Dcache.v
DcacheConc.v
State.v
Super.v
Threads.v
DiskMutex.v
Reads.v
Progress.v
Extents.v
Inode.v
Lookup.v
InodeReads.v
LookupConc.v
Ops.v
Session.v
OpReads.v
Volume.v
SessionConc.v
FuseMain.v
Spotlight.v
Witness.v
LookupConcWitness.v
XzWitness.v
GzipWitness.v
GzipIndexWitness.v
GzipWindow.v
LayerWitness.v
SessionWitness.v
SessionConcWitness.v
