(* ===== verification/Prelude.v ===== *)
(** * Spotlight: mounting compressed ext4 images

    Spotlight mounts a disk image with an ext2/3/4 file system, which can be a
    plain, gzip or xz file, read-only through FUSE.  The program has three
    layers, and the development follows them from the bottom:

    - src/compression/ and src/read_layer.c give reads of the decompressed
      image.  A table of reader implementations is probed, the first one that
      supports the file is allocated at the first read, and every read goes
      through it.
    - src/fs/ext4/disk.c reads at an offset and aborts when it gets less than it
      asked for; super.c, extents.c, inode.c and dcache.c find metadata and map
      file blocks; their state are static variables.
    - src/fs/ext4/op_*.c are the FUSE operations over them, fuse-main.c hands them
      to libfuse, and src/main.c and fs/fuse_implementation.c start it.

    ** Conventions

    A function of the source is a function in the monad [M] over the state it
    works on, with three ways to stop ([fault]): [Abort] for a failed assertion,
    [UB] for behaviour that C leaves undefined, [NoFuel] for a loop whose bound
    ran out.  [wp m Q s] says that [m] ends without a fault in a state where [Q]
    holds.  Integers are [Z] with the conversions [u32], [s64] and so on written
    where the source converts; memory objects are lists of bytes whose accesses
    are checked ([load], [store], [require]).  The ext4 library is built with its
    assertions; the rest has them with or without NDEBUG, so its definitions take
    [ndebug] and the theorems hold for both values.

    ** Files

    - Prelude (this file): the monad, machine integers, byte sequences, lemmas
      and tactics.  Clib: [FILE] objects with [pread], [fread] and the string
      functions; a file can have an unreadable sector.  Logging: logging.c, LogConc:
      the same with threads.  DList: doubly linked lists in a heap.
    - Layout: C struct layout and the structs of src/fs/ext4/types/.
    - Disk: disk.c, disk.h, over the class [ReadLayer]; what a read layer
      promises is [ReadLayerOk].  Reader: read_layer.c, compression_reader.c and
      raw_read/reader.c; what a reader promises is [ReaderOk], from which
      [layer_ok] derives [ReadLayerOk].
    - XzCache, XzReader: xz/xz_reader.c, with liblzma as the class [Lzma];
      XzFacts: its theorems and the instance [xz_ok] of [ReaderOk].
    - GzipReader: gzip/gzip_reader.c, with zlib as the class [Zlib]; GzipFacts:
      the list of access points, windows and decoding from a point; GzipIndex: the
      building of the index, reads and the instance [gzip_ok].  Constructors:
      constructors.h, the table [available_readers] of the three readers.
      Example: the command examples/compression-reader.c.
    - Dcache: dcache.c, a tree of circular lists in a heap.  DcacheConc: the same
      functions as threads, every access to memory that others see a step.
    - State: the static variables of the file system as one record [fs], and the
      relation [evals] of code that only reads the disk.  Super: super.c, super.h
      and common.h.  Extents: extents.c.  Inode: the first half of inode.c, block
      mapping and directory blocks.  Lookup: the second half, path lookup.  Ops:
      op_init.c, op_open.c, op_getattr.c, op_read.c, op_readdir.c, op_readlink.c.
    - Session: requests one after the other on the mounted file system, with the
      abstract [volume] and the function [spec] that says what they are answered.
    - Threads: programs that stop at every call into the dcache and every read of
      the disk, pools of threads that run them, and what makes a program right in
      every interleaving.  DiskMutex: the same pools with the lock of disk.c.
      Reads: the class [Reads] of functions that only read, with their programs,
      and [direct_layer], the image as its own read layer; InodeReads and OpReads:
      its instances, construct by construct.  Volume: the volume in the bytes of an
      image, said without the functions that read it.  Progress: how many steps such a
      program takes in a pool.  LookupConc: path lookup as a program
      over one cache; SessionConc: the requests of Session as programs.
    - FuseMain: fuse-main.c, fuse_implementation.c and main.c, with libfuse as the
      class [Libfuse] and the environment of the process as a record.  Spotlight:
      the whole program, all layers put together.
    - Witness: a concrete image of seven blocks.  XzWitness and GzipWitness: small
      compressed files in formats that store their data, one of two streams with
      padding.  GzipTokens: a format of
      runs and back references; GzipIndexWitness: a file in it with several blocks
      longer than the distance of access points; GzipWindow: one of two chunks
      that the code reads wrongly.  LayerWitness: the read layer on these.
      SessionWitness: sessions and the whole program on the image.
      LookupConcWitness, SessionConcWitness: two lookups and six requests whose
      threads take turns at the cache, the lock and the disk.
      Each theorem with hypotheses is applied to one of them.

    ** What the theorems show

    - The program.  [main_serves_volume]: from the command line to the answers of
      the requests, a run of Spotlight on a plain, gzip or xz file of an ext4 image
      is a run of the abstract volume in it; [main_serves_threads]: so it is when
      libfuse answers requests on threads.  Both have bounds that the sources
      impose, and outside of which theorems below show other behaviour: those of
      [request_within] on the requests (components shorter than 40 characters and
      paths that do not lead through a file, reads that start at a block or in a
      mapped block below 4 GiB, links that fit in the buffer, names up to 254
      characters) and those of [compressed_as] on the file (gzip of an image below
      1 MiB, of one chunk or of independent blocks; xz with blocks of at most 64 MiB,
      footers whose byte 2 is not zero and padding in multiples of 12 bytes).  The
      copies of the image path are freed; the disk, its reader, the descriptors and
      the cache stay as they are until the process ends.  What the image holds
      ([volume_on]) is said of its bytes alone, and [volume_on_disk_repr] shows that
      the program reads that, over any read layer.  [session_refines_volume]: the
      same for the mounted file system, so the answer to a request within the terms
      does not depend on what was asked before.
      [readdir_pages_complete]: listings that are resumed page by page.
      [ext4fuse_is_supported_ok], [main_refuses], [main_aborts_on_short_image]:
      how the start-up ends otherwise.  [example_main_ok]: the example
      command.  [log_all_ok]: what the log holds; [log_lines_whole]: the lines of
      threads that log at once stay whole.
    - Reads of the image.  [read_wrapper_ok]: probing, allocation on the rewound
      file and all later reads give the bytes of the image, for any reader that
      keeps [ReaderOk].  [available_readers_ok]: with the real table, files in gzip
      format (with the bounds below), in xz format and others are read by the
      right reader.  [pread_wrapper_freebsd_ok]: the block-aligned path gives what a
      plain read gives.
    - xz.  [get_cache_block_refines] and [add_new_block_refines]: the linked cache
      on the heap is an abstract LRU list; [xz_read_ok]: reads over any number of
      blocks are right and keep the cache; [xz_reader_alloc_ok]: all streams of a
      file are parsed, over padding of multiples of 12 bytes ([xz_padding_missed],
      [xz_footer_missed]: what is not); [xz_reader_free_ok]: every object is freed once.
    - gzip.  [add_access_point_ok], [free_access_point_list_ok]: the list and the
      windows of access points; [check_and_build_index_ok]: what the index is, however
      often it is taken farther; [gzip_read_ok]: reads with the index built on the
      way, of the first MiB for any file and of the whole image where the file is
      a single chunk of 16 KiB or decoding can start at a block with any window.
      For other files no more holds: the code starts its window buffer again at
      every chunk of input, and [gzip_window_lost] shows a file three bytes longer
      than a chunk of which a wrong byte is read.
    - Mounting.  [op_init_ok] and [super_group_fill_ok]: the super block and the
      descriptor table are read as they are on the disk, and the invariant of the
      other operations is established.
    - Block mapping.  [extent_get_pblock_mapped], [extent_get_pblock_beyond]:
      extent trees of any depth; [inode_get_data_pblock_indirect]: the index
      blocks of ext2/3 against a reference walk.  [inode_get_by_number_ok],
      [inode_dentry_get_ok]: inodes and directory entries.
    - Paths.  [dcache_lookup_refines], [dcache_insert_refines]: the pointer
      structure is an abstract tree; [dcache_insert_lookup]: what is inserted is
      found; [inode_get_idx_by_path_ok]: lookup of paths with short
      components through cache and directories is resolution by components, and
      the cache stays sound.
    - Threads.  [dcache_alone_sequential], [lookup_thread_sequential] and
      [request_thread_sequential]: a call of the cache, a whole path lookup and a
      whole request that are not interrupted are the sequential functions.
      [dcache_concurrent_safe]: in every interleaving no call faults and every
      entry returned is a true one; [concurrent_lookups_ok]: so path lookups of any
      number of threads are right; [concurrent_session_refines_volume]: and so are
      the responses to any requests within the terms, from op_init on;
      [disk_mutex_refines]: with the lock of disk.c a read comes to one step, though
      it works on the disk as it was when the lock was taken, and the lock is given
      back; [dcache_insert_wait_free]: insertions always end; [read_requests_end]: so
      do requests without a path;
      [dcache_race_breaks_ring]: lookups need not, since two insertions can break
      a ring.
    - Operations.  [op_read_ok], [op_readdir_ok], [op_getattr_ok], [op_open_ok],
      [op_readlink_ok]: results on the branches that do not abort, with
      termination, under the conditions they state.
    - What goes wrong is stated in theorems of its own, next to the operation:
      holes in front of extents, long names, truncated masks, unchecked results,
      footers that look like padding, padding that looks like a footer, sectors that cannot be read, reads over the
      end of an image.

    ** Loops

    Recursion that is not structural takes fuel.  Where the source has a bound
    the definition computes it from its arguments: bytes left to read for the
    loops of [op_read] and [xz_read] (each turn reads at least a byte), the file
    size for the search of a footer and for the streams (the position
    decreases), the number of entries for the lists, the number of cells for a
    ring of the dcache, the size of the directory for its scan, a constant above
    the maximal depth for extent trees.  The loops around zlib's [inflate] get
    a bound from outside, which has to exceed the sizes of the file and the image
    together.  The theorems show that the fuel is not used up.

    ** Not modelled

    liblzma and zlib are parameters: the theorems name what they rely on
    ([block_decodes], [stream_at], [xz_index_ok], [inflates], [point_ok],
    [gz_header], [block_stream]).  The filter options that read_block frees are
    inside the parameter.  So are libfuse's option parser and main loop
    ([parses_as], [serves], [serves_threads]: the calls back that its documentation
    promises).  The memory that FuseMain accounts for is that of the copies of
    strings; the string libfuse allocates for the option logfile=%s and the open log
    file are not in it.  [malloc] succeeds; the directory context is a value, so
    [inode_dir_ctx_get] and [inode_dir_ctx_put], its [malloc] and [free], are left out.
    Logging.v says what a message writes, but the file system does not thread the
    log through: the arguments of its messages are evaluated where they can fault,
    and nothing else of them matters; the text of the backtrace in the SIGSEGV
    handler and of [perror] is left out.  Between threads (Threads, DiskMutex,
    SessionConc) the statics other than the dcache and the disk are written only by
    op_init.  What happens inside a read while the lock is held is one step of the
    layers below, which have no other user; the fairness of the locks is left open.
    Accesses to the dcache are atomic and in
    program order. *)
From Stdlib Require Import ZArith Lia Strings.Byte.
From stdpp Require Import base numbers list option gmap strings.

#[global] Open Scope Z_scope.

(** ** Faults, results and the state-and-fault monad *)

(** How a run of the C code can stop without a value: [Abort] is a failed
    [assert]/[ASSERT] or a call of [abort], [UB] is behaviour the C standard
    leaves undefined (a null or dangling pointer, an index outside its object,
    a division by zero, an oversized shift), and [NoFuel] says that the bound
    given to a loop of the model ran out. *)
Inductive fault : Type := Abort | UB | NoFuel.

Inductive res (A : Type) : Type :=
| Ok (a : A)
| Err (e : fault).
Arguments Ok {A} a.
Arguments Err {A} e.

Definition rbind {A B : Type} (r : res A) (k : A -> res B) : res B :=
  match r with Ok a => k a | Err e => Err e end.

(** A computation over the state [S]. *)
Definition M (S A : Type) : Type := S -> res (A * S).

Definition ret {S A : Type} (a : A) : M S A := fun s => Ok (a, s).
Definition bind {S A B : Type} (m : M S A) (k : A -> M S B) : M S B :=
  fun s => match m s with Ok (a, s') => k a s' | Err e => Err e end.
Definition fail {S A : Type} (e : fault) : M S A := fun _ => Err e.
Definition get {S : Type} : M S S := fun s => Ok (s, s).
Definition put {S : Type} (s : S) : M S unit := fun _ => Ok (tt, s).
Definition modify {S : Type} (f : S -> S) : M S unit := fun s => Ok (tt, f s).
Definition lift {S A : Type} (r : res A) : M S A :=
  fun s => match r with Ok a => Ok (a, s) | Err e => Err e end.

(** [ASSERT(b)] where assertions are compiled in. *)
Definition ASSERT {S : Type} (b : bool) : M S unit :=
  if b then ret tt else fail Abort.
(** An access that is defined only when [b] holds. *)
Definition require {S : Type} (b : bool) : M S unit :=
  if b then ret tt else fail UB.

(** A pointer the source dereferences without a test. *)
Definition non_null {S A : Type} (p : option A) : M S A :=
  match p with Some a => ret a | None => fail UB end.

(** [assert(b)], which -DNDEBUG removes. *)
Definition c_assert {S : Type} (ndebug b : bool) : M S unit :=
  if ndebug then ret tt else ASSERT b.

(** Run a computation over a part of the state. *)
Definition zoom {S T A : Type} (getp : S -> T) (setp : T -> S -> S)
    (m : M T A) : M S A :=
  fun s => match m (getp s) with
           | Ok (a, t) => Ok (a, setp t s)
           | Err e => Err e
           end.

Declare Scope cprog_scope.
Delimit Scope cprog_scope with cprog.
Notation "'let*' x ':=' m 'in' k" := (bind m (fun x => k))
  (at level 10, x binder, m at level 100, k at level 200,
   format "'[v' 'let*'  x  ':='  m  'in' '/' k ']'") : cprog_scope.
Notation "'do*' m 'in' k" := (bind m (fun _ : unit => k))
  (at level 10, m at level 100, k at level 200,
   format "'[v' 'do*'  m  'in' '/' k ']'") : cprog_scope.
Notation "'let?' x ':=' m 'in' k" := (rbind m (fun x => k))
  (at level 10, x binder, m at level 100, k at level 200,
   format "'[v' 'let?'  x  ':='  m  'in' '/' k ']'") : cprog_scope.
#[global] Open Scope cprog_scope.

(** Total-correctness weakest precondition with a fault postcondition. *)
Definition wpx {S A : Type} (m : M S A) (Q : A -> S -> Prop) (E : fault -> Prop)
    (s : S) : Prop :=
  match m s with Ok (a, s') => Q a s' | Err e => E e end.
Definition nofault (e : fault) : Prop := False.
Definition notub (e : fault) : Prop := e <> UB.
Abbreviation wp m Q s := (wpx m Q nofault s).

(** ** Machine integers (LP64: int is 32 bits, long, size_t and off_t 64) *)
Definition u8 (z : Z) : Z := z mod 2 ^ 8.
Definition u16 (z : Z) : Z := z mod 2 ^ 16.
Definition u32 (z : Z) : Z := z mod 2 ^ 32.
Definition u64 (z : Z) : Z := z mod 2 ^ 64.
Definition s8 (z : Z) : Z := (z + 2 ^ 7) mod 2 ^ 8 - 2 ^ 7.
Definition s32 (z : Z) : Z := (z + 2 ^ 31) mod 2 ^ 32 - 2 ^ 31.
Definition s64 (z : Z) : Z := (z + 2 ^ 63) mod 2 ^ 64 - 2 ^ 63.

(** Division and remainder trap on a zero divisor. *)
Definition c_div (a b : Z) : res Z := if b =? 0 then Err UB else Ok (Z.quot a b).
Definition c_mod (a b : Z) : res Z := if b =? 0 then Err UB else Ok (Z.rem a b).

(** ** Byte sequences *)
Abbreviation bytes := (list Byte.byte).

Definition byte_val (b : Byte.byte) : Z := Z.of_N (Byte.to_N b).
Definition byte_of (z : Z) : Byte.byte :=
  match Byte.of_N (Z.to_N (u8 z)) with Some b => b | None => Byte.x00 end.
#[global] Instance byte_eq_decision : EqDecision Byte.byte := Byte.byte_eq_dec.

Definition zlen {A : Type} (l : list A) : Z := Z.of_nat (length l).
(** The [n] elements of [l] from index [off]. *)
Definition slice {A : Type} (off n : Z) (l : list A) : list A :=
  take (Z.to_nat n) (drop (Z.to_nat off) l).
(** [memcpy(l + off, new, |new|)] on an array: what lies outside is kept. *)
Definition splice {A : Type} (off : Z) (new l : list A) : list A :=
  take (Z.to_nat off) l ++ new ++ drop (Z.to_nat off + length new) l.
Definition zeros (n : Z) : bytes := replicate (Z.to_nat n) Byte.x00.

(** Little-endian integers, as the x86 loads of the [__leN] fields read them. *)
Fixpoint le_decode (l : bytes) : Z :=
  match l with [] => 0 | b :: l' => byte_val b + 256 * le_decode l' end.
Fixpoint le_encode (n : nat) (z : Z) : bytes :=
  match n with O => [] | S n' => byte_of z :: le_encode n' (z / 256) end.

(** An [n]-byte load at offset [off] of an object whose bytes are [l]. *)
Definition in_range {A : Type} (off n : Z) (l : list A) : bool :=
  (0 <=? off) && (0 <=? n) && (off + n <=? zlen l).
Definition le_at (off n : Z) (l : bytes) : Z := le_decode (slice off n l).
Definition load (off n : Z) (l : bytes) : res Z :=
  if in_range off n l then Ok (le_at off n l) else Err UB.
(** A store of [new] at offset [off] into an object. *)
Definition store (off : Z) (new l : bytes) : res bytes :=
  if in_range off (zlen new) l then Ok (splice off new l) else Err UB.

(** ** Lemmas and automation *)

Create HintDb cwp.
Create HintDb cbytes.
Create Rewrite HintDb cbytes_len.

Section wpx_rules.
Context {S : Type}.

Lemma wpx_ret {A} (a : A) Q E (s : S) : Q a s -> wpx (ret a) Q E s.
Proof. done. Qed.

Lemma wpx_bind {A B} (m : M S A) (k : A -> M S B) Q E (s : S) :
  wpx m (fun a s' => wpx (k a) Q E s') E s -> wpx (bind m k) Q E s.
Proof. unfold wpx, bind. by destruct (m s) as [[a s']|e]. Qed.

Lemma wpx_mono {A} (m : M S A) (Q Q' : A -> S -> Prop) (E E' : fault -> Prop) s :
  wpx m Q E s -> (forall a s', Q a s' -> Q' a s') -> (forall e, E e -> E' e) ->
  wpx m Q' E' s.
Proof. unfold wpx. destruct (m s) as [[a s']|e]; auto. Qed.

Lemma wpx_ASSERT b Q (E : fault -> Prop) (s : S) :
  (b = true -> Q tt s) -> (b = false -> E Abort) -> wpx (ASSERT b) Q E s.
Proof. unfold ASSERT. destruct b; unfold wpx; simpl; auto. Qed.

Lemma wpx_require b Q (E : fault -> Prop) (s : S) :
  (b = true -> Q tt s) -> (b = false -> E UB) -> wpx (require b) Q E s.
Proof. unfold require. destruct b; unfold wpx; simpl; auto. Qed.

Lemma wpx_lift {A} (r : res A) Q E (s : S) :
  match r with Ok a => Q a s | Err e => E e end -> wpx (lift r) Q E s.
Proof. unfold wpx, lift. by destruct r. Qed.

Lemma wpx_get Q E (s : S) : Q s s -> wpx get Q E s.
Proof. done. Qed.

Lemma wpx_put t Q E (s : S) : Q tt t -> wpx (put t) Q E s.
Proof. done. Qed.

Lemma wpx_modify f Q E (s : S) : Q tt (f s) -> wpx (modify f) Q E s.
Proof. done. Qed.

Lemma wpx_zoom {T A} gp sp (m : M T A) Q E (s : S) :
  wpx m (fun a t => Q a (sp t s)) E (gp s) -> wpx (zoom gp sp m) Q E s.
Proof. unfold wpx, zoom. by destruct (m (gp s)) as [[a t]|e]. Qed.

(** A total-correctness triple exhibits the run. *)
Lemma wp_run {A} (m : M S A) (Q : A -> S -> Prop) s :
  wp m Q s <-> exists a s', m s = Ok (a, s') /\ Q a s'.
Proof.
  unfold wpx, nofault. destruct (m s) as [[a s']|e]; split.
  - intros HQ. by exists a, s'.
  - intros (b & t & [= <- <-] & HQ). done.
  - done.
  - by intros (b & t & [=] & _).
Qed.

Lemma bind_Ok {A B} (m : M S A) (k : A -> M S B) s a s' :
  m s = Ok (a, s') -> bind m k s = k a s'.
Proof. unfold bind. by intros ->. Qed.

Lemma bind_Err {A B} (m : M S A) (k : A -> M S B) s e :
  m s = Err e -> bind m k s = Err e.
Proof. unfold bind. by intros ->. Qed.

(** A step whose run is known. *)
Lemma wpx_run {A B} (m : M S A) (k : A -> M S B) Q E s a s' :
  m s = Ok (a, s') -> wpx (k a) Q E s' -> wpx (bind m k) Q E s.
Proof. intros Hm Hk. apply wpx_bind. unfold wpx. by rewrite Hm. Qed.

Lemma wpx_assoc {A B C} (m : M S A) (k : A -> M S B) (k' : B -> M S C) Q E s :
  wpx (bind (bind m k) k') Q E s -> wpx (bind m (fun a => bind (k a) k')) Q E s.
Proof. unfold wpx, bind. by destruct (m s) as [[a s']|e]. Qed.

Lemma bind_Ok_inv {A B} (m : M S A) (k : A -> M S B) s b s'' :
  bind m k s = Ok (b, s'') -> exists a s', m s = Ok (a, s') /\ k a s' = Ok (b, s'').
Proof. unfold bind. destruct (m s) as [[a s']|e]; naive_solver. Qed.
End wpx_rules.

Lemma bind_ext {S A B} (m : M S A) (k k' : A -> M S B) s :
  (forall a s, k a s = k' a s) -> bind m k s = bind m k' s.
Proof. intros H. unfold bind. destruct (m s) as [[a s']|]; [apply H|done]. Qed.
Lemma bind_bind {S A B C} (m : M S A) (k : A -> M S B) (k' : B -> M S C) s :
  bind (bind m k) k' s = bind m (fun a => bind (k a) k') s.
Proof. unfold bind. by destruct (m s) as [[a s']|]. Qed.

(** One symbolic-execution step of a [wpx] goal. *)
Ltac wstep :=
  lazymatch goal with
  | |- wpx (bind _ _) _ _ _ => apply wpx_bind
  | |- wpx (ret _) _ _ _ => apply wpx_ret
  | |- wpx get _ _ _ => apply wpx_get
  | |- wpx (put _) _ _ _ => apply wpx_put
  | |- wpx (modify _) _ _ _ => apply wpx_modify
  | |- wpx (lift _) _ _ _ => apply wpx_lift
  | |- wpx (zoom _ _ _) _ _ _ => apply wpx_zoom
  end; cbv beta.
Ltac wsteps := repeat wstep.

(** Turn boolean tests of the code into arithmetic facts. *)
Ltac bool_to_Z :=
  repeat match goal with
    | H : andb _ _ = true |- _ => apply andb_true_iff in H; destruct H
    | H : orb _ _ = false |- _ => apply orb_false_iff in H; destruct H
    | H : negb _ = true |- _ => apply negb_true_iff in H
    | H : negb _ = false |- _ => apply negb_false_iff in H
    | H : (_ =? _) = true |- _ => apply Z.eqb_eq in H
    | H : (_ =? _) = false |- _ => apply Z.eqb_neq in H
    | H : (_ <? _) = true |- _ => apply Z.ltb_lt in H
    | H : (_ <? _) = false |- _ => apply Z.ltb_ge in H
    | H : (_ <=? _) = true |- _ => apply Z.leb_le in H
    | H : (_ <=? _) = false |- _ => apply Z.leb_gt in H
    end.

(** Case analysis on a comparison of the goal. *)
Ltac zcase :=
  match goal with
  | |- context [?a =? ?b] => destruct (Z.eqb_spec a b)
  | |- context [?a <? ?b] => destruct (Z.ltb_spec a b)
  | |- context [?a <=? ?b] => destruct (Z.leb_spec a b)
  end.

Lemma u8_small z : 0 <= z < 256 -> u8 z = z.
Proof. intros. by apply Z.mod_small. Qed.
Lemma u16_small z : 0 <= z < 65536 -> u16 z = z.
Proof. intros. by apply Z.mod_small. Qed.
Lemma u32_small z : 0 <= z < 4294967296 -> u32 z = z.
Proof. intros. by apply Z.mod_small. Qed.
Lemma u64_small z : 0 <= z < 18446744073709551616 -> u64 z = z.
Proof. intros. by apply Z.mod_small. Qed.
Lemma u32_range z : 0 <= u32 z < 4294967296.
Proof. by apply Z.mod_pos_bound. Qed.
Lemma u64_range z : 0 <= u64 z < 18446744073709551616.
Proof. by apply Z.mod_pos_bound. Qed.
Lemma s32_small z : -2147483648 <= z < 2147483648 -> s32 z = z.
Proof. intros. unfold s32. rewrite Z.mod_small; lia. Qed.
Lemma s64_small z :
  -9223372036854775808 <= z < 9223372036854775808 -> s64 z = z.
Proof. intros. unfold s64. rewrite Z.mod_small; lia. Qed.

(** Joining two halves with a shift and an or. *)
Lemma lor_shiftl_add hi lo k :
  0 <= k -> 0 <= lo < 2 ^ k -> Z.lor (Z.shiftl hi k) lo = hi * 2 ^ k + lo.
Proof.
  intros Hk Hlo. rewrite <- Z.shiftl_mul_pow2 by lia. rewrite <- Z.add_lor_land.
  assert (Hland : Z.land (Z.shiftl hi k) lo = 0).
  { apply Z.bits_inj'. intros i Hi. rewrite Z.land_spec, Z.bits_0.
    destruct (Z.ltb_spec i k); [by rewrite Z.shiftl_spec_low by lia|].
    replace (Z.testbit lo i) with false; [apply andb_false_r|]. symmetry.
    destruct (Z.eq_dec lo 0) as [->|Hnz]; [apply Z.bits_0|].
    apply Z.bits_above_log2; [lia|]. apply Z.log2_lt_pow2; [lia|].
    eapply Z.lt_le_trans; [apply Hlo|]. apply Z.pow_le_mono_r; lia. }
  lia.
Qed.

Lemma c_div_pos a b : 0 <= a -> 0 < b -> c_div a b = Ok (a / b).
Proof.
  intros. unfold c_div. destruct (Z.eqb_spec b 0); [lia|].
  by rewrite Z.quot_div_nonneg.
Qed.
Lemma c_mod_pos a b : 0 <= a -> 0 < b -> c_mod a b = Ok (a mod b).
Proof.
  intros. unfold c_mod. destruct (Z.eqb_spec b 0); [lia|].
  by rewrite Z.rem_mod_nonneg.
Qed.

Lemma byte_val_range b : 0 <= byte_val b < 256.
Proof.
  unfold byte_val. pose proof (Byte.to_N_bounded b). lia.
Qed.
Lemma byte_val_of z : byte_val (byte_of z) = u8 z.
Proof.
  unfold byte_val, byte_of, u8.
  pose proof (Z.mod_pos_bound z (2 ^ 8) eq_refl).
  destruct (Byte.of_N (Z.to_N (z mod 2 ^ 8))) as [b|] eqn:E.
  - apply Byte.to_of_N in E. rewrite E. lia.
  - apply Byte.of_N_None_iff in E. lia.
Qed.
Lemma byte_of_val b : byte_of (byte_val b) = b.
Proof.
  unfold byte_of. rewrite u8_small by apply byte_val_range.
  unfold byte_val. by rewrite N2Z.id, Byte.of_to_N.
Qed.

Section seq_lemmas.
Context {A : Type}.
Implicit Types l new : list A.

Lemma zlen_nonneg l : 0 <= zlen l.
Proof. unfold zlen. lia. Qed.
Lemma zlen_nil : zlen (@nil A) = 0.
Proof. done. Qed.
Lemma zlen_cons (x : A) l : zlen (x :: l) = 1 + zlen l.
Proof. unfold zlen. cbn [length]. lia. Qed.
Lemma zlen_app l1 l2 : zlen (l1 ++ l2) = zlen l1 + zlen l2.
Proof. unfold zlen. rewrite length_app. lia. Qed.
Lemma zlen_take n l : 0 <= n -> zlen (take (Z.to_nat n) l) = Z.min n (zlen l).
Proof. intros. unfold zlen. rewrite length_take. lia. Qed.
Lemma zlen_drop n l : 0 <= n -> zlen (drop (Z.to_nat n) l) = Z.max 0 (zlen l - n).
Proof. intros. unfold zlen. rewrite length_drop. lia. Qed.

Lemma zlen_slice off n l :
  0 <= off -> 0 <= n -> off + n <= zlen l -> zlen (slice off n l) = n.
Proof.
  intros. unfold slice. rewrite zlen_take, zlen_drop by lia. lia.
Qed.
Lemma zlen_slice_le off n l : 0 <= n -> zlen (slice off n l) <= n.
Proof. intros. unfold slice. rewrite zlen_take by lia. lia. Qed.

Lemma slice_lookup off n l (i : nat) :
  Z.of_nat i < n -> slice off n l !! i = l !! (Z.to_nat off + i)%nat.
Proof. intros. unfold slice. rewrite lookup_take_lt by lia. apply lookup_drop. Qed.

Lemma slice_slice o1 n1 o2 n2 l :
  0 <= o1 -> 0 <= o2 -> 0 <= n2 -> o2 + n2 <= n1 ->
  slice o2 n2 (slice o1 n1 l) = slice (o1 + o2) n2 l.
Proof.
  intros. unfold slice. rewrite skipn_firstn_comm, drop_drop, take_take.
  f_equal; [lia|]. f_equal. lia.
Qed.

Lemma slice_app off n1 n2 l :
  0 <= off -> 0 <= n1 -> 0 <= n2 ->
  slice off n1 l ++ slice (off + n1) n2 l = slice off (n1 + n2) l.
Proof.
  intros. unfold slice.
  replace (Z.to_nat (n1 + n2)) with (Z.to_nat n1 + Z.to_nat n2)%nat by lia.
  rewrite <- (take_take_drop _ (Z.to_nat n1) (Z.to_nat n2)). f_equal. f_equal.
  rewrite drop_drop. f_equal. lia.
Qed.

Lemma take_slice n l : take (Z.to_nat n) l = slice 0 n l.
Proof. done. Qed.

Lemma slice_0 off l : slice off 0 l = [].
Proof. done. Qed.

Lemma slice_all l : slice 0 (zlen l) l = l.
Proof. unfold slice, zlen. rewrite drop_0, take_ge; [done|lia]. Qed.

Lemma in_range_true off n l :
  0 <= off -> 0 <= n -> off + n <= zlen l -> in_range off n l = true.
Proof. intros. unfold in_range. rewrite !andb_true_iff, !Z.leb_le. lia. Qed.
Lemma in_range_false off n l :
  (off < 0 \/ n < 0 \/ zlen l < off + n) -> in_range off n l = false.
Proof. intros. unfold in_range. repeat zcase; simpl; lia || done. Qed.
Lemma in_range_inv off n l :
  in_range off n l = true -> 0 <= off /\ 0 <= n /\ off + n <= zlen l.
Proof. unfold in_range. intros. bool_to_Z. lia. Qed.

Lemma zlen_splice off new l :
  0 <= off -> off + zlen new <= zlen l -> zlen (splice off new l) = zlen l.
Proof.
  intros. unfold splice. rewrite !zlen_app, zlen_take by lia.
  assert (zlen (drop (Z.to_nat off + length new) l) = zlen l - off - zlen new).
  { unfold zlen in *. rewrite length_drop. lia. }
  pose proof (zlen_nonneg new). lia.
Qed.

Lemma splice_0_all new l : zlen new = zlen l -> splice 0 new l = new.
Proof.
  unfold zlen. intros. unfold splice. simpl.
  rewrite drop_ge by lia. by rewrite app_nil_r.
Qed.

(** Writing two adjacent pieces is writing their concatenation. *)
Lemma splice_splice off new1 new2 l :
  0 <= off -> off + zlen new1 + zlen new2 <= zlen l ->
  splice (off + zlen new1) new2 (splice off new1 l) = splice off (new1 ++ new2) l.
Proof.
  intros. unfold splice, zlen in *.
  assert (Hl : length (take (Z.to_nat off) l) = Z.to_nat off)
    by (rewrite length_take; lia).
  rewrite (app_assoc (take (Z.to_nat off) l) new1).
  set (p := take (Z.to_nat off) l ++ new1).
  assert (Hp : length p = (Z.to_nat off + length new1)%nat)
    by (unfold p; rewrite length_app; lia).
  rewrite take_app_le by lia. rewrite take_ge by lia.
  rewrite drop_app_ge by lia. rewrite drop_drop.
  rewrite Hp, length_app. unfold p. rewrite <- !app_assoc. do 4 f_equal. lia.
Qed.
End seq_lemmas.

Lemma zlen_zeros n : 0 <= n -> zlen (zeros n) = n.
Proof. intros. unfold zlen, zeros. rewrite length_replicate. lia. Qed.

Lemma le_decode_range l : 0 <= le_decode l < 256 ^ zlen l.
Proof.
  induction l as [|b l IH]; [done|].
  rewrite zlen_cons, Z.pow_add_r by (pose proof (zlen_nonneg l); lia).
  cbn [le_decode]. pose proof (byte_val_range b). lia.
Qed.

Lemma le_decode_encode n z : le_decode (le_encode n z) = z mod 256 ^ Z.of_nat n.
Proof.
  revert z. induction n as [|n IH]; intros z.
  - simpl. by rewrite Z.mod_1_r.
  - cbn [le_encode le_decode]. rewrite IH, byte_val_of. unfold u8.
    rewrite Nat2Z.inj_succ, Z.pow_succ_r by lia.
    rewrite Z.rem_mul_r by lia. reflexivity.
Qed.

Lemma le_encode_decode l : le_encode (length l) (le_decode l) = l.
Proof.
  induction l as [|b l IH]; [done|].
  cbn [length le_encode le_decode]. pose proof (byte_val_range b).
  f_equal.
  - rewrite <- (byte_of_val b) at 2. unfold byte_of, u8.
    by rewrite (Z.mul_comm 256), (Z.mod_add _ _ (2 ^ 8)) by lia.
  - etransitivity; [|exact IH]. f_equal.
    rewrite (Z.mul_comm 256), Z_div_plus_full by lia.
    by rewrite Z.div_small by lia.
Qed.

Lemma length_le_encode n z : length (le_encode n z) = n.
Proof. revert z. induction n; intros; simpl; auto. Qed.

Lemma le_at_range off n l :
  0 <= n -> 0 <= le_at off n l < 256 ^ n.
Proof.
  intros Hn. unfold le_at. pose proof (le_decode_range (slice off n l)) as H.
  pose proof (zlen_slice_le off n l Hn). split; [lia|].
  eapply Z.lt_le_trans; [apply H|]. apply Z.pow_le_mono_r; lia.
Qed.

Lemma load_ok off n l :
  0 <= off -> 0 <= n -> off + n <= zlen l -> load off n l = Ok (le_at off n l).
Proof. intros. unfold load. by rewrite in_range_true. Qed.
Lemma load_inv off n l v :
  load off n l = Ok v ->
  0 <= off /\ 0 <= n /\ off + n <= zlen l /\ v = le_at off n l.
Proof.
  unfold load. destruct (in_range off n l) eqn:E; [|done].
  apply in_range_inv in E. naive_solver.
Qed.

Lemma le_at_slice o1 n1 o n (l : bytes) :
  0 <= o1 -> 0 <= o -> 0 <= n -> o + n <= n1 ->
  le_at o n (slice o1 n1 l) = le_at (o1 + o) n l.
Proof. intros. unfold le_at. by rewrite slice_slice. Qed.

#[export] Hint Resolve zlen_nonneg byte_val_range u32_range : cbytes.
#[export] Hint Rewrite @zlen_app @zlen_cons @zlen_nil : cbytes_len.
