(* ===== verification/Clib.v ===== *)
(** * The C library calls the sources make on files and strings

    A [FILE] is its content, the stream position, the error flag and an
    optional bad sector: reads that reach offset [f_bad] fail the way read(2)
    fails with EIO.  [pread] ignores the stream position, [fread], [getc],
    [fseeko], [ftell] and [rewind] use it.  Strings are the bytes before the
    terminating NUL; a pointer into a string is a suffix of it. *)
From Stdlib Require Import ZArith Lia Strings.Byte.
From stdpp Require Import base numbers list option.
From S2P Require Import Prelude.

Record FILE : Type := mkFILE {
  f_content : bytes;
  f_pos : Z;
  f_err : bool;
  f_bad : option Z }.

Definition fopen_content (content : bytes) (bad : option Z) : FILE :=
  mkFILE content 0 false bad.

(** Where a read has to stop: the end of the file or the bad sector. *)
Definition io_end (f : FILE) : Z :=
  match f_bad f with
  | Some b => Z.max 0 (Z.min b (zlen (f_content f)))
  | None => zlen (f_content f)
  end.
(** Does a read of [n] bytes at [off] run into the bad sector? *)
Definition io_fault (f : FILE) (off n : Z) : bool :=
  match f_bad f with
  | Some b => Z.max off b <? Z.min (off + n) (zlen (f_content f))
  | None => false
  end.
Definition io_data (f : FILE) (off n : Z) : bytes :=
  slice off (Z.min n (io_end f - off)) (f_content f).

(** [pread(fileno(f), buf, n, off)]: the count, and the bytes put in [buf]. *)
Definition pread (f : FILE) (n off : Z) : Z * bytes :=
  if off <? 0 then (-1, [])
  else let d := io_data f off n in
       if io_fault f off n && (zlen d =? 0) then (-1, []) else (zlen d, d).

Definition fread (n : Z) : M FILE bytes := fun f =>
  let d := io_data f (f_pos f) n in
  Ok (d, mkFILE (f_content f) (f_pos f + zlen d)
           (f_err f || io_fault f (f_pos f) n) (f_bad f)).
Definition ferror : M FILE bool := fun f => Ok (f_err f, f).
(** [getc]: the next byte, or -1. *)
Definition getc : M FILE Z :=
  let* d := fread 1 in
  ret (match d with b :: _ => byte_val b | [] => -1 end).
Definition fseek_to (f : FILE) (pos : Z) : FILE :=
  mkFILE (f_content f) pos (f_err f) (f_bad f).
(** [fseeko(f, off, SEEK_SET)]: 0, or -1 for a negative offset. *)
Definition fseeko_set (off : Z) : M FILE Z := fun f =>
  if off <? 0 then Ok (-1, f) else Ok (0, fseek_to f off).
(** [fseek(f, 0, SEEK_END)] followed by [ftell(f)]. *)
Definition fseek_end_ftell : M FILE Z := fun f =>
  Ok (zlen (f_content f), fseek_to f (zlen (f_content f))).
Definition rewind : M FILE unit := fun f =>
  Ok (tt, mkFILE (f_content f) 0 false (f_bad f)).

(** ** Strings *)

(** [p[i]] for a pointer to the NUL-terminated string [p]. *)
Definition char_at (p : bytes) (i : Z) : res Byte.byte :=
  if (0 <=? i) && (i <? zlen p) then
    match p !! Z.to_nat i with Some c => Ok c | None => Err UB end
  else if i =? zlen p then Ok Byte.x00 else Err UB.

Fixpoint strchr (p : bytes) (c : Byte.byte) : option bytes :=
  match p with
  | [] => None
  | b :: p' => if decide (b = c) then Some p else strchr p' c
  end.

(** The string that starts at the beginning of an array: its bytes up to the
    first NUL, [None] when the array holds none. *)
Fixpoint cstr (l : bytes) : option bytes :=
  match l with
  | [] => None
  | b :: l' => if decide (b = Byte.x00) then Some [] else cons b <$> cstr l'
  end.

(** [strncpy(dst, src, n)]: exactly [n] bytes are written, padded with NULs.
    [src] is an array that holds a NUL among its first [n] bytes or has at
    least [n] bytes. *)
Fixpoint strncpy_bytes (src : bytes) (n : nat) {struct n} : res bytes :=
  match n with
  | O => Ok []
  | S n' =>
      match src with
      | [] => Err UB
      | b :: src' =>
          if decide (b = Byte.x00) then Ok (replicate n Byte.x00)
          else let? r := strncpy_bytes src' n' in Ok (b :: r)
      end
  end.

(** ** Facts *)

Lemma pread_ok (f : FILE) n off :
  f_bad f = None -> 0 <= off -> 0 <= n -> off + n <= zlen (f_content f) ->
  pread f n off = (n, slice off n (f_content f)).
Proof.
  intros Hb Ho Hn Hl. unfold pread, io_data, io_fault, io_end. rewrite Hb.
  destruct (Z.ltb_spec off 0); [lia|]. cbn [andb].
  rewrite Z.min_l by lia. by rewrite zlen_slice by lia.
Qed.

Lemma pread_short (f : FILE) n off :
  zlen (snd (pread f n off)) <= Z.max 0 n.
Proof.
  unfold pread. destruct (off <? 0); [cbn; rewrite zlen_nil; lia|].
  destruct (io_fault f off n && _); [cbn; rewrite zlen_nil; lia|].
  cbn. unfold io_data, slice. pose proof (zlen_nonneg (f_content f)).
  unfold zlen. rewrite length_take. lia.
Qed.

Lemma char_at_lookup p i c :
  p !! i = Some c -> char_at p (Z.of_nat i) = Ok c.
Proof.
  intros H. pose proof (lookup_lt_Some _ _ _ H) as Hl. unfold char_at, zlen.
  destruct (Z.leb_spec 0 (Z.of_nat i)); [|lia].
  destruct (Z.ltb_spec (Z.of_nat i) (Z.of_nat (length p))); [|lia].
  cbn [andb]. rewrite Nat2Z.id. by rewrite H.
Qed.

Lemma char_at_end p : char_at p (zlen p) = Ok Byte.x00.
Proof.
  unfold char_at. pose proof (zlen_nonneg p).
  destruct (Z.ltb_spec (zlen p) (zlen p)); [lia|].
  rewrite andb_false_r. by rewrite Z.eqb_refl.
Qed.
