(* ===== verification/Logging.v ===== *)
(** * fs/ext4/logging.c: the log

    The two static variables, the filter of [__LOG] and what it writes.  A
    message is one step here, its pieces and the lock around them are in LogConc;
    the text of a message is given as it is after formatting. *)
From Stdlib Require Import ZArith Lia Strings.Byte Strings.String.
From stdpp Require Import base numbers list option strings pretty.
From S2P Require Import Prelude Clib.

(** A string of the source, as bytes. *)
Definition str (s : string) : bytes := String.list_byte_of_string s.

Definition LOG_EMERG : Z := 0.
Definition LOG_ALERT : Z := 1.
Definition LOG_CRIT : Z := 2.
Definition LOG_ERR : Z := 3.
Definition LOG_WARNING : Z := 4.
Definition LOG_NOTICE : Z := 5.
Definition LOG_INFO : Z := 6.
Definition LOG_DEBUG : Z := 7.

Definition DEFAULT_LOG_FILE : option bytes := None.
Definition DEFAULT_LOG_LEVEL (ndebug : bool) : Z := if ndebug then LOG_ERR else LOG_DEBUG.

(** The array is indexed by level. *)
Definition loglevel_str : list bytes :=
  [str "[emerg]"; str "[alert]"; str "[crit] "; str "[err]  "; str "[warn] "; str "[notic]";
   str "[info] "; str "[debug]"].

(** [logfile] is the content of the open log. *)
Record logging : Type := mkLogging { loglevel : Z; logfile : option bytes }.
Definition logging_statics (ndebug : bool) : logging := mkLogging (DEFAULT_LOG_LEVEL ndebug) None.

(** [%s[%s:%d] ], the message and the end of the line. *)
Definition log_line (lvl func : bytes) (line : Z) (msg : bytes) : bytes :=
  lvl ++ str "[" ++ func ++ str ":" ++ str (pretty line) ++ str "] " ++ msg ++ [Byte.x0a].

Definition __LOG (level : Z) (func : bytes) (line : Z) (msg : bytes) : M logging unit :=
  let* s := get in
  match logfile s with
  | None => ret tt
  | Some out =>
      if level <? 0 then ret tt else
      if loglevel s <? level then ret tt else
      match loglevel_str !! Z.to_nat level with
      | None => fail UB
      | Some lvl => put (mkLogging (loglevel s) (Some (out ++ log_line lvl func line msg)))
      end
  end.

Definition logging_setlevel (new_level : Z) : M logging unit :=
  modify (fun s => mkLogging new_level (logfile s)).

(** [opened]: whether [fopen(path, "w")] succeeds; it empties the file. *)
Definition logging_open (path : option bytes) (opened : bool) : M logging Z :=
  match path with
  | None => ret 0
  | Some _ =>
      if opened
      then do* modify (fun s => mkLogging (loglevel s) (Some [])) in ret 0
      else do* modify (fun s => mkLogging (loglevel s) None) in ret (-1)
  end.

(** ** What is written *)

(** A call of one of the macros: level, function, line and text. *)
Record message : Type := mkMessage { m_level : Z; m_func : bytes; m_line : Z; m_text : bytes }.
Fixpoint log_all (ms : list message) : M logging unit :=
  match ms with
  | [] => ret tt
  | m :: ms => do* __LOG (m_level m) (m_func m) (m_line m) (m_text m) in log_all ms
  end.

(** The lines of the messages that pass the filter. *)
Fixpoint log_text (level : Z) (ms : list message) : bytes :=
  match ms with
  | [] => []
  | m :: ms =>
      (if (0 <=? m_level m) && (m_level m <=? level)
       then log_line (nth (Z.to_nat (m_level m)) loglevel_str []) (m_func m) (m_line m) (m_text m)
       else []) ++ log_text level ms
  end.

(** The log holds exactly one line for every message whose level is from 0
    to the log level, in order, as long as the log level is one of the eight;
    without an open log nothing happens. *)
Theorem log_all_ok ms level out :
  level < 8 ->
  log_all ms (mkLogging level out)
  = Ok (tt, mkLogging level ((fun o => o ++ log_text level ms) <$> out)).
Proof.
  intros Hl. revert out. induction ms as [|m ms IH]; intros out; cbn [log_all log_text].
  - destruct out; cbn; by rewrite ?app_nil_r.
  - set (line := if _ : bool then _ else _).
    assert (Hstep : __LOG (m_level m) (m_func m) (m_line m) (m_text m) (mkLogging level out)
      = Ok (tt, mkLogging level ((fun o => o ++ line) <$> out))).
    { unfold __LOG, bind, get. cbn [logfile loglevel]. destruct out as [o|]; [|done].
      cbn [fmap option_fmap option_map]. unfold line.
      destruct (Z.ltb_spec (m_level m) 0).
      { rewrite (proj2 (Z.leb_gt 0 _)) by lia. cbn [andb]. by rewrite app_nil_r. }
      rewrite (proj2 (Z.leb_le 0 _)) by lia. destruct (Z.ltb_spec level (m_level m)).
      { rewrite (proj2 (Z.leb_gt (m_level m) level)) by lia. cbn [andb]. by rewrite app_nil_r. }
      rewrite (proj2 (Z.leb_le (m_level m) level)) by lia. cbn [andb].
      destruct (nth_lookup_or_length loglevel_str (Z.to_nat (m_level m)) []) as [Hn|Hn].
      - by rewrite Hn.
      - cbn [length loglevel_str] in Hn. lia. }
    rewrite (bind_Ok _ _ _ _ _ Hstep), IH. destruct out; cbn; by rewrite ?app_assoc.
Qed.

Lemma log_all_witness :
  log_all [mkMessage LOG_WARNING (str "f") 12 (str "x"); mkMessage LOG_DEBUG (str "g") 3 (str "y")]
    (mkLogging LOG_ERR (Some [])) = Ok (tt, mkLogging LOG_ERR (Some [])) /\
  log_all [mkMessage LOG_ERR (str "f") 12 (str "x")] (mkLogging LOG_DEBUG (Some []))
  = Ok (tt, mkLogging LOG_DEBUG (Some (str "[err]  [f:12] x" ++ [Byte.x0a]))).
Proof.
  split; [exact (log_all_ok _ LOG_ERR (Some []) eq_refl)|].
  exact (log_all_ok [mkMessage LOG_ERR (str "f") 12 (str "x")] LOG_DEBUG (Some []) eq_refl).
Defined.
