(* ===== verification/LogConc.v ===== *)
(** * fs/ext4/logging.c: messages of several threads

    A message is written in three pieces, under a lock.  Here every test, every
    piece and both uses of the lock are steps of their own, and any number of
    threads log at once: the lines stay whole. *)
From Stdlib Require Import ZArith Lia Strings.Byte Strings.String.
From stdpp Require Import base numbers list option relations strings pretty.
From S2P Require Import Prelude Clib Logging.

(** ** The steps of [__LOG] *)

(** Where a thread is with the message it logs. *)
Inductive log_pc : Type := L_call | L_lock | L_head | L_text | L_newline | L_unlock | L_fault.
(** A thread: that, and the messages it has yet to log, the current one first. *)
Abbreviation log_thread := (log_pc * list message)%type.
(** The statics of the file, and [lock] with the thread that holds it. *)
Definition log_state : Type := logging * option nat.

(** [fprintf] on the log file. *)
Definition log_write (text : bytes) (s : logging) : logging :=
  mkLogging (loglevel s) ((fun out => out ++ text) <$> logfile s).

(** The first piece, with the name of the level. *)
Definition log_head (lvl : bytes) (m : message) : bytes :=
  lvl ++ str "[" ++ m_func m ++ str ":" ++ str (pretty (m_line m)) ++ str "] ".

(** A step of thread [i]; a thread that waits for the lock does not move. *)
Definition log_thread_step (i : nat) (x : log_thread) (s : log_state) : log_thread * log_state :=
  match snd x with
  | [] => (x, s)
  | m :: ms =>
      match fst x with
      | L_call =>
          match logfile (fst s) with
          | None => ((L_call, ms), s)
          | Some _ =>
              if m_level m <? 0 then ((L_call, ms), s) else
              if loglevel (fst s) <? m_level m then ((L_call, ms), s) else ((L_lock, m :: ms), s)
          end
      | L_lock => match snd s with None => ((L_head, m :: ms), (fst s, Some i)) | Some _ => (x, s) end
      | L_head =>
          match loglevel_str !! Z.to_nat (m_level m) with
          | Some lvl => ((L_text, m :: ms), (log_write (log_head lvl m) (fst s), snd s))
          | None => ((L_fault, m :: ms), s)
          end
      | L_text => ((L_newline, m :: ms), (log_write (m_text m) (fst s), snd s))
      | L_newline => ((L_unlock, m :: ms), (log_write [Byte.x0a] (fst s), snd s))
      | L_unlock => ((L_call, ms), (fst s, None))
      | L_fault => (x, s)
      end
  end.

Definition log_pool : Type := log_state * list log_thread.
Definition run_log (i : nat) (c : log_pool) : log_pool :=
  match snd c !! i with
  | Some x => let r := log_thread_step i x (fst c) in (snd r, <[i := fst r]> (snd c))
  | None => c
  end.
Definition log_pool_step (c c' : log_pool) : Prop := exists i, c' = run_log i c.

(** Threads that have the messages [mss] to log, with the log open on [out]. *)
Definition log_start (level : Z) (out : bytes) (mss : list (list message)) : log_pool :=
  ((mkLogging level (Some out), None), pair L_call <$> mss).

Lemma run_logs_steps sched c : rtc log_pool_step c (fold_left (fun c i => run_log i c) sched c).
Proof.
  revert c. induction sched as [|i sched IH]; intros c; [done|]. cbn [fold_left].
  eapply rtc_l; [by exists i|apply IH].
Qed.

(** A thread that is not interrupted does what [__LOG] does as a function. *)
Definition log_alone (x y : log_thread * log_state) : Prop := exists i, y = log_thread_step i (fst x) (snd x).
Lemma log_alone_step x s z : rtc log_alone (log_thread_step 0 x s) z -> rtc log_alone (x, s) z.
Proof. intros Hz. eapply rtc_l; [by exists 0%nat|exact Hz]. Qed.

Theorem log_thread_sequential m ms s s' :
  __LOG (m_level m) (m_func m) (m_line m) (m_text m) s = Ok (tt, s') ->
  rtc log_alone ((L_call, m :: ms), (s, None)) ((L_call, ms), (s', None)).
Proof.
  intros Hrun. apply log_alone_step. unfold log_thread_step. cbn [fst snd]. unfold __LOG in Hrun.
  rewrite (bind_Ok get _ s s s) in Hrun by done. destruct s as [lv [out|]]; cbn [logfile loglevel] in *.
  2:{ injection Hrun as <-. done. }
  destruct (m_level m <? 0); [by injection Hrun as <-|]. destruct (lv <? m_level m); [by injection Hrun as <-|].
  destruct (loglevel_str !! Z.to_nat (m_level m)) as [lvl|] eqn:Hl; [|done]. injection Hrun as <-.
  do 2 (apply log_alone_step; cbn [log_thread_step fst snd]). rewrite Hl.
  do 3 (apply log_alone_step; cbn [log_thread_step fst snd]).
  unfold log_write, log_line, log_head. cbn [loglevel logfile fmap option_fmap option_map].
  by rewrite <- !app_assoc.
Qed.

(** ** What the log is made of *)

Definition passes (level : Z) (m : message) : bool := (0 <=? m_level m) && (m_level m <=? level).
Definition level_name (m : message) : bytes := nth (Z.to_nat (m_level m)) loglevel_str [].
Definition line_of (m : message) : bytes := log_line (level_name m) (m_func m) (m_line m) (m_text m).

Lemma line_pieces m : line_of m = (log_head (level_name m) m ++ m_text m) ++ [Byte.x0a].
Proof. unfold line_of, log_line, log_head. by rewrite <- !app_assoc. Qed.

Section whole.
Context (level : Z) (Hlevel : level < 8) (out : bytes) (mss : list (list message)).

Lemma level_name_ok m : passes level m = true -> loglevel_str !! Z.to_nat (m_level m) = Some (level_name m).
Proof.
  intros [H0%Z.leb_le Hl%Z.leb_le]%andb_true_iff. unfold level_name.
  destruct (nth_lookup_or_length loglevel_str (Z.to_nat (m_level m)) []) as [Hn|Hn]; [done|].
  cbn [length loglevel_str] in Hn. lia.
Qed.

(** The lines written by thread [i]. *)
Definition lines_by (i : nat) (order : list (nat * message)) : list message :=
  omap (fun im => if decide (fst im = i) then Some (snd im) else None) order.
(** The messages of a thread whose line is not complete. *)
Definition pending (x : log_thread) : list message :=
  match fst x with L_unlock => tail (snd x) | _ => snd x end.
Definition inside_log (pc : log_pc) : bool :=
  match pc with L_head | L_text | L_newline | L_unlock => true | _ => false end.
(** The beginning of a line that is in the log. *)
Definition partial (x : log_thread) : bytes :=
  match snd x, fst x with
  | m :: _, L_text => log_head (level_name m) m
  | m :: _, L_newline => log_head (level_name m) m ++ m_text m
  | _, _ => []
  end.
(** The message of a thread that has passed the tests. *)
Definition busy (x : log_thread) : Prop :=
  match fst x with
  | L_call => True
  | L_fault => False
  | _ => exists m ms, snd x = m :: ms /\ passes level m = true
  end.

Record thread_log (i : nat) (x : log_thread) (order : list (nat * message)) : Prop := {
  tl_busy : busy x;
  tl_lines : exists ms, mss !! i = Some ms /\
    filter (fun m => passes level m = true) ms
    = lines_by i order ++ filter (fun m => passes level m = true) (pending x) }.

Record log_inv (c : log_pool) (order : list (nat * message)) : Prop := {
  li_level : loglevel (fst (fst c)) = level;
  li_file : logfile (fst (fst c)) = Some (out ++ concat ((fun im => line_of (snd im)) <$> order) ++
    match snd (fst c) ≫= (fun i => snd c !! i) with Some x => partial x | None => [] end);
  li_lock : forall i x, snd c !! i = Some x -> inside_log (fst x) = true <-> snd (fst c) = Some i;
  li_owner : forall i, snd (fst c) = Some i -> is_Some (snd c !! i);
  li_thread : forall i x, snd c !! i = Some x -> thread_log i x order;
  li_order : Forall (fun im => is_Some (mss !! fst im)) order }.

Lemma lines_by_app i order im :
  lines_by i (order ++ [im]) = lines_by i order ++ (if decide (fst im = i) then [snd im] else []).
Proof. unfold lines_by. rewrite omap_app. cbn. by destruct (decide _). Qed.

(** What a step has to keep. *)
Lemma log_inv_insert s l s' l' ts order order' i x y :
  log_inv ((s, l), ts) order -> ts !! i = Some x ->
  loglevel s' = level ->
  logfile s' = Some (out ++ concat ((fun im => line_of (snd im)) <$> order') ++
    match l' ≫= (fun i' => <[i := y]> ts !! i') with Some x => partial x | None => [] end) ->
  inside_log (fst y) = true <-> l' = Some i ->
  l' = l \/ (l = None /\ l' = Some i) \/ (l = Some i /\ l' = None) ->
  order' = order \/ (exists m, order' = order ++ [(i, m)]) ->
  thread_log i y order' -> log_inv ((s', l'), <[i := y]> ts) order'.
Proof.
  intros [_ _ Hlock Hown Hth Hord] Hi Hlev Hfile Hy Hl Horder Hty. cbn [fst snd] in *.
  pose proof (lookup_lt_Some _ _ _ Hi) as Hlt.
  assert (Hother : forall i' z, <[i := y]> ts !! i' = Some z ->
    (i' = i /\ z = y) \/ (i' <> i /\ ts !! i' = Some z)).
  { intros i' z. destruct (decide (i' = i)) as [->|Hne].
    - rewrite list_lookup_insert_eq by done. intros [= <-]. by left.
    - rewrite list_lookup_insert_ne by done. by right. }
  split; cbn [fst snd]; [done|done|..].
  - intros i' z [[-> ->]|[Hne Hz]]%Hother; [done|]. rewrite (Hlock _ _ Hz).
    destruct Hl as [->|[[-> ->]|[-> ->]]]; [done|split; congruence..].
  - intros i' Hi'. apply lookup_lt_is_Some. rewrite length_insert.
    destruct Hl as [->|[[_ ->]|[_ ->]]]; [by apply lookup_lt_is_Some, Hown|by injection Hi' as <-|done].
  - intros i' z [[-> ->]|[Hne Hz]]%Hother; [done|]. destruct (Hth _ _ Hz) as [Hb (ms & Hms & Hls)].
    split; [done|]. exists ms. split; [done|]. rewrite Hls. f_equal.
    destruct Horder as [->|[m ->]]; [done|]. rewrite lines_by_app, decide_False, app_nil_r by done. done.
  - destruct Horder as [->|[m ->]]; [done|]. apply Forall_app. split; [done|]. apply Forall_singleton.
    destruct Hty as [_ (ms & Hms & _)]. by exists ms.
Qed.

(** The file while thread [i] is not inside, and while it is. *)
Lemma owner_other s l ts order i x y :
  log_inv ((s, l), ts) order -> ts !! i = Some x -> inside_log (fst x) = false ->
  (l ≫= (fun i' => <[i := y]> ts !! i')) = (l ≫= (fun i' => ts !! i')).
Proof.
  intros Hinv Hi Hx. destruct l as [o|]; [|done]. cbn. destruct (decide (o = i)) as [->|Hne].
  - pose proof (proj2 (li_lock _ _ Hinv i x Hi) eq_refl). congruence.
  - by rewrite list_lookup_insert_ne.
Qed.
Lemma owner_self i y (ts : list log_thread) x :
  ts !! i = Some x -> (Some i ≫= (fun i' => <[i := y]> ts !! i')) = Some y.
Proof. intros Hi. cbn. by rewrite list_lookup_insert_eq by by eapply lookup_lt_Some. Qed.

Lemma lines_skip i m ms order (pc pc' : log_pc) :
  pc <> L_unlock -> pc' <> L_unlock -> passes level m = false -> busy (pc', ms) ->
  thread_log i (pc, m :: ms) order -> thread_log i (pc', ms) order.
Proof.
  intros Hpc Hpc' Hm Hb [_ (ms0 & H0 & Hl)]. split; [done|]. exists ms0. split; [done|]. rewrite Hl. f_equal.
  destruct pc, pc'; try done; unfold pending; cbn [fst snd]; (rewrite filter_cons_False; [done|by rewrite Hm]).
Qed.
Lemma lines_keep i ms order (pc pc' : log_pc) :
  pc <> L_unlock -> pc' <> L_unlock -> busy (pc', ms) ->
  thread_log i (pc, ms) order -> thread_log i (pc', ms) order.
Proof.
  intros Hpc Hpc' Hb [_ (ms0 & H0 & Hl)]. split; [done|]. exists ms0. split; [done|]. rewrite Hl. f_equal.
  by destruct pc, pc'.
Qed.

(** Steps outside the lock. *)
Lemma log_step_outside i x s l ts order :
  log_inv ((s, l), ts) order -> ts !! i = Some x -> inside_log (fst x) = false ->
  log_inv (run_log i ((s, l), ts)) order.
Proof.
  intros Hinv Hi Hx. unfold run_log. cbn [fst snd]. rewrite Hi.
  pose proof (li_level _ _ Hinv) as Hlev. pose proof (li_file _ _ Hinv) as Hfile. cbn [fst snd] in Hlev, Hfile.
  pose proof (li_thread _ _ Hinv i x Hi) as Ht. pose proof (li_lock _ _ Hinv i x Hi) as Hlock. cbn [fst snd] in Hlock.
  assert (Hstay : log_inv ((s, l), <[i := x]> ts) order) by by rewrite list_insert_id.
  assert (Hgo : forall y, inside_log (fst y) = false -> thread_log i y order ->
    log_inv ((s, l), <[i := y]> ts) order).
  { intros y Hy Hty. eapply log_inv_insert; [exact Hinv|exact Hi|done| |by rewrite <- Hlock, Hx, Hy|by left|by left|done].
    by rewrite (owner_other s l ts order i x y Hinv Hi Hx). }
  destruct x as [pc [|m ms]]; [exact Hstay|]. unfold log_thread_step. cbn [fst snd] in *.
  destruct pc; try done.
  - rewrite Hfile. unfold log_thread_step. destruct (Z.ltb_spec (m_level m) 0) as [H0|H0].
    { apply Hgo; [done|]. apply (lines_skip i m ms order L_call); [done..| |done|done]. unfold passes.
      by rewrite (proj2 (Z.leb_gt 0 _)) by lia. }
    rewrite Hlev. destruct (Z.ltb_spec level (m_level m)) as [H1|H1].
    { apply Hgo; [done|]. apply (lines_skip i m ms order L_call); [done..| |done|done]. unfold passes.
      by rewrite (proj2 (Z.leb_gt (m_level m) level)), andb_false_r by lia. }
    apply Hgo; [done|]. apply (lines_keep i (m :: ms) order L_call); [done..| |done]. exists m, ms. split; [done|].
    unfold passes. by rewrite (proj2 (Z.leb_le 0 _)), (proj2 (Z.leb_le (m_level m) level)) by lia.
  - destruct l as [o|]; [exact Hstay|].
    eapply log_inv_insert; [exact Hinv|exact Hi|done| |done|by right; left|by left|].
    + cbn [fst]. by rewrite (owner_self i _ ts _ Hi), Hfile.
    + apply (lines_keep i (m :: ms) order L_lock); [done..|apply Ht|done].
Qed.

(** Steps inside: a piece more of the line, and its end. *)
Lemma log_step_inside i x s ts order :
  log_inv ((s, Some i), ts) order -> ts !! i = Some x ->
  exists order', log_inv (run_log i ((s, Some i), ts)) order'.
Proof.
  intros Hinv Hi. unfold run_log. cbn [fst snd]. rewrite Hi.
  pose proof (li_level _ _ Hinv) as Hlev. pose proof (li_file _ _ Hinv) as Hfile. cbn [fst snd mbind option_bind] in Hlev, Hfile.
  rewrite Hi in Hfile. pose proof (li_thread _ _ Hinv i x Hi) as Ht. pose proof (tl_busy _ _ _ Ht) as Hb.
  pose proof (proj2 (li_lock _ _ Hinv i x Hi) eq_refl) as Hx.
  destruct x as [pc ms]. destruct pc; try done; destruct Hb as (m & ms' & Hms & Hm); cbn [snd] in Hms; subst ms;
    unfold log_thread_step; cbn [fst snd].
  - rewrite (level_name_ok m Hm). exists order.
    eapply log_inv_insert; [exact Hinv|exact Hi|done| |done|by left|by left|].
    + rewrite (owner_self i _ ts _ Hi). unfold log_write. cbn [logfile fst]. rewrite Hfile. cbn. by rewrite app_nil_r, <- app_assoc.
    + apply (lines_keep i _ order L_head); [done..|by exists m, ms'|done].
  - exists order. eapply log_inv_insert; [exact Hinv|exact Hi|done| |done|by left|by left|].
    + rewrite (owner_self i _ ts _ Hi). unfold log_write. cbn [logfile fst]. rewrite Hfile. cbn. by rewrite <- !app_assoc.
    + apply (lines_keep i _ order L_text); [done..|by exists m, ms'|done].
  - exists (order ++ [(i, m)]). eapply log_inv_insert; [exact Hinv|exact Hi|done| |done|by left|right; by exists m|].
    + rewrite (owner_self i _ ts _ Hi). unfold log_write. cbn [logfile fst]. rewrite Hfile.
      rewrite fmap_app, concat_app.
      change (concat (_ <$> [(i, m)])) with (line_of m ++ []). rewrite line_pieces.
      change (partial (L_newline, m :: ms')) with (log_head (level_name m) m ++ m_text m).
      change (partial (L_unlock, m :: ms')) with (@nil Byte.byte).
      cbn [fmap option_fmap option_map]. by rewrite !app_nil_r, <- !app_assoc.
    + destruct Ht as [_ (ms0 & H0 & Hl)]. split; [by exists m, ms'|]. exists ms0. split; [done|]. rewrite Hl.
      unfold pending. cbn [fst snd tail]. rewrite filter_cons_True by done.
      rewrite lines_by_app. cbn [fst snd]. rewrite decide_True by done. by rewrite <- app_assoc.
  - exists order. eapply log_inv_insert; [exact Hinv|exact Hi|done| |done|by right; right|by left|].
    + cbn. by rewrite Hfile.
    + destruct Ht as [_ Hl]. by split.
Qed.

Lemma log_inv_step i c order : log_inv c order -> exists order', log_inv (run_log i c) order'.
Proof.
  destruct c as [[s l] ts]. intros Hinv. destruct (ts !! i) as [x|] eqn:Hi.
  2:{ exists order. unfold run_log. cbn [fst snd]. by rewrite Hi. }
  destruct (inside_log (fst x)) eqn:Hx.
  - pose proof (proj1 (li_lock _ _ Hinv i x Hi) Hx) as Hl. cbn [fst snd] in Hl. subst l. by eapply log_step_inside.
  - exists order. by eapply log_step_outside.
Qed.

(** What is in the log of a line that is not complete. *)
Lemma partial_line c order : log_inv c order ->
  let rest := match snd (fst c) ≫= (fun i => snd c !! i) with Some x => partial x | None => [] end in
  rest = [] \/ exists i x m ms, snd (fst c) = Some i /\ snd c !! i = Some x /\
    pending x = m :: ms /\ passes level m = true /\ rest `prefix_of` line_of m /\ rest <> line_of m.
Proof.
  intros Hinv rest. unfold rest. clear rest. destruct (snd (fst c)) as [i|] eqn:Hl; [|by left]. cbn [mbind option_bind].
  destruct (snd c !! i) as [x|] eqn:Hi; [|by left].
  pose proof (tl_busy _ _ _ (li_thread _ _ Hinv i x Hi)) as Hb. unfold partial.
  destruct x as [pc [|m0 ms0]]; [by left|]. cbn [fst snd].
  destruct pc; try (by left); right; destruct Hb as (m & ms & [= -> ->] & Hm);
    (exists i; eexists; exists m, ms; do 4 (split; [done|])); rewrite line_pieces; split.
  - eexists. by rewrite <- app_assoc.
  - intros H%(f_equal length). rewrite !length_app in H. cbn [length] in H. lia.
  - by eexists.
  - intros H%(f_equal length). rewrite !length_app in H. cbn [length] in H. lia.
Qed.

Lemma log_inv_reach c : rtc log_pool_step (log_start level out mss) c -> exists order, log_inv c order.
Proof.
  intros Hs. enough (Hgen : forall c0, rtc log_pool_step c0 c -> (exists o, log_inv c0 o) -> exists o, log_inv c o).
  { apply (Hgen _ Hs). exists []. split; cbn; try done.
    - by rewrite app_nil_r.
    - intros i x Hx. apply list_lookup_fmap_Some in Hx as (ms & -> & Hms). done.
    - intros i x Hx. apply list_lookup_fmap_Some in Hx as (ms & -> & Hms). split; [done|]. by exists ms. }
  clear Hs. induction 1 as [c0|c0 c1 c2 [i ->] _ IH]; [done|]. intros [o Ho]. apply IH. by eapply log_inv_step.
Qed.
End whole.

(** C38: messages of any number of threads.  However the threads take turns at
    the tests, the lock and the three pieces of a line, the file is what was in it
    and then whole lines, and at most the beginning of one more: while somebody
    holds the lock, a proper prefix of the line of the message that this thread is
    logging.  The lines of a thread are those of its messages that pass the level,
    in order, and all of them when it is through. *)
Theorem log_lines_whole level out mss c :
  level < 8 -> rtc log_pool_step (log_start level out mss) c ->
  exists order rest,
    logfile (fst (fst c)) = Some (out ++ concat ((fun im => line_of (snd im)) <$> order) ++ rest) /\
    (snd (fst c) = None -> rest = []) /\
    (rest = [] \/ exists i x m ms, snd (fst c) = Some i /\ snd c !! i = Some x /\
       pending x = m :: ms /\ passes level m = true /\ rest `prefix_of` line_of m /\
       rest <> line_of m) /\
    Forall (fun im => is_Some (mss !! fst im)) order /\
    forall i x ms, snd c !! i = Some x -> mss !! i = Some ms -> fst x <> L_fault /\
      lines_by i order `prefix_of` filter (fun m => passes level m = true) ms /\
      (snd x = [] -> lines_by i order = filter (fun m => passes level m = true) ms).
Proof.
  intros Hlevel Hs. destruct (log_inv_reach level Hlevel out mss c Hs) as [order Hinv].
  exists order. eexists. split; [apply (li_file _ _ _ _ _ Hinv)|]. split; [by intros ->|].
  split; [by eapply partial_line|].
  split; [apply (li_order _ _ _ _ _ Hinv)|]. intros i x ms Hi Hms.
  destruct (li_thread _ _ _ _ _ Hinv i x Hi) as [Hb (ms' & Hms' & Hl)]. rewrite Hms in Hms'. injection Hms' as <-.
  split; [by destruct x as [[]]|]. split; [rewrite Hl; apply prefix_app_r, reflexivity|].
  intros Hx. rewrite Hl. unfold pending. rewrite Hx. by destruct (fst x); rewrite app_nil_r.
Qed.

(** Two threads with three messages, one of them below the level, take turns. *)
Definition lw_messages : list (list message) :=
  [[mkMessage LOG_WARNING (str "f") 12 (str "x")];
   [mkMessage LOG_DEBUG (str "g") 3 (str "y"); mkMessage LOG_ERR (str "h") 4 (str "z")]].
Definition lw_run : log_pool :=
  fold_left (fun c i => run_log i c) (concat (replicate 12 [1; 0]%nat)) (log_start LOG_INFO [] lw_messages).

Lemma lw_reachable : rtc log_pool_step (log_start LOG_INFO [] lw_messages) lw_run.
Proof. apply run_logs_steps. Qed.
Lemma lw_ended : snd lw_run = [(L_call, []); (L_call, [])] /\ snd (fst lw_run) = None.
Proof. by vm_compute. Qed.

Lemma log_lines_whole_witness : exists order,
  logfile (fst (fst lw_run)) = Some (concat ((fun im => line_of (snd im)) <$> order)) /\
  lines_by 0 order = [mkMessage LOG_WARNING (str "f") 12 (str "x")] /\
  lines_by 1 order = [mkMessage LOG_ERR (str "h") 4 (str "z")].
Proof.
  destruct (log_lines_whole LOG_INFO [] lw_messages lw_run eq_refl lw_reachable)
    as (order & rest & Hfile & Hrest & _ & _ & Hth).
  destruct lw_ended as [Hts Hl]. exists order.
  pose proof (Hth 0%nat (L_call, []) [mkMessage LOG_WARNING (str "f") 12 (str "x")]
    ltac:(by rewrite Hts) eq_refl) as (_ & _ & H0).
  pose proof (Hth 1%nat (L_call, [])
    [mkMessage LOG_DEBUG (str "g") 3 (str "y"); mkMessage LOG_ERR (str "h") 4 (str "z")]
    ltac:(by rewrite Hts) eq_refl) as (_ & _ & H1).
  split; [by rewrite Hfile, (Hrest Hl), app_nil_r|]. split; [exact (H0 eq_refl)|exact (H1 eq_refl)].
Defined.
