(* ===== verification/Layout.v ===== *)
(** * C struct layout (LP64) and the on-disk structures of ext4

    A struct is the list of its members with their C types; [offsetof] and
    [sizeof] follow the usual alignment rule, and a member access is a
    little-endian load at its offset.  An object of struct type is the list of
    its initialised bytes, so that reading a member that was never filled in
    is an out-of-range load. *)
From Stdlib Require Import ZArith Lia Strings.Byte.
From stdpp Require Import base numbers list option strings.
From S2P Require Import Prelude.

Inductive ctype : Type :=
| U8 | U16 | U32 | U64
| Arr (t : ctype) (n : Z).

Fixpoint csize (t : ctype) : Z :=
  match t with
  | U8 => 1 | U16 => 2 | U32 => 4 | U64 => 8
  | Arr t n => csize t * n
  end.
Fixpoint calign (t : ctype) : Z :=
  match t with U8 => 1 | U16 => 2 | U32 => 4 | U64 => 8 | Arr t _ => calign t end.

Abbreviation struct := (list (string * ctype)).

Definition align_up (off a : Z) : Z := (off + a - 1) / a * a.

(** The members with their offsets, and the offset behind the last one. *)
Fixpoint layout (off : Z) (s : struct) : list (string * Z * ctype) * Z :=
  match s with
  | [] => ([], off)
  | (f, t) :: s' =>
      let o := align_up off (calign t) in
      let '(l, e) := layout (o + csize t) s' in ((f, o, t) :: l, e)
  end.
Definition struct_align (s : struct) : Z :=
  foldr (fun ft a => Z.max (calign (snd ft)) a) 1 s.
Definition sizeof (s : struct) : Z := align_up (snd (layout 0 s)) (struct_align s).
Fixpoint find_field (f : string) (l : list (string * Z * ctype)) : option (Z * ctype) :=
  match l with
  | [] => None
  | (g, o, t) :: l' => if decide (f = g) then Some (o, t) else find_field f l'
  end.
Definition field (s : struct) (f : string) : option (Z * ctype) :=
  find_field f (fst (layout 0 s)).
Definition offsetof (s : struct) (f : string) : Z :=
  match field s f with Some (o, _) => o | None => -1 end.

(** [obj.f] for a scalar member, and [obj.f[i]] for an array member. *)
Definition fld (s : struct) (f : string) (obj : bytes) : res Z :=
  match field s f with Some (o, t) => load o (csize t) obj | None => Err UB end.
Definition fld_idx (s : struct) (f : string) (i : Z) (obj : bytes) : res Z :=
  match field s f with
  | Some (o, Arr t n) =>
      if (0 <=? i) && (i <? n) then load (o + i * csize t) (csize t) obj else Err UB
  | _ => Err UB
  end.
(** [((struct s * )(obj + base))[i].f] *)
Definition arr_fld (s : struct) (base i : Z) (f : string) (obj : bytes) : res Z :=
  match field s f with
  | Some (o, t) => load (base + i * sizeof s + o) (csize t) obj
  | None => Err UB
  end.
(** The bytes of a member. *)
Definition fld_bytes (s : struct) (f : string) (obj : bytes) : bytes :=
  match field s f with Some (o, t) => slice o (csize t) obj | None => [] end.
(** Assign to a scalar member (used to build objects). *)
Definition set_fld (s : struct) (f : string) (v : Z) (obj : bytes) : bytes :=
  match field s f with
  | Some (o, t) => splice o (le_encode (Z.to_nat (csize t)) v) obj
  | None => obj
  end.

(** ** types/ext4_super.h *)
Definition ext4_group_desc : struct := [
  ("bg_block_bitmap_lo", U32); ("bg_inode_bitmap_lo", U32);
  ("bg_inode_table_lo", U32); ("bg_free_blocks_count_lo", U16);
  ("bg_free_inodes_count_lo", U16); ("bg_used_dirs_count_lo", U16);
  ("bg_flags", U16); ("bg_reserved", Arr U32 2); ("bg_itable_unused_lo", U16);
  ("bg_checksum", U16); ("bg_block_bitmap_hi", U32);
  ("bg_inode_bitmap_hi", U32); ("bg_inode_table_hi", U32);
  ("bg_free_blocks_count_hi", U16); ("bg_free_inodes_count_hi", U16);
  ("bg_used_dirs_count_hi", U16); ("bg_itable_unused_hi", U16);
  ("bg_reserved2", Arr U32 3)].

Definition ext4_super_block : struct := [
  ("s_inodes_count", U32); ("s_blocks_count_lo", U32);
  ("s_r_blocks_count_lo", U32); ("s_free_blocks_count_lo", U32);
  ("s_free_inodes_count", U32); ("s_first_data_block", U32);
  ("s_log_block_size", U32); ("s_obso_log_frag_size", U32);
  ("s_blocks_per_group", U32); ("s_obso_frags_per_group", U32);
  ("s_inodes_per_group", U32); ("s_mtime", U32); ("s_wtime", U32);
  ("s_mnt_count", U16); ("s_max_mnt_count", U16); ("s_magic", U16);
  ("s_state", U16); ("s_errors", U16); ("s_minor_rev_level", U16);
  ("s_lastcheck", U32); ("s_checkinterval", U32); ("s_creator_os", U32);
  ("s_rev_level", U32); ("s_def_resuid", U16); ("s_def_resgid", U16);
  ("s_first_ino", U32); ("s_inode_size", U16); ("s_block_group_nr", U16);
  ("s_feature_compat", U32); ("s_feature_incompat", U32);
  ("s_feature_ro_compat", U32); ("s_uuid", Arr U8 16);
  ("s_volume_name", Arr U8 16); ("s_last_mounted", Arr U8 64);
  ("s_algorithm_usage_bitmap", U32); ("s_prealloc_blocks", U8);
  ("s_prealloc_dir_blocks", U8); ("s_reserved_gdt_blocks", U16);
  ("s_journal_uuid", Arr U8 16); ("s_journal_inum", U32);
  ("s_journal_dev", U32); ("s_last_orphan", U32); ("s_hash_seed", Arr U32 4);
  ("s_def_hash_version", U8); ("s_reserved_char_pad", U8); ("s_desc_size", U16);
  ("s_default_mount_opts", U32); ("s_first_meta_bg", U32); ("s_mkfs_time", U32);
  ("s_jnl_blocks", Arr U32 17); ("s_blocks_count_hi", U32);
  ("s_r_blocks_count_hi", U32); ("s_free_blocks_count_hi", U32);
  ("s_min_extra_isize", U16); ("s_want_extra_isize", U16); ("s_flags", U32);
  ("s_raid_stride", U16); ("s_mmp_interval", U16); ("s_mmp_block", U64);
  ("s_raid_stripe_width", U32); ("s_log_groups_per_flex", U8);
  ("s_reserved_char_pad2", U8); ("s_reserved_pad", U16);
  ("s_kbytes_written", U64); ("s_reserved", Arr U32 160)].

(** ** types/ext4_inode.h (the unions osd1 and osd2 by their size) *)
Definition EXT4_NDIR_BLOCKS : Z := 12.
Definition EXT4_IND_BLOCK : Z := EXT4_NDIR_BLOCKS.
Definition EXT4_DIND_BLOCK : Z := EXT4_IND_BLOCK + 1.
Definition EXT4_TIND_BLOCK : Z := EXT4_DIND_BLOCK + 1.
Definition EXT4_N_BLOCKS : Z := EXT4_TIND_BLOCK + 1.
Definition EXT4_EXTENTS_FL : Z := 0x00080000.

Definition ext4_inode : struct := [
  ("i_mode", U16); ("i_uid", U16); ("i_size_lo", U32); ("i_atime", U32);
  ("i_ctime", U32); ("i_mtime", U32); ("i_dtime", U32); ("i_gid", U16);
  ("i_links_count", U16); ("i_blocks_lo", U32); ("i_flags", U32);
  ("osd1", U32); ("i_block", Arr U32 EXT4_N_BLOCKS); ("i_generation", U32);
  ("i_file_acl_lo", U32); ("i_size_high", U32); ("i_obso_faddr", U32);
  ("osd2", Arr U32 3); ("i_extra_isize", U16); ("i_pad1", U16);
  ("i_ctime_extra", U32); ("i_mtime_extra", U32); ("i_atime_extra", U32);
  ("i_crtime", U32); ("i_crtime_extra", U32); ("i_version_hi", U32)].

(** ** types/ext4_extents.h *)
Definition EXT4_EXT_MAGIC : Z := 0xf30a.

Definition ext4_extent : struct := [
  ("ee_block", U32); ("ee_len", U16); ("ee_start_hi", U16); ("ee_start_lo", U32)].
Definition ext4_extent_idx : struct := [
  ("ei_block", U32); ("ei_leaf_lo", U32); ("ei_leaf_hi", U16); ("ei_unused", U16)].
Definition ext4_extent_header : struct := [
  ("eh_magic", U16); ("eh_entries", U16); ("eh_max", U16); ("eh_depth", U16);
  ("eh_generation", U32)].

(** ** types/ext4_dentry.h *)
Definition EXT4_NAME_LEN : Z := 255.
Definition ext4_dir_entry_2 : struct := [
  ("inode", U32); ("rec_len", U16); ("name_len", U8); ("file_type", U8);
  ("name", Arr U8 EXT4_NAME_LEN)].

(** ** Facts *)

Lemma fld_ok s f o t obj :
  field s f = Some (o, t) -> 0 <= o -> 0 <= csize t -> o + csize t <= zlen obj ->
  fld s f obj = Ok (le_at o (csize t) obj).
Proof. intros Hf ???. unfold fld. rewrite Hf. by apply load_ok. Qed.

Lemma fld_idx_ok s f o t n i obj :
  field s f = Some (o, Arr t n) -> 0 <= i < n -> 0 <= o -> 0 <= csize t ->
  o + i * csize t + csize t <= zlen obj ->
  fld_idx s f i obj = Ok (le_at (o + i * csize t) (csize t) obj).
Proof.
  intros Hf Hi ???. unfold fld_idx. rewrite Hf.
  destruct (Z.leb_spec 0 i); [|lia]. destruct (Z.ltb_spec i n); [|lia].
  cbn [andb]. apply load_ok; nia.
Qed.

Lemma arr_fld_ok s base i f o t obj :
  field s f = Some (o, t) -> 0 <= base + i * sizeof s + o -> 0 <= csize t ->
  base + i * sizeof s + o + csize t <= zlen obj ->
  arr_fld s base i f obj = Ok (le_at (base + i * sizeof s + o) (csize t) obj).
Proof. intros Hf ???. unfold arr_fld. rewrite Hf. by apply load_ok. Qed.

Lemma fld_range s f o t obj v :
  field s f = Some (o, t) -> 0 <= csize t -> fld s f obj = Ok v ->
  0 <= v < 256 ^ csize t.
Proof.
  intros Hf Ht. unfold fld. rewrite Hf. intros H%load_inv.
  destruct H as (_ & _ & _ & ->). by apply le_at_range.
Qed.

(** The member offsets written as comments in ext4_super.h are the
    offsets the compiler computes from the declarations, the structures have
    their on-disk sizes, and no member needs padding. *)
Theorem ext4_struct_layout :
  map (fun f => offsetof ext4_super_block f)
    ["s_inodes_count"; "s_free_inodes_count"; "s_blocks_per_group"; "s_wtime";
     "s_lastcheck"; "s_def_resuid"; "s_feature_incompat"; "s_uuid";
     "s_volume_name"; "s_last_mounted"; "s_algorithm_usage_bitmap";
     "s_journal_uuid"; "s_journal_inum"; "s_default_mount_opts";
     "s_blocks_count_hi"]
  = [0x00; 0x10; 0x20; 0x30; 0x40; 0x50; 0x60; 0x68; 0x78; 0x88; 0xC8; 0xD0;
     0xE0; 0x100; 0x150] /\
  offsetof ext4_super_block "s_magic" = 0x38 /\
  map sizeof [ext4_super_block; ext4_group_desc; ext4_inode; ext4_extent;
              ext4_extent_idx; ext4_extent_header]
  = [1024; 64; 156; 12; 12; 12].
Proof. vm_compute. done. Qed.
