(* ===== verification/DList.v ===== *)
(** * Doubly linked lists on an explicit heap

    Both compression readers keep a list of structs with [next] and [prev]
    members.  A heap maps addresses to cells, a cell is the rest of the struct
    with the two pointers; [dseg h p l n] says that the cells of [l] are linked
    both ways in this order, from the predecessor [p] to the successor [n]. *)
From Stdlib Require Import ZArith Lia.
From stdpp Require Import base numbers list option gmap.
From S2P Require Import Prelude.

Record cell (A : Type) : Type := mkCell {
  val : A;
  next : option nat;
  prev : option nat }.
Arguments mkCell {A} val next prev.
Arguments val {A} c.
Arguments next {A} c.
Arguments prev {A} c.

Section dlist.
Context {A : Type}.
Implicit Types (h : gmap nat (cell A)) (l : list nat) (p n : option nat).

Definition set_next (n : option nat) (c : cell A) : cell A := mkCell (val c) n (prev c).
Definition set_prev (p : option nat) (c : cell A) : cell A := mkCell (val c) (next c) p.
Definition set_val (v : A) (c : cell A) : cell A := mkCell v (next c) (prev c).

(** Loads and stores through a pointer; an address without a cell was freed or
    never allocated. *)
Definition cell_get (a : nat) : M (gmap nat (cell A)) (cell A) := fun h =>
  match h !! a with Some c => Ok (c, h) | None => Err UB end.
Definition cell_set (a : nat) (f : cell A -> cell A) : M (gmap nat (cell A)) unit := fun h =>
  match h !! a with Some _ => Ok (tt, alter f a h) | None => Err UB end.
Definition cell_free (a : nat) : M (gmap nat (cell A)) unit := fun h =>
  match h !! a with Some _ => Ok (tt, delete a h) | None => Err UB end.

(** The successor of a segment's predecessor, and the predecessor of its
    successor. *)
Definition hd_of (n : option nat) (l : list nat) : option nat :=
  match l with [] => n | a :: _ => Some a end.
Definition last_of (p : option nat) (l : list nat) : option nat :=
  match list.last l with Some a => Some a | None => p end.

Fixpoint dseg (h : gmap nat (cell A)) (p : option nat) (l : list nat) (n : option nat) : Prop :=
  match l with
  | [] => True
  | a :: l' =>
      (exists c, h !! a = Some c /\ prev c = p /\ next c = hd_of n l') /\
      dseg h (Some a) l' n
  end.

(** The data of the cells, without the links. *)
Definition vals (h : gmap nat (cell A)) : gmap nat A := val <$> h.

(** ** Facts *)

Lemma cell_get_ok h a c : h !! a = Some c -> cell_get a h = Ok (c, h).
Proof. intros Hc. unfold cell_get. by rewrite Hc. Qed.
Lemma cell_set_ok h a f : is_Some (h !! a) -> cell_set a f h = Ok (tt, alter f a h).
Proof. intros [c Hc]. unfold cell_set. by rewrite Hc. Qed.
Lemma cell_free_ok h a : is_Some (h !! a) -> cell_free a h = Ok (tt, delete a h).
Proof. intros [c Hc]. unfold cell_free. by rewrite Hc. Qed.

Lemma last_of_snoc p l a : last_of p (l ++ [a]) = Some a.
Proof. unfold last_of. by rewrite last_snoc. Qed.
Lemma last_of_cons p a l : last_of p (a :: l) = last_of (Some a) l.
Proof. unfold last_of. rewrite last_cons. by destruct (list.last l). Qed.

Lemma last_of_elem a l z : last_of (Some a) l = Some z -> z ∈ a :: l.
Proof.
  rewrite <- (last_of_cons None). destruct l as [|y l' _] using rev_ind.
  - intros [= ->]. by apply list_elem_of_singleton.
  - rewrite app_comm_cons, last_of_snoc. intros [= ->].
    rewrite elem_of_app, list_elem_of_singleton. by right.
Qed.

Lemma dseg_app h p l1 l2 n :
  dseg h p (l1 ++ l2) n <-> dseg h p l1 (hd_of n l2) /\ dseg h (last_of p l1) l2 n.
Proof.
  revert p. induction l1 as [|a l1 IH]; intros p; cbn [app dseg]; [tauto|].
  rewrite IH, last_of_cons. replace (hd_of n (l1 ++ l2)) with (hd_of (hd_of n l2) l1);
    [tauto|by destruct l1].
Qed.

(** A change of cells outside the segment. *)
Lemma dseg_frame h h' p l n :
  (forall a, a ∈ l -> h' !! a = h !! a) -> dseg h p l n -> dseg h' p l n.
Proof.
  revert p. induction l as [|a l IH]; intros p He; cbn [dseg]; [done|].
  intros [(c & Hc & Hp & Hn) Hl]. split.
  - exists c. rewrite He by (apply elem_of_cons; by left). done.
  - apply IH; [|done]. intros b Hb. apply He, elem_of_cons. by right.
Qed.

Lemma dseg_alter h p l n a f : a ∉ l -> dseg h p l n -> dseg (alter f a h) p l n.
Proof.
  intros Ha. apply dseg_frame. intros b Hb. apply lookup_alter_ne. by intros ->.
Qed.
Lemma dseg_delete h p l n a : a ∉ l -> dseg h p l n -> dseg (delete a h) p l n.
Proof.
  intros Ha. apply dseg_frame. intros b Hb. apply lookup_delete_ne. by intros ->.
Qed.
Lemma dseg_insert h p l n a c : a ∉ l -> dseg h p l n -> dseg (<[a := c]> h) p l n.
Proof.
  intros Ha. apply dseg_frame. intros b Hb. apply lookup_insert_ne. by intros ->.
Qed.

Lemma dseg_elem h p l n a : dseg h p l n -> a ∈ l -> is_Some (h !! a).
Proof.
  revert p. induction l as [|b l IH]; intros p; cbn [dseg]; [by rewrite elem_of_nil|].
  intros [(c & Hc & _) Hl] [->|Ha]%elem_of_cons; eauto.
Qed.

(** Relinking the ends. *)
Lemma dseg_set_prev h p p' a l n :
  a ∉ l -> dseg h p (a :: l) n -> dseg (alter (set_prev p') a h) p' (a :: l) n.
Proof.
  intros Ha [(c & Hc & Hp & Hn) Hl]. split; [|by apply dseg_alter].
  exists (set_prev p' c). by rewrite lookup_alter_eq, Hc.
Qed.

Lemma dseg_set_next h p l a n n' :
  a ∉ l -> dseg h p (l ++ [a]) n -> dseg (alter (set_next n') a h) p (l ++ [a]) n'.
Proof.
  intros Ha. rewrite !dseg_app. cbn [hd_of dseg]. intros [Hl [(c & Hc & Hp & Hn) _]].
  split; [by apply dseg_alter|]. split; [|done].
  exists (set_next n' c). by rewrite lookup_alter_eq, Hc.
Qed.

(** Links are not data. *)
Lemma vals_set_next h a n : vals (alter (set_next n) a h) = vals h.
Proof.
  apply map_eq. intros b. unfold vals. rewrite !lookup_fmap.
  destruct (decide (a = b)) as [<-|]; [|by rewrite lookup_alter_ne].
  rewrite lookup_alter_eq. by destruct (h !! a).
Qed.
Lemma vals_set_prev h a p : vals (alter (set_prev p) a h) = vals h.
Proof.
  apply map_eq. intros b. unfold vals. rewrite !lookup_fmap.
  destruct (decide (a = b)) as [<-|]; [|by rewrite lookup_alter_ne].
  rewrite lookup_alter_eq. by destruct (h !! a).
Qed.
Lemma is_Some_alter h a b f : is_Some (h !! b) -> is_Some (alter f a h !! b).
Proof.
  intros [c Hc]. destruct (decide (a = b)) as [<-|]; [|by rewrite lookup_alter_ne; eauto].
  rewrite lookup_alter_eq, Hc. eauto.
Qed.

Lemma vals_is_Some h h' a : vals h' = vals h -> is_Some (h' !! a) <-> is_Some (h !! a).
Proof.
  intros He. pose proof (f_equal (fun m => m !! a) He) as Ha. unfold vals in Ha. cbn in Ha.
  rewrite !lookup_fmap in Ha. destruct (h !! a), (h' !! a); cbn in Ha; try done;
    rewrite ?is_Some_alt; split; intros; eauto; done.
Qed.

(** Data are not links. *)
Lemma dseg_set_val h p l n a v : dseg h p l n -> dseg (alter (set_val v) a h) p l n.
Proof.
  revert p. induction l as [|b l IH]; intros p; cbn [dseg]; [done|].
  intros [(c & Hc & Hp & Hn) Hl]. split; [|by apply IH].
  destruct (decide (a = b)) as [<-|Hne].
  - exists (set_val v c). by rewrite lookup_alter_eq, Hc.
  - exists c. by rewrite lookup_alter_ne.
Qed.
Lemma vals_set_val h a v : is_Some (h !! a) -> vals (alter (set_val v) a h) = <[a := v]> (vals h).
Proof.
  intros [c Hc]. apply map_eq. intros b. unfold vals. rewrite lookup_fmap.
  destruct (decide (a = b)) as [<-|]; [by rewrite lookup_alter_eq, Hc, lookup_insert_eq|].
  by rewrite lookup_alter_ne, lookup_insert_ne, lookup_fmap.
Qed.

(** The cell inside a segment. *)
Lemma dseg_mid h p l1 a l2 n :
  dseg h p (l1 ++ a :: l2) n ->
  exists c, h !! a = Some c /\ prev c = last_of p l1 /\ next c = hd_of n l2.
Proof. rewrite dseg_app. cbn [dseg]. intros [_ [Hc _]]. exact Hc. Qed.

(** Moving a cell to the front, store by store: the successor's back link, the
    predecessor's forward link, the cell's links, the back link of the former
    front [f]. *)
Definition moved (h : gmap nat (cell A)) (f p a : nat) (l2 : list nat) : gmap nat (cell A) :=
  let h1 := match l2 with [] => h | b :: _ => alter (set_prev (Some p)) b h end in
  let h2 := alter (set_next (hd_of None l2)) p h1 in
  let h3 := alter (set_prev None) a h2 in
  let h4 := alter (set_next (Some f)) a h3 in
  alter (set_prev (Some a)) f h4.

Lemma moved_vals h (f p a : nat) l2 : vals (moved h f p a l2) = vals h.
Proof.
  unfold moved. rewrite vals_set_prev, vals_set_next, vals_set_prev, vals_set_next.
  destruct l2; [done|]. apply vals_set_prev.
Qed.

Lemma moved_seg h l1 (f p a : nat) l2 :
  NoDup ((l1 ++ [p]) ++ a :: l2) -> hd_of None (l1 ++ [p]) = Some f ->
  dseg h None ((l1 ++ [p]) ++ a :: l2) None ->
  dseg (moved h f p a l2) None (a :: (l1 ++ [p]) ++ l2) None.
Proof.
  intros Hnd Hf Hseg. apply dseg_app in Hseg as [H1 [(c & Hc & Hpc & Hnc) H2]].
  rewrite last_of_snoc in *. cbn [hd_of] in H1.
  apply list.NoDup_app in Hnd as (Hn1 & Hdis & Hn2). apply list.NoDup_cons in Hn2 as [Ha2 Hn2].
  assert (Ha1 : a ∉ l1 ++ [p]) by (intros Hi; apply (Hdis a Hi), elem_of_cons; by left).
  assert (Hp2 : p ∉ a :: l2).
  { apply Hdis. rewrite elem_of_app. right. by apply list_elem_of_singleton. }
  rewrite elem_of_cons in Hp2.
  assert (Hpl : p ∉ l1).
  { apply list.NoDup_app in Hn1 as (_ & Hd & _). intros Hi. apply (Hd p Hi).
    by apply list_elem_of_singleton. }
  assert (Hfin : f ∈ l1 ++ [p]) by (destruct l1; injection Hf as <-; apply elem_of_cons; by left).
  assert (Hfa : f <> a) by (intros ->; done).
  assert (Hf2 : f ∉ l2) by (intros Hi; apply (Hdis f Hfin), elem_of_cons; by right).
  unfold moved. set (h1 := match l2 with [] => h | b :: _ => alter _ b h end).
  assert (Hs2 : dseg h1 (Some p) l2 None).
  { unfold h1. destruct l2 as [|b l2]; [done|]. apply list.NoDup_cons in Hn2 as [Hb _].
    by apply (dseg_set_prev h (Some a)). }
  assert (Hs1 : dseg h1 None (l1 ++ [p]) (Some a)).
  { unfold h1. destruct l2 as [|b l2]; [done|]. apply dseg_alter; [|done].
    intros Hi. apply (Hdis b Hi). rewrite !elem_of_cons. tauto. }
  assert (Hc1 : h1 !! a = Some c).
  { unfold h1. destruct l2 as [|b l2]; [done|]. rewrite lookup_alter_ne; [done|].
    intros ->. apply Ha2, elem_of_cons. by left. }
  cbn [dseg]. split.
  - exists (set_next (Some f) (set_prev None c)). split.
    + rewrite lookup_alter_ne by done. rewrite !lookup_alter_eq.
      rewrite lookup_alter_ne by (intros ->; tauto). by rewrite Hc1.
    + split; [done|]. cbn [next set_next]. destruct l1; cbn in Hf |- *; congruence.
  - rewrite dseg_app, last_of_snoc. split.
    + destruct (l1 ++ [p]) as [|f' l] eqn:El; [by destruct l1|]. injection Hf as ->.
      apply (dseg_set_prev _ None); [by apply list.NoDup_cons in Hn1 as [? _]|].
      do 2 (apply dseg_alter; [done|]). rewrite <- El. apply (dseg_set_next _ _ _ _ (Some a)); [done|].
      by rewrite El in *.
    + repeat (apply dseg_alter; [tauto|]). done.
Qed.
End dlist.

Create HintDb cdlist.
#[export] Hint Resolve dseg_alter is_Some_alter : cdlist.
