(* ===== verification/Disk.v ===== *)
(** * fs/ext4/disk.c: the disk under the file system

    The statics of disk.c are a [disk] record; the read layer below is the
    interface [ReadLayer], whose promise to this client is [ReadLayerOk]: a
    read inside the decompressed image returns the bytes of the image, and the
    layer can be freed, which takes it back to its initial state.  A
    read is one step of the model; the mutex around [pread_wrapper], which makes
    it one, is in DiskMutex. *)
From Stdlib Require Import ZArith Lia Strings.Byte.
From stdpp Require Import base numbers list option.
From S2P Require Import Prelude Clib.

(** read_layer.h as the file system sees it: [read_wrapper] with the file it
    is given, and [free_read_wrapper].  A read returns the count and the bytes
    it put at the start of the buffer. *)
Class ReadLayer (R : Type) : Type := {
  rl_init : R;
  rl_read_wrapper : forall (offset length : Z), M (FILE * R) (Z * bytes);
  rl_free_read_wrapper : M R unit }.

Class ReadLayerOk (R : Type) `{ReadLayer R} : Type := {
  rl_inv : bytes -> FILE -> R -> Prop;
  rl_read_ok : forall img f r off n,
    rl_inv img f r -> 0 <= off -> 0 < n < 2 ^ 31 -> off + n <= zlen img ->
    exists f' r', rl_read_wrapper off n (f, r) = Ok ((n, slice off n img), (f', r')) /\
      rl_inv img f' r';
  rl_free_ok : forall img f r, rl_inv img f r -> rl_free_read_wrapper r = Ok (tt, rl_init) }.

Section disk.
Context {R : Type} `{RL : ReadLayer R}.

Record disk : Type := mkDisk {
  disk_fd : Z;
  disk_file : option FILE;
  read_layer : R }.

Definition disk_statics : disk := mkDisk (-1) None rl_init.

(** disk.c's [_pread]: [read_wrapper] on [disk_file], its count cut to int. *)
Definition _pread (size where_ : Z) : M disk (Z * bytes) := fun d =>
  match disk_file d with
  | None => Err UB
  | Some f =>
      match rl_read_wrapper where_ size (f, read_layer d) with
      | Ok ((n, data), (f', r')) =>
          Ok ((s32 n, data), mkDisk (disk_fd d) (Some f') r')
      | Err e => Err e
      end
  end.

Definition pread_wrapper (size where_ : Z) : M disk (Z * bytes) := _pread size where_.

(** [pread_wrapper] as compiled on FreeBSD: whole blocks of 1024 bytes only. *)
Definition PREAD_BLOCK_SIZE : Z := 1024.
Definition pread_block (where_ : Z) : M disk bytes :=
  let* r := _pread PREAD_BLOCK_SIZE where_ in
  do* ASSERT (fst r =? PREAD_BLOCK_SIZE) in
  ret (snd r).
(** The part after the unaligned head: whole blocks straight into the buffer,
    then a last block of which only the needed bytes are copied. *)
Definition freebsd_aligned (size where_ : Z) : M disk (Z * bytes) :=
  do* ASSERT (Z.rem where_ PREAD_BLOCK_SIZE =? 0) in
  let mid_read_size := size / PREAD_BLOCK_SIZE * PREAD_BLOCK_SIZE in
  let* p2 := (if mid_read_size =? 0 then ret []
              else let* m := _pread mid_read_size where_ in
                   do* ASSERT (u64 (fst m) =? mid_read_size) in
                   ret (snd m)) in
  let size := size - mid_read_size in
  let where_ := where_ + mid_read_size in
  if negb (mid_read_size =? 0) && (size =? 0) then ret (mid_read_size, p2) else
  do* ASSERT (size <? PREAD_BLOCK_SIZE) in
  let* block := pread_block where_ in
  ret (mid_read_size + size, p2 ++ slice 0 size block).
Definition pread_wrapper_freebsd (size where_ : Z) : M disk (Z * bytes) :=
  let first_offset := Z.rem where_ PREAD_BLOCK_SIZE in
  if first_offset =? 0 then freebsd_aligned size where_ else
  let* block := pread_block (where_ - first_offset) in
  let first_size := Z.min size (u64 (PREAD_BLOCK_SIZE - first_offset)) in
  let p1 := slice first_offset first_size block in
  let size := size - first_size in
  let where_ := where_ + first_size in
  if size =? 0 then ret (first_size, p1) else
  let* r := freebsd_aligned size where_ in
  ret (first_size + fst r, p1 ++ snd r).

(** [disk_open]: [opened] is what [fopen(path, "r")] gave, with the value of
    [fileno] for it (which sets errno to EBADF = 9 when it fails). *)
Definition disk_open (opened : option (FILE * Z)) : M disk Z := fun d =>
  match opened with
  | None => Ok (-1, mkDisk (disk_fd d) None (read_layer d))
  | Some (f, fd) =>
      Ok (if fd <? 0 then -9 else 0, mkDisk fd (Some f) (read_layer d))
  end.

Definition disk_close : M disk Z := fun d =>
  match rl_free_read_wrapper (read_layer d) with
  | Ok (_, r) =>
      match disk_file d with
      | Some _ => Ok (1, mkDisk (-1) None r)
      | None => Ok (0, mkDisk (disk_fd d) None r)
      end
  | Err e => Err e
  end.

Definition __disk_read (where_ size : Z) : M disk (Z * bytes) :=
  let* d := get in
  do* ASSERT (0 <=? disk_fd d) in
  let* r := pread_wrapper size where_ in
  do* ASSERT (u64 (fst r) =? size) in
  ret (s32 (fst r), snd r).

(** [disk_read_u32]. *)
Definition disk_read_u32 (where_ : Z) : M disk Z :=
  let* r := __disk_read (s64 where_) 4 in
  do* ASSERT (u64 (fst r) =? 4) in
  lift (load 0 4 (snd r)).

Record disk_ctx : Type := mkDiskCtx { ctx_cur : Z; ctx_size : Z }.

Definition disk_ctx_create (where_ size len : Z) : M disk (Z * disk_ctx) :=
  do* ASSERT (negb (size =? 0)) in
  ret (0, mkDiskCtx where_ (u64 (size * len))).

Definition __disk_ctx_read (ctx : disk_ctx) (size : Z) : M disk (Z * bytes * disk_ctx) :=
  do* ASSERT (negb (ctx_size ctx =? 0)) in
  if ctx_size ctx =? 0 then ret (0, [], ctx) else
  let size := if ctx_size ctx <? size then ctx_size ctx else size in
  let* r := __disk_read (ctx_cur ctx) size in
  ret (fst r, snd r,
       mkDiskCtx (s64 (ctx_cur ctx + fst r)) (u64 (ctx_size ctx - fst r))).

(** ** The disk invariant and reads inside the image *)
Context `{RLO : !ReadLayerOk R}.

(** The disk is open on a file whose decompressed content is [img]. *)
Definition disk_ok (img : bytes) (d : disk) : Prop :=
  0 <= disk_fd d /\ zlen img < 2 ^ 62 /\
  exists f, disk_file d = Some f /\ rl_inv img f (read_layer d).

Lemma _pread_ok img d off n :
  disk_ok img d -> 0 <= off -> 0 < n < 2 ^ 31 -> off + n <= zlen img ->
  exists d', _pread n off d = Ok ((n, slice off n img), d') /\ disk_ok img d'.
Proof.
  intros (Hfd & Hl & f & Hf & Hinv) Hoff Hn Hle.
  destruct (rl_read_ok img f (read_layer d) off n Hinv Hoff Hn Hle)
    as (f' & r' & Hr & Hinv').
  exists (mkDisk (disk_fd d) (Some f') r'). unfold _pread. rewrite Hf, Hr.
  rewrite s32_small by lia. split; [done|].
  repeat split; [done..|]. by exists f'.
Qed.

(** Opening a file and closing it again. *)
Lemma disk_open_run img f fd d :
  rl_inv img f rl_init -> read_layer d = rl_init -> zlen img < 2 ^ 62 -> 0 <= fd ->
  exists d', disk_open (Some (f, fd)) d = Ok (0, d') /\ disk_ok img d'.
Proof.
  intros Hinv Hd Hl Hfd. unfold disk_open. rewrite (proj2 (Z.ltb_ge _ _)) by lia.
  eexists. split; [done|]. split; [done|]. split; [done|]. exists f. cbn. by rewrite Hd.
Qed.

Lemma disk_close_run img d : disk_ok img d -> disk_close d = Ok (1, disk_statics).
Proof.
  intros (_ & _ & f & Hf & Hinv). unfold disk_close.
  by rewrite (rl_free_ok _ _ _ Hinv), Hf.
Qed.

Lemma __disk_read_ok img d off n :
  disk_ok img d -> 0 <= off -> 0 < n < 2 ^ 31 -> off + n <= zlen img ->
  exists d', __disk_read off n d = Ok ((n, slice off n img), d') /\ disk_ok img d'.
Proof.
  intros Hok Hoff Hn Hle.
  destruct (_pread_ok img d off n Hok Hoff Hn Hle) as (d' & Hr & Hok').
  exists d'. split; [|done].
  unfold __disk_read, bind, get, pread_wrapper, ASSERT.
  destruct Hok as (Hfd & _). rewrite (proj2 (Z.leb_le _ _) Hfd). cbn [ret].
  unfold ret. rewrite Hr. cbn [fst snd].
  rewrite u64_small, Z.eqb_refl, s32_small by lia. done.
Qed.

Lemma disk_read_u32_ok img d off :
  disk_ok img d -> 0 <= off -> off + 4 <= zlen img ->
  exists d', disk_read_u32 off d = Ok (le_at off 4 img, d') /\ disk_ok img d'.
Proof.
  intros Hok Hoff Hle.
  assert (zlen img < 2 ^ 62) by apply Hok.
  destruct (__disk_read_ok img d off 4 Hok Hoff ltac:(lia) Hle) as (d' & Hr & Hok').
  exists d'. split; [|done]. unfold disk_read_u32.
  rewrite s64_small by lia. rewrite (bind_Ok _ _ _ _ _ Hr). cbn [fst snd].
  change (u64 4 =? 4) with true. unfold bind, ASSERT, ret, lift.
  rewrite load_ok by (rewrite ?zlen_slice; lia).
  by rewrite le_at_slice, Z.add_0_r by lia.
Qed.

Lemma pread_block_ok img d off :
  disk_ok img d -> 0 <= off -> off + PREAD_BLOCK_SIZE <= zlen img ->
  exists d', pread_block off d = Ok (slice off PREAD_BLOCK_SIZE img, d') /\
    disk_ok img d'.
Proof.
  intros Hok Hoff Hle.
  destruct (_pread_ok img d off PREAD_BLOCK_SIZE Hok Hoff ltac:(done) Hle)
    as (d' & Hr & Hok').
  exists d'. split; [|done]. unfold pread_block. by rewrite (bind_Ok _ _ _ _ _ Hr).
Qed.

(** The blocks a request touches lie inside the image. *)
Definition covered (img : bytes) (off n : Z) : Prop :=
  1024 * ((off + n + 1023) / 1024) <= zlen img.

Lemma freebsd_aligned_ok img d off n :
  disk_ok img d -> 0 <= off -> off mod 1024 = 0 -> 0 < n < 2 ^ 31 ->
  covered img off n ->
  exists d', freebsd_aligned n off d = Ok ((n, slice off n img), d') /\
    disk_ok img d'.
Proof.
  unfold covered. intros Hok Hoff Hal Hn Hle. unfold freebsd_aligned.
  change PREAD_BLOCK_SIZE with 1024 in *.
  rewrite Z.rem_mod_nonneg, Hal by lia. cbn [ASSERT Z.eqb].
  unfold ASSERT at 1. unfold bind at 1, ret at 1.
  set (mid := n / 1024 * 1024).
  assert (Hmid : 0 <= mid <= n /\ n - mid < 1024 /\ (off + mid) mod 1024 = 0).
  { unfold mid. pose proof (Z.div_mod n 1024). pose proof (Z.mod_pos_bound n 1024).
    rewrite Z.mod_add by lia. lia. }
  assert (Hin : off + n <= 1024 * ((off + n + 1023) / 1024)).
  { pose proof (Z.div_mod (off + n + 1023) 1024).
    pose proof (Z.mod_pos_bound (off + n + 1023) 1024). lia. }
  assert (Hstep : exists d1,
    (if mid =? 0 then ret []
     else let* m := _pread mid off in
          do* ASSERT (u64 (fst m) =? mid) in ret (snd m)) d
    = Ok (slice off mid img, d1) /\ disk_ok img d1).
  { destruct (Z.eqb_spec mid 0) as [->|Hm]; [by exists d|].
    destruct (_pread_ok img d off mid Hok Hoff) as (d1 & Hr & Hok1); [clearbody mid; lia..|].
    exists d1. split; [|done]. rewrite (bind_Ok _ _ _ _ _ Hr). cbn [fst snd].
    unfold ASSERT. rewrite u64_small, Z.eqb_refl by lia. done. }
  destruct Hstep as (d1 & Hs1 & Hok1). rewrite (bind_Ok _ _ _ _ _ Hs1).
  destruct (Z.eqb_spec (n - mid) 0) as [Hz|Hnz].
  - rewrite andb_true_r. destruct (Z.eqb_spec mid 0); [lia|].
    exists d1. cbn [negb]. unfold ret. replace n with mid by lia. done.
  - rewrite andb_false_r. destruct (Z.ltb_spec (n - mid) 1024); [|lia].
    destruct (pread_block_ok img d1 (off + mid) Hok1 ltac:(lia)) as (d2 & Hb & Hok2).
    { change PREAD_BLOCK_SIZE with 1024.
      pose proof (Z.div_mod (off + n + 1023) 1024).
      pose proof (Z.mod_pos_bound (off + n + 1023) 1024).
      pose proof (Z.div_mod (off + mid) 1024). nia. }
    exists d2. split; [|done]. unfold ASSERT, bind at 1, ret at 1.
    rewrite (bind_Ok _ _ _ _ _ Hb). unfold ret.
    change PREAD_BLOCK_SIZE with 1024. rewrite slice_slice by lia.
    rewrite Z.add_0_r, slice_app by lia. do 3 f_equal; [lia|f_equal; lia].
Qed.

(** The block-aligned read path of FreeBSD returns what a plain read
    returns, whenever the blocks the request touches lie inside the image. *)
Theorem pread_wrapper_freebsd_ok img d off n :
  disk_ok img d -> 0 <= off -> 0 < n < 2 ^ 31 -> covered img off n ->
  exists d', pread_wrapper_freebsd n off d = Ok ((n, slice off n img), d') /\
    disk_ok img d'.
Proof.
  unfold covered. intros Hok Hoff Hn Hle. unfold pread_wrapper_freebsd.
  change PREAD_BLOCK_SIZE with 1024 in *. rewrite Z.rem_mod_nonneg by lia.
  pose proof (Z.mod_pos_bound off 1024 ltac:(lia)) as Hm.
  pose proof (Z.div_mod off 1024 ltac:(lia)) as Hd.
  pose proof (Z.div_mod (off + n + 1023) 1024 ltac:(lia)) as Hd'.
  pose proof (Z.mod_pos_bound (off + n + 1023) 1024 ltac:(lia)) as Hm'.
  destruct (Z.eqb_spec (off mod 1024) 0) as [Hz|Hnz].
  { by apply freebsd_aligned_ok. }
  destruct (pread_block_ok img d (off - off mod 1024) Hok ltac:(lia)) as (d1 & Hb & Hok1).
  { change PREAD_BLOCK_SIZE with 1024. nia. }
  rewrite (bind_Ok _ _ _ _ _ Hb). rewrite u64_small by lia.
  change PREAD_BLOCK_SIZE with 1024.
  set (fs := Z.min n (1024 - off mod 1024)).
  rewrite slice_slice by lia.
  replace (off - off mod 1024 + off mod 1024) with off by lia.
  destruct (Z.eqb_spec (n - fs) 0) as [Hz|Hnz'].
  { exists d1. replace fs with n by lia. done. }
  destruct (freebsd_aligned_ok img d1 (off + fs) (n - fs) Hok1) as (d2 & Hr & Hok2);
    [lia| |lia| |].
  { replace (off + fs) with ((off / 1024 + 1) * 1024) by lia. by apply Z.mod_mul. }
  { unfold covered. replace (off + fs + (n - fs)) with (off + n) by lia. done. }
  exists d2. split; [|done]. rewrite (bind_Ok _ _ _ _ _ Hr). unfold ret. cbn [fst snd].
  rewrite slice_app by lia. do 3 f_equal; [lia|f_equal; lia].
Qed.

End disk.
Arguments disk : clear implicits.
