(* ===== verification/Reader.v ===== *)
(** * read_layer.c and compression/compression_reader.c: choosing a reader

    A compression reader implementation is a record of operations, as the
    struct [CompressionReaderImpl]; a reader in use is an implementation with
    its state.  [ReaderOk] is what an implementation promises to the dispatch,
    [layer_ok] derives from it what the read layer promises to the file
    system.  [ndebug] says whether the asserts are compiled out. *)
From Stdlib Require Import ZArith Lia Strings.Byte.
From stdpp Require Import base numbers list option.
From S2P Require Import Prelude Clib Disk.

(** The members of the struct; [reader_t] is what the [void *reader] points
    to.  [read] returns the count and the bytes put in the buffer. *)
Record CompressionReaderImpl : Type := mkImpl {
  reader_t : Type;
  is_supported : M FILE bool;
  alloc : M FILE (option reader_t);
  read : forall (offset length : Z), M (FILE * reader_t) (Z * bytes);
  free_ : reader_t -> res unit }.

(** ** compression/raw_read/reader.c: the reader is the file itself *)
Definition raw_read_is_supported : M FILE bool := ret true.
Definition raw_read_reader_alloc : M FILE (option unit) := ret (Some tt).
Definition raw_read_read (offset length : Z) : M (FILE * unit) (Z * bytes) :=
  let* s := get in ret (pread (fst s) length offset).
Definition raw_read_reader_free (r : unit) : res unit := Ok tt.
Definition raw_impl : CompressionReaderImpl :=
  mkImpl unit raw_read_is_supported raw_read_reader_alloc raw_read_read raw_read_reader_free.

(** ** compression_reader.c *)
Definition CompressionReader : Type := { i : CompressionReaderImpl & reader_t i }.

Section dispatch.
Context (ndebug : bool).

Fixpoint get_supported_comp_reader (available_readers : list CompressionReaderImpl)
    : M FILE (option CompressionReaderImpl) :=
  match available_readers with
  | [] => ret None
  | i :: rest =>
      let* b := is_supported i in
      if b : bool then ret (Some i) else
      do* rewind in
      get_supported_comp_reader rest
  end.

(** [malloc] gives an object. *)
Definition compression_reader_alloc (available_readers : list CompressionReaderImpl)
    : M FILE (option CompressionReader) :=
  let* reader_impl := get_supported_comp_reader available_readers in
  do* rewind in
  match reader_impl with
  | None => ret None
  | Some i =>
      let* r := alloc i in
      match r with
      | Some r => ret (Some (existT i r))
      | None => do* c_assert ndebug false in ret None
      end
  end.

Definition compression_read (offset length : Z) : M (FILE * CompressionReader) (Z * bytes) :=
  fun s =>
    match snd s with
    | existT i r =>
        match read i offset length (fst s, r) with
        | Ok (v, (f', r')) => Ok (v, (f', existT i r'))
        | Err e => Err e
        end
    end.

Definition compression_reader_free (r : CompressionReader) : res unit :=
  match r with existT i r => free_ i r end.

(** ** read_layer.c: the static [compression_reader] *)
Definition FAILED_TO_ALLOC : Z := -1.

Definition read_wrapper (available_readers : list CompressionReaderImpl) (offset length : Z)
    : M (FILE * option CompressionReader) (Z * bytes) :=
  let* r := (let* s := get in
             match snd s with
             | Some r => ret (Some r)
             | None =>
                 let* r := zoom fst (fun f s => (f, snd s))
                             (compression_reader_alloc available_readers) in
                 do* modify (fun s => (fst s, r)) in
                 ret r
             end) in
  match r with
  | None => do* c_assert ndebug false in ret (FAILED_TO_ALLOC, [])
  | Some r => fun s =>
      match compression_read offset length (fst s, r) with
      | Ok (v, (f', r')) => Ok (v, (f', Some r'))
      | Err e => Err e
      end
  end.

Definition free_read_wrapper : M (option CompressionReader) unit := fun r =>
  match r with
  | None => Ok (tt, None)
  | Some r => match compression_reader_free r with
              | Ok _ => Ok (tt, None)
              | Err e => Err e
              end
  end.

(** The layer below disk.c. *)
Definition layer (available_readers : list CompressionReaderImpl)
    : ReadLayer (option CompressionReader) := {|
  rl_init := None;
  rl_read_wrapper := read_wrapper available_readers;
  rl_free_read_wrapper := free_read_wrapper |}.
End dispatch.

(** ** What an implementation promises *)

(** A reader that has been read from can be freed (one that has not need not
    be: see [free_access_point_list_ok]).  [ro_decodes c img]: the reader understands files of content [c] and their
    decompressed content is [img]. *)
Class ReaderOk (i : CompressionReaderImpl) : Type := {
  ro_decodes : bytes -> bytes -> Prop;
  ro_inv : bytes -> bytes -> FILE -> reader_t i -> Prop;
  ro_inv_file : forall c img f r, ro_inv c img f r -> f_content f = c /\ f_bad f = None;
  ro_alloc : forall c img, ro_decodes c img ->
    exists r f', alloc i (fopen_content c None) = Ok (Some r, f') /\ ro_inv c img f' r;
  ro_read : forall c img f r off n,
    ro_inv c img f r -> 0 <= off -> 0 < n < 2 ^ 31 -> off + n <= zlen img ->
    exists f' r', read i off n (f, r) = Ok ((n, slice off n img), (f', r')) /\
      ro_inv c img f' r' /\ free_ i r' = Ok tt }.

(** Probing a file for a reader may move the stream position and set its error
    flag; nothing else, and it must not fault. *)
Definition probes (i : CompressionReaderImpl) (c : bytes) (b : bool) : Prop :=
  forall f, f_content f = c -> f_bad f = None -> f_pos f = 0 -> f_err f = false ->
  exists f', is_supported i f = Ok (b, f') /\ f_content f' = c /\ f_bad f' = None.

(** The first implementation of the list that supports the content. *)
Inductive selects (c : bytes) (i : CompressionReaderImpl) : list CompressionReaderImpl -> Prop :=
| sel_here rest : probes i c true -> selects c i (i :: rest)
| sel_later j rest : probes j c false -> selects c i rest -> selects c i (j :: rest).

Definition raw_inv (c img : bytes) (f : FILE) (_ : unit) : Prop :=
  c = img /\ f_content f = c /\ f_bad f = None.

Lemma raw_read_run c img f r off n :
  raw_inv c img f r -> 0 <= off -> 0 < n < 2 ^ 31 -> off + n <= zlen img ->
  raw_read_read off n (f, r) = Ok ((n, slice off n img), (f, r)).
Proof.
  intros (Hc & Hf & Hb) Ho Hn Hin. unfold raw_read_read, bind, get, ret. cbn [fst].
  rewrite pread_ok by (rewrite ?Hf, ?Hc; done || lia). by rewrite Hf, Hc.
Qed.

#[export] Instance raw_ok : ReaderOk raw_impl.
Proof.
  refine (Build_ReaderOk raw_impl (fun c img => c = img) raw_inv _ _ _).
  - by intros c img f r (_ & Hc & Hb).
  - intros c img ->. by exists tt, (fopen_content img None).
  - intros c img f r off n Hi Ho Hn Hin. exists f, r. split; [|done].
    by apply (raw_read_run c).
Defined.

(** ** The dispatch *)

Section layer_facts.
Context (ndebug : bool) (available_readers : list CompressionReaderImpl).

Lemma get_supported_run c i f :
  selects c i available_readers ->
  f_content f = c -> f_bad f = None -> f_pos f = 0 -> f_err f = false ->
  exists f', get_supported_comp_reader available_readers f = Ok (Some i, f') /\
    f_content f' = c /\ f_bad f' = None.
Proof.
  intros Hs. revert f. induction Hs as [rest Hp|j rest Hp Hs IH]; intros f Hc Hb Hpos He;
    destruct (Hp f Hc Hb Hpos He) as (f' & Hrun & Hc' & Hb'); cbn [get_supported_comp_reader];
    rewrite (bind_Ok _ _ _ _ _ Hrun).
  - by exists f'.
  - rewrite (bind_Ok rewind _ f' tt (mkFILE (f_content f') 0 false (f_bad f'))) by done.
    by apply IH.
Qed.

(** Allocation uses the selected reader on the file rewound. *)
Lemma compression_reader_alloc_run c i `{!ReaderOk i} img :
  selects c i available_readers -> ro_decodes c img ->
  exists r f', compression_reader_alloc ndebug available_readers (fopen_content c None)
      = Ok (Some (existT i r), f') /\ ro_inv c img f' r.
Proof.
  intros Hs Hd. unfold compression_reader_alloc.
  destruct (get_supported_run c i (fopen_content c None) Hs) as (f1 & Hr1 & Hc1 & Hb1); [done..|].
  rewrite (bind_Ok _ _ _ _ _ Hr1).
  rewrite (bind_Ok rewind _ f1 tt (fopen_content c None)) by (unfold rewind; by rewrite Hc1, Hb1).
  destruct (ro_alloc c img Hd) as (r & f2 & Hr2 & Hinv). rewrite (bind_Ok _ _ _ _ _ Hr2).
  by exists r, f2.
Qed.

(** What the statics of the layer are between two reads. *)
Definition layer_inv (c img : bytes) (i : CompressionReaderImpl) `{!ReaderOk i}
    (f : FILE) (r : option CompressionReader) : Prop :=
  selects c i available_readers /\ ro_decodes c img /\
  match r with
  | None => f = fopen_content c None
  | Some r => exists st, r = existT i st /\ ro_inv c img f st /\ free_ i st = Ok tt
  end.

(** A read through the layer, the first one included. *)
Lemma read_wrapper_run c img i `{!ReaderOk i} f r off n :
  layer_inv c img i f r -> 0 <= off -> 0 < n < 2 ^ 31 -> off + n <= zlen img ->
  exists f' r', read_wrapper ndebug available_readers off n (f, r)
      = Ok ((n, slice off n img), (f', r')) /\ layer_inv c img i f' r'.
Proof.
  intros (Hs & Hd & Hr) Ho Hn Hin. unfold read_wrapper, layer_inv.
  assert (Hst : exists st f1 r1,
    (let* s := get in
     match snd s with
     | Some r => ret (Some r)
     | None => let* r := zoom fst (fun f s => (f, snd s))
                           (compression_reader_alloc ndebug available_readers) in
               do* modify (fun s => (fst s, r)) in ret r
     end) (f, r) = Ok (Some (existT i st), (f1, r1)) /\ ro_inv c img f1 st).
  { destruct r as [r|].
    - destruct Hr as (st & -> & Hinv & _). by exists st, f, (Some (existT i st)).
    - subst f. destruct (compression_reader_alloc_run c i img Hs Hd) as (st & f1 & Hrun & Hinv).
      exists st, f1, (Some (existT i st)). split; [|done].
      unfold bind, get, zoom, modify, ret. cbn [fst snd]. by rewrite Hrun. }
  destruct Hst as (st & f1 & r1 & Hrun & Hinv). rewrite (bind_Ok _ _ _ _ _ Hrun).
  destruct (ro_read c img f1 st off n Hinv Ho Hn Hin) as (f2 & st2 & Hread & Hinv2 & Hfree).
  exists f2, (Some (existT i st2)). unfold compression_read. cbn [fst snd]. rewrite Hread.
  split; [done|]. split; [done|]. split; [done|]. by exists st2.
Qed.

(** C14: the read layer: whatever reader the probing selects, every read inside
    the decompressed image, the first one (which allocates the reader on the
    rewound file) like the later ones, returns the bytes of the image and
    leaves a state in which this holds again. *)
Theorem read_wrapper_ok c img i `{!ReaderOk i} f r off n :
  layer_inv c img i f r -> 0 <= off -> 0 < n < 2 ^ 31 -> off + n <= zlen img ->
  exists f' r', read_wrapper ndebug available_readers off n (f, r)
      = Ok ((n, slice off n img), (f', r')) /\ layer_inv c img i f' r'.
Proof. by apply read_wrapper_run. Qed.
End layer_facts.

(** A read layer on a file of content [c] keeps the promise to disk.c. *)
Section layer_instance.
Context (ndebug : bool) (available_readers : list CompressionReaderImpl).
Context (i : CompressionReaderImpl) `{!ReaderOk i}.

Lemma layer_read_ok img f r off n :
  (exists c, layer_inv available_readers c img i f r) ->
  0 <= off -> 0 < n < 2 ^ 31 -> off + n <= zlen img ->
  exists f' r', read_wrapper ndebug available_readers off n (f, r)
      = Ok ((n, slice off n img), (f', r')) /\
    exists c, layer_inv available_readers c img i f' r'.
Proof.
  intros [c Hc] Ho Hn Hin.
  destruct (read_wrapper_run ndebug available_readers c img i f r off n Hc Ho Hn Hin)
    as (f' & r' & Hrun & Hinv). exists f', r'. by split; [|exists c].
Qed.

Lemma layer_free_ok img f r :
  (exists c, layer_inv available_readers c img i f r) ->
  free_read_wrapper r = Ok (tt, None).
Proof.
  intros (c & _ & _ & Hr). destruct r as [r|]; [|done]. destruct Hr as (st & -> & _ & Hfree).
  cbn. by rewrite Hfree.
Qed.

Definition layer_ok : @ReadLayerOk _ (layer ndebug available_readers) :=
  @Build_ReadLayerOk _ (layer ndebug available_readers)
    (fun img f r => exists c, layer_inv available_readers c img i f r)
    layer_read_ok layer_free_ok.
End layer_instance.
