(* ===== verification/XzCache.v ===== *)
(** * compression/xz/xz_reader.c, first part: the cache of decompressed blocks

    At most 32 blocks are kept in a doubly linked list, the most recently used
    one first.  The list entries and the blocks are [malloc]ed objects of an
    explicit heap, so a use after [free], a double [free] and a leak are all
    visible: [blocks] maps the address of a live block to its bytes. *)
From Stdlib Require Import ZArith Lia Strings.Byte.
From stdpp Require Import base numbers list option gmap.
From S2P Require Import Prelude DList.

Definition MAX_NUM_BLOCKS_CACHE : Z := 32.

(** The data members of [XzBlockCacheEntry]. *)
Record XzBlockCacheEntry : Type := mkXzEntry {
  e_offset : Z;
  e_size : Z;
  e_data : nat }.

Record XzBlockCache : Type := mkXzCache {
  num_blocks : Z;
  c_first : option nat;
  c_last : option nat }.

(** The cache and the heap; [brk] is above every address in use. *)
Record xz_mem : Type := mkXzMem {
  cache : XzBlockCache;
  entries : gmap nat (cell XzBlockCacheEntry);
  blocks : gmap nat bytes;
  brk : nat }.

Definition set_cache (c : XzBlockCache) (s : xz_mem) : xz_mem :=
  mkXzMem c (entries s) (blocks s) (brk s).
Definition set_entries (e : gmap nat (cell XzBlockCacheEntry)) (s : xz_mem) : xz_mem :=
  mkXzMem (cache s) e (blocks s) (brk s).
Definition set_first (f : option nat) (s : xz_mem) : xz_mem :=
  set_cache (mkXzCache (num_blocks (cache s)) f (c_last (cache s))) s.
Definition set_last (l : option nat) (s : xz_mem) : xz_mem :=
  set_cache (mkXzCache (num_blocks (cache s)) (c_first (cache s)) l) s.
Definition set_num (n : Z) (s : xz_mem) : xz_mem :=
  set_cache (mkXzCache n (c_first (cache s)) (c_last (cache s))) s.
Definition on_entries {A : Type} (m : M (gmap nat (cell XzBlockCacheEntry)) A) : M xz_mem A :=
  zoom entries set_entries m.

(** [malloc] and [free] of a block. *)
Definition block_malloc (b : bytes) : M xz_mem nat := fun s =>
  Ok (brk s, mkXzMem (cache s) (entries s) (<[brk s := b]> (blocks s)) (S (brk s))).
Definition block_free (a : nat) : M xz_mem unit := fun s =>
  match blocks s !! a with
  | Some _ => Ok (tt, mkXzMem (cache s) (entries s) (delete a (blocks s)) (brk s))
  | None => Err UB
  end.
Definition block_get (a : nat) : M xz_mem bytes := fun s =>
  match blocks s !! a with Some b => Ok (b, s) | None => Err UB end.

Section cache.
Context (ndebug : bool).

Definition move_to_cache_head (entry : nat) : M xz_mem unit :=
  let* s := get in
  if decide (c_first (cache s) = Some entry) then ret tt else
  let* e := on_entries (cell_get entry) in
  do* (match next e with
       | Some nx => on_entries (cell_set nx (set_prev (prev e)))
       | None =>
           do* c_assert ndebug (bool_decide (c_last (cache s) = Some entry)) in
           modify (set_last (prev e))
       end) in
  let* e := on_entries (cell_get entry) in
  let* p := non_null (prev e) in
  do* on_entries (cell_set p (set_next (next e))) in
  do* on_entries (cell_set entry (set_prev None)) in
  do* on_entries (cell_set entry (set_next (c_first (cache s)))) in
  let* nx := non_null (c_first (cache s)) in
  do* on_entries (cell_set nx (set_prev (Some entry))) in
  modify (set_first (Some entry)).

(** The loop of [get_cache_block]: the block, its start and its size. *)
Fixpoint get_cache_loop (fuel : nat) (entry : option nat) (offset : Z)
    : M xz_mem (option (nat * Z * Z)) :=
  match fuel with
  | O => fail NoFuel
  | S fuel' =>
      match entry with
      | None => ret None
      | Some a =>
          let* e := on_entries (cell_get a) in
          let v := val e in
          let entry_end := s64 (e_offset v + s64 (e_size v)) in
          if (e_offset v <=? offset) && (offset <? entry_end) then
            do* move_to_cache_head a in
            ret (Some (e_data v, e_offset v, e_size v))
          else get_cache_loop fuel' (next e) offset
      end
  end.
(** The list has [num_blocks] entries. *)
Definition get_cache_block (offset : Z) : M xz_mem (option (nat * Z * Z)) :=
  let* s := get in
  get_cache_loop (S (Z.to_nat (num_blocks (cache s)))) (c_first (cache s)) offset.

(** [malloc] gives an object; its links are set before they are used. *)
Definition add_new_block (block : nat) (offset size : Z) : M xz_mem bool :=
  if MAX_NUM_BLOCKS_CACHE =? 0 then ret false else
  let* s := get in
  if num_blocks (cache s) <? MAX_NUM_BLOCKS_CACHE then
    let new_entry := brk s in
    do* modify (fun s => mkXzMem (cache s)
          (<[new_entry := mkCell (mkXzEntry offset size block) (c_first (cache s)) None]> (entries s))
          (blocks s) (S new_entry)) in
    do* (match c_first (cache s) with
         | Some f => on_entries (cell_set f (set_prev (Some new_entry)))
         | None => ret tt
         end) in
    do* modify (set_first (Some new_entry)) in
    do* (match c_last (cache s) with
         | None =>
             do* c_assert ndebug (num_blocks (cache s) =? 0) in
             modify (set_last (Some new_entry))
         | Some _ => ret tt
         end) in
    do* modify (set_num (u64 (num_blocks (cache s) + 1))) in
    ret true
  else
    let* l := non_null (c_last (cache s)) in
    do* move_to_cache_head l in
    let* s := get in
    let* f := non_null (c_first (cache s)) in
    let* e := on_entries (cell_get f) in
    do* block_free (e_data (val e)) in
    do* on_entries (cell_set f (set_val (mkXzEntry offset size block))) in
    ret true.

(** The loop of [free_cache_entries]: the number of entries freed. *)
Fixpoint free_loop (fuel : nat) (current : option nat) (count : Z) : M xz_mem Z :=
  match fuel with
  | O => fail NoFuel
  | S fuel' =>
      match current with
      | None => ret count
      | Some temp_prev =>
          let* e := on_entries (cell_get temp_prev) in
          do* (match next e with
               | Some c =>
                   if ndebug then ret tt else
                   let* n := on_entries (cell_get c) in
                   ASSERT (bool_decide (prev n = Some temp_prev))
               | None => ret tt
               end) in
          do* block_free (e_data (val e)) in
          do* on_entries (cell_free temp_prev) in
          free_loop fuel' (next e) (u64 (count + 1))
      end
  end.

Definition free_cache_entries : M xz_mem unit :=
  let* s := get in
  do* (match c_first (cache s) with
       | Some f =>
           if ndebug then ret tt else
           let* e := on_entries (cell_get f) in
           do* ASSERT (bool_decide (prev e = None)) in
           let* l := non_null (c_last (cache s)) in
           let* e := on_entries (cell_get l) in
           ASSERT (bool_decide (next e = None))
       | None => ret tt
       end) in
  let* count := free_loop (S (Z.to_nat (num_blocks (cache s)))) (c_first (cache s)) 0 in
  do* c_assert ndebug (count =? num_blocks (cache s)) in
  modify (set_cache (mkXzCache 0 None None)).
End cache.

(** ** The cache as a list *)

(** [l] are the addresses of the entries, [vs] their data, most recently used
    first; [X] are the live blocks that somebody else owns.  Every object of
    the heap is accounted for. *)
Record cache_rep (s : xz_mem) (X : list nat) (l : list nat) (vs : list XzBlockCacheEntry)
    : Prop := {
  cr_seg : dseg (entries s) None l None;
  cr_nodup : NoDup l;
  cr_first : c_first (cache s) = hd_of None l;
  cr_last : c_last (cache s) = last_of None l;
  cr_num : num_blocks (cache s) = zlen l;
  cr_max : zlen l <= MAX_NUM_BLOCKS_CACHE;
  cr_dom : forall a, is_Some (entries s !! a) <-> a ∈ l;
  cr_vals : Forall2 (fun a v => vals (entries s) !! a = Some v) l vs;
  cr_data : NoDup (X ++ (e_data <$> vs));
  cr_blocks : forall d, is_Some (blocks s !! d) <-> d ∈ X ++ (e_data <$> vs);
  cr_brk : forall a, is_Some (entries s !! a) \/ is_Some (blocks s !! a) -> (a < brk s)%nat }.

(** Does the entry hold the byte at the offset? *)
Definition holds (offset : Z) (v : XzBlockCacheEntry) : bool :=
  (e_offset v <=? offset) && (offset <? e_offset v + e_size v).

(** The most recently used entry that holds the offset, and the order after
    its use. *)
Definition lru_get (offset : Z) (vs : list XzBlockCacheEntry)
    : option (XzBlockCacheEntry * list XzBlockCacheEntry) :=
  match list_find (fun v => holds offset v = true) vs with
  | Some (i, v) => Some (v, v :: take i vs ++ drop (S i) vs)
  | None => None
  end.
(** Adding an entry: the least recently used one goes when there are 32. *)
Definition lru_add (v : XzBlockCacheEntry) (vs : list XzBlockCacheEntry) : list XzBlockCacheEntry :=
  if zlen vs <? MAX_NUM_BLOCKS_CACHE then v :: vs else v :: removelast vs.

(** Entries whose arithmetic does not overflow. *)
Definition entry_wf (v : XzBlockCacheEntry) : Prop :=
  0 <= e_offset v /\ 0 <= e_size v /\ e_offset v + e_size v < 2 ^ 63.

(** ** Facts *)

Lemma on_entries_ok {A} (m : M (gmap nat (cell XzBlockCacheEntry)) A) (s : xz_mem) v h :
  m (entries s) = Ok (v, h) -> on_entries m s = Ok (v, set_entries h s).
Proof. intros Hm. unfold on_entries, zoom. by rewrite Hm. Qed.

Lemma set_entries_same s : set_entries (entries s) s = s.
Proof. by destruct s. Qed.

Lemma bind_cell_get {B} a c (k : cell XzBlockCacheEntry -> M xz_mem B) s :
  entries s !! a = Some c -> bind (on_entries (cell_get a)) k s = k c s.
Proof.
  intros Hc. rewrite (bind_Ok _ _ s c s); [done|].
  rewrite (on_entries_ok _ s c (entries s)) by (by apply cell_get_ok). by rewrite set_entries_same.
Qed.
Lemma bind_cell_set {B} a f (k : unit -> M xz_mem B) s :
  is_Some (entries s !! a) ->
  bind (on_entries (cell_set a f)) k s = k tt (set_entries (alter f a (entries s)) s).
Proof.
  intros Ha. rewrite (bind_Ok _ _ _ _ _ (on_entries_ok _ s tt _ (cell_set_ok _ a f Ha))). done.
Qed.

(** A change of the links that keeps the data. *)
Lemma cache_rep_relink s X l vs h l' vs' f la :
  cache_rep s X l vs -> vals h = vals (entries s) -> l' ≡ₚ l ->
  Forall2 (fun a v => vals (entries s) !! a = Some v) l' vs' ->
  (e_data <$> vs') ≡ₚ (e_data <$> vs) ->
  dseg h None l' None -> f = hd_of None l' -> la = last_of None l' ->
  cache_rep (set_first f (set_last la (set_entries h s))) X l' vs'.
Proof.
  intros Hr Hv Hl Hvs Hd Hseg Hf Hla.
  split; cbn [entries cache blocks brk set_first set_last set_entries set_cache c_first c_last num_blocks].
  - done.
  - rewrite Hl. apply (cr_nodup _ _ _ _ Hr).
  - done.
  - done.
  - rewrite (cr_num _ _ _ _ Hr). unfold zlen. by rewrite Hl.
  - unfold zlen. rewrite Hl. apply (cr_max _ _ _ _ Hr).
  - intros a. rewrite (vals_is_Some _ _ a Hv), Hl. apply (cr_dom _ _ _ _ Hr).
  - by rewrite Hv.
  - rewrite Hd. apply (cr_data _ _ _ _ Hr).
  - intros d. rewrite Hd. apply (cr_blocks _ _ _ _ Hr).
  - intros a [Ha|Ha]; apply (cr_brk _ _ _ _ Hr); [left|by right].
    by apply (vals_is_Some _ _ a Hv).
Qed.

Section cache_facts.
Context (ndebug : bool).

(** The first step of a move: the successor's back link, or the end of the
    list. *)
Lemma unlink_next_run s X l1 p a l2 vs c :
  cache_rep s X ((l1 ++ [p]) ++ a :: l2) vs -> entries s !! a = Some c ->
  exists s1,
    (match hd_of None l2 with
     | Some nx => on_entries (cell_set nx (set_prev (Some p)))
     | None => do* c_assert ndebug (bool_decide (c_last (cache s) = Some a)) in
               modify (set_last (Some p))
     end) s = Ok (tt, s1) /\
    s1 = set_last (last_of None (a :: (l1 ++ [p]) ++ l2))
           (set_entries (match l2 with [] => entries s
                         | b :: _ => alter (set_prev (Some p)) b (entries s) end) s) /\
    entries s1 !! a = Some c.
Proof.
  intros Hr Hc. pose proof (cr_nodup _ _ _ _ Hr) as Hnd. pose proof (cr_seg _ _ _ _ Hr) as Hseg.
  assert (Hin : forall x, x ∈ (l1 ++ [p]) ++ a :: l2 -> is_Some (entries s !! x))
    by (intros x; apply (dseg_elem _ _ _ _ _ Hseg)).
  pose proof (cr_last _ _ _ _ Hr) as Hlast. destruct l2 as [|b l2]; cbn [hd_of].
  - rewrite last_of_snoc in Hlast. rewrite Hlast, bool_decide_eq_true_2 by done.
    eexists. split; [by destruct ndebug|]. rewrite app_nil_r, last_of_cons, last_of_snoc.
    split; [by rewrite set_entries_same|done].
  - eexists. split; [apply on_entries_ok, cell_set_ok, Hin|].
    + rewrite elem_of_app, !elem_of_cons. tauto.
    + split; [|cbn [entries set_entries]; rewrite lookup_alter_ne; [done|]].
      * assert (Hla : last_of None (a :: (l1 ++ [p]) ++ b :: l2)
                      = last_of None ((l1 ++ [p]) ++ a :: b :: l2)).
        { rewrite last_of_cons. unfold last_of. rewrite !last_app, !last_cons.
          by destruct (list.last l2). }
        rewrite Hla, <- Hlast. by destruct s as [[] ? ? ?].
      * intros ->. apply list.NoDup_app in Hnd as (_ & _ & Hd).
        apply list.NoDup_cons in Hd as [Hd _]. apply Hd, elem_of_cons. by left.
Qed.

Lemma move_run s X l1 a l2 v1 v v2 :
  cache_rep s X (l1 ++ a :: l2) (v1 ++ v :: v2) -> length l1 = length v1 ->
  exists s', move_to_cache_head ndebug a s = Ok (tt, s') /\
    cache_rep s' X (a :: l1 ++ l2) (v :: v1 ++ v2) /\ blocks s' = blocks s /\ brk s' = brk s.
Proof.
  intros Hr Hlen. pose proof (cr_seg _ _ _ _ Hr) as Hseg. pose proof (cr_nodup _ _ _ _ Hr) as Hnd.
  unfold move_to_cache_head. rewrite (bind_Ok get _ s s s) by done.
  rewrite (cr_first _ _ _ _ Hr).
  destruct l1 as [|f l1 _] using rev_ind.
  { cbn [app hd_of] in *. destruct v1; [|done]. rewrite decide_True by done. by exists s. }
  rename f into p.
  assert (Hf : exists f, hd_of None ((l1 ++ [p]) ++ a :: l2) = Some f /\ hd_of None (l1 ++ [p]) = Some f)
    by (destruct l1; cbn; eauto).
  destruct Hf as (f & Hf & Hf1). rewrite Hf.
  assert (Hin : forall x, x ∈ (l1 ++ [p]) ++ a :: l2 -> is_Some (entries s !! x))
    by (intros x; apply (dseg_elem _ _ _ _ _ Hseg)).
  destruct (dseg_mid _ _ _ _ _ _ Hseg) as (c & Hc & Hpc & Hnc). rewrite last_of_snoc in Hpc.
  assert (Hsf : is_Some (entries s !! f)).
  { apply Hin. destruct l1; injection Hf1 as <-; apply elem_of_cons; by left. }
  assert (Hsp : is_Some (entries s !! p)).
  { apply Hin. rewrite !elem_of_app, list_elem_of_singleton. tauto. }
  pose proof (moved_seg _ _ _ _ _ _ Hnd Hf1 Hseg) as Hmoved.
  assert (Hfa : Some f <> Some a).
  { intros [= ->]. apply list.NoDup_app in Hnd as (_ & Hd & _). apply (Hd a).
    - destruct l1; injection Hf1 as ->; apply elem_of_cons; by left.
    - apply elem_of_cons. by left. }
  rewrite decide_False by done. rewrite (bind_cell_get a c) by done. rewrite Hnc, Hpc.
  assert (Hap : p <> a).
  { intros ->. apply list.NoDup_app in Hnd as (_ & Hd & _). apply (Hd a).
    - rewrite elem_of_app, list_elem_of_singleton. tauto.
    - apply elem_of_cons. by left. }
  destruct (unlink_next_run s X l1 p a l2 _ c Hr Hc) as (s1 & Hrun & Hs1 & Hc1).
  rewrite (bind_Ok _ _ _ _ _ Hrun).
  rewrite (bind_cell_get a c) by done. rewrite Hpc, Hnc.
  rewrite (bind_Ok (non_null (Some p)) _ s1 p s1) by done.
  assert (Hs1f : forall x, is_Some (entries s !! x) -> is_Some (entries s1 !! x)).
  { intros x Hx. rewrite Hs1. cbn [entries set_last set_entries set_cache].
    destruct l2; [done|]. by apply is_Some_alter. }
  rewrite bind_cell_set by auto. rewrite bind_cell_set by (cbn; rewrite lookup_alter_ne; eauto).
  rewrite bind_cell_set by (cbn [entries set_entries]; rewrite lookup_alter_eq, lookup_alter_ne; [|done]; rewrite Hc1; eauto).
  rewrite (bind_Ok (non_null (Some f)) _ _ f _) by done.
  rewrite bind_cell_set by (cbn [entries set_entries]; do 3 apply is_Some_alter; auto).
  eexists. split; [reflexivity|]. cbn [entries set_entries] in *.
  assert (Hh : alter (set_prev (Some a)) f (alter (set_next (Some f)) a (alter (set_prev None) a
             (alter (set_next (hd_of None l2)) p (entries s1)))) = moved (entries s) f p a l2)
    by (rewrite Hs1; reflexivity).
  rewrite Hh, Hs1. pose proof (moved_vals (entries s) f p a l2) as Hv.
  split; [|done].
  apply (cache_rep_relink s X _ _ (moved (entries s) f p a l2) _ _ (Some a)
           (last_of None (a :: (l1 ++ [p]) ++ l2)) Hr Hv); try done.
  - by rewrite Permutation_middle.
  - pose proof (cr_vals _ _ _ _ Hr) as Hvs. apply Forall2_app_inv in Hvs as [H1 H2]; [|done].
    apply Forall2_cons in H2 as [H2 H3]. constructor; [done|]. by apply Forall2_app.
  - rewrite !fmap_cons, !fmap_app, fmap_cons. by rewrite Permutation_middle.
Qed.

Lemma rep_length s X l vs : cache_rep s X l vs -> length l = length vs.
Proof. intros Hr. by eapply Forall2_length, cr_vals. Qed.

Lemma get_loop_run fuel s X l1 v1 l2 v2 off :
  cache_rep s X (l1 ++ l2) (v1 ++ v2) -> length l1 = length v1 -> (length l2 < fuel)%nat ->
  Forall entry_wf v2 ->
  match list_find (fun v => holds off v = true) v2 with
  | Some (i, v) => exists s' l',
      get_cache_loop ndebug fuel (hd_of None l2) off s
        = Ok (Some (e_data v, e_offset v, e_size v), s') /\
      cache_rep s' X l' (v :: v1 ++ take i v2 ++ drop (S i) v2) /\
      blocks s' = blocks s /\ brk s' = brk s
  | None => get_cache_loop ndebug fuel (hd_of None l2) off s = Ok (None, s)
  end.
Proof.
  revert fuel l1 v1 l2. induction v2 as [|v v2 IH]; intros fuel l1 v1 l2 Hr Hlen Hf Hwf;
    pose proof (rep_length _ _ _ _ Hr) as Hl; rewrite !length_app in Hl;
    (destruct fuel as [|fuel]; [lia|]); cbn [list_find].
  - destruct l2; [done|cbn in Hl; lia].
  - destruct l2 as [|a l2]; [cbn in Hl; lia|]. cbn [hd_of get_cache_loop].
    destruct (dseg_mid _ _ _ _ _ _ (cr_seg _ _ _ _ Hr)) as (c & Hc & _ & Hnc).
    rewrite (bind_cell_get a c) by done.
    pose proof (cr_vals _ _ _ _ Hr) as Hvs. apply Forall2_app_inv in Hvs as [_ H2]; [|done].
    apply Forall2_cons in H2 as [Hv _]. unfold vals in Hv. rewrite lookup_fmap, Hc in Hv.
    injection Hv as Hv. rewrite Hv. apply Forall_cons in Hwf as [(Ho & Hs & Hend) Hwf].
    rewrite (s64_small (e_size v)), s64_small by lia. fold (holds off v).
    destruct (decide (holds off v = true)) as [Hh|Hh].
    + rewrite Hh. destruct (move_run s X l1 a l2 v1 v v2 Hr Hlen) as (s' & Hrun & Hr' & Hb & Hk).
      exists s', (a :: l1 ++ l2). rewrite (bind_Ok _ _ _ _ _ Hrun). done.
    + apply not_true_is_false in Hh. rewrite Hh, Hnc.
      specialize (IH fuel (l1 ++ [a]) (v1 ++ [v]) l2).
      rewrite <- !app_assoc in IH. cbn [app] in IH.
      specialize (IH Hr ltac:(rewrite !length_app; cbn; lia) ltac:(cbn in Hf; lia) Hwf).
      destruct (list_find _ v2) as [[i w]|]; cbn; [|done].
      rewrite <- app_assoc in IH. exact IH.
Qed.

(** The run of [get_cache_block]. *)
Lemma get_cache_block_run s X l vs off :
  cache_rep s X l vs -> Forall entry_wf vs ->
  match lru_get off vs with
  | Some (v, vs') => exists s' l', get_cache_block ndebug off s
        = Ok (Some (e_data v, e_offset v, e_size v), s') /\
      cache_rep s' X l' vs' /\ blocks s' = blocks s /\ brk s' = brk s
  | None => get_cache_block ndebug off s = Ok (None, s)
  end.
Proof.
  intros Hr Hwf. unfold get_cache_block, lru_get. rewrite (bind_Ok get _ s s s) by done.
  rewrite (cr_first _ _ _ _ Hr), (cr_num _ _ _ _ Hr).
  pose proof (get_loop_run (S (Z.to_nat (zlen l))) s X [] [] l vs off Hr eq_refl
    ltac:(unfold zlen; lia) Hwf) as Hg.
  destruct (list_find _ vs) as [[i v]|]; exact Hg.
Qed.

(** A new entry in front. *)
Lemma push_rep s X l vs block off size la :
  cache_rep s (block :: X) l vs -> zlen l < MAX_NUM_BLOCKS_CACHE ->
  let new := brk s in
  let v := mkXzEntry off size block in
  let h := <[new := mkCell v (hd_of None l) None]> (entries s) in
  let h' := match hd_of None l with Some f => alter (set_prev (Some new)) f h | None => h end in
  la = last_of None (new :: l) ->
  cache_rep (mkXzMem (mkXzCache (zlen l + 1) (Some new) la) h' (blocks s) (S new)) X (new :: l)
    (v :: vs).
Proof.
  intros Hr Hmax new v h h' Hla. pose proof (cr_seg _ _ _ _ Hr) as Hseg.
  assert (Hnew : new ∉ l).
  { intros Hi. apply (cr_dom _ _ _ _ Hr) in Hi. pose proof (cr_brk _ _ _ _ Hr new (or_introl Hi)).
    unfold new in *. lia. }
  assert (Hv : vals h' = <[new := v]> (vals (entries s))).
  { unfold h', vals. destruct (hd_of None l); [fold (vals (alter (set_prev (Some new)) n h)); rewrite vals_set_prev|];
      unfold h, vals; by rewrite fmap_insert. }
  assert (Hh' : h' !! new = Some (mkCell v (hd_of None l) None)).
  { unfold h'. destruct l as [|f l]; cbn [hd_of]; [|rewrite lookup_alter_ne];
      unfold h; try apply lookup_insert_eq. intros ->. apply Hnew, elem_of_cons. by left. }
  assert (Hdom : forall a, is_Some (h' !! a) <-> a = new \/ a ∈ l).
  { intros a. rewrite <- (cr_dom _ _ _ _ Hr). unfold h'.
    assert (Hi : is_Some (h !! a) <-> a = new \/ is_Some (entries s !! a)).
    { unfold h. destruct (decide (a = new)) as [->|Hne]; [rewrite lookup_insert_eq; naive_solver|].
      rewrite lookup_insert_ne by done. naive_solver. }
    destruct (hd_of None l) as [f|]; [|done]. rewrite <- Hi.
    apply vals_is_Some. apply vals_set_prev. }
  split; cbn [entries cache blocks brk c_first c_last num_blocks].
  - cbn [dseg]. split; [by exists (mkCell v (hd_of None l) None)|].
    unfold h'. destruct l as [|f l]; [done|]. cbn [hd_of].
    apply (dseg_set_prev _ None); [|by apply dseg_insert].
    by apply (list.NoDup_cons f l), (cr_nodup _ _ _ _ Hr).
  - apply list.NoDup_cons. split; [done|apply (cr_nodup _ _ _ _ Hr)].
  - done.
  - done.
  - rewrite zlen_cons. lia.
  - rewrite zlen_cons. unfold MAX_NUM_BLOCKS_CACHE in *. lia.
  - intros a. by rewrite Hdom, elem_of_cons.
  - rewrite Hv. constructor; [by rewrite lookup_insert_eq|].
    eapply Forall2_impl; [|intros x y Hxy; exact Hxy].
    pose proof (cr_vals _ _ _ _ Hr) as Hvs. clear - Hvs Hnew.
    induction Hvs as [|a w l vs Ha Hvs IH]; [done|]. rewrite elem_of_cons in Hnew.
    constructor; [|apply IH; tauto]. rewrite lookup_insert_ne; [done|]. intros ->. tauto.
  - cbn [fmap list_fmap]. rewrite <- Permutation_middle. apply (cr_data _ _ _ _ Hr).
  - intros d. cbn [fmap list_fmap]. rewrite <- Permutation_middle. apply (cr_blocks _ _ _ _ Hr).
  - intros a [Ha|Ha].
    + apply Hdom in Ha as [->|Ha]; [unfold new; lia|]. apply (cr_dom _ _ _ _ Hr) in Ha.
      pose proof (cr_brk _ _ _ _ Hr a (or_introl Ha)). unfold new. lia.
    + pose proof (cr_brk _ _ _ _ Hr a (or_intror Ha)). unfold new. lia.
Qed.

(** The first entry gets another block, its own one is freed. *)
Lemma replace_rep s X a l v vs block off size :
  cache_rep s (block :: X) (a :: l) (v :: vs) ->
  let w := mkXzEntry off size block in
  cache_rep (mkXzMem (cache s) (alter (set_val w) a (entries s)) (delete (e_data v) (blocks s))
    (brk s)) X (a :: l) (w :: vs).
Proof.
  intros Hr w. pose proof (cr_data _ _ _ _ Hr) as Hnd. cbn [fmap list_fmap app] in Hnd.
  assert (Ha : is_Some (entries s !! a)) by (apply (cr_dom _ _ _ _ Hr), elem_of_cons; by left).
  assert (Hp : block :: X ++ e_data v :: (e_data <$> vs) ≡ₚ e_data v :: X ++ block :: (e_data <$> vs)).
  { rewrite <- !Permutation_middle. apply perm_swap. }
  rewrite Hp in Hnd. apply list.NoDup_cons in Hnd as [Hd Hnd].
  split; cbn [entries cache blocks brk].
  - apply dseg_set_val, (cr_seg _ _ _ _ Hr).
  - apply (cr_nodup _ _ _ _ Hr).
  - apply (cr_first _ _ _ _ Hr).
  - apply (cr_last _ _ _ _ Hr).
  - apply (cr_num _ _ _ _ Hr).
  - apply (cr_max _ _ _ _ Hr).
  - intros b. rewrite <- (cr_dom _ _ _ _ Hr).
    destruct (decide (a = b)) as [<-|Hne]; [|by rewrite lookup_alter_ne].
    rewrite lookup_alter_eq. by destruct (entries s !! a).
  - rewrite vals_set_val by done. pose proof (cr_vals _ _ _ _ Hr) as Hvs.
    apply Forall2_cons in Hvs as [_ Hvs]. constructor; [by rewrite lookup_insert_eq|].
    pose proof (cr_nodup _ _ _ _ Hr) as Hn. apply list.NoDup_cons in Hn as [Hn _]. clear - Hvs Hn.
    induction Hvs as [|b u l vs Hb Hvs IH]; [done|]. rewrite elem_of_cons in Hn.
    constructor; [|apply IH; tauto]. rewrite lookup_insert_ne; [done|]. intros ->. tauto.
  - done.
  - intros d. cbn [fmap list_fmap].
    assert (Hb : is_Some (blocks s !! d) <-> d = e_data v \/ d ∈ X ++ block :: (e_data <$> vs)).
    { rewrite (cr_blocks _ _ _ _ Hr d). cbn [fmap list_fmap app]. by rewrite Hp, elem_of_cons. }
    destruct (decide (d = e_data v)) as [->|Hne].
    + rewrite lookup_delete_eq. split; [by intros [? ?]|done].
    + rewrite lookup_delete_ne by done. rewrite Hb. tauto.
  - intros b Hb. apply (cr_brk _ _ _ _ Hr). destruct Hb as [Hb|Hb]; [left|right].
    + destruct (decide (a = b)) as [<-|Hne]; [done|]. by rewrite lookup_alter_ne in Hb.
    + destruct Hb as [x Hb]. apply lookup_delete_Some in Hb as [_ Hb]. eauto.
Qed.

(** The run of [add_new_block], by the number of entries. *)
Lemma add_room_run s X l vs block off size :
  cache_rep s (block :: X) l vs -> zlen l < MAX_NUM_BLOCKS_CACHE ->
  exists s' l', add_new_block ndebug block off size s = Ok (true, s') /\
    cache_rep s' X l' (mkXzEntry off size block :: vs) /\ blocks s' = blocks s.
Proof.
  intros Hr Hlt. unfold add_new_block. change (MAX_NUM_BLOCKS_CACHE =? 0) with false. cbv iota.
  rewrite (bind_Ok get _ s s s) by done. rewrite (cr_num _ _ _ _ Hr), (proj2 (Z.ltb_lt _ _)) by lia.
  pose proof (cr_first _ _ _ _ Hr) as Hfirst. pose proof (cr_last _ _ _ _ Hr) as Hlast.
  pose proof (push_rep s X l vs block off size (last_of None (brk s :: l)) Hr Hlt eq_refl) as Hp.
  cbv zeta in Hp. pose proof (zlen_nonneg l). unfold MAX_NUM_BLOCKS_CACHE in Hlt.
  rewrite u64_small by lia. eexists _, (brk s :: l). split; [|split; [exact Hp|done]].
  destruct s as [[num fi la] es bl b]. cbn [c_first c_last cache brk] in *. subst fi la.
  unfold bind at 1, modify at 1. cbn [cache entries blocks brk].
  rewrite last_of_cons. destruct l as [|f l]; cbn [hd_of].
  - cbn [last_of list.last]. unfold bind, modify, ret. by destruct ndebug.
  - assert (Hsome : exists x, last_of None (f :: l) = Some x).
    { rewrite last_of_cons. unfold last_of. destruct (list.last l); eauto. }
    destruct Hsome as [x Hx]. rewrite Hx.
    assert (Hf : is_Some (<[b := mkCell (mkXzEntry off size block) (Some f) None]> es !! f)).
    { assert (Hin : is_Some (es !! f)) by (apply (cr_dom _ _ _ _ Hr), elem_of_cons; by left).
      destruct (decide (b = f)) as [->|]; [rewrite lookup_insert_eq; eauto|by rewrite lookup_insert_ne]. }
    rewrite bind_cell_set by exact Hf. unfold bind, modify, ret. cbn.
    replace (last_of (Some b) (f :: l)) with (Some x); [done|].
    rewrite last_of_cons in Hx |- *. exact (eq_sym Hx).
Qed.

Lemma add_full_run s X l vs block off size :
  cache_rep s (block :: X) l vs -> zlen l = MAX_NUM_BLOCKS_CACHE ->
  exists s' l' d, add_new_block ndebug block off size s = Ok (true, s') /\
    cache_rep s' X l' (mkXzEntry off size block :: removelast vs) /\ blocks s' = delete d (blocks s).
Proof.
  intros Hr Heq. unfold add_new_block. change (MAX_NUM_BLOCKS_CACHE =? 0) with false. cbv iota.
  rewrite (bind_Ok get _ s s s) by done. rewrite (cr_num _ _ _ _ Hr), (proj2 (Z.ltb_ge _ _)) by lia.
  pose proof (rep_length _ _ _ _ Hr) as Hlen.
  destruct l as [|a l _] using rev_ind; [by vm_compute in Heq|].
  destruct vs as [|v vs _] using rev_ind; [rewrite length_app in Hlen; cbn in Hlen; lia|].
  rewrite !length_app in Hlen. cbn in Hlen. rewrite (cr_last _ _ _ _ Hr), last_of_snoc.
  rewrite (bind_Ok (non_null (Some a)) _ s a s) by done.
  destruct (move_run s (block :: X) l a [] vs v [] Hr ltac:(lia)) as (s1 & Hrun & Hr1 & Hb & Hk).
  rewrite (bind_Ok _ _ _ _ _ Hrun), (bind_Ok get _ s1 s1 s1) by done.
  rewrite (cr_first _ _ _ _ Hr1). cbn [hd_of].
  rewrite (bind_Ok (non_null (Some a)) _ s1 a s1) by done.
  rewrite !app_nil_r in Hr1. pose proof (cr_vals _ _ _ _ Hr1) as Hvs.
  apply Forall2_cons in Hvs as [Hv _]. unfold vals in Hv. rewrite lookup_fmap in Hv.
  destruct (entries s1 !! a) as [c|] eqn:Hc; [|done]. injection Hv as Hv.
  rewrite (bind_cell_get a c) by done. rewrite Hv.
  pose proof (replace_rep s1 X a l v vs block off size Hr1) as Hr2. cbv zeta in Hr2.
  assert (Hlive : is_Some (blocks s1 !! e_data v)).
  { apply (cr_blocks _ _ _ _ Hr1). cbn [fmap list_fmap].
    apply elem_of_app. right. apply elem_of_cons. by left. }
  destruct Hlive as [bv Hbv].
  eexists _, (a :: l), (e_data v). split; [|split].
  - unfold bind at 1, block_free at 1. rewrite Hbv. rewrite bind_cell_set by (cbn; eauto). reflexivity.
  - rewrite removelast_last. exact Hr2.
  - cbn [blocks set_entries]. by rewrite Hb.
Qed.

Lemma add_new_block_run s X l vs block off size :
  cache_rep s (block :: X) l vs ->
  exists s' l', add_new_block ndebug block off size s = Ok (true, s') /\
    cache_rep s' X l' (lru_add (mkXzEntry off size block) vs) /\
    forall d b, blocks s' !! d = Some b -> blocks s !! d = Some b.
Proof.
  intros Hr. unfold lru_add. pose proof (cr_max _ _ _ _ Hr) as Hmax.
  assert (Hz : zlen vs = zlen l) by (unfold zlen; by rewrite (rep_length _ _ _ _ Hr)).
  rewrite Hz. destruct (Z.ltb_spec (zlen l) MAX_NUM_BLOCKS_CACHE) as [Hlt|Hge].
  - destruct (add_room_run s X l vs block off size Hr Hlt) as (s' & l' & Hrun & Hr' & Hb).
    exists s', l'. split; [done|]. split; [done|]. by rewrite Hb.
  - destruct (add_full_run s X l vs block off size Hr ltac:(lia)) as (s' & l' & d & Hrun & Hr' & Hb).
    exists s', l'. split; [done|]. split; [done|]. rewrite Hb. intros x b Hx.
    by apply lookup_delete_Some in Hx as [_ Hx].
Qed.

(** ** Freeing *)

Lemma free_loop_run fuel s l vs p count :
  dseg (entries s) p l None -> NoDup l -> Forall2 (fun a v => vals (entries s) !! a = Some v) l vs ->
  NoDup (e_data <$> vs) -> Forall (fun d => is_Some (blocks s !! d)) (e_data <$> vs) ->
  (length l < fuel)%nat -> 0 <= count -> count + zlen l < 2 ^ 64 ->
  exists s', free_loop ndebug fuel (hd_of None l) count s = Ok (count + zlen l, s') /\
    (forall a, is_Some (entries s' !! a) <-> is_Some (entries s !! a) /\ a ∉ l) /\
    (forall d, is_Some (blocks s' !! d) <-> is_Some (blocks s !! d) /\ d ∉ e_data <$> vs) /\
    cache s' = cache s /\ brk s' = brk s.
Proof.
  revert s l p vs count. induction fuel as [|fuel IH]; intros s l p vs count Hseg Hnd Hvs Hdn Hlive Hf Hc Hmax;
    [lia|].
  destruct l as [|a l]; cbn [free_loop hd_of].
  { inversion Hvs; subst. exists s. rewrite zlen_nil, Z.add_0_r. split; [done|].
    split; [|split; [|done]]; intros x; cbn; rewrite elem_of_nil; tauto. }
  destruct vs as [|v vs]; [by inversion Hvs|]. apply Forall2_cons in Hvs as [Hv Hvs].
  destruct Hseg as [(c & Hca & Hpc & Hnc) Hseg]. unfold vals in Hv. rewrite lookup_fmap, Hca in Hv.
  injection Hv as Hv. rewrite (bind_cell_get a c) by done. rewrite Hnc, Hv.
  apply list.NoDup_cons in Hnd as [Ha Hnd]. cbn [fmap list_fmap] in Hdn, Hlive.
  apply list.NoDup_cons in Hdn as [Hd Hdn]. apply Forall_cons in Hlive as [[b Hb] Hlive].
  assert (Hassert : (match hd_of None l with
     | Some c => if ndebug then ret tt else
                 let* n := on_entries (cell_get c) in ASSERT (bool_decide (prev n = Some a))
     | None => ret tt
     end) s = Ok (tt, s)).
  { destruct l as [|x l]; [done|]. cbn [hd_of]. destruct ndebug; [done|].
    destruct Hseg as [(cx & Hcx & Hpx & _) _]. rewrite (bind_cell_get x cx) by done.
    by rewrite Hpx, bool_decide_eq_true_2. }
  rewrite (bind_Ok _ _ _ _ _ Hassert). unfold bind at 1, block_free at 1. rewrite Hb.
  set (s1 := mkXzMem _ _ _ _).
  rewrite (bind_Ok _ _ s1 tt (set_entries (delete a (entries s)) s1))
    by (apply on_entries_ok, cell_free_ok; cbn; eauto).
  rewrite u64_small by (rewrite zlen_cons in Hmax; pose proof (zlen_nonneg l); lia).
  destruct (IH (set_entries (delete a (entries s)) s1) l (Some a) vs (count + 1))
    as (s' & Hrun & He & Hbl & Hcache & Hbrk).
  - by apply dseg_delete.
  - done.
  - cbn [entries set_entries]. clear - Hvs Ha. induction Hvs as [|x u l vs Hx Hvs IH]; [done|].
    rewrite elem_of_cons in Ha. constructor; [|apply IH; tauto].
    unfold vals in *. rewrite lookup_fmap, lookup_delete_ne by (intros ->; tauto).
    by rewrite <- lookup_fmap.
  - done.
  - unfold s1. cbn [blocks set_entries]. clear - Hlive Hd. induction Hlive as [|x ds Hx Hlive IH]; [done|].
    rewrite elem_of_cons in Hd. constructor; [|apply IH; tauto].
    by rewrite lookup_delete_ne by (intros He; apply Hd; by left).
  - cbn in Hf. lia.
  - lia.
  - rewrite zlen_cons in Hmax. lia.
  - exists s'. rewrite Hrun, zlen_cons. split; [do 2 f_equal; lia|]. split; [|split; [|done]].
    + intros x. rewrite He. cbn [entries set_entries]. rewrite elem_of_cons.
      destruct (decide (a = x)) as [<-|Hne].
      * rewrite lookup_delete_eq. split; [by intros [[? ?] _]|tauto].
      * rewrite lookup_delete_ne by done. split; [intros [? ?]; split; [done|]; by intros [->|?]|tauto].
    + intros x. rewrite Hbl. unfold s1. cbn [blocks set_entries fmap list_fmap]. rewrite elem_of_cons.
      destruct (decide (e_data v = x)) as [<-|Hne].
      * rewrite lookup_delete_eq. split; [by intros [[? ?] _]|tauto].
      * rewrite lookup_delete_ne by done. split; [intros [? ?]; split; [done|]; by intros [->|?]|tauto].
Qed.

Lemma free_cache_entries_run s X l vs :
  cache_rep s X l vs ->
  exists s', free_cache_entries ndebug s = Ok (tt, s') /\ cache_rep s' X [] [].
Proof.
  intros Hr. unfold free_cache_entries. rewrite (bind_Ok get _ s s s) by done.
  pose proof (cr_seg _ _ _ _ Hr) as Hseg. pose proof (cr_data _ _ _ _ Hr) as Hdata.
  apply list.NoDup_app in Hdata as (HX & Hdis & Hds).
  assert (Hassert : (match c_first (cache s) with
     | Some f => if ndebug then ret tt else
         let* e := on_entries (cell_get f) in
         do* ASSERT (bool_decide (prev e = None)) in
         let* l := non_null (c_last (cache s)) in
         let* e := on_entries (cell_get l) in ASSERT (bool_decide (next e = None))
     | None => ret tt
     end) s = Ok (tt, s)).
  { rewrite (cr_first _ _ _ _ Hr), (cr_last _ _ _ _ Hr). destruct l as [|f l]; [done|].
    cbn [hd_of]. destruct ndebug; [done|]. destruct Hseg as [(c & Hc & Hp & _) _].
    rewrite (bind_cell_get f c) by done. rewrite Hp, bool_decide_eq_true_2 by done.
    rewrite (bind_Ok (ASSERT true) _ s tt s) by done.
    pose proof (cr_seg _ _ _ _ Hr) as Hseg'.
    destruct (f :: l) as [|z l' _] eqn:E using rev_ind; [done|]. rewrite last_of_snoc.
    rewrite (bind_Ok (non_null (Some z)) _ s z s) by done.
    destruct (dseg_mid _ _ _ _ _ _ Hseg') as (cz & Hcz & _ & Hnz).
    rewrite (bind_cell_get z cz) by done. by rewrite Hnz, bool_decide_eq_true_2. }
  rewrite (bind_Ok _ _ _ _ _ Hassert), (cr_first _ _ _ _ Hr), (cr_num _ _ _ _ Hr).
  pose proof (cr_max _ _ _ _ Hr) as Hmax. unfold MAX_NUM_BLOCKS_CACHE in Hmax.
  destruct (free_loop_run (S (Z.to_nat (zlen l))) s l vs None 0 Hseg (cr_nodup _ _ _ _ Hr)
    (cr_vals _ _ _ _ Hr) Hds) as (s' & Hrun & He & Hb & Hc & Hk).
  - apply Forall_forall. intros d Hd. apply (cr_blocks _ _ _ _ Hr). rewrite elem_of_app. by right.
  - unfold zlen. lia.
  - lia.
  - lia.
  - rewrite (bind_Ok _ _ _ _ _ Hrun), Z.add_0_l, Z.eqb_refl.
    rewrite (bind_Ok (c_assert ndebug true) _ s' tt s') by (by destruct ndebug).
    eexists. split; [reflexivity|]. split; cbn [entries cache blocks brk set_cache c_first c_last num_blocks];
      try done.
    + apply base.NoDup_nil_2.
    + intros a. rewrite He, elem_of_nil, (cr_dom _ _ _ _ Hr). tauto.
    + by rewrite app_nil_r.
    + intros d. rewrite Hb, app_nil_r, (cr_blocks _ _ _ _ Hr), elem_of_app. split; [tauto|].
      intros Hd. split; [by left|]. by apply Hdis.
    + intros a Ha. rewrite Hk. apply (cr_brk _ _ _ _ Hr). rewrite He, Hb in Ha. tauto.
Qed.
End cache_facts.

(** What the abstract operations keep. *)
Lemma lru_get_Some off vs v vs' :
  lru_get off vs = Some (v, vs') -> holds off v = true /\ v ∈ vs /\ vs' ≡ₚ vs.
Proof.
  unfold lru_get. destruct (list_find _ vs) as [[i w]|] eqn:E; [|done]. intros [= <- <-].
  apply list_find_Some in E as (Hi & Hh & _). split; [done|].
  split; [by eapply list_elem_of_lookup_2|].
  rewrite <- (take_drop_middle vs i w Hi) at 3. by rewrite Permutation_middle.
Qed.

Lemma lru_add_elem v vs w : w ∈ lru_add v vs -> w = v \/ w ∈ vs.
Proof.
  unfold lru_add. destruct (_ <? _); [by rewrite elem_of_cons|].
  destruct vs as [|x vs _] using rev_ind; rewrite elem_of_cons; [done|].
  rewrite removelast_last, elem_of_app. tauto.
Qed.

(** A new object is nobody else's. *)
Lemma malloc_rep m X l vs b :
  cache_rep m X l vs ->
  cache_rep (mkXzMem (cache m) (entries m) (<[brk m := b]> (blocks m)) (S (brk m)))
    (brk m :: X) l vs.
Proof.
  intros Hr. pose proof (cr_brk _ _ _ _ Hr) as Hbrk. pose proof (cr_blocks _ _ _ _ Hr) as Hbl.
  destruct Hr. split; cbn [entries cache blocks brk]; try done.
  - cbn [app]. apply list.NoDup_cons. split; [|done]. intros Hin. apply Hbl in Hin.
    specialize (Hbrk _ (or_intror Hin)). lia.
  - intros d. cbn [app]. rewrite elem_of_cons, <- Hbl.
    destruct (decide (d = brk m)) as [->|Hne]; [rewrite lookup_insert_eq; naive_solver|].
    rewrite lookup_insert_ne by done. naive_solver.
  - intros a Ha. destruct (decide (a = brk m)) as [->|Hne]; [lia|].
    rewrite lookup_insert_ne in Ha by done. specialize (Hbrk _ Ha). lia.
Qed.

Section cache_theorems.
Context (ndebug : bool).

(** C27: get_cache_block on the linked structs is the search of the abstract
    list: it gives the most recently used entry that holds the offset and moves
    it to the front, and changes nothing on a miss. *)
Theorem get_cache_block_refines s X l vs off :
  cache_rep s X l vs -> Forall entry_wf vs ->
  match lru_get off vs with
  | Some (v, vs') => exists s' l', get_cache_block ndebug off s
        = Ok (Some (e_data v, e_offset v, e_size v), s') /\
      cache_rep s' X l' vs' /\ blocks s' = blocks s
  | None => get_cache_block ndebug off s = Ok (None, s)
  end.
Proof.
  intros Hr Hwf. pose proof (get_cache_block_run ndebug s X l vs off Hr Hwf) as Hg.
  destruct (lru_get off vs) as [[v vs']|]; [|done].
  destruct Hg as (s' & l' & H1 & H2 & H3 & _). by exists s', l'.
Qed.

(** C28: add_new_block takes over the block and puts it in front; when 32
    blocks are cached the least recently used one is freed, its entry reused. *)
Theorem add_new_block_refines s X l vs block off size :
  cache_rep s (block :: X) l vs ->
  exists s' l', add_new_block ndebug block off size s = Ok (true, s') /\
    cache_rep s' X l' (lru_add (mkXzEntry off size block) vs) /\
    zlen (lru_add (mkXzEntry off size block) vs) <= MAX_NUM_BLOCKS_CACHE /\
    forall d b, blocks s' !! d = Some b -> blocks s !! d = Some b.
Proof.
  intros Hr. destruct (add_new_block_run ndebug s X l vs block off size Hr) as (s' & l' & H1 & H2 & H3).
  exists s', l'. split; [done|]. split; [done|]. split; [|done].
  pose proof (cr_max _ _ _ _ H2). pose proof (rep_length _ _ _ _ H2). unfold zlen in *. lia.
Qed.
End cache_theorems.
