(* ===== verification/XzReader.v ===== *)
(** * compression/xz/xz_reader.c, second part: indexes, blocks and reads

    liblzma is the parameter [Lzma]: the functions the source calls, each as a
    function of what it is given.  An [lzma_index] is an object of a heap, so
    that freeing one twice is visible; [malloc] of a block gives a live block
    of the heap of XzCache.  A function that fills in a struct only when it
    returns LZMA_OK gives [inr] the struct or [inl] another code. *)
From Stdlib Require Import ZArith Lia Strings.Byte.
From stdpp Require Import base numbers list option gmap.
From S2P Require Import Prelude Clib Disk Reader DList XzCache.

(** lzma.h: [lzma_ret], and the sizes it defines. *)
Definition LZMA_OK : Z := 0.
Definition LZMA_STREAM_END : Z := 1.
Definition LZMA_OPTIONS_ERROR : Z := 8.
Definition LZMA_DATA_ERROR : Z := 9.
Definition LZMA_PROG_ERROR : Z := 11.
Definition LZMA_STREAM_HEADER_SIZE : Z := 12.

(** What [lzma_index_iter] says about a block. *)
Record iter_block : Type := mkIterBlock {
  uncompressed_file_offset : Z;
  uncompressed_size : Z;
  compressed_file_offset : Z;
  unpadded_size : Z;
  check : Z }.

Class Lzma : Type := {
  lzma_index : Type;
  lzma_stream_flags : Type;
  lzma_block : Type;
  index_stream : Type;
  block_stream : Type;
  flags_version : lzma_stream_flags -> Z;
  flags_backward_size : lzma_stream_flags -> Z;
  lzma_stream_footer_decode : bytes -> Z + lzma_stream_flags;
  lzma_stream_header_decode : bytes -> Z + lzma_stream_flags;
  lzma_stream_flags_compare : lzma_stream_flags -> lzma_stream_flags -> Z;
  lzma_index_decoder : Z + index_stream;
  (* lzma_code on it: the code, the bytes consumed, the stream *)
  index_code : index_stream -> bytes -> Z * Z * index_stream;
  (* the index it stores when it returns LZMA_STREAM_END *)
  index_decoded : index_stream -> lzma_index;
  lzma_index_total_size : lzma_index -> Z;
  lzma_index_stream_flags : lzma_index -> lzma_stream_flags -> Z * lzma_index;
  lzma_index_stream_padding : lzma_index -> Z -> Z * lzma_index;
  lzma_index_cat : lzma_index -> lzma_index -> Z + lzma_index;
  lzma_index_iter_locate : lzma_index -> Z -> option iter_block;
  (* what lzma_index_iter_next goes through: the non-empty blocks *)
  lzma_index_blocks : lzma_index -> list iter_block;
  lzma_block_header_size_decode : Z -> Z;
  (* from the check, the header size and the header *)
  lzma_block_header_decode : Z -> Z -> bytes -> Z + lzma_block;
  block_uncompressed_size : lzma_block -> Z;
  lzma_block_compressed_size : lzma_block -> Z -> Z + lzma_block;
  lzma_block_decoder : lzma_block -> Z + block_stream;
  (* lzma_code on it, given the input and avail_out: the code, the bytes
     consumed, the output and the stream *)
  block_code : block_stream -> bytes -> Z -> Z * Z * bytes * block_stream }.

Definition MAX_SUPPORTED_BLOCK_SIZE_MB : Z := 64.
Definition IO_BUFFER_SIZE : Z := 16384.
Definition READER_ERROR : Z := -1.
Definition XZ_MAGIC_HEADER_SIZE : Z := 6.
Definition XZ_MAGIC_HEADER : bytes :=
  [Byte.xfd; Byte.x37; Byte.x7a; Byte.x58; Byte.x5a; Byte.x00].

Section xz.
Context `{LZ : Lzma} (ndebug : bool).

(** [XzReader], and the heap of the indexes.  [xz_file] is the other half of
    the state. *)
Record XzReader : Type := mkXzReader {
  xr_index : option nat;
  xr_stream_padding : Z;
  xr_mem : xz_mem;
  xr_indexes : gmap nat lzma_index;
  xr_brk : nat }.

Definition set_index (i : option nat) (r : XzReader) : XzReader :=
  mkXzReader i (xr_stream_padding r) (xr_mem r) (xr_indexes r) (xr_brk r).
Definition set_padding (p : Z) (r : XzReader) : XzReader :=
  mkXzReader (xr_index r) p (xr_mem r) (xr_indexes r) (xr_brk r).
Definition set_mem (m : xz_mem) (r : XzReader) : XzReader :=
  mkXzReader (xr_index r) (xr_stream_padding r) m (xr_indexes r) (xr_brk r).
Definition set_indexes (h : gmap nat lzma_index) (r : XzReader) : XzReader :=
  mkXzReader (xr_index r) (xr_stream_padding r) (xr_mem r) h (xr_brk r).

Definition XM : Type -> Type := M (FILE * XzReader).
Definition on_file {A : Type} (m : M FILE A) : XM A := zoom fst (fun f s => (f, snd s)) m.
Definition on_reader {A : Type} (m : M XzReader A) : XM A := zoom snd (fun r s => (fst s, r)) m.
Definition on_mem {A : Type} (m : M xz_mem A) : XM A := on_reader (zoom xr_mem set_mem m).

Definition index_new (i : lzma_index) : XM nat := on_reader (fun r =>
  Ok (xr_brk r, mkXzReader (xr_index r) (xr_stream_padding r) (xr_mem r)
                  (<[xr_brk r := i]> (xr_indexes r)) (S (xr_brk r)))).
Definition index_get (a : nat) : XM lzma_index := on_reader (fun r =>
  match xr_indexes r !! a with Some i => Ok (i, r) | None => Err UB end).
Definition index_put (a : nat) (i : lzma_index) : XM unit :=
  on_reader (modify (fun r => set_indexes (<[a := i]> (xr_indexes r)) r)).
(** [lzma_index_end(p, NULL)]: nothing for a null pointer, [UB] for a freed
    index. *)
Definition lzma_index_end (p : option nat) : XM unit :=
  match p with
  | None => ret tt
  | Some a => on_reader (fun r =>
      match xr_indexes r !! a with
      | Some _ => Ok (tt, set_indexes (delete a (xr_indexes r)) r)
      | None => Err UB
      end)
  end.

(** [pread] of exactly [n] bytes, or [None]. *)
Definition pread_all (n position : Z) : XM (option bytes) :=
  let* s := get in
  let r := pread (fst s) n position in
  ret (if fst r =? n then Some (snd r) else None).

(** ** parse_block_indexes *)

(** The do-while loop over the bytes 2, 1, 0 of the buffer: the padding and the
    position. *)
Fixpoint skip_words (i : nat) (buffer : bytes) (stream_padding position : Z) : Z * Z :=
  let stream_padding := u64 (stream_padding + 4) in
  let position := position - 4 in
  match i with
  | O => (stream_padding, position)
  | S i' => if le_at (Z.of_nat i') 1 buffer =? 0
            then skip_words i' buffer stream_padding position
            else (stream_padding, position)
  end.

(** [while (TRUE)]: the code of an error, or the padding, the position of the
    footer and its bytes. *)
Fixpoint locate_footer (fuel : nat) (stream_padding position : Z) : XM (Z + (Z * Z * bytes)) :=
  match fuel with
  | O => fail NoFuel
  | S fuel' =>
      if position <? LZMA_STREAM_HEADER_SIZE then ret (inl LZMA_DATA_ERROR) else
      let* b := pread_all LZMA_STREAM_HEADER_SIZE position in
      match b with
      | None => ret (inl LZMA_PROG_ERROR)
      | Some buffer =>
          if negb (le_at 2 1 buffer =? 0) then ret (inr (stream_padding, position, buffer))
          else let w := skip_words 2 buffer stream_padding position in
               locate_footer fuel' (fst w) (snd w)
      end
  end.

(** The loop that feeds the index decoder: [inl] an error of pread, or the
    code, what is left of the index, [avail_in], the position and the stream. *)
Fixpoint decode_index (fuel : nat) (stream : index_stream) (index_size position : Z)
    : XM (Z + (Z * Z * Z * Z * index_stream)) :=
  match fuel with
  | O => fail NoFuel
  | S fuel' =>
      let pread_size := Z.min IO_BUFFER_SIZE (s64 index_size) in
      let* b := pread_all pread_size position in
      match b with
      | None => ret (inl LZMA_PROG_ERROR)
      | Some buffer =>
          let position := s64 (position + pread_size) in
          let index_size := u64 (index_size - pread_size) in
          let '(return_value, used, stream) := index_code stream buffer in
          if return_value =? LZMA_OK
          then decode_index fuel' stream index_size position
          else ret (inr (return_value, index_size, pread_size - used, position, stream))
      end
  end.

(** One turn of the outer loop, from the footer that ends at [position]: [inl]
    the code and [current_index] when it goes to [error]; otherwise the value
    of [return_value] and the position where the stream begins. *)
Definition parse_stream (position : Z) : XM (Z * option nat + Z * Z) :=
  if position <? 2 * LZMA_STREAM_HEADER_SIZE then ret (inl (LZMA_DATA_ERROR, None)) else
  let position := position - LZMA_STREAM_HEADER_SIZE in
  let* f := locate_footer (S (Z.to_nat position)) 0 position in
  match f with
  | inl e => ret (inl (e, None))
  | inr (stream_padding, position, buffer) =>
  match lzma_stream_footer_decode buffer with
  | inl e => ret (inl (e, None))
  | inr footer_flags =>
  if negb (flags_version footer_flags =? 0) then ret (inl (LZMA_OPTIONS_ERROR, None)) else
  let index_size := flags_backward_size footer_flags in
  if u64 position <? u64 (index_size + LZMA_STREAM_HEADER_SIZE)
  then ret (inl (LZMA_DATA_ERROR, None)) else
  let position := s64 (position - index_size) in
  match lzma_index_decoder with
  | inl e => ret (inl (e, None))
  | inr stream =>
  let* d := decode_index (S (S (S (Z.to_nat index_size)))) stream index_size position in
  match d with
  | inl e => ret (inl (e, None))
  | inr (return_value, index_size, avail_in, position, stream) =>
  if negb (return_value =? LZMA_STREAM_END) then ret (inl (return_value, None)) else
  let* current_index := index_new (index_decoded stream) in
  if negb (index_size =? 0) || negb (avail_in =? 0)
  then ret (inl (LZMA_DATA_ERROR, Some current_index)) else
  let position := s64 (position - (flags_backward_size footer_flags + LZMA_STREAM_HEADER_SIZE)) in
  let* i := index_get current_index in
  if u64 position <? lzma_index_total_size i
  then ret (inl (LZMA_DATA_ERROR, Some current_index)) else
  let position := s64 (position - lzma_index_total_size i) in
  let* b := pread_all LZMA_STREAM_HEADER_SIZE position in
  match b with
  | None => ret (inl (LZMA_PROG_ERROR, Some current_index))
  | Some buffer =>
  match lzma_stream_header_decode buffer with
  | inl e => ret (inl (e, Some current_index))
  | inr header_flags =>
  let return_value := lzma_stream_flags_compare header_flags footer_flags in
  if negb (return_value =? LZMA_OK) then ret (inl (return_value, Some current_index)) else
  let i := snd (lzma_index_stream_flags i footer_flags) in
  let p := lzma_index_stream_padding i stream_padding in
  do* index_put current_index (snd p) in
  let* s := get in
  let* c := (match xr_index (snd s) with
             | None => ret (inr (fst p))
             | Some old =>
                 let* o := index_get old in
                 match lzma_index_cat (snd p) o with
                 | inl e => ret (inl e)
                 | inr i =>
                     do* index_put current_index i in
                     do* lzma_index_end (Some old) in
                     ret (inr LZMA_OK)
                 end
             end) in
  match c with
  | inl e => ret (inl (e, Some current_index))
  | inr return_value =>
      do* on_reader (modify (fun r =>
            set_padding (u64 (xr_stream_padding r + stream_padding))
              (set_index (Some current_index) r))) in
      ret (inr (return_value, position))
  end
  end end end end end end.

Fixpoint parse_streams (fuel : nat) (position : Z) : XM Z :=
  match fuel with
  | O => fail NoFuel
  | S fuel' =>
      let* r := parse_stream position in
      match r with
      | inl (return_value, current_index) =>
          let* s := get in
          do* lzma_index_end (xr_index (snd s)) in
          do* lzma_index_end current_index in
          ret return_value
      | inr (return_value, position) =>
          if 0 <? position then parse_streams fuel' position else ret return_value
      end
  end.

Definition parse_block_indexes : XM Z :=
  let* s := get in
  do* c_assert ndebug (bool_decide (xr_index (snd s) = None)) in
  let* position := on_file fseek_end_ftell in
  parse_streams (S (Z.to_nat position)) position.

(** ** read_block *)

(** The decoding loop.  [pending] is the input [next_in] points to, of length
    [avail_in]; [out] counts the bytes written to [data].  The result is the
    code, and whether a failed pread sent the loop to [error2] with the code
    of the last call. *)
Fixpoint decode_block (fuel : nat) (stream : block_stream) (pending : bytes)
    (return_value compressed_offset size : Z) (data : nat) (out avail_out : Z)
    : XM (Z * bool) :=
  match fuel with
  | O => fail NoFuel
  | S fuel' =>
      let* i := (if negb (zlen pending =? 0) then ret (Some (pending, compressed_offset)) else
                 let avail_in := (if size <? u64 (compressed_offset + IO_BUFFER_SIZE)
                                  then u64 (size - compressed_offset) else IO_BUFFER_SIZE) in
                 if avail_in =? 0 then ret (Some ([], compressed_offset)) else
                 let* b := pread_all avail_in compressed_offset in
                 match b with
                 | None => ret None
                 | Some buffer => ret (Some (buffer, s64 (compressed_offset + avail_in)))
                 end) in
      match i with
      | None => ret (return_value, true)
      | Some (next_in, compressed_offset) =>
          let '(return_value, used, written, stream) := block_code stream next_in avail_out in
          do* on_mem (let* b := block_get data in
                      let* b' := lift (store out written b) in
                      modify (fun m => mkXzMem (cache m) (entries m) (<[data := b']> (blocks m)) (brk m))) in
          if return_value =? LZMA_OK
          then decode_block fuel' stream (drop (Z.to_nat used) next_in) return_value
                 compressed_offset size data (out + zlen written) (avail_out - zlen written)
          else ret (return_value, false)
      end
  end.

(** [free] of a pointer that was never set. *)
Definition free_data (data : option nat) : XM unit :=
  match data with Some a => on_mem (block_free a) | None => fail UB end.

(** The code, [*data] ([None]: not set), [*block_start] and [*block_size]
    (0 where they were not set).  Every call of the decoder either takes input
    or gives output, which bounds the loop. *)
Definition read_block (offset : Z) : XM (Z * option nat * Z * Z) :=
  let* s := get in
  match xr_index (snd s) with
  | None => fail UB
  | Some a =>
  let* idx := index_get a in
  match lzma_index_iter_locate idx offset with
  | None => ret (LZMA_PROG_ERROR, None, 0, 0)
  | Some iter =>
  let* size := on_file fseek_end_ftell in
  let block_start := uncompressed_file_offset iter in
  let block_size := uncompressed_size iter in
  let compressed_offset := compressed_file_offset iter in
  let* b := pread_all 1 compressed_offset in
  match b with
  | None => ret (LZMA_PROG_ERROR, None, block_start, block_size)
  | Some header0 =>
  let compressed_offset := s64 (compressed_offset + 1) in
  if le_at 0 1 header0 =? 0 then ret (LZMA_DATA_ERROR, None, block_start, block_size) else
  let header_size := lzma_block_header_size_decode (le_at 0 1 header0) in
  let* b := pread_all (header_size - 1) compressed_offset in
  match b with
  | None => ret (LZMA_DATA_ERROR, None, block_start, block_size)
  | Some header1 =>
  let compressed_offset := s64 (compressed_offset + (header_size - 1)) in
  match lzma_block_header_decode (check iter) header_size (header0 ++ header1) with
  | inl e => ret (e, None, block_start, block_size)
  | inr block =>
  match lzma_block_compressed_size block (unpadded_size iter) with
  | inl e => do* free_data None in ret (e, None, block_start, block_size)
  | inr block =>
  match lzma_block_decoder block with
  | inl e => do* free_data None in ret (e, None, block_start, block_size)
  | inr stream =>
  let* data := on_mem (block_malloc (zeros block_size)) in
  let* r := decode_block (S (Z.to_nat (size + block_size))) stream [] LZMA_OK compressed_offset
              size data 0 (block_uncompressed_size block) in
  if snd r || negb (fst r =? LZMA_STREAM_END)
  then do* free_data (Some data) in ret (fst r, Some data, block_start, block_size)
  else ret (LZMA_OK, Some data, block_start, block_size)
  end end end end end end end.

(** ** The reader *)

(** [lzma_index_end] of the index and the entries of the cache. *)
Definition xz_reader_free : XM unit :=
  let* s := get in
  do* lzma_index_end (xr_index (snd s)) in
  on_mem (free_cache_entries ndebug).

(** A reader before its indexes are parsed; [stream_padding] is 0 where the source
    initialises it, and what the memory holds otherwise. *)
Definition new_reader (stream_padding : Z) : XzReader :=
  mkXzReader None stream_padding (mkXzMem (mkXzCache 0 None None) ∅ ∅ 0) ∅ 0.

(** The struct on the stack of [xz_is_supported] after the call is the rest of
    the state: what it still owns is lost. *)
Definition max_block (bs : list iter_block) : Z :=
  foldl (fun m b => if m <? uncompressed_size b then uncompressed_size b else m) 0 bs.
Definition xz_is_supported_run : XM bool :=
  let* file_header := on_file (fread XZ_MAGIC_HEADER_SIZE) in
  do* c_assert ndebug (zlen file_header =? XZ_MAGIC_HEADER_SIZE) in
  if negb (zlen file_header =? XZ_MAGIC_HEADER_SIZE) then ret false else
  if decide (file_header <> XZ_MAGIC_HEADER) then ret false else
  let* r := parse_block_indexes in
  if negb (r =? LZMA_OK) then ret false else
  let* s := get in
  match xr_index (snd s) with
  | None => fail UB
  | Some a =>
      let* i := index_get a in
      if MAX_SUPPORTED_BLOCK_SIZE_MB * 1024 * 1024 <? max_block (lzma_index_blocks i)
      then do* lzma_index_end (Some a) in ret false
      else ret true
  end.
Definition xz_is_supported : M FILE bool := fun f =>
  match xz_is_supported_run (f, new_reader 0) with
  | Ok (b, (f', _)) => Ok (b, f')
  | Err e => Err e
  end.

(** [malloc] leaves [garbage] in [reader->stream_padding], which
    [parse_block_indexes] adds to. *)
Definition xz_reader_alloc (garbage : Z) : M FILE (option XzReader) := fun f =>
  match (let* r := parse_block_indexes in
         if negb (r =? LZMA_OK) then do* xz_reader_free in ret false else ret true)
        (f, new_reader garbage) with
  | Ok (b, (f', r)) => Ok (if b : bool then Some r else None, f')
  | Err e => Err e
  end.

(** The block that holds the offset, from the cache or the file, its start, its
    size and whether the cache owns it; [None] for an error. *)
Definition xz_block (offset : Z) : XM (option (nat * Z * Z * bool)) :=
  let* hit := on_mem (get_cache_block ndebug offset) in
  match hit with
  | Some (a, start, size) => ret (Some (a, start, size, true))
  | None =>
      let* r := read_block offset in
      let '(code, data, start, size) := r in
      if negb (code =? LZMA_OK) then ret None else
      let* a := non_null data in
      let* cache_hit := on_mem (add_new_block ndebug a start size) in
      ret (Some (a, start, size, cache_hit))
  end.

(** The recursion reads a byte at least in each turn that goes on.  The count
    is the sum that the recursive calls return. *)
Fixpoint xz_read_fuel (fuel : nat) (offset length : Z) : XM (Z * bytes) :=
  match fuel with
  | O => fail NoFuel
  | S fuel' =>
      let* b := xz_block offset in
      match b with
      | None => ret (READER_ERROR, [])
      | Some (a, start, size, cache_hit) =>
          let rest := u64 (start + size - offset) in
          let n := (if rest <? u64 length then rest else length) in
          let* block := on_mem (block_get a) in
          do* require (in_range (offset - start) n block) in
          let data := slice (offset - start) n block in
          do* (if cache_hit : bool then ret tt else on_mem (block_free a)) in
          if 0 <? u64 (length - n) then
            let* r := xz_read_fuel fuel' (offset + n) (length - n) in
            ret (n + fst r, data ++ snd r)
          else ret (n, data)
      end
  end.
Definition xz_read (offset length : Z) : M (FILE * XzReader) (Z * bytes) :=
  xz_read_fuel (S (Z.to_nat length)) offset length.

Definition xz_free (r : XzReader) : res unit :=
  match xz_reader_free (fopen_content [] None, r) with
  | Ok _ => Ok tt
  | Err e => Err e
  end.
Definition xz_impl (garbage : Z) : CompressionReaderImpl :=
  mkImpl XzReader xz_is_supported (xz_reader_alloc garbage) xz_read xz_free.
End xz.
