(* ===== verification/XzFacts.v ===== *)
(** * compression/xz/xz_reader.c: facts about the reader

    What the code relies on liblzma for ([block_decodes], [index_decodes],
    [stream_at], [xz_index_ok]) and what follows for XzReader: files of any
    number of streams are parsed, every read inside the image gives its bytes
    through the cache, freeing releases everything once, and what happens at
    the end of the image, behind an unreadable sector and with a footer the
    search does not recognise.  [xz_ok] is the promise to Reader.v. *)
From Stdlib Require Import ZArith Lia Strings.Byte.
From stdpp Require Import base numbers list option gmap.
From S2P Require Import Prelude Clib Disk Reader DList XzCache XzReader.

(** ** What liblzma is relied on for *)

Section xz_facts.
Context `{LZ : Lzma} (ndebug : bool).

(** The decoder of a block, at a point where the input that follows is [inp]
    and the output still to come is [out]: whatever amount of input it is
    given, and with room for the output, it uses some of it, gives output or
    both, and ends exactly when the output is complete.  (lzma_code: "encodes or decodes data", with progress
    in every call that returns LZMA_OK.) *)
Inductive block_decodes : block_stream -> bytes -> bytes -> Prop :=
| block_step st inp out :
    inp <> [] ->
    (forall k av code used w st', 1 <= k <= zlen inp -> k <= IO_BUFFER_SIZE -> zlen out <= av ->
       block_code st (take (Z.to_nat k) inp) av = (code, used, w, st') ->
       0 <= used <= k /\
       ((code = LZMA_STREAM_END /\ w = out) \/
        (code = LZMA_OK /\ 0 < used + zlen w /\ exists out', out = w ++ out'))) ->
    (forall k av used w st' out', 1 <= k <= zlen inp -> k <= IO_BUFFER_SIZE -> zlen out <= av ->
       block_code st (take (Z.to_nat k) inp) av = (LZMA_OK, used, w, st') ->
       out = w ++ out' -> block_decodes st' (drop (Z.to_nat used) inp) out') ->
    block_decodes st inp out.

(** [iter] is the block that holds the offset: it lies in the image, its header
    decodes and matches, and its data decode to that part of the image.  The
    header has the size of the block, or a larger value for none. *)
Record block_at (c img : bytes) (off : Z) (iter : iter_block) (header_size : Z)
    (st : block_stream) (b1 b2 : lzma_block) : Prop := {
  ba_off : uncompressed_file_offset iter <= off
           < uncompressed_file_offset iter + uncompressed_size iter;
  ba_start : 0 <= uncompressed_file_offset iter;
  ba_end : uncompressed_file_offset iter + uncompressed_size iter <= zlen img;
  ba_co : 0 <= compressed_file_offset iter < zlen c;
  ba_byte : le_at (compressed_file_offset iter) 1 c <> 0;
  ba_hsize : header_size = lzma_block_header_size_decode (le_at (compressed_file_offset iter) 1 c);
  ba_hfit : 1 <= header_size /\ compressed_file_offset iter + header_size <= zlen c;
  ba_header : lzma_block_header_decode (check iter) header_size
                (slice (compressed_file_offset iter) header_size c) = inr b1;
  ba_match : lzma_block_compressed_size b1 (unpadded_size iter) = inr b2;
  ba_size : uncompressed_size iter <= block_uncompressed_size b2;
  ba_decoder : lzma_block_decoder b2 = inr st;
  ba_data : block_decodes st (drop (Z.to_nat (compressed_file_offset iter + header_size)) c)
              (slice (uncompressed_file_offset iter) (uncompressed_size iter) img) }.

(** The index of the file: every offset of the image is in a block, and no
    other one is. *)
Record xz_index_ok (c img : bytes) (idx : lzma_index) : Prop := {
  xi_img : zlen img < 2 ^ 62;
  xi_file : zlen c < 2 ^ 62;
  xi_locate : forall off, 0 <= off < zlen img -> exists iter hs st b1 b2,
    lzma_index_iter_locate idx off = Some iter /\ block_at c img off iter hs st b1 b2;
  xi_end : forall off, zlen img <= off -> lzma_index_iter_locate idx off = None }.

(** ** Facts *)

Definition file_ok (c : bytes) (f : FILE) : Prop := f_content f = c /\ f_bad f = None.

Lemma pread_all_ok c f (r : XzReader) n off :
  file_ok c f -> 0 <= off -> 0 <= n -> off + n <= zlen c ->
  pread_all n off (f, r) = Ok (Some (slice off n c), (f, r)).
Proof.
  intros [Hc Hb] Ho Hn Hin. unfold pread_all, bind, get, ret. cbn [fst].
  rewrite pread_ok by (rewrite ?Hc; done || lia). cbn [fst snd]. by rewrite Z.eqb_refl, Hc.
Qed.

(** A block of the heap is overwritten. *)
Definition put_block (d : nat) (b : bytes) (m : xz_mem) : xz_mem :=
  mkXzMem (cache m) (entries m) (<[d := b]> (blocks m)) (brk m).

Lemma block_store_run f r d out w b :
  blocks (xr_mem r) !! d = Some b -> 0 <= out -> out + zlen w <= zlen b ->
  on_mem (let* b := block_get d in
          let* b' := lift (store out w b) in
          modify (fun m => mkXzMem (cache m) (entries m) (<[d := b']> (blocks m)) (brk m))) (f, r)
  = Ok (tt, (f, set_mem (put_block d (splice out w b) (xr_mem r)) r)).
Proof.
  intros Hb Ho Hfit. unfold on_mem, on_reader, zoom, bind, block_get. cbn [fst snd]. rewrite Hb.
  unfold store. rewrite in_range_true by (apply zlen_nonneg || lia). done.
Qed.

Lemma set_put_put d b b' r :
  set_mem (put_block d b' (put_block d b (xr_mem r))) (set_mem (put_block d b (xr_mem r)) r)
  = set_mem (put_block d b' (xr_mem r)) r.
Proof. unfold set_mem, put_block. cbn. by rewrite insert_insert_eq. Qed.

(** The input of the next call of the decoder: what is left of the buffer, or
    the next bytes of the file. *)
Lemma refill_ok c f (r : XzReader) pending co inp :
  file_ok c f -> zlen c < 2 ^ 62 -> inp <> [] -> inp = pending ++ drop (Z.to_nat co) c ->
  0 <= co <= zlen c -> zlen pending <= 16384 ->
  exists k co', 1 <= k <= zlen inp /\ k <= 16384 /\ 0 <= co' <= zlen c /\
    inp = take (Z.to_nat k) inp ++ drop (Z.to_nat co') c /\
    zlen (take (Z.to_nat k) inp) = k /\
    (if negb (zlen pending =? 0) then ret (Some (pending, co)) else
       let avail_in := (if zlen c <? u64 (co + 16384) then u64 (zlen c - co) else 16384) in
       if avail_in =? 0 then ret (Some ([], co)) else
       let* b := pread_all avail_in co in
       match b with
       | None => ret None
       | Some buffer => ret (Some (buffer, s64 (co + avail_in)))
       end) (f, r) = Ok (Some (take (Z.to_nat k) inp, co'), (f, r)).
Proof.
  intros Hf Hc62 Hne Hinp Hco Hpend.
  destruct (Z.eqb_spec (zlen pending) 0) as [Hz|Hnz]; cbn [negb].
  - assert (pending = []) as -> by (destruct pending; [done|rewrite zlen_cons in Hz; pose proof (zlen_nonneg pending); lia]).
    cbn [app] in Hinp. assert (Hl : zlen inp = zlen c - co) by (rewrite Hinp, zlen_drop by lia; lia).
    assert (0 < zlen inp) by (destruct inp; [done|rewrite zlen_cons; pose proof (zlen_nonneg inp); lia]).
    set (k := Z.min 16384 (zlen c - co)). exists k, (co + k).
    assert (Hk : take (Z.to_nat k) inp = slice co k c) by (rewrite Hinp; done).
    split; [lia|]. split; [lia|]. split; [lia|]. split; [|split].
    + rewrite <- (take_drop (Z.to_nat k) inp) at 1. f_equal. rewrite Hinp, drop_drop. f_equal. lia.
    + rewrite zlen_take by lia. lia.
    + rewrite (u64_small (co + 16384)), (u64_small (zlen c - co)) by lia. cbv zeta.
      assert (Hin : (if zlen c <? co + 16384 then zlen c - co else 16384) = k)
        by (destruct (Z.ltb_spec (zlen c) (co + 16384)); lia).
      rewrite Hin, (proj2 (Z.eqb_neq k 0)) by lia.
      rewrite (bind_Ok _ _ _ _ _ (pread_all_ok c f r k co Hf ltac:(lia) ltac:(lia) ltac:(lia))).
      rewrite s64_small by lia. by rewrite Hk.
  - exists (zlen pending), co. pose proof (zlen_nonneg pending).
    assert (Hk : take (Z.to_nat (zlen pending)) inp = pending)
      by (rewrite Hinp; unfold zlen; rewrite Nat2Z.id; apply take_app_length).
    assert (zlen pending <= zlen inp)
      by (rewrite Hinp, zlen_app; pose proof (zlen_nonneg (drop (Z.to_nat co) c)); lia).
    rewrite Hk. do 5 (split; [done || lia|]). done.
Qed.

Lemma decode_block_ok c f st inp out :
  block_decodes st inp out -> file_ok c f -> zlen c < 2 ^ 62 ->
  forall fuel pending co rv d o r b av,
  zlen out <= av -> inp = pending ++ drop (Z.to_nat co) c -> 0 <= co <= zlen c -> zlen pending <= IO_BUFFER_SIZE ->
  blocks (xr_mem r) !! d = Some b -> 0 <= o -> zlen b = o + zlen out ->
  zlen inp + zlen out < Z.of_nat fuel ->
  decode_block fuel st pending rv co (zlen c) d o av (f, r)
  = Ok ((LZMA_STREAM_END, false), (f, set_mem (put_block d (splice o out b) (xr_mem r)) r)).
Proof.
  intros Hdec [Hfc Hfb] Hc62. assert (Hf : file_ok c f) by done.
  induction Hdec as [st inp out Hne Hstep _ IH].
  intros fuel pending co rv d o r b av Hav Hinp Hco Hpend Hb Ho Hlen Hfuel.
  destruct fuel as [|fuel]; [pose proof (zlen_nonneg inp); pose proof (zlen_nonneg out); lia|].
  cbn [decode_block]. unfold IO_BUFFER_SIZE in *.
  destruct (refill_ok c f r pending co inp Hf Hc62 Hne Hinp Hco Hpend)
    as (k & co' & Hk & Hkb & Hco' & Hsplit & Hlk & Hrun).
  rewrite (bind_Ok _ _ _ _ _ Hrun). clear Hrun.
  destruct (block_code st (take (Z.to_nat k) inp) av) as [[[code used] w] st'] eqn:Hcode.
  destruct (Hstep k av code used w st' Hk Hkb Hav Hcode) as [Hused Hres].
  assert (Hw : zlen w <= zlen out).
  { destruct Hres as [[_ ->]|(_ & _ & out' & ->)]; [lia|]. rewrite zlen_app.
    pose proof (zlen_nonneg out'). lia. }
  rewrite (bind_Ok _ _ _ _ _ (block_store_run f r d o w b Hb Ho ltac:(lia))).
  destruct Hres as [[-> ->]|(-> & Hprog & out' & ->)]; [done|].
  change (LZMA_OK =? LZMA_OK) with true. cbv iota. rewrite zlen_app in *.
  pose proof (zlen_nonneg w). pose proof (zlen_nonneg out').
  rewrite (IH k av used w st' out' Hk Hkb Hav Hcode eq_refl fuel _ co' LZMA_OK d (o + zlen w) _ (splice o w b)).
  - cbn [xr_mem set_mem]. rewrite set_put_put. rewrite splice_splice by lia. done.
  - lia.
  - rewrite Hsplit at 1. by rewrite drop_app_le by (unfold zlen in Hlk; lia).
  - done.
  - rewrite zlen_drop by lia. lia.
  - cbn. apply lookup_insert_eq.
  - lia.
  - rewrite zlen_splice by lia. lia.
  - rewrite zlen_drop by lia. lia.
Qed.

Definition malloced (b : bytes) (m : xz_mem) : xz_mem :=
  mkXzMem (cache m) (entries m) (<[brk m := b]> (blocks m)) (S (brk m)).

(** Reading the block of an offset leaves it in a new object. *)
Lemma read_block_ok c img f r a idx off :
  file_ok c f -> xr_index r = Some a -> xr_indexes r !! a = Some idx ->
  xz_index_ok c img idx -> 0 <= off < zlen img ->
  exists start size f',
    read_block off (f, r) = Ok ((LZMA_OK, Some (brk (xr_mem r)), start, size),
      (f', set_mem (malloced (slice start size img) (xr_mem r)) r)) /\
    file_ok c f' /\ 0 <= start /\ start <= off < start + size /\ start + size <= zlen img.
Proof.
  intros Hf Hi Hidx Hok Hoff. destruct (xi_locate _ _ _ Hok off Hoff) as (iter & hs & st & b1 & b2 & Hloc & Hb).
  pose proof (xi_file _ _ _ Hok) as Hc62. pose proof (xi_img _ _ _ Hok) as Hi62.
  destruct Hb. destruct ba_hfit0 as [Hh1 Hh2]. set (cfo := compressed_file_offset iter) in *.
  set (start := uncompressed_file_offset iter) in *. set (size := uncompressed_size iter) in *.
  set (f' := fseek_to f (zlen c)).
  assert (Hf' : file_ok c f') by (destruct Hf; done).
  exists start, size, f'. split; [|split; [done|lia]].
  unfold read_block. rewrite (bind_Ok get _ _ (f, r) (f, r)) by done. cbn [snd]. rewrite Hi.
  rewrite (bind_Ok (index_get a) _ (f, r) idx (f, r))
    by (unfold index_get, on_reader, zoom; cbn; by rewrite Hidx).
  rewrite Hloc. rewrite (bind_Ok (on_file fseek_end_ftell) _ (f, r) (zlen c) (f', r))
    by (unfold on_file, zoom, fseek_end_ftell; cbn [fst snd]; destruct Hf as [-> _]; done).
  fold start size cfo.
  rewrite (bind_Ok _ _ _ _ _ (pread_all_ok c f' r 1 cfo Hf' ltac:(lia) ltac:(lia) ltac:(lia))).
  cbv iota zeta beta. rewrite (le_at_slice cfo 1 0 1 c), Z.add_0_r by lia.
  rewrite (proj2 (Z.eqb_neq _ _)) by done. rewrite <- ba_hsize0. cbv iota zeta.
  rewrite (s64_small (cfo + 1)) by lia.
  rewrite (bind_Ok _ _ _ _ _ (pread_all_ok c f' r (hs - 1) (cfo + 1) Hf' ltac:(lia) ltac:(lia) ltac:(lia))).
  rewrite slice_app by lia. replace (1 + (hs - 1)) with hs by lia. rewrite ba_header0, ba_match0, ba_decoder0.
  rewrite s64_small by lia. replace (cfo + 1 + (hs - 1)) with (cfo + hs) by lia.
  rewrite (bind_Ok (on_mem (block_malloc (zeros size))) _ (f', r) (brk (xr_mem r))
    (f', set_mem (malloced (zeros size) (xr_mem r)) r)) by done.
  set (r1 := set_mem _ r). set (out := slice start size img) in *.
  assert (Hout : zlen out = size) by (apply zlen_slice; lia).
  assert (Hzs : zlen (zeros size) = size) by (apply zlen_zeros; lia).
  assert (Hrun : decode_block (S (Z.to_nat (zlen c + size))) st [] LZMA_OK (cfo + hs) (zlen c)
      (brk (xr_mem r)) 0 (block_uncompressed_size b2) (f', r1)
    = Ok ((LZMA_STREAM_END, false), (f', set_mem (put_block (brk (xr_mem r)) out (xr_mem r1)) r1))).
  { rewrite (decode_block_ok c f' st _ out ba_data0 Hf' Hc62) with (b := zeros size);
      [by rewrite splice_0_all by lia|lia|done|lia|done|cbn; apply lookup_insert_eq|lia|lia|].
    rewrite zlen_drop by lia. lia. }
  rewrite (bind_Ok _ _ _ _ _ Hrun). cbn [fst snd].
  rewrite Z.eqb_refl. cbn [orb negb].
  unfold ret, r1, set_mem, put_block, malloced. cbn. by rewrite insert_insert_eq.
Qed.

(** ** Reads *)

(** A cached block holds its part of the image. *)
Definition block_in (img : bytes) (m : xz_mem) (v : XzBlockCacheEntry) : Prop :=
  0 <= e_offset v /\ 0 <= e_size v /\ e_offset v + e_size v <= zlen img /\
  blocks m !! e_data v = Some (slice (e_offset v) (e_size v) img).

(** Between reads: the index is alive and describes the file, and the cache
    owns all blocks. *)
Definition xz_inv (c img : bytes) (f : FILE) (r : XzReader) : Prop :=
  file_ok c f /\
  (exists a idx, xr_index r = Some a /\ xr_indexes r = {[a := idx]} /\ xz_index_ok c img idx) /\
  exists l vs, cache_rep (xr_mem r) [] l vs /\ Forall (block_in img (xr_mem r)) vs.

Lemma block_in_wf img m v : zlen img < 2 ^ 62 -> block_in img m v -> entry_wf v.
Proof. unfold block_in, entry_wf. lia. Qed.

Lemma on_mem_ok {A} (m : M xz_mem A) f (r : XzReader) a m' :
  m (xr_mem r) = Ok (a, m') -> on_mem m (f, r) = Ok (a, (f, set_mem m' r)).
Proof. intros Hm. unfold on_mem, on_reader, zoom. cbn [snd]. by rewrite Hm. Qed.

Lemma set_mem_same (r : XzReader) : set_mem (xr_mem r) r = r.
Proof. by destruct r. Qed.

Lemma xz_block_ok c img f r off :
  xz_inv c img f r -> 0 <= off < zlen img ->
  exists d start size f' r', xz_block ndebug off (f, r) = Ok (Some (d, start, size, true), (f', r')) /\
    xz_inv c img f' r' /\ blocks (xr_mem r') !! d = Some (slice start size img) /\
    0 <= start /\ start <= off < start + size /\ start + size <= zlen img.
Proof.
  intros (Hf & (a & idx & Hi & Hidx & Hok) & l & vs & Hr & Hvs) Hoff.
  pose proof (xi_img _ _ _ Hok) as Hi62. unfold xz_block.
  assert (Hwf : Forall entry_wf vs) by (eapply Forall_impl; [exact Hvs|]; intros v; by apply block_in_wf).
  pose proof (get_cache_block_run ndebug (xr_mem r) [] l vs off Hr Hwf) as Hget.
  destruct (lru_get off vs) as [[v vs']|] eqn:E.
  - destruct Hget as (m' & l' & Hrun & Hr' & Hb & _). apply lru_get_Some in E as (Hh & Hv & Hp).
    rewrite (bind_Ok _ _ _ _ _ (on_mem_ok _ f r _ _ Hrun)).
    assert (Hvs' : Forall (block_in img m') vs')
      by (rewrite Hp; unfold block_in; by rewrite Hb).
    pose proof (proj1 (Forall_forall _ _) Hvs v Hv) as (H1 & H2 & H3 & H4).
    unfold holds in Hh. bool_to_Z.
    exists (e_data v), (e_offset v), (e_size v), f, (set_mem m' r).
    split; [done|]. cbn [xr_mem set_mem]. rewrite Hb. split; [|split; [done|lia]].
    split; [done|]. split; [by exists a, idx|]. by exists l', vs'.
  - rewrite (bind_Ok _ _ _ _ _ (on_mem_ok _ f r _ _ Hget)), set_mem_same.
    assert (Hidx' : xr_indexes r !! a = Some idx) by (rewrite Hidx; apply lookup_singleton_eq).
    destruct (read_block_ok c img f r a idx off Hf Hi Hidx' Hok Hoff)
      as (start & size & f' & Hrun & Hf' & H1 & H2 & H3).
    set (d := brk (xr_mem r)) in *.
    pose proof (malloc_rep _ [] _ _ (slice start size img) Hr) as Hr1. fold d in Hr1.
    destruct (add_new_block_run ndebug _ _ _ _ d start size Hr1) as (m' & l' & Hadd & Hr' & Hb).
    set (w := mkXzEntry start size d) in *.
    assert (Hlive : forall v, v ∈ lru_add w vs -> block_in img m' v).
    { intros v Hv.
      assert (Hd : is_Some (blocks m' !! e_data v)).
      { apply (cr_blocks _ _ _ _ Hr'). by apply list_elem_of_fmap_2. }
      destruct Hd as [b Hd]. pose proof (Hb _ _ Hd) as Hd'. cbn [blocks] in Hd'.
      destruct (lru_add_elem _ _ _ Hv) as [->|Hin].
      - cbn in Hd'. rewrite lookup_insert_eq in Hd'. injection Hd' as <-.
        unfold w in *. split_and!; cbn; done || lia.
      - pose proof (proj1 (Forall_forall _ _) Hvs v Hin) as (G1 & G2 & G3 & G4).
        split_and!; [done..|]. rewrite lookup_insert_ne in Hd'; [congruence|]. intros He.
        pose proof (cr_brk _ _ _ _ Hr (e_data v) (or_intror (mk_is_Some _ _ G4))).
        unfold d in He. lia. }
    exists d, start, size, f', (set_mem m' (set_mem (malloced (slice start size img) (xr_mem r)) r)).
    split.
    + rewrite (bind_Ok _ _ _ _ _ Hrun). rewrite Z.eqb_refl. cbn [negb].
      rewrite (bind_Ok (non_null (Some d)) _ _ d _) by done.
      rewrite (bind_Ok _ _ _ _ _ (on_mem_ok _ _ (set_mem (malloced (slice start size img) (xr_mem r)) r) _ _ Hadd)).
      done.
    + assert (Hw : w ∈ lru_add w vs) by (unfold lru_add; destruct (_ <? _); apply elem_of_cons; by left).
      split; [|split; [apply (Hlive w Hw)|lia]].
      split; [done|]. split; [by exists a, idx|]. exists l', (lru_add w vs).
      split; [done|]. by apply Forall_forall.
Qed.

(** A read of any length inside the image. *)
Lemma xz_read_run c img fuel f r off n :
  xz_inv c img f r -> 0 <= off -> 0 < n -> off + n <= zlen img -> n < Z.of_nat fuel ->
  exists f' r', xz_read_fuel ndebug fuel off n (f, r) = Ok ((n, slice off n img), (f', r')) /\
    xz_inv c img f' r'.
Proof.
  revert f r off n. induction fuel as [|fuel IH]; intros f r off n Hinv Ho Hn Hin Hf; [lia|].
  cbn [xz_read_fuel].
  destruct (xz_block_ok c img f r off Hinv ltac:(lia))
    as (d & start & size & f1 & r1 & Hrun & Hinv1 & Hd & H1 & H2 & H3).
  rewrite (bind_Ok _ _ _ _ _ Hrun).
  assert (Hi62 : zlen img < 2 ^ 62) by (destruct Hinv as (_ & (? & ? & _ & _ & Hok) & _); apply Hok).
  rewrite (u64_small (start + size - off)), (u64_small n) by lia.
  set (k := if start + size - off <? n then start + size - off else n).
  assert (Hk : 0 < k <= n /\ off - start + k <= size)
    by (unfold k; destruct (Z.ltb_spec (start + size - off) n); lia).
  assert (Hget : block_get d (xr_mem r1) = Ok (slice start size img, xr_mem r1))
    by (unfold block_get; by rewrite Hd).
  rewrite (bind_Ok _ _ _ _ _ (on_mem_ok _ f1 r1 _ _ Hget)).
  rewrite set_mem_same.
  rewrite in_range_true by (rewrite ?zlen_slice; lia). cbn [require].
  rewrite (bind_Ok (ret tt) _ (f1, r1) tt (f1, r1)) by done.
  rewrite (bind_Ok (ret tt) _ (f1, r1) tt (f1, r1)) by done.
  rewrite slice_slice by lia. replace (start + (off - start)) with off by lia.
  rewrite u64_small by lia. destruct (Z.ltb_spec 0 (n - k)) as [Hlt|Hge].
  - destruct (IH f1 r1 (off + k) (n - k) Hinv1) as (f2 & r2 & Hrest & Hinv2); [lia..|].
    rewrite (bind_Ok _ _ _ _ _ Hrest). exists f2, r2. split; [|done].
    cbn [fst snd]. rewrite slice_app by lia. unfold ret.
    by replace (k + (n - k)) with n by lia.
  - exists f1, r1. by replace k with n by lia.
Qed.

(** ** Parsing the indexes *)

(** The index decoder on the bytes of an index, fed in buffers. *)
Inductive index_decodes : index_stream -> bytes -> index_stream -> Prop :=
| idx_last st inp st' :
    zlen inp <= IO_BUFFER_SIZE -> index_code st inp = (LZMA_STREAM_END, zlen inp, st') ->
    index_decodes st inp st'
| idx_more st inp st1 st' :
    IO_BUFFER_SIZE < zlen inp ->
    index_code st (take (Z.to_nat IO_BUFFER_SIZE) inp) = (LZMA_OK, IO_BUFFER_SIZE, st1) ->
    index_decodes st1 (drop (Z.to_nat IO_BUFFER_SIZE) inp) st' -> index_decodes st inp st'.

(** A stream that lies at [b, e) of the file, its footer flags [ff], the index [i]
    of its index field with the flags stored, and [pad] bytes of padding behind it.
    Byte 2 of the footer is the one the search for the footer tests; the padding,
    which the format has in multiples of 4, is one of 12, since the search goes
    back 12 bytes at a time over zeros. *)
Record stream_at (c : bytes) (b e pad : Z) (i : lzma_index) (ff hf : lzma_stream_flags)
    (ist ist' : index_stream) : Prop := {
  sa_range : 0 <= b /\ 2 * LZMA_STREAM_HEADER_SIZE <= e;
  sa_padding : 0 <= pad /\ pad mod 12 = 0 /\ e + pad <= zlen c;
  sa_zeros : slice e pad c = zeros pad;
  sa_byte : le_at (e - 12 + 2) 1 c <> 0;
  sa_footer : lzma_stream_footer_decode (slice (e - 12) 12 c) = inr ff;
  sa_version : flags_version ff = 0;
  sa_backward : 0 < flags_backward_size ff;
  sa_total : 0 <= lzma_index_total_size (index_decoded ist');
  sa_start : e = b + 12 + lzma_index_total_size (index_decoded ist') + flags_backward_size ff + 12;
  sa_decoder : lzma_index_decoder = inr ist;
  sa_index : index_decodes ist (slice (e - 12 - flags_backward_size ff) (flags_backward_size ff) c) ist';
  sa_header : lzma_stream_header_decode (slice b 12 c) = inr hf;
  sa_flags : lzma_stream_flags_compare hf ff = LZMA_OK;
  sa_stored : lzma_index_stream_padding
    (snd (lzma_index_stream_flags (index_decoded ist') ff)) pad = (LZMA_OK, i) }.

(** The index of a stream in front of those already read. *)
Definition index_cat (i : lzma_index) (o : option lzma_index) : Z + lzma_index :=
  match o with None => inr i | Some o => lzma_index_cat i o end.

(** The file up to [e] is a sequence of streams; [o] is the index of what
    follows, [fin] that of the whole file. *)
Inductive xz_streams (c : bytes) : Z -> option lzma_index -> lzma_index -> Prop :=
| xs_first e pad o i fin ff hf ist ist' :
    stream_at c 0 e pad i ff hf ist ist' -> index_cat i o = inr fin -> xz_streams c (e + pad) o fin
| xs_more b e pad o i i' fin ff hf ist ist' :
    stream_at c b e pad i ff hf ist ist' -> 0 < b -> index_cat i o = inr i' ->
    xz_streams c b (Some i') fin -> xz_streams c (e + pad) o fin.

Lemma decode_index_run c f r st inp st' :
  index_decodes st inp st' -> file_ok c f -> zlen c < 2 ^ 62 ->
  forall fuel position, 0 <= position -> position + zlen inp <= zlen c ->
  inp = slice position (zlen inp) c -> zlen inp < Z.of_nat fuel ->
  decode_index fuel st (zlen inp) position (f, r)
  = Ok (inr (LZMA_STREAM_END, 0, 0, position + zlen inp, st'), (f, r)).
Proof.
  intros Hd Hf Hc. unfold IO_BUFFER_SIZE in *.
  induction Hd as [st inp st' Hle Hcode|st inp st1 st' Hlt Hcode Hd IH];
    intros fuel position Hp Hend Hinp Hfuel;
    pose proof (zlen_nonneg inp); (destruct fuel as [|fuel]; [lia|]); cbn [decode_index];
    change IO_BUFFER_SIZE with 16384 in *; rewrite s64_small by lia.
  - rewrite Z.min_r by lia.
    rewrite (bind_Ok _ _ _ _ _ (pread_all_ok c f r (zlen inp) position Hf Hp ltac:(lia) ltac:(lia))).
    rewrite <- Hinp, Hcode. change (LZMA_STREAM_END =? LZMA_OK) with false. cbv iota.
    rewrite s64_small, !Z.sub_diag by lia. done.
  - rewrite Z.min_l by lia.
    rewrite (bind_Ok _ _ _ _ _ (pread_all_ok c f r 16384 position Hf Hp ltac:(lia) ltac:(lia))).
    assert (Ht : slice position 16384 c = take (Z.to_nat 16384) inp).
    { rewrite take_slice, Hinp, slice_slice by lia. by rewrite Z.add_0_r. }
    assert (Hdl : zlen (drop (Z.to_nat 16384) inp) = zlen inp - 16384)
      by (rewrite zlen_drop by lia; lia).
    rewrite Ht, Hcode.
    change (LZMA_OK =? LZMA_OK) with true. cbv iota. rewrite s64_small, u64_small by lia.
    rewrite <- Hdl, (IH fuel (position + 16384)); rewrite ?Hdl;
      [by replace (position + 16384 + (zlen inp - 16384)) with (position + zlen inp) by lia|lia..| |lia].
    rewrite Hinp at 1. unfold slice. rewrite skipn_firstn_comm, drop_drop. f_equal; [lia|].
    f_equal. lia.
Qed.

(** The indexes alive: the one of the reader, when it has one. *)
Definition owned (p : option nat) (o : option lzma_index) (h : gmap nat lzma_index) (brk : nat) : Prop :=
  match p, o with
  | None, None => h = ∅
  | Some a, Some i => h = {[a := i]} /\ (a < brk)%nat
  | _, _ => False
  end.

(** A turn over 12 bytes of padding, and the whole search. *)
Lemma skip_zeros buffer pad position :
  buffer = zeros 12 -> 0 <= pad < 2 ^ 63 ->
  skip_words 2 buffer pad position = (pad + 12, position - 12).
Proof.
  intros -> Hp. cbn [skip_words]. change (le_at (Z.of_nat 1) 1 (zeros 12) =? 0) with true.
  change (le_at (Z.of_nat 0) 1 (zeros 12) =? 0) with true. cbv iota.
  rewrite (u64_small (pad + 4)) by lia. rewrite (u64_small (pad + 4 + 4)) by lia.
  rewrite u64_small by lia. f_equal; lia.
Qed.

Lemma locate_footer_run c f r e j : forall fuel pad,
  file_ok c f -> 24 <= e -> e + 12 * Z.of_nat j <= zlen c -> zlen c < 2 ^ 62 ->
  slice e (12 * Z.of_nat j) c = zeros (12 * Z.of_nat j) ->
  le_at (e - 12 + 2) 1 c <> 0 -> (j < fuel)%nat -> 0 <= pad -> pad + 12 * Z.of_nat j < 2 ^ 63 ->
  locate_footer fuel pad (e + 12 * Z.of_nat j - 12) (f, r)
  = Ok (inr (pad + 12 * Z.of_nat j, e - 12, slice (e - 12) 12 c), (f, r)).
Proof.
  induction j as [|j IH]; intros fuel pad Hf He Hc Hc62 Hz Hb Hfuel Hpad Hpad';
    (destruct fuel as [|fuel]; [lia|]); cbn [locate_footer]; unfold LZMA_STREAM_HEADER_SIZE;
    rewrite (proj2 (Z.ltb_ge _ _)) by lia.
  - change (12 * Z.of_nat 0) with 0. rewrite !Z.add_0_r.
    rewrite (bind_Ok _ _ _ _ _ (pread_all_ok c f r 12 (e - 12) Hf ltac:(lia) ltac:(lia) ltac:(lia))).
    rewrite le_at_slice by lia. by rewrite (proj2 (Z.eqb_neq _ _)) by done.
  - replace (e + 12 * Z.of_nat (S j) - 12) with (e + 12 * Z.of_nat j) by lia.
    rewrite (bind_Ok _ _ _ _ _ (pread_all_ok c f r 12 (e + 12 * Z.of_nat j) Hf ltac:(lia) ltac:(lia) ltac:(lia))).
    assert (Hbuf : slice (e + 12 * Z.of_nat j) 12 c = zeros 12).
    { apply (f_equal (slice (12 * Z.of_nat j) 12)) in Hz. rewrite slice_slice in Hz by lia. rewrite Hz.
      unfold slice, zeros. rewrite drop_replicate, take_replicate. f_equal. lia. }
    rewrite Hbuf. change (le_at 2 1 (zeros 12) =? 0) with true. cbn [negb].
    rewrite (skip_zeros (zeros 12) pad (e + 12 * Z.of_nat j) eq_refl) by lia. cbn [fst snd].
    assert (Hz' : slice e (12 * Z.of_nat j) c = zeros (12 * Z.of_nat j)).
    { apply (f_equal (slice 0 (12 * Z.of_nat j))) in Hz. rewrite slice_slice, Z.add_0_r in Hz by lia.
      rewrite Hz. unfold slice, zeros. change (Z.to_nat 0) with 0%nat. rewrite drop_0, take_replicate.
      f_equal. lia. }
    rewrite (IH fuel (pad + 12)) by (done || lia). by replace (pad + 12 + 12 * Z.of_nat j) with (pad + 12 * Z.of_nat (S j)) by lia.
Qed.

(** Joining the index of a stream, at [brk], with that of the reader. *)
Lemma cat_run f p pad m h brk o i i' :
  owned p o h brk -> index_cat i o = inr i' ->
  exists h', h' = <[brk := i]> h /\
  (match p with
   | None => ret (inr LZMA_OK)
   | Some old =>
       let* o := index_get old in
       match lzma_index_cat i o with
       | inl e => ret (inl e)
       | inr i =>
           do* index_put brk i in
           do* lzma_index_end (Some old) in
           ret (inr LZMA_OK)
       end
   end : XM (Z + Z)) (f, mkXzReader p pad m h' (S brk))
  = Ok (inr LZMA_OK, (f, mkXzReader p pad m {[brk := i']} (S brk))).
Proof.
  intros Ho Hcat. exists (<[brk := i]> h). split; [done|].
  destruct p as [a|], o as [o|]; try done; cbn in Ho, Hcat.
  - destruct Ho as [-> Ha]. unfold index_get, index_put, lzma_index_end, on_reader, zoom, bind, modify, ret.
    cbn [fst snd xr_indexes]. rewrite lookup_insert_ne, lookup_singleton_eq by lia. rewrite Hcat.
    cbn [fst snd xr_indexes set_indexes xr_index xr_stream_padding xr_mem xr_brk].
    rewrite lookup_insert_ne, lookup_insert_ne, lookup_singleton_eq by lia.
    unfold set_indexes. cbn. do 4 f_equal. rewrite insert_insert_eq, delete_insert_ne by lia.
    by rewrite delete_singleton_eq.
  - injection Hcat as ->. by subst h.
Qed.

Lemma parse_stream_run c b e sp i ff hf ist ist' f p pad m h brk o i' :
  stream_at c b e sp i ff hf ist ist' -> file_ok c f -> zlen c < 2 ^ 62 ->
  owned p o h brk -> index_cat i o = inr i' ->
  parse_stream (e + sp) (f, mkXzReader p pad m h brk)
  = Ok (inr (LZMA_OK, b), (f, mkXzReader (Some brk) (u64 (pad + sp)) m {[brk := i']} (S brk))).
Proof.
  intros [] Hf Hc Ho Hcat. unfold parse_stream, LZMA_STREAM_HEADER_SIZE in *.
  set (r := mkXzReader p pad m h brk). set (bs := flags_backward_size ff) in *.
  set (tot := lzma_index_total_size _) in *.
  rewrite (proj2 (Z.ltb_ge _ _)) by lia.
  destruct sa_padding0 as (Hsp & Hm & Hend).
  pose proof (Z.div_mod sp 12 ltac:(lia)) as Hdm. rewrite Hm, Z.add_0_r in Hdm.
  assert (Hj : 12 * Z.of_nat (Z.to_nat (sp / 12)) = sp) by (rewrite Z2Nat.id; lia).
  pose proof (locate_footer_run c f r e (Z.to_nat (sp / 12)) (S (Z.to_nat (e + sp - 12))) 0 Hf) as Hloc.
  rewrite Hj in Hloc.
  rewrite (bind_Ok _ _ _ _ _ (Hloc ltac:(lia) Hend Hc sa_zeros0 sa_byte0 ltac:(lia) ltac:(lia) ltac:(lia))).
  rewrite Z.add_0_l.
  rewrite sa_footer0, sa_version0. cbn [Z.eqb negb]. fold bs.
  rewrite (u64_small (e - 12)), (u64_small (bs + 12)) by lia.
  rewrite (proj2 (Z.ltb_ge _ _)) by lia. rewrite sa_decoder0. rewrite s64_small by lia.
  assert (Hl : zlen (slice (e - 12 - bs) bs c) = bs) by (apply zlen_slice; lia).
  pose proof (decode_index_run c f r ist _ ist' sa_index0 Hf Hc (S (S (S (Z.to_nat bs)))) (e - 12 - bs)) as Hd.
  rewrite Hl in Hd. rewrite (bind_Ok _ _ _ _ _ (Hd ltac:(lia) ltac:(lia) eq_refl ltac:(lia))).
  cbn [Z.eqb negb orb]. change (LZMA_STREAM_END =? LZMA_STREAM_END) with true. cbn [negb].
  set (r1 := mkXzReader p pad m (<[brk := index_decoded ist']> h) (S brk)).
  rewrite (bind_Ok (index_new _) _ (f, r) brk (f, r1)) by done.
  rewrite (bind_Ok (index_get brk) _ (f, r1) (index_decoded ist') (f, r1))
    by (unfold index_get, on_reader, zoom, r1; cbn; by rewrite lookup_insert_eq).
  fold tot bs. replace (e - 12 - bs + bs - (bs + 12)) with (b + tot) by lia.
  rewrite (s64_small (b + tot)), (u64_small (b + tot)) by lia.
  rewrite (proj2 (Z.ltb_ge _ _)) by lia. replace (b + tot - tot) with b by lia. rewrite (s64_small b) by lia.
  rewrite (bind_Ok _ _ _ _ _ (pread_all_ok c f r1 12 b Hf ltac:(lia) ltac:(lia) ltac:(lia))).
  rewrite sa_header0, sa_flags0. change (LZMA_OK =? LZMA_OK) with true. cbn [negb]. rewrite sa_stored0.
  cbn [fst snd].
  set (r2 := mkXzReader p pad m (<[brk := i]> h) (S brk)).
  rewrite (bind_Ok (index_put brk i) _ (f, r1) tt (f, r2))
    by (unfold index_put, on_reader, zoom, modify, r1, r2, set_indexes; cbn; by rewrite insert_insert_eq).
  rewrite (bind_Ok get _ _ (f, r2) (f, r2)) by done. cbn [snd xr_index r2].
  destruct (cat_run f p pad m h brk o i i' Ho Hcat) as (h' & -> & Hrun).
  rewrite (bind_Ok _ _ _ _ _ Hrun). done.
Qed.

(** All streams. *)
Lemma parse_streams_run c e o fin f :
  xz_streams c e o fin -> file_ok c f -> zlen c < 2 ^ 62 ->
  forall fuel p pad m h brk, owned p o h brk -> e < Z.of_nat fuel ->
  exists a pad', parse_streams fuel e (f, mkXzReader p pad m h brk)
    = Ok (LZMA_OK, (f, mkXzReader (Some a) pad' m {[a := fin]} (S a))).
Proof.
  intros Hs Hf Hc. induction Hs as [e sp o i fin ff hf ist ist' Hat Hcat|b e sp o i i' fin ff hf ist ist' Hat Hb Hcat Hs IH];
    intros fuel p pad m h brk Ho Hfuel; destruct (sa_range _ _ _ _ _ _ _ _ _ Hat) as [H0 He];
    destruct (sa_padding _ _ _ _ _ _ _ _ _ Hat) as (Hsp & _ & Hend);
    unfold LZMA_STREAM_HEADER_SIZE in He; (destruct fuel as [|fuel]; [lia|]); cbn [parse_streams];
    rewrite (bind_Ok _ _ _ _ _ (parse_stream_run _ _ _ _ _ _ _ _ _ _ _ _ _ _ _ _ _ Hat Hf Hc Ho Hcat)).
  - by exists brk, (u64 (pad + sp)).
  - rewrite (proj2 (Z.ltb_lt _ _)) by lia. apply IH.
    + split; [done|lia].
    + pose proof (sa_start _ _ _ _ _ _ _ _ _ Hat). pose proof (sa_total _ _ _ _ _ _ _ _ _ Hat).
      pose proof (sa_backward _ _ _ _ _ _ _ _ _ Hat). lia.
Qed.

Lemma parse_block_indexes_run c fin f pad0 m :
  xz_streams c (zlen c) None fin -> file_ok c f -> zlen c < 2 ^ 62 ->
  exists a pad f', parse_block_indexes ndebug (f, mkXzReader None pad0 m ∅ 0)
    = Ok (LZMA_OK, (f', mkXzReader (Some a) pad m {[a := fin]} (S a))) /\ file_ok c f'.
Proof.
  intros Hs Hf Hc. unfold parse_block_indexes.
  set (r := mkXzReader None pad0 m ∅ 0). rewrite (bind_Ok get _ _ (f, r) (f, r)) by done.
  rewrite (bind_Ok (c_assert ndebug _) _ (f, r) tt (f, r)) by (cbn; by destruct ndebug).
  set (f' := fseek_to f (zlen c)).
  assert (Hf' : file_ok c f') by (destruct Hf; done).
  rewrite (bind_Ok (on_file fseek_end_ftell) _ (f, r) (zlen c) (f', r))
    by (unfold on_file, zoom, fseek_end_ftell; cbn [fst snd]; destruct Hf as [-> _]; done).
  destruct (parse_streams_run c (zlen c) None fin f' Hs Hf' Hc (S (Z.to_nat (zlen c))) None pad0 m ∅ 0%nat
    eq_refl ltac:(lia)) as (a & pad & Hrun). by exists a, pad, f'.
Qed.

(** ** The operations of the reader *)

(** [img] is the decompressed content of the xz file [c]. *)
Definition xz_decodes (c img : bytes) : Prop :=
  exists idx, xz_streams c (zlen c) None idx /\ xz_index_ok c img idx.

Lemma cache_rep_new : cache_rep (mkXzMem (mkXzCache 0 None None) ∅ ∅ 0) [] [] [].
Proof.
  split; cbn [entries cache blocks brk c_first c_last num_blocks]; try done.
  - apply base.NoDup_nil_2.
  - intros a. rewrite lookup_empty. split; [by intros [? ?]|by rewrite elem_of_nil].
  - apply base.NoDup_nil_2.
  - intros d. rewrite lookup_empty. split; [by intros [? ?]|by rewrite elem_of_nil].
  - intros a. rewrite !lookup_empty. by intros [[? ?]|[? ?]].
Qed.

Lemma xz_reader_alloc_run c img f garbage :
  xz_decodes c img -> file_ok c f ->
  exists r f', xz_reader_alloc ndebug garbage f = Ok (Some r, f') /\ xz_inv c img f' r.
Proof.
  intros (idx & Hs & Hok) Hf. unfold xz_reader_alloc.
  destruct (parse_block_indexes_run c idx f garbage (mkXzMem (mkXzCache 0 None None) ∅ ∅ 0) Hs Hf
    (xi_file _ _ _ Hok)) as (a & pad & f' & Hrun & Hf').
  rewrite (bind_Ok _ _ _ _ _ Hrun). change (LZMA_OK =? LZMA_OK) with true. cbn [negb].
  unfold ret. eexists _, f'. split; [reflexivity|]. split; [done|]. split; [by exists a, idx|].
  exists [], []. split; [apply cache_rep_new|done].
Qed.

(** Everything the reader owns is freed, once. *)
Lemma xz_reader_free_run c img f0 f r :
  xz_inv c img f0 r ->
  exists r', xz_reader_free ndebug (f, r) = Ok (tt, (f, r')) /\
    xr_indexes r' = ∅ /\ entries (xr_mem r') = ∅ /\ blocks (xr_mem r') = ∅.
Proof.
  intros (_ & (a & idx & Hi & Hidx & _) & l & vs & Hr & _). unfold xz_reader_free.
  rewrite (bind_Ok get _ _ (f, r) (f, r)) by done. cbn [snd]. rewrite Hi.
  assert (Hend : lzma_index_end (Some a) (f, r) = Ok (tt, (f, set_indexes ∅ r))).
  { unfold lzma_index_end, on_reader, zoom. cbn [fst snd].
    by rewrite Hidx, lookup_singleton_eq, delete_singleton_eq. }
  rewrite (bind_Ok _ _ _ _ _ Hend).
  destruct (free_cache_entries_run ndebug (xr_mem r) [] l vs Hr) as (m' & Hrun & Hr').
  eexists. split; [apply (on_mem_ok _ f (set_indexes ∅ r)), Hrun|]. cbn.
  split; [done|]. split; apply map_empty; intros x.
  - destruct (entries m' !! x) as [y|] eqn:E; [|done]. apply mk_is_Some, (cr_dom _ _ _ _ Hr') in E.
    by apply elem_of_nil in E.
  - destruct (blocks m' !! x) as [y|] eqn:E; [|done]. apply mk_is_Some, (cr_blocks _ _ _ _ Hr') in E.
    by apply elem_of_nil in E.
Qed.

(** Probing. *)
Lemma fread_magic c f :
  file_ok c f -> f_pos f = 0 -> 6 <= zlen c ->
  on_file (fread XZ_MAGIC_HEADER_SIZE) (f, new_reader 0)
  = Ok (slice 0 6 c, (mkFILE c 6 (f_err f) None, new_reader 0)).
Proof.
  intros [Hfc Hfb] Hpos Hl. destruct f as [fc fp fe fb]. cbn in *. subst fc fp fb.
  unfold on_file, zoom, fread, io_data, io_fault, io_end, XZ_MAGIC_HEADER_SIZE.
  cbn [fst snd f_content f_pos f_err f_bad]. rewrite Z.min_l, zlen_slice by lia. by rewrite orb_false_r.
Qed.

Lemma xz_is_supported_run_ok c img idx f :
  xz_streams c (zlen c) None idx -> xz_index_ok c img idx -> file_ok c f -> f_pos f = 0 ->
  slice 0 6 c = XZ_MAGIC_HEADER ->
  exists f', xz_is_supported ndebug f
      = Ok (max_block (lzma_index_blocks idx) <=? 64 * 1024 * 1024, f') /\ file_ok c f'.
Proof.
  intros Hs Hok Hf Hpos Hmagic. unfold xz_is_supported, xz_is_supported_run.
  assert (Hl : 6 <= zlen c).
  { destruct (Z.le_gt_cases 6 (zlen c)); [done|]. exfalso. apply (f_equal zlen) in Hmagic.
    unfold slice in Hmagic. rewrite zlen_take, zlen_drop in Hmagic by lia.
    change (zlen XZ_MAGIC_HEADER) with 6 in Hmagic. lia. }
  set (f1 := mkFILE c 6 (f_err f) None). assert (Hf1 : file_ok c f1) by done.
  rewrite (bind_Ok _ _ _ _ _ (fread_magic c f Hf Hpos Hl)), Hmagic. fold f1.
  change (zlen XZ_MAGIC_HEADER =? XZ_MAGIC_HEADER_SIZE) with true.
  rewrite (bind_Ok (c_assert ndebug true) _ _ tt (f1, new_reader 0)) by (by destruct ndebug).
  cbn [negb]. rewrite decide_False by tauto.
  destruct (parse_block_indexes_run c idx f1 0 (mkXzMem (mkXzCache 0 None None) ∅ ∅ 0) Hs Hf1
    (xi_file _ _ _ Hok)) as (a & pad & f2 & Hrun & Hf2).
  unfold new_reader. rewrite (bind_Ok _ _ _ _ _ Hrun). change (LZMA_OK =? LZMA_OK) with true. cbn [negb].
  set (r := mkXzReader _ _ _ _ _). rewrite (bind_Ok get _ _ (f2, r) (f2, r)) by done. cbn [snd xr_index r].
  rewrite (bind_Ok (index_get a) _ (f2, r) idx (f2, r))
    by (unfold index_get, on_reader, zoom, r; cbn; by rewrite lookup_singleton_eq).
  change (MAX_SUPPORTED_BLOCK_SIZE_MB * 1024 * 1024) with (64 * 1024 * 1024). exists f2.
  destruct (Z.ltb_spec (64 * 1024 * 1024) (max_block (lzma_index_blocks idx))) as [Hlt|Hge].
  - rewrite (proj2 (Z.leb_gt _ _)) by lia.
    rewrite (bind_Ok (lzma_index_end (Some a)) _ (f2, r) tt (f2, set_indexes ∅ r)); [done|].
    unfold lzma_index_end, on_reader, zoom, r. cbn. by rewrite lookup_singleton_eq, delete_singleton_eq.
  - by rewrite (proj2 (Z.leb_le _ _)) by lia.
Qed.

(** A file that does not begin with the magic bytes. *)
Lemma xz_is_supported_other c f :
  file_ok c f -> f_pos f = 0 -> 6 <= zlen c -> slice 0 6 c <> XZ_MAGIC_HEADER ->
  exists f', xz_is_supported ndebug f = Ok (false, f') /\ file_ok c f'.
Proof.
  intros Hf Hpos Hl Hmagic. unfold xz_is_supported, xz_is_supported_run.
  set (f1 := mkFILE c 6 (f_err f) None). exists f1. split; [|done].
  rewrite (bind_Ok _ _ _ _ _ (fread_magic c f Hf Hpos Hl)). fold f1.
  unfold XZ_MAGIC_HEADER_SIZE. rewrite zlen_slice by lia.
  rewrite (bind_Ok (c_assert ndebug _) _ _ tt (f1, new_reader 0)) by (by destruct ndebug).
  cbn [Z.eqb Pos.eqb negb]. by rewrite decide_True.
Qed.

(** ** Reads that fail *)

(** At the end of the image there is no block. *)
Lemma xz_block_end c img f r off :
  xz_inv c img f r -> zlen img <= off ->
  xz_block ndebug off (f, r) = Ok (None, (f, r)).
Proof.
  intros (Hf & (a & idx & Hi & Hidx & Hok) & l & vs & Hr & Hvs) Hoff. unfold xz_block.
  assert (Hwf : Forall entry_wf vs).
  { eapply Forall_impl; [exact Hvs|]. intros v. apply block_in_wf, Hok. }
  pose proof (get_cache_block_run ndebug (xr_mem r) [] l vs off Hr Hwf) as Hget.
  destruct (lru_get off vs) as [[v vs']|] eqn:E.
  { apply lru_get_Some in E as (Hh & Hv & _). exfalso.
    pose proof (proj1 (Forall_forall _ _) Hvs v Hv) as (H1 & H2 & H3 & _).
    unfold holds in Hh. bool_to_Z. lia. }
  rewrite (bind_Ok _ _ _ _ _ (on_mem_ok _ f r _ _ Hget)), set_mem_same.
  rewrite (bind_Ok (read_block off) _ (f, r) (LZMA_PROG_ERROR, None, 0, 0) (f, r)); [done|].
  unfold read_block. rewrite (bind_Ok get _ _ (f, r) (f, r)) by done. cbn [snd]. rewrite Hi.
  rewrite (bind_Ok (index_get a) _ (f, r) idx (f, r))
    by (unfold index_get, on_reader, zoom; cbn [fst snd]; by rewrite Hidx, lookup_singleton_eq).
  by rewrite (xi_end _ _ _ Hok).
Qed.

Lemma xz_read_end_run c img fuel f r off n :
  xz_inv c img f r -> 0 <= off < zlen img -> zlen img < off + n -> n < 2 ^ 62 -> n < Z.of_nat fuel ->
  exists f' r', xz_read_fuel ndebug fuel off n (f, r)
    = Ok ((zlen img - off - 1, slice off (zlen img - off) img), (f', r')) /\ xz_inv c img f' r'.
Proof.
  revert f r off n. induction fuel as [|fuel IH]; intros f r off n Hinv Ho Hn Hn62 Hf; [lia|].
  cbn [xz_read_fuel].
  destruct (xz_block_ok c img f r off Hinv ltac:(lia))
    as (d & start & size & f1 & r1 & Hrun & Hinv1 & Hd & H1 & H2 & H3).
  rewrite (bind_Ok _ _ _ _ _ Hrun).
  assert (Hi62 : zlen img < 2 ^ 62) by (destruct Hinv as (_ & (? & ? & _ & _ & Hok) & _); apply Hok).
  rewrite (u64_small (start + size - off)), (u64_small n) by lia.
  rewrite (proj2 (Z.ltb_lt (start + size - off) n)) by lia. set (k := start + size - off).
  assert (Hget : block_get d (xr_mem r1) = Ok (slice start size img, xr_mem r1))
    by (unfold block_get; by rewrite Hd).
  rewrite (bind_Ok _ _ _ _ _ (on_mem_ok _ f1 r1 _ _ Hget)).
  rewrite set_mem_same. rewrite in_range_true by (rewrite ?zlen_slice; lia). cbn [require].
  rewrite (bind_Ok (ret tt) _ (f1, r1) tt (f1, r1)) by done.
  rewrite (bind_Ok (ret tt) _ (f1, r1) tt (f1, r1)) by done.
  rewrite slice_slice by lia. replace (start + (off - start)) with off by lia.
  rewrite u64_small, (proj2 (Z.ltb_lt 0 (n - k))) by lia.
  destruct (Z.eq_dec (off + k) (zlen img)) as [He|Hne].
  - exists f1, r1. split; [|done]. destruct fuel as [|fuel]; [lia|]. cbn [xz_read_fuel].
    rewrite (bind_Ok _ _ (f1, r1) (READER_ERROR, []) (f1, r1)).
    + cbn [fst snd]. rewrite app_nil_r. unfold ret, READER_ERROR. do 3 f_equal; [|f_equal]; lia.
    + by rewrite (bind_Ok _ _ _ _ _ (xz_block_end c img f1 r1 (off + k) Hinv1 ltac:(lia))).
  - destruct (IH f1 r1 (off + k) (n - k) Hinv1) as (f2 & r2 & Hrest & Hinv2); [lia..|].
    rewrite (bind_Ok _ _ _ _ _ Hrest). exists f2, r2. split; [|done].
    cbn [fst snd]. replace (zlen img - (off + k)) with (zlen img - off - k) by lia.
    rewrite slice_app by lia. unfold ret.
    replace (k + (zlen img - off - k - 1)) with (zlen img - off - 1) by lia.
    by replace (k + (zlen img - off - k)) with (zlen img - off) by lia.
Qed.

(** The search for the footer ends, goes backwards only, and in the end looks
    at a footer whose byte 2 is not zero. *)
Lemma skip_words_spec i buffer pad position :
  snd (skip_words i buffer pad position) <= position - 4.
Proof.
  revert pad position. induction i as [|i IH]; intros pad position; cbn [skip_words]; [cbn; lia|].
  destruct (_ =? 0); [|cbn; lia]. etransitivity; [apply IH|]. lia.
Qed.

Lemma locate_footer_ends c f r fuel pad position :
  file_ok c f -> position + 12 <= zlen c -> position < Z.of_nat fuel -> (0 < fuel)%nat ->
  exists v, locate_footer fuel pad position (f, r) = Ok (v, (f, r)) /\
    match v with
    | inl e => e = LZMA_DATA_ERROR
    | inr (_, p, buffer) => 12 <= p <= position /\ buffer = slice p 12 c /\ le_at (p + 2) 1 c <> 0
    end.
Proof.
  intros Hf. revert pad position. induction fuel as [|fuel IH]; intros pad position Hin Hfuel Hpos; [lia|].
  cbn [locate_footer]. unfold LZMA_STREAM_HEADER_SIZE.
  destruct (Z.ltb_spec position 12) as [Hlt|Hge]; [by exists (inl LZMA_DATA_ERROR)|].
  rewrite (bind_Ok _ _ _ _ _ (pread_all_ok c f r 12 position Hf ltac:(lia) ltac:(lia) ltac:(lia))).
  rewrite le_at_slice by lia.
  destruct (Z.eqb_spec (le_at (position + 2) 1 c) 0) as [Hz|Hnz]; cbn [negb].
  - pose proof (skip_words_spec 2 (slice position 12 c) pad position).
    destruct (IH (fst (skip_words 2 (slice position 12 c) pad position))
      (snd (skip_words 2 (slice position 12 c) pad position)))
      as (v & Hrun & Hv); [lia..|]. exists v. split; [exact Hrun|].
    destruct v as [e|[[pad' p] buffer]]; [done|]. split; [lia|tauto].
  - eexists. split; [reflexivity|]. split; [lia|done].
Qed.

(** Parsing that fails at the last stream, and what probing makes of it. *)
Lemma parse_first_fails c f r e :
  file_ok c f -> xr_index r = None ->
  parse_stream (zlen c) (fseek_to f (zlen c), r) = Ok (inl (e, None), (fseek_to f (zlen c), r)) ->
  parse_block_indexes ndebug (f, r) = Ok (e, (fseek_to f (zlen c), r)).
Proof.
  intros Hf Hi Hrun. unfold parse_block_indexes.
  rewrite (bind_Ok get _ _ (f, r) (f, r)) by done. cbn [snd]. rewrite Hi.
  rewrite (bind_Ok (c_assert ndebug _) _ (f, r) tt (f, r)) by (cbn; by destruct ndebug).
  set (f' := fseek_to f (zlen c)) in *.
  rewrite (bind_Ok (on_file fseek_end_ftell) _ (f, r) (zlen c) (f', r))
    by (unfold on_file, zoom, fseek_end_ftell; cbn [fst snd]; destruct Hf as [-> _]; done).
  cbn [parse_streams]. rewrite (bind_Ok _ _ _ _ _ Hrun).
  rewrite (bind_Ok get _ _ (f', r) (f', r)) by done. cbn [snd]. by rewrite Hi.
Qed.

Lemma probe_fails c f :
  file_ok c f -> f_pos f = 0 -> slice 0 6 c = XZ_MAGIC_HEADER -> 24 <= zlen c ->
  (forall f', file_ok c f' -> exists e, e <> LZMA_OK /\
     parse_stream (zlen c) (f', new_reader 0) = Ok (inl (e, None), (f', new_reader 0))) ->
  exists f', xz_is_supported ndebug f = Ok (false, f').
Proof.
  intros Hf Hpos Hmagic Hl Hfail. unfold xz_is_supported, xz_is_supported_run.
  rewrite (bind_Ok _ _ _ _ _ (fread_magic c f Hf Hpos ltac:(lia))), Hmagic.
  change (zlen XZ_MAGIC_HEADER =? XZ_MAGIC_HEADER_SIZE) with true.
  rewrite (bind_Ok (c_assert ndebug _) _ _ tt _) by (by destruct ndebug).
  cbn [negb]. rewrite decide_False by tauto.
  set (f1 := mkFILE c 6 (f_err f) None). assert (Hf1 : file_ok c f1) by done.
  destruct (Hfail (fseek_to f1 (zlen c)) ltac:(done)) as (e & He & Hrun).
  rewrite (bind_Ok _ _ _ _ _ (parse_first_fails c f1 (new_reader 0) e Hf1 eq_refl Hrun)).
  rewrite (proj2 (Z.eqb_neq _ _)) by done. by eexists.
Qed.

Lemma stream_no_footer c f r :
  file_ok c f -> 24 <= zlen c -> le_at (zlen c - 12 + 2) 1 c = 0 ->
  (forall p, 12 <= p < zlen c - 12 -> exists e, e <> LZMA_OK /\
     lzma_stream_footer_decode (slice p 12 c) = inl e) ->
  exists e, e <> LZMA_OK /\ parse_stream (zlen c) (f, r) = Ok (inl (e, None), (f, r)).
Proof.
  intros Hf Hl Hbyte Hnone. unfold parse_stream, LZMA_STREAM_HEADER_SIZE.
  rewrite (proj2 (Z.ltb_ge _ _)) by lia.
  destruct (locate_footer_ends c f r (S (Z.to_nat (zlen c - 12))) 0 (zlen c - 12) Hf)
    as (v & Hrun & Hv); [lia..|]. rewrite (bind_Ok _ _ _ _ _ Hrun).
  destruct v as [e|[[pad p] buffer]]; [subst e; by exists LZMA_DATA_ERROR|].
  destruct Hv as (Hp & -> & Hb). destruct (Z.eq_dec p (zlen c - 12)) as [->|Hne]; [done|].
  destruct (Hnone p ltac:(lia)) as (e & He & ->). by exists e.
Qed.

(** Behind a footer that ends at [e], with padding of 8 bytes more than a multiple
    of 12, the search stops at the middle of the footer. *)
Lemma stream_padding_8 c f r e j err :
  file_ok c f -> 24 <= e -> zlen c < 2 ^ 62 -> zlen c = e + 8 + 12 * Z.of_nat j ->
  slice e (8 + 12 * Z.of_nat j) c = zeros (8 + 12 * Z.of_nat j) -> le_at (e - 2) 1 c <> 0 ->
  lzma_stream_footer_decode (slice (e - 4) 12 c) = inl err ->
  parse_stream (zlen c) (f, r) = Ok (inl (err, None), (f, r)).
Proof.
  intros Hf He Hc Hl Hz Hb Hdec. unfold parse_stream, LZMA_STREAM_HEADER_SIZE.
  rewrite (proj2 (Z.ltb_ge _ _)) by lia.
  assert (Hz' : slice (e + 8) (12 * Z.of_nat j) c = zeros (12 * Z.of_nat j)).
  { apply (f_equal (slice 8 (12 * Z.of_nat j))) in Hz. rewrite slice_slice in Hz by lia. rewrite Hz.
    unfold slice, zeros. rewrite drop_replicate, take_replicate. f_equal. lia. }
  pose proof (locate_footer_run c f r (e + 8) j (S (Z.to_nat (zlen c - 12))) 0 Hf ltac:(lia) ltac:(lia)
    Hc Hz') as Hloc. rewrite <- Hl in Hloc.
  replace (e + 8 - 12) with (e - 4) in Hloc by lia. replace (e - 4 + 2) with (e - 2) in Hloc by lia.
  rewrite (bind_Ok _ _ _ _ _ (Hloc Hb ltac:(lia) ltac:(lia) ltac:(lia))). by rewrite Hdec.
Qed.

(** Reads in front of an unreadable sector succeed, reads into it do not. *)
Lemma pread_all_before c f (r : XzReader) n off bad :
  f_content f = c -> f_bad f = Some bad -> 0 <= off -> 0 <= n -> off + n <= zlen c ->
  off + n <= bad -> pread_all n off (f, r) = Ok (Some (slice off n c), (f, r)).
Proof.
  intros Hc Hb Ho Hn Hin Hbad. unfold pread_all, bind, get, ret, pread, io_data, io_fault, io_end.
  cbn [fst]. rewrite Hb, Hc. rewrite (proj2 (Z.ltb_ge off 0)) by lia.
  rewrite (proj2 (Z.ltb_ge _ _)) by lia. cbn [andb fst snd].
  rewrite Z.min_l by lia. rewrite zlen_slice, Z.eqb_refl by lia. done.
Qed.

Lemma pread_all_into c f (r : XzReader) n off bad :
  f_content f = c -> f_bad f = Some bad -> 0 <= off -> off + n <= zlen c ->
  off <= bad < off + n -> pread_all n off (f, r) = Ok (None, (f, r)).
Proof.
  intros Hc Hb Ho Hin Hbad. unfold pread_all, bind, get, ret, pread, io_data, io_fault, io_end.
  cbn [fst]. rewrite Hb, Hc. rewrite (proj2 (Z.ltb_ge off 0)) by lia.
  rewrite (proj2 (Z.ltb_lt _ _)) by lia. cbn [andb]. rewrite Z.min_r by lia.
  rewrite (zlen_slice off (Z.max 0 (Z.min bad (zlen c)) - off)) by lia.
  destruct (Z.eqb_spec (Z.max 0 (Z.min bad (zlen c)) - off) 0); cbn [fst snd].
  - by rewrite (proj2 (Z.eqb_neq (-1) n)) by lia.
  - by rewrite (proj2 (Z.eqb_neq _ n)) by lia.
Qed.

(** [read_block] then says LZMA_OK and gives the block it has freed. *)
Lemma read_block_bad c img f r a idx off iter hs st b1 b2 bad :
  f_content f = c -> f_bad f = Some bad -> xr_index r = Some a -> xr_indexes r !! a = Some idx ->
  lzma_index_iter_locate idx off = Some iter -> block_at c img off iter hs st b1 b2 ->
  zlen c < 2 ^ 62 -> compressed_file_offset iter + hs <= bad < zlen c ->
  bad < compressed_file_offset iter + hs + IO_BUFFER_SIZE ->
  let m := xr_mem r in
  let m' := mkXzMem (cache m) (entries m) (delete (brk m) (<[brk m := zeros (uncompressed_size iter)]> (blocks m)))
              (S (brk m)) in
  read_block off (f, r) = Ok ((LZMA_OK, Some (brk m), uncompressed_file_offset iter, uncompressed_size iter),
    (fseek_to f (zlen c), set_mem m' r)).
Proof.
  intros Hfc Hfb Hi Hidx Hloc Hb Hc62 Hbad Hbuf m m'. destruct Hb. destruct ba_hfit0 as [Hh1 Hh2].
  set (cfo := compressed_file_offset iter) in *. unfold IO_BUFFER_SIZE in Hbuf.
  set (f' := fseek_to f (zlen c)).
  assert (Hf' : f_content f' = c /\ f_bad f' = Some bad) by done. destruct Hf' as [Hc' Hb'].
  unfold read_block. rewrite (bind_Ok get _ _ (f, r) (f, r)) by done. cbn [snd]. rewrite Hi.
  rewrite (bind_Ok (index_get a) _ (f, r) idx (f, r))
    by (unfold index_get, on_reader, zoom; cbn; by rewrite Hidx).
  rewrite Hloc. rewrite (bind_Ok (on_file fseek_end_ftell) _ (f, r) (zlen c) (f', r))
    by (unfold on_file, zoom, fseek_end_ftell; cbn [fst snd]; by rewrite Hfc).
  fold cfo. cbv zeta.
  rewrite (bind_Ok _ _ _ _ _ (pread_all_before c f' r 1 cfo bad Hc' Hb' ltac:(lia) ltac:(lia) ltac:(lia) ltac:(lia))).
  rewrite (le_at_slice cfo 1 0 1 c), Z.add_0_r by lia.
  rewrite (proj2 (Z.eqb_neq _ _)) by done. rewrite <- ba_hsize0. rewrite (s64_small (cfo + 1)) by lia.
  rewrite (bind_Ok _ _ _ _ _ (pread_all_before c f' r (hs - 1) (cfo + 1) bad Hc' Hb'
    ltac:(lia) ltac:(lia) ltac:(lia) ltac:(lia))).
  rewrite slice_app by lia. replace (1 + (hs - 1)) with hs by lia. rewrite ba_header0, ba_match0, ba_decoder0.
  rewrite s64_small by lia. replace (cfo + 1 + (hs - 1)) with (cfo + hs) by lia.
  set (r1 := set_mem (malloced (zeros (uncompressed_size iter)) m) r).
  rewrite (bind_Ok (on_mem (block_malloc _)) _ (f', r) (brk m) (f', r1)) by done.
  set (k := if zlen c <? cfo + hs + 16384 then zlen c - (cfo + hs) else 16384).
  assert (Hk : bad - (cfo + hs) < k /\ 0 < k /\ cfo + hs + k <= zlen c)
    by (unfold k; destruct (Z.ltb_spec (zlen c) (cfo + hs + 16384)); lia).
  rewrite (bind_Ok (decode_block _ _ _ _ _ _ _ _ _) _ (f', r1) (LZMA_OK, true) (f', r1)).
  2:{ cbn [decode_block]. change (zlen (@nil Byte.byte) =? 0) with true. cbn [negb].
      unfold IO_BUFFER_SIZE. rewrite (u64_small (cfo + hs + 16384)), (u64_small (zlen c - _)) by lia.
      cbv zeta. fold k. rewrite (proj2 (Z.eqb_neq k 0)) by lia.
      by rewrite (bind_Ok _ _ _ _ _ (bind_Ok _ _ _ _ _
        (pread_all_into c f' r1 k (cfo + hs) bad Hc' Hb' ltac:(lia) ltac:(lia) ltac:(lia)))). }
  cbn [fst snd orb]. unfold free_data, on_mem, on_reader, zoom, bind, block_free, ret. cbn [snd xr_mem r1 set_mem].
  cbn [blocks malloced]. by rewrite lookup_insert_eq.
Qed.

(** The first use of the cache takes any address. *)
Lemma add_first_run m d start size :
  cache m = mkXzCache 0 None None ->
  exists m', add_new_block ndebug d start size m = Ok (true, m') /\ blocks m' = blocks m.
Proof.
  intros Hc. destruct m as [cm em bm km]. cbn in Hc. subst cm. unfold add_new_block.
  change (MAX_NUM_BLOCKS_CACHE =? 0) with false. cbv iota.
  rewrite (bind_Ok get _ _ _ _ eq_refl).
  change (num_blocks _ <? MAX_NUM_BLOCKS_CACHE) with true. cbv iota. cbn [cache c_first c_last num_blocks].
  eexists. split; [unfold bind, modify, ret; by destruct ndebug|done].
Qed.
End xz_facts.

Section xz_theorems.
Context `{LZ : Lzma} (ndebug : bool).

(** The promise of the reader to the read layer. *)
#[export] Instance xz_ok garbage : ReaderOk (xz_impl ndebug garbage).
Proof.
  refine (Build_ReaderOk (xz_impl ndebug garbage) xz_decodes xz_inv _ _ _).
  - intros c img f r [Hf _]. exact Hf.
  - intros c img Hd. by apply xz_reader_alloc_run.
  - intros c img f r off n Hinv Ho Hn Hin.
    destruct (xz_read_run ndebug c img (S (Z.to_nat n)) f r off n Hinv)
      as (f' & r' & Hrun & Hinv'); [lia..|]. exists f', r'. split; [done|]. split; [done|].
    change (xz_free ndebug r' = Ok tt). unfold xz_free.
    destruct (xz_reader_free_run ndebug c img f' (fopen_content [] None) r' Hinv') as (r2 & -> & _).
    done.
Defined.

(** C16: a read of the xz reader that lies inside the image ends and returns
    exactly the bytes of the image, whatever is in the cache and over however
    many blocks it extends, and the cache goes on holding blocks of the image
    and owning everything allocated. *)
Theorem xz_read_ok c img f r off n :
  xz_inv c img f r -> 0 <= off -> 0 < n -> off + n <= zlen img ->
  exists f' r', xz_read ndebug off n (f, r) = Ok ((n, slice off n img), (f', r')) /\
    xz_inv c img f' r'.
Proof.
  intros Hinv Ho Hn Hin. apply (xz_read_run ndebug c img (S (Z.to_nat n)) f r off n Hinv); lia.
Qed.

(** C25: the parser walks the streams of an xz file from its end to its
    beginning, over their padding, joins their indexes and leaves the reader ready
    for reads; only the joined index stays allocated.  The footer of each stream has
    a byte 2 that is not zero and its padding is a multiple of 12 bytes; what [malloc]
    left in the struct does not matter. *)
Theorem xz_reader_alloc_ok c img garbage :
  xz_decodes c img ->
  exists r f', xz_reader_alloc ndebug garbage (fopen_content c None) = Ok (Some r, f') /\
    xz_inv c img f' r.
Proof. intros Hd. by apply xz_reader_alloc_run. Qed.

(** C26: freeing a reader does not fault and leaves no index, no cache entry
    and no block allocated: nothing is freed twice and nothing leaks. *)
Theorem xz_reader_free_ok c img f r :
  xz_inv c img f r ->
  exists r', xz_reader_free ndebug (f, r) = Ok (tt, (f, r')) /\
    xr_indexes r' = ∅ /\ entries (xr_mem r') = ∅ /\ blocks (xr_mem r') = ∅.
Proof. apply (xz_reader_free_run ndebug c img f). Qed.

(** Probing tells xz files by the magic bytes, and refuses those whose
    largest block has more than 64 MiB. *)
Theorem xz_is_supported_ok c f :
  file_ok c f -> f_pos f = 0 -> 6 <= zlen c ->
  (slice 0 6 c <> XZ_MAGIC_HEADER ->
   exists f', xz_is_supported ndebug f = Ok (false, f') /\ file_ok c f') /\
  (slice 0 6 c = XZ_MAGIC_HEADER ->
   forall img idx, xz_streams c (zlen c) None idx -> xz_index_ok c img idx ->
   exists f', xz_is_supported ndebug f
       = Ok (max_block (lzma_index_blocks idx) <=? 64 * 1024 * 1024, f') /\ file_ok c f').
Proof.
  intros Hf Hpos Hl. split; intros Hmagic.
  - by apply (xz_is_supported_other ndebug c).
  - intros img idx Hs Hok. by apply (xz_is_supported_run_ok ndebug c img).
Qed.

(** A read over the end of the image (which the end of the file system's
    device can be) returns the bytes up to the end with a count of one less:
    the -1 of the recursive call at the end is added like a count. *)
Theorem xz_read_past_end c img f r off n :
  xz_inv c img f r -> 0 <= off < zlen img -> zlen img < off + n -> n < 2 ^ 62 ->
  exists f' r', xz_read ndebug off n (f, r)
    = Ok ((zlen img - off - 1, slice off (zlen img - off) img), (f', r')) /\ xz_inv c img f' r'.
Proof.
  intros Hinv Ho Hn Hn62. apply (xz_read_end_run ndebug c img (S (Z.to_nat n)) f r off n Hinv); lia.
Qed.

(** A file whose last 12 bytes have a zero byte 2 (a byte of the footer's
    checksum) is not supported unless the bytes at another place happen to
    decode as a footer: the search takes the footer for stream padding. *)
Theorem xz_footer_missed c f :
  file_ok c f -> f_pos f = 0 -> slice 0 6 c = XZ_MAGIC_HEADER -> 24 <= zlen c ->
  le_at (zlen c - 12 + 2) 1 c = 0 ->
  (forall p, 12 <= p < zlen c - 12 -> exists e, e <> LZMA_OK /\
     lzma_stream_footer_decode (slice p 12 c) = inl e) ->
  exists f', xz_is_supported ndebug f = Ok (false, f').
Proof.
  intros Hf Hpos Hmagic Hl Hbyte Hnone. apply (probe_fails ndebug c f Hf Hpos Hmagic Hl).
  intros f' Hf'. by apply stream_no_footer.
Qed.

(** A file whose last stream is followed by padding of 8 bytes more than a multiple
    of 12 is not supported, although the format has padding in multiples of 4:
    the search compares single bytes where it should compare words of 4, and takes
    the middle of the footer, with its bytes "YZ", for the footer. *)
Theorem xz_padding_missed c f e j err :
  file_ok c f -> f_pos f = 0 -> slice 0 6 c = XZ_MAGIC_HEADER -> 24 <= e ->
  zlen c = e + 8 + 12 * Z.of_nat j -> zlen c < 2 ^ 62 ->
  slice e (8 + 12 * Z.of_nat j) c = zeros (8 + 12 * Z.of_nat j) ->
  slice (e - 2) 2 c = [Byte.x59; Byte.x5a] ->
  lzma_stream_footer_decode (slice (e - 4) 12 c) = inl err -> err <> LZMA_OK ->
  exists f', xz_is_supported ndebug f = Ok (false, f').
Proof.
  intros Hf Hpos Hmagic He Hl Hc Hz Hyz Hdec Herr.
  apply (probe_fails ndebug c f Hf Hpos Hmagic ltac:(lia)).
  intros f' Hf'. exists err. split; [done|]. apply (stream_padding_8 c f' _ e j); try done.
  assert (Hb : slice (e - 2) 1 c = [Byte.x59]).
  { apply (f_equal (slice 0 1)) in Hyz. rewrite slice_slice, Z.add_0_r in Hyz by lia. exact Hyz. }
  unfold le_at. by rewrite Hb.
Qed.

(** When the file has an unreadable sector in the first 16384 bytes of a
    block's data, the first read of that block uses freed memory: read_block
    frees its buffer but returns the LZMA_OK of the last decoder call. *)
Theorem xz_read_bad_sector c img f r a idx off n iter hs st b1 b2 bad :
  f_content f = c -> f_bad f = Some bad -> xr_index r = Some a -> xr_indexes r !! a = Some idx ->
  cache (xr_mem r) = mkXzCache 0 None None ->
  lzma_index_iter_locate idx off = Some iter -> block_at c img off iter hs st b1 b2 ->
  zlen c < 2 ^ 62 -> compressed_file_offset iter + hs <= bad < zlen c ->
  bad < compressed_file_offset iter + hs + IO_BUFFER_SIZE ->
  xz_read ndebug off n (f, r) = Err UB.
Proof.
  intros Hfc Hfb Hi Hidx Hcache Hloc Hb Hc62 Hbad Hbuf.
  pose proof (read_block_bad c img f r a idx off iter hs st b1 b2 bad Hfc Hfb Hi Hidx Hloc Hb Hc62 Hbad Hbuf) as Hrun.
  cbv zeta in Hrun. unfold xz_read. cbn [xz_read_fuel]. set (m := xr_mem r) in *.
  set (m1 := mkXzMem _ _ _ _) in Hrun.
  destruct (add_first_run ndebug m1 (brk m) (uncompressed_file_offset iter) (uncompressed_size iter) Hcache)
    as (m2 & Hadd & Hbl).
  rewrite (bind_Ok (xz_block ndebug off) _ (f, r)
    (Some (brk m, uncompressed_file_offset iter, uncompressed_size iter, true))
    (fseek_to f (zlen c), set_mem m2 (set_mem m1 r))).
  - apply bind_Err. unfold on_mem, on_reader, zoom, block_get. cbn [snd xr_mem set_mem].
    rewrite Hbl. unfold m1. cbn [blocks]. by rewrite lookup_delete_eq.
  - unfold xz_block.
    rewrite (bind_Ok (on_mem (get_cache_block ndebug off)) _ (f, r) None (f, r)).
    + rewrite (bind_Ok _ _ _ _ _ Hrun), Z.eqb_refl. cbn [negb].
      rewrite (bind_Ok (non_null (Some (brk m))) _ _ (brk m) _ eq_refl).
      by rewrite (bind_Ok _ _ _ _ _ (on_mem_ok _ _ (set_mem m1 r) _ _ Hadd)).
    + unfold on_mem, on_reader, zoom. cbn [snd]. unfold get_cache_block, bind, get. fold m.
      rewrite Hcache. cbn. unfold m; by destruct r.
Qed.
End xz_theorems.
