(* ===== verification/GzipReader.v ===== *)
(** * compression/gzip/gzip_reader.c: random access in a gzip file

    The reader keeps access points: places in the compressed file where a
    deflate block begins, with the last 32 KiB of output before them, in a
    doubly linked list on an explicit heap.  zlib is the parameter [Zlib]: a
    [z_stream] is the decoder without its four buffer fields, which the code
    sets and reads and which are arguments and results of [inflate] here.  The
    loops around [inflate] take [fuel], a bound on the number of calls. *)
From Stdlib Require Import ZArith Lia Strings.Byte.
From stdpp Require Import base numbers list option gmap.
From S2P Require Import Prelude Clib Disk Reader DList.

(** zlib.h *)
Definition Z_OK : Z := 0.
Definition Z_STREAM_END : Z := 1.
Definition Z_NEED_DICT : Z := 2.
Definition Z_ERRNO : Z := -1.
Definition Z_DATA_ERROR : Z := -3.
Definition Z_MEM_ERROR : Z := -4.
Definition Z_NO_FLUSH : Z := 0.
Definition Z_BLOCK : Z := 5.

Class Zlib : Type := {
  z_stream : Type;
  inflateInit2 : Z -> Z * z_stream;
  inflatePrime : z_stream -> Z -> Z -> z_stream;
  inflateSetDictionary : z_stream -> bytes -> z_stream;
  (* [inflate st flush input avail_out]: the code, the number of bytes used,
     the output, [data_type] and the stream *)
  inflate : z_stream -> Z -> bytes -> Z -> Z * Z * bytes * Z * z_stream }.

Definition SPAN : Z := 1048576.
Definition WINDOW_SIZE : Z := 32768.
Definition CHUNK : Z := 16384.
Definition GZIP_WINDOW_BITS : Z := 47.
Definition RAW_INFLATE_BITS : Z := -15.
Definition INDEXER_ERROR : Z := -1.
Definition GZIP_MAGIC_HEADER_SIZE : Z := 2.
Definition GZIP_MAGIC_HEADER : bytes := [Byte.x1f; Byte.x8b].

(** The data members of [GzipAccessPointEntry]. *)
Record GzipAccessPointEntry : Type := mkPoint {
  raw_byte_address : Z;
  compressed_byte_address : Z;
  bits : Z;
  context : bytes }.

Record GzipAccessPointList : Type := mkPoints {
  list_length : Z;
  first : option nat;
  last : option nat }.

(** [GzipReader] with its list and the heap of the entries; [gzip_file] is the
    other half of the state. *)
Record GzipReader : Type := mkGzipReader {
  points : GzipAccessPointList;
  heap : gmap nat (cell GzipAccessPointEntry);
  g_brk : nat }.

Definition set_points (l : GzipAccessPointList) (r : GzipReader) : GzipReader :=
  mkGzipReader l (heap r) (g_brk r).
Definition set_heap (h : gmap nat (cell GzipAccessPointEntry)) (r : GzipReader) : GzipReader :=
  mkGzipReader (points r) h (g_brk r).
Definition on_heap {A : Type} (m : M (gmap nat (cell GzipAccessPointEntry)) A) : M GzipReader A :=
  zoom heap set_heap m.

(** ** The access point list *)

(** The window copied from a circular buffer of which [left] bytes are not
    overwritten yet. *)
Definition rotate_context (left : Z) (context : bytes) : res bytes :=
  let new := zeros WINDOW_SIZE in
  let? new := (if negb (left =? 0) then
                 if in_range (WINDOW_SIZE - left) left context
                 then store 0 (slice (WINDOW_SIZE - left) left context) new else Err UB
               else Ok new) in
  if left <? WINDOW_SIZE then
    if in_range 0 (WINDOW_SIZE - left) context
    then store left (slice 0 (WINDOW_SIZE - left) context) new else Err UB
  else Ok new.

Definition create_access_point_entry (raw_byte_address compressed_byte_address bits left : Z)
    (context : bytes) : M GzipReader nat :=
  let* context := lift (rotate_context left context) in
  fun r =>
    let e := mkPoint raw_byte_address compressed_byte_address (u8 bits) context in
    Ok (g_brk r, mkGzipReader (points r) (<[g_brk r := mkCell e None None]> (heap r)) (S (g_brk r))).

Definition free_access_point_entry (entry : nat) : M GzipReader unit := on_heap (
  let* e := cell_get entry in
  do* (match next e with Some n => cell_set n (set_prev (prev e)) | None => ret tt end) in
  do* (match prev e with Some p => cell_set p (set_next (next e)) | None => ret tt end) in
  cell_free entry).

Definition create_access_point_list : GzipAccessPointList := mkPoints 0 None None.

Definition append_access_point_list (entry : nat) : M GzipReader unit :=
  do* modify (fun r => set_points (mkPoints (u64 (list_length (points r) + 1))
                                     (first (points r)) (last (points r))) r) in
  let* r := get in
  do* on_heap (cell_set entry (fun e => set_next None (set_prev (last (points r)) e))) in
  do* (match first (points r) with
       | Some _ => let* l := non_null (last (points r)) in
                   on_heap (cell_set l (set_next (Some entry)))
       | None => modify (fun r => set_points (mkPoints (list_length (points r)) (Some entry)
                                                (last (points r))) r)
       end) in
  modify (fun r => set_points (mkPoints (list_length (points r)) (first (points r)) (Some entry)) r).

Section gzip.
Context `{ZL : Zlib} (ndebug : bool) (fuel : nat).

(** The loop of [free_access_point_list]: the last entry and the count. *)
Fixpoint free_points (n : nat) (current : nat) (next_ : option nat) (freed_count : Z)
    : M GzipReader (nat * Z) :=
  match n with
  | O => fail NoFuel
  | S n' =>
      match next_ with
      | None => ret (current, freed_count)
      | Some nx =>
          do* (if ndebug then ret tt else
               let* e := on_heap (cell_get nx) in ASSERT (bool_decide (prev e = Some current))) in
          do* free_access_point_entry current in
          let* e := on_heap (cell_get nx) in
          free_points n' nx (next e) (u64 (freed_count + 1))
      end
  end.

(** [current->next] is read before the test of [current]. *)
Definition free_access_point_list : M GzipReader unit :=
  let* r := get in
  let* current := non_null (first (points r)) in
  let* e := on_heap (cell_get current) in
  let* w := free_points (S (Z.to_nat (list_length (points r)))) current (next e) 0 in
  let* r := get in
  do* c_assert ndebug (bool_decide (last (points r) = Some (fst w))) in
  do* free_access_point_entry (fst w) in
  c_assert ndebug (list_length (points r) =? u64 (snd w + 1)).

(** ** Building the index *)

Definition GM : Type -> Type := M (FILE * GzipReader).
Definition on_gfile {A : Type} (m : M FILE A) : GM A := zoom fst (fun f s => (f, snd s)) m.
Definition on_points {A : Type} (m : M GzipReader A) : GM A := zoom snd (fun r s => (fst s, r)) m.

(** [reader->list->last->raw_byte_address] *)
Definition last_address : GM Z := on_points (
  let* r := get in
  let* l := non_null (last (points r)) in
  let* e := on_heap (cell_get l) in
  ret (raw_byte_address (val e))).

(** The state of the inflation that [build_index] keeps: the stream, the window
    buffer and the two counters. *)
Record indexing : Type := mkIndexing {
  ix_stream : z_stream;
  ix_context : bytes;
  raw_byte_counter : Z;
  compressed_byte_counter : Z }.

(** The do-while loop of [index_next_chunk]; [next_out] is
    [context + WINDOW_SIZE - avail_out]. *)
Fixpoint index_loop (n : nat) (max_byte_address : Z) (ix : indexing) (next_in : bytes) (avail_out : Z)
    : GM (Z * indexing) :=
  match n with
  | O => fail NoFuel
  | S n' =>
      let avail_out := if avail_out =? 0 then WINDOW_SIZE else avail_out in
      let compressed_byte_counter := s64 (compressed_byte_counter ix + zlen next_in) in
      let raw_byte_counter := s64 (raw_byte_counter ix + avail_out) in
      let '(code, used, out, data_type, stream) := inflate (ix_stream ix) Z_BLOCK next_in avail_out in
      let* context := lift (store (WINDOW_SIZE - avail_out) out (ix_context ix)) in
      let next_in := drop (Z.to_nat used) next_in in
      let avail_out := avail_out - zlen out in
      let compressed_byte_counter := s64 (compressed_byte_counter - zlen next_in) in
      let raw_byte_counter := s64 (raw_byte_counter - avail_out) in
      let ix := mkIndexing stream context raw_byte_counter compressed_byte_counter in
      let return_value := s8 code in
      if (return_value =? Z_MEM_ERROR) || (return_value =? Z_DATA_ERROR) || (return_value =? Z_NEED_DICT)
      then ret (return_value, ix) else
      if return_value =? Z_STREAM_END then ret (Z_OK, ix) else
      let* far := (if negb (Z.land data_type 128 =? 0) && (Z.land data_type 64 =? 0) then
                     if raw_byte_counter =? 0 then ret true else
                     let* a := last_address in ret (SPAN <? s64 (raw_byte_counter - a))
                   else ret false) in
      let* stop := (if far : bool then
                      let* new_entry := on_points (create_access_point_entry raw_byte_counter
                                          compressed_byte_counter (Z.land data_type 7) avail_out context) in
                      do* on_points (append_access_point_list new_entry) in
                      let* a := last_address in
                      ret (max_byte_address <? s64 (a + SPAN))
                    else ret false) in
      if stop : bool then ret (Z_OK, ix) else
      if zlen next_in =? 0 then ret (Z_OK, ix) else
      index_loop n' max_byte_address ix next_in avail_out
  end.

(** Each chunk starts with [avail_out = 0]. *)
Definition index_next_chunk (max_byte_address : Z) (ix : indexing) : GM (Z * indexing) :=
  let* input_buf := on_gfile (fread CHUNK) in
  let* e := on_gfile ferror in
  if e : bool then ret (Z_ERRNO, ix) else
  if zlen input_buf =? 0 then ret (Z_DATA_ERROR, ix) else
  index_loop fuel max_byte_address ix input_buf 0.

(** [while (return_value == Z_OK)] *)
Fixpoint build_loop (n : nat) (max_byte_address : Z) (ix : indexing) (return_value : Z) : GM Z :=
  match n with
  | O => fail NoFuel
  | S n' =>
      if negb (return_value =? Z_OK) then ret return_value else
      let* r := index_next_chunk max_byte_address ix in
      let '(return_value, ix) := r in
      if max_byte_address <? s64 (raw_byte_counter ix + SPAN) then ret return_value
      else build_loop n' max_byte_address ix return_value
  end.

(** Seek to the byte where an access point begins, and the last bits of the byte
    before it: the stream, or the code when the file cannot be read there. *)
Definition seek_point (entry : GzipAccessPointEntry) (stream : z_stream) : GM (Z + z_stream) :=
  let position := compressed_byte_address entry - (if bits entry =? 0 then 0 else 1) in
  let* r := on_gfile (fseeko_set position) in
  if r =? -1 then
    let* e := on_gfile ferror in ret (inl (if e : bool then Z_ERRNO else Z_DATA_ERROR))
  else if bits entry =? 0 then ret (inr (inflateSetDictionary stream (context entry)))
  else
    let* next_char := on_gfile getc in
    if next_char =? -1 then
      let* e := on_gfile ferror in ret (inl (if e : bool then Z_ERRNO else Z_DATA_ERROR))
    else
      do* require (bits entry <=? 8) in
      ret (inr (inflateSetDictionary
                  (inflatePrime stream (bits entry) (Z.shiftr next_char (8 - bits entry)))
                  (context entry))).

(** [junk] is what the uninitialised array [context] holds. *)
Definition build_index (junk : bytes) (max_byte_address : Z) : GM Z :=
  let* s := get in
  if negb (list_length (points (snd s)) =? 0) then
    let '(return_value, stream) := inflateInit2 RAW_INFLATE_BITS in
    let* l := non_null (last (points (snd s))) in
    let* e := on_points (on_heap (cell_get l)) in
    let entry := val e in
    let* st := seek_point entry stream in
    match st with
    | inl code => ret code
    | inr stream =>
        build_loop fuel max_byte_address
          (mkIndexing stream junk (raw_byte_address entry) (compressed_byte_address entry)) (s8 return_value)
    end
  else
    let '(return_value, stream) := inflateInit2 GZIP_WINDOW_BITS in
    build_loop fuel max_byte_address (mkIndexing stream junk 0 0) (s8 return_value).

Definition check_and_build_index (junk : bytes) (max_byte_address : Z) : GM Z :=
  let* s := get in
  if negb (list_length (points (snd s)) =? 0) then
    do* c_assert ndebug (bool_decide (is_Some (last (points (snd s))))) in
    let* a := last_address in
    if max_byte_address <? s64 (a + SPAN) then ret 0 else build_index junk max_byte_address
  else build_index junk max_byte_address.

(** ** Reading *)

(** The code, the stream, the input left and the output. *)
Definition read_next_chunk (stream : z_stream) (next_in : bytes) (avail_out : Z)
    : GM (Z * z_stream * bytes * bytes) :=
  let* i := (if zlen next_in =? 0 then
               let* b := on_gfile (fread CHUNK) in
               let* e := on_gfile ferror in
               ret (if e : bool then inl Z_ERRNO else if zlen b =? 0 then inl Z_DATA_ERROR else inr b)
             else ret (inr next_in)) in
  match i with
  | inl e => ret (e, stream, [], [])
  | inr next_in =>
      let '(code, used, out, _, stream) := inflate stream Z_NO_FLUSH next_in avail_out in
      ret (s8 code, stream, drop (Z.to_nat used) next_in, out)
  end.

(** Until [avail_out] is filled: also all that was output. *)
Fixpoint fill_out (n : nat) (stream : z_stream) (next_in : bytes) (avail_out : Z)
    : GM (Z * z_stream * bytes * bytes) :=
  match n with
  | O => fail NoFuel
  | S n' =>
      let* r := read_next_chunk stream next_in avail_out in
      let '(return_value, stream, next_in, out) := r in
      do* require (zlen out <=? avail_out) in
      let avail_out := avail_out - zlen out in
      if negb (avail_out =? 0) && (return_value =? Z_OK) then
        let* r := fill_out n' stream next_in avail_out in
        ret (fst r, out ++ snd r)
      else ret (return_value, stream, next_in, out)
  end.

(** The outer loop while [skip]: windows are discarded up to the offset, then
    the buffer is filled.  The code and the bytes put in the buffer.  What is
    discarded has to fit in [discard_window], whatever [avail_out] says: a
    negative offset would be cast to an unsigned one. *)
Fixpoint skip_and_read (n : nat) (stream : z_stream) (next_in : bytes) (offset length : Z)
    : GM (Z * bytes) :=
  match n with
  | O => fail NoFuel
  | S n' =>
      if offset =? 0 then
        let* r := fill_out fuel stream next_in (u32 length) in
        let '(return_value, _, _, out) := r in
        ret (return_value, out)
      else
        let avail_out := if WINDOW_SIZE <? offset then WINDOW_SIZE else u32 offset in
        let offset := if WINDOW_SIZE <? offset then offset - WINDOW_SIZE else 0 in
        let* r := fill_out fuel stream next_in avail_out in
        let '(return_value, stream, next_in, discarded) := r in
        do* require (zlen discarded <=? WINDOW_SIZE) in
        if return_value =? Z_OK then skip_and_read n' stream next_in offset length
        else ret (return_value, [])
  end.

(** The last access point in front of the offset. *)
Fixpoint find_point (n : nat) (current : nat) (offset : Z) : GM nat :=
  match n with
  | O => fail NoFuel
  | S n' =>
      let* e := on_points (on_heap (cell_get current)) in
      match next e with
      | None => ret current
      | Some nx =>
          let* e' := on_points (on_heap (cell_get nx)) in
          if raw_byte_address (val e') <? offset then find_point n' nx offset else ret current
      end
  end.

Definition _gzip_read (offset length : Z) : GM (Z * bytes) :=
  if length =? 0 then ret (0, []) else
  let* s := get in
  do* c_assert ndebug (bool_decide (is_Some (first (points (snd s))))) in
  let* current := non_null (first (points (snd s))) in
  let* current := find_point (S (Z.to_nat (list_length (points (snd s))))) current offset in
  let* e := on_points (on_heap (cell_get current)) in
  let '(return_value, stream) := inflateInit2 RAW_INFLATE_BITS in
  if negb (s8 return_value =? Z_OK) then ret (s8 return_value, []) else
  let* st := seek_point (val e) stream in
  match st with
  | inl code => ret (code, [])
  | inr stream =>
      let offset := s64 (offset - raw_byte_address (val e)) in
      skip_and_read (S (S (Z.to_nat offset))) stream [] offset length
  end.

(** ** The reader *)

Definition gzip_is_supported : M FILE bool :=
  let* file_header := fread GZIP_MAGIC_HEADER_SIZE in
  do* c_assert ndebug (zlen file_header =? GZIP_MAGIC_HEADER_SIZE) in
  if negb (zlen file_header =? GZIP_MAGIC_HEADER_SIZE) then ret false else
  ret (bool_decide (file_header = GZIP_MAGIC_HEADER)).

Definition gzip_reader_alloc : M FILE (option GzipReader) :=
  ret (Some (mkGzipReader create_access_point_list ∅ 0)).

Definition stream_end_ok (return_value : Z) : Z :=
  if return_value =? Z_STREAM_END then Z_OK else return_value.

Definition gzip_read (junk : bytes) (offset length : Z) : GM (Z * bytes) :=
  let* return_value := check_and_build_index junk (s64 (offset + length)) in
  do* c_assert ndebug (stream_end_ok return_value =? Z_OK) in
  let* r := _gzip_read offset length in
  let return_value := stream_end_ok (fst r) in
  do* c_assert ndebug (return_value =? Z_OK) in
  ret (if return_value =? Z_OK then s32 length else INDEXER_ERROR, snd r).

Definition gzip_reader_free (r : GzipReader) : res unit :=
  match free_access_point_list r with
  | Ok _ => Ok tt
  | Err e => Err e
  end.

Definition gzip_impl (junk : bytes) : CompressionReaderImpl :=
  mkImpl GzipReader gzip_is_supported gzip_reader_alloc (gzip_read junk) gzip_reader_free.
End gzip.
