(* ===== verification/GzipFacts.v ===== *)
(** * compression/gzip/gzip_reader.c: access points and decoding from them

    The access point list against a list of points ([list_rep]), the rotation
    of the window buffer, and reads: [inflates] is what the code relies on zlib
    for, [point_ok] says that decoding can start at an access point. *)
From Stdlib Require Import ZArith Lia Strings.Byte.
From stdpp Require Import base numbers list option gmap.
From S2P Require Import Prelude Clib Disk Reader DList GzipReader.

(** ** The access point list *)

(** [l] are the addresses of the entries in order, [vs] their data; nothing else
    is allocated. *)
Record list_rep (r : GzipReader) (l : list nat) (vs : list GzipAccessPointEntry) : Prop := {
  lr_seg : dseg (heap r) None l None;
  lr_nodup : NoDup l;
  lr_first : first (points r) = hd_of None l;
  lr_last : last (points r) = last_of None l;
  lr_length : list_length (points r) = zlen l;
  lr_max : zlen l < 2 ^ 63;
  lr_dom : forall a, is_Some (heap r !! a) <-> a ∈ l;
  lr_vals : Forall2 (fun a v => vals (heap r) !! a = Some v) l vs;
  lr_brk : forall a, a ∈ l -> (a < g_brk r)%nat }.

Lemma bind_heap_get {B} a c (k : cell GzipAccessPointEntry -> M GzipReader B) r :
  heap r !! a = Some c -> bind (on_heap (cell_get a)) k r = k c r.
Proof.
  intros Hc. unfold bind, on_heap, zoom, cell_get. rewrite Hc. by destruct r.
Qed.
Lemma bind_heap_set {B} a f (k : unit -> M GzipReader B) r :
  is_Some (heap r !! a) ->
  bind (on_heap (cell_set a f)) k r = k tt (set_heap (alter f a (heap r)) r).
Proof. intros [c Hc]. unfold bind, on_heap, zoom, cell_set. by rewrite Hc. Qed.

Lemma list_rep_new : list_rep (mkGzipReader create_access_point_list ∅ 0) [] [].
Proof.
  split; try done.
  - apply base.NoDup_nil_2.
  - intros a. cbn. rewrite lookup_empty. split; [by intros [? ?]|by rewrite elem_of_nil].
  - intros a. by rewrite elem_of_nil.
Qed.

(** ** The window buffer *)

(** The buffer in the order of the output when [left] bytes at its end are the
    oldest. *)
Definition in_order (left : Z) (context : bytes) : bytes :=
  drop (Z.to_nat (WINDOW_SIZE - left)) context ++ take (Z.to_nat (WINDOW_SIZE - left)) context.

Lemma zlen_in_order left ctx :
  zlen ctx = WINDOW_SIZE -> 0 <= left <= WINDOW_SIZE -> zlen (in_order left ctx) = WINDOW_SIZE.
Proof.
  intros Hc Hl. unfold in_order. rewrite zlen_app, zlen_drop, zlen_take by lia. lia.
Qed.

Lemma rotate_context_run left ctx :
  zlen ctx = WINDOW_SIZE -> 0 <= left <= WINDOW_SIZE ->
  rotate_context left ctx = Ok (in_order left ctx).
Proof.
  intros Hc Hl. unfold rotate_context, in_order.
  assert (Hz : zlen (zeros WINDOW_SIZE) = WINDOW_SIZE) by (apply zlen_zeros; unfold WINDOW_SIZE; lia).
  set (W := WINDOW_SIZE) in *. set (d := drop (Z.to_nat (W - left)) ctx).
  assert (Hd : zlen d = left) by (unfold d; rewrite zlen_drop by lia; lia).
  assert (Hs : slice (W - left) left ctx = d).
  { unfold slice. fold d. apply take_ge. unfold zlen in Hd. lia. }
  assert (Hin : (if negb (left =? 0) then
                   if in_range (W - left) left ctx
                   then store 0 (slice (W - left) left ctx) (zeros W) else Err UB
                 else Ok (zeros W)) = Ok (splice 0 d (zeros W))).
  { destruct (Z.eqb_spec left 0) as [He|Hne]; cbn [negb].
    - rewrite He in Hd. destruct d; [done|rewrite zlen_cons in Hd; pose proof (zlen_nonneg d); lia].
    - rewrite in_range_true by lia. rewrite Hs. unfold store. by rewrite in_range_true by lia. }
  rewrite Hin. cbn [rbind]. destruct (Z.ltb_spec left W) as [Hlt|Hge].
  - rewrite in_range_true by lia. unfold store.
    assert (Ht : zlen (slice 0 (W - left) ctx) = W - left) by (apply zlen_slice; lia).
    rewrite in_range_true by (rewrite ?zlen_splice, ?Ht; lia).
    rewrite <- Hd at 1. rewrite <- (Z.add_0_l (zlen d)), splice_splice by lia.
    rewrite splice_0_all by (rewrite zlen_app; lia). by rewrite <- take_slice.
  - rewrite splice_0_all by lia. assert (Hz0 : W - left = 0) by lia.
    by rewrite Hz0, take_0, app_nil_r.
Qed.

(** Output that fits behind the oldest bytes takes their place. *)
Lemma in_order_step left ctx out ctx' :
  zlen ctx = WINDOW_SIZE -> 0 <= left <= WINDOW_SIZE -> zlen out <= left ->
  store (WINDOW_SIZE - left) out ctx = Ok ctx' ->
  zlen ctx' = WINDOW_SIZE /\
  in_order (left - zlen out) ctx' = drop (length out) (in_order left ctx) ++ out.
Proof.
  intros Hc Hl Ho. unfold store. pose proof (zlen_nonneg out).
  rewrite in_range_true by lia. intros [= <-]. split; [by rewrite zlen_splice by lia|].
  unfold in_order, splice. set (W := WINDOW_SIZE) in *.
  replace (Z.to_nat (W - (left - zlen out))) with (Z.to_nat (W - left) + length out)%nat
    by (unfold zlen in *; lia).
  set (k := Z.to_nat (W - left)).
  assert (Hk : length (take k ctx) = k) by (rewrite length_take; unfold zlen in *; lia).
  rewrite drop_app_ge, Hk by lia. rewrite drop_app_ge by lia.
  replace (k + length out - k - length out)%nat with 0%nat by lia.
  rewrite drop_0, app_assoc, take_app_le by (rewrite length_app, Hk; lia).
  rewrite take_ge by (rewrite length_app, Hk; lia).
  rewrite drop_app_le by (rewrite length_drop; unfold zlen in *; lia).
  rewrite drop_drop, <- app_assoc. done.
Qed.

(** [avail_out = 0] stands for the whole buffer. *)
Lemma in_order_reset ctx : zlen ctx = WINDOW_SIZE -> in_order 0 ctx = in_order WINDOW_SIZE ctx.
Proof.
  intros Hc. unfold in_order. rewrite Z.sub_diag, Z.sub_0_r. cbn [Z.to_nat].
  rewrite drop_0, take_0, app_nil_r, drop_ge, take_ge by (unfold zlen in *; lia). done.
Qed.

(** ** Adding and freeing points *)

(** The two steps of [index_next_chunk] that add a point. *)
Definition add_point (raw comp bits left : Z) (context : bytes) : M GzipReader unit :=
  let* new_entry := create_access_point_entry raw comp bits left context in
  append_access_point_list new_entry.

Lemma append_seg (h : gmap nat (cell GzipAccessPointEntry)) l new v :
  dseg h None l None -> NoDup l -> new ∉ l ->
  let h1 := <[new := mkCell v None (last_of None l)]> h in
  dseg (match last_of None l with Some z => alter (set_next (Some new)) z h1 | None => h1 end)
    None (l ++ [new]) None.
Proof.
  intros Hseg Hnd Hnew h1.
  destruct l as [|z l' _] using rev_ind; cbn [last_of list.last app].
  - cbn [dseg]. split; [|done]. exists (mkCell v None None). split; [|done].
    unfold h1. cbn. apply lookup_insert_eq.
  - rewrite last_of_snoc in *. apply dseg_app. rewrite last_of_snoc. cbn [hd_of dseg].
    rewrite elem_of_app, list_elem_of_singleton in Hnew.
    apply list.NoDup_app in Hnd as (_ & Hz & _).
    split; [|split; [|done]].
    + apply (dseg_set_next _ _ _ _ None).
      * intros Hi. apply (Hz z Hi), list_elem_of_singleton. done.
      * apply dseg_insert; [|done]. rewrite elem_of_app, list_elem_of_singleton. done.
    + exists (mkCell v None (Some z)). split; [|done]. unfold h1. rewrite lookup_alter_ne by (intros ->; tauto).
      by rewrite lookup_insert_eq, last_of_snoc.
Qed.

(** The stores of [append_access_point_list] for a new entry at [g_brk r]. *)
Lemma append_run r l vs v :
  list_rep r l vs -> zlen l + 1 < 2 ^ 63 -> g_brk r ∉ l ->
  let h1 := <[g_brk r := mkCell v None (last_of None l)]> (heap r) in
  append_access_point_list (g_brk r)
    (mkGzipReader (points r) (<[g_brk r := mkCell v None None]> (heap r)) (S (g_brk r)))
  = Ok (tt, mkGzipReader (mkPoints (zlen l + 1) (hd_of None (l ++ [g_brk r])) (Some (g_brk r)))
      (match last_of None l with Some z => alter (set_next (Some (g_brk r))) z h1 | None => h1 end)
      (S (g_brk r))).
Proof.
  intros Hr Hmax Hnew. cbv zeta. pose proof (zlen_nonneg l).
  unfold append_access_point_list. pose proof (lr_first _ _ _ Hr) as Hf. pose proof (lr_last _ _ _ Hr) as Hla.
  pose proof (lr_length _ _ _ Hr) as Hle. pose proof (lr_dom _ _ _ Hr) as Hdom.
  destruct r as [[len fi la] h k]. cbn [points heap g_brk first last list_length] in *. subst fi la len.
  unfold bind at 1, modify at 1. cbn [points heap g_brk first last list_length set_points].
  rewrite (bind_Ok get _ _ _ _ eq_refl). cbn [points last].
  rewrite bind_heap_set by (cbn; rewrite lookup_insert_eq; eauto).
  cbn [heap set_heap points first last list_length set_points g_brk].
  rewrite alter_insert_eq. rewrite u64_small by lia. unfold set_prev, set_next. cbn [val next prev].
  destruct l as [|f l] using rev_ind; [done|]. clear IHl. rewrite last_of_snoc.
  assert (Hhd : exists x, hd_of None (l ++ [f]) = Some x /\ hd_of None ((l ++ [f]) ++ [k]) = Some x)
    by (destruct l; cbn; eauto).
  destruct Hhd as (x & Hx & Hx'). rewrite Hx'. cbn [first]. rewrite Hx.
  cbn [points last]. cbn [non_null]. unfold bind at 1. unfold ret at 1, bind at 1.
  unfold on_heap, zoom, cell_set. cbn [heap set_heap].
  rewrite lookup_insert_ne by (intros ->; apply Hnew; rewrite elem_of_app, list_elem_of_singleton; tauto).
  assert (Hzl : is_Some (h !! f)) by (apply Hdom; rewrite elem_of_app, list_elem_of_singleton; tauto).
  destruct Hzl as [c Hc']. rewrite Hc'. reflexivity.
Qed.

Lemma add_point_run r l vs raw comp b left ctx :
  list_rep r l vs -> zlen ctx = WINDOW_SIZE -> 0 <= left <= WINDOW_SIZE -> zlen l + 1 < 2 ^ 63 ->
  exists r', add_point raw comp b left ctx r = Ok (tt, r') /\
    list_rep r' (l ++ [g_brk r]) (vs ++ [mkPoint raw comp (u8 b) (in_order left ctx)]) /\
    last (points r') = Some (g_brk r).
Proof.
  intros Hr Hc Hl Hmax. unfold add_point, create_access_point_entry.
  set (v := mkPoint raw comp (u8 b) (in_order left ctx)).
  set (r1 := mkGzipReader (points r) (<[g_brk r := mkCell v None None]> (heap r)) (S (g_brk r))).
  rewrite (bind_Ok _ _ r (g_brk r) r1)
    by (unfold bind, lift; by rewrite rotate_context_run by done).
  assert (Hnew : g_brk r ∉ l) by (intros Hi; pose proof (lr_brk _ _ _ Hr _ Hi); lia).
  pose proof (append_seg (heap r) l (g_brk r) v (lr_seg _ _ _ Hr) (lr_nodup _ _ _ Hr) Hnew) as Hseg.
  cbv zeta in Hseg. pose proof (zlen_nonneg l).
  set (h' := match last_of None l with Some z => _ | None => _ end) in Hseg.
  pose proof (append_run r l vs v Hr Hmax Hnew) as Hrun. cbv zeta in Hrun. fold h' r1 in Hrun.
  rewrite Hrun. eexists. split; [done|]. split; [|done].
  assert (Hv : vals h' = <[g_brk r := v]> (vals (heap r))).
  { unfold h'. assert (H1 : vals (<[g_brk r := mkCell v None (last_of None l)]> (heap r))
      = <[g_brk r := v]> (vals (heap r))) by (unfold vals; by rewrite fmap_insert).
    destruct (last_of None l); [by rewrite vals_set_next|done]. }
  split; cbn [heap points g_brk first last list_length].
  - done.
  - apply list.NoDup_app. split; [apply (lr_nodup _ _ _ Hr)|]. split; [|apply NoDup_singleton].
    intros x Hx ->%list_elem_of_singleton. done.
  - done.
  - by rewrite last_of_snoc.
  - by rewrite zlen_app, zlen_cons, zlen_nil.
  - rewrite zlen_app, zlen_cons, zlen_nil. lia.
  - intros a. rewrite elem_of_app, list_elem_of_singleton.
    assert (Ha : is_Some (h' !! a) <-> is_Some (vals h' !! a)) by (unfold vals; by rewrite lookup_fmap, fmap_is_Some).
    rewrite Ha, Hv. destruct (decide (a = g_brk r)) as [->|Hne].
    + rewrite lookup_insert_eq. split; [tauto|]. eauto.
    + rewrite lookup_insert_ne by done. unfold vals. rewrite lookup_fmap, fmap_is_Some, (lr_dom _ _ _ Hr). tauto.
  - rewrite Hv. apply Forall2_app; [|constructor; [apply lookup_insert_eq|done]].
    pose proof (lr_vals _ _ _ Hr) as Hvs. clear - Hvs Hnew.
    induction Hvs as [|a w l vs Ha Hvs IH]; [done|]. rewrite elem_of_cons in Hnew.
    constructor; [|apply IH; tauto]. rewrite lookup_insert_ne; [done|]. intros He. apply Hnew. by left.
  - intros a. rewrite elem_of_app, list_elem_of_singleton. intros [Ha| ->]; [|lia].
    pose proof (lr_brk _ _ _ Hr _ Ha). lia.
Qed.

(** Freeing: the entries go one by one from the front. *)
Lemma free_first_run r a l c :
  heap r !! a = Some c -> prev c = None -> next c = hd_of None l -> NoDup (a :: l) ->
  dseg (heap r) (Some a) l None ->
  exists r', free_access_point_entry a r = Ok (tt, r') /\ dseg (heap r') None l None /\
    points r' = points r /\ (forall b, is_Some (heap r' !! b) <-> is_Some (heap r !! b) /\ b <> a).
Proof.
  intros Hc Hp Hn Hnd Hseg. apply list.NoDup_cons in Hnd as [Ha Hnd]. unfold free_access_point_entry, on_heap, zoom.
  unfold bind at 1, cell_get at 1. rewrite Hc, Hp, Hn.
  destruct l as [|b l]; cbn [hd_of].
  - unfold bind, ret, cell_free. rewrite Hc. eexists. split; [reflexivity|]. cbn [heap set_heap points].
    split; [done|]. split; [done|]. intros b. destruct (decide (b = a)) as [->|Hne].
    + rewrite lookup_delete_eq. split; [by intros [? ?]|by intros [_ []]].
    + rewrite lookup_delete_ne by done. tauto.
  - assert (Hab : a <> b) by (intros ->; apply Ha, elem_of_cons; by left).
    destruct Hseg as [(cb & Hcb & Hpb & Hnb) Hl].
    unfold bind at 1, cell_set at 1. rewrite Hcb. unfold bind, ret, cell_free.
    rewrite lookup_alter_ne, Hc by done. eexists. split; [reflexivity|]. cbn [heap set_heap points].
    split; [|split; [done|]].
    + apply dseg_delete; [done|]. apply list.NoDup_cons in Hnd as [Hb _].
      apply (dseg_set_prev _ (Some a)); [done|]. split; [by exists cb|done].
    + intros x. destruct (decide (x = a)) as [->|Hne].
      * rewrite lookup_delete_eq. split; [by intros [? ?]|by intros [_ []]].
      * rewrite lookup_delete_ne by done. destruct (decide (b = x)) as [<-|Hbx].
        -- rewrite lookup_alter_eq, Hcb. split; [split; [eauto|done]|]. eauto.
        -- rewrite lookup_alter_ne by done. tauto.
Qed.

Lemma free_points_run ndebug n r a l c count :
  heap r !! a = Some c -> prev c = None -> next c = hd_of None l -> NoDup (a :: l) ->
  dseg (heap r) (Some a) l None -> (length l < n)%nat -> 0 <= count -> count + zlen l < 2 ^ 64 ->
  exists r' z cz, last_of (Some a) l = Some z /\
    free_points ndebug n a (hd_of None l) count r = Ok ((z, count + zlen l), r') /\
    heap r' !! z = Some cz /\ prev cz = None /\ next cz = None /\ points r' = points r /\
    (forall b, is_Some (heap r' !! b) <-> is_Some (heap r !! b) /\ (b = z \/ b ∉ a :: l)).
Proof.
  revert r a l c count. induction n as [|n IH]; intros r a l c count Hc Hp Hn Hnd Hseg Hlen Hcount Hmax; [lia|].
  destruct l as [|b l]; cbn [free_points hd_of].
  - exists r, a, c. rewrite zlen_nil, Z.add_0_r. split_and!; try done. intros b.
    rewrite list_elem_of_singleton. destruct (decide (b = a)); tauto.
  - destruct Hseg as [(cb & Hcb & Hpb & Hnb) Hl].
    assert (Hassert : (if ndebug then ret tt else
        let* e := on_heap (cell_get b) in ASSERT (bool_decide (prev e = Some a))) r = Ok (tt, r)).
    { destruct ndebug; [done|]. rewrite (bind_heap_get b cb) by done. by rewrite Hpb, bool_decide_eq_true_2. }
    rewrite (bind_Ok _ _ _ _ _ Hassert).
    destruct (free_first_run r a (b :: l) c Hc Hp Hn Hnd) as (r1 & Hrun & Hseg1 & Hpts & Hdom);
      [split; [by exists cb|done]|]. rewrite (bind_Ok _ _ _ _ _ Hrun).
    destruct Hseg1 as [(cb1 & Hcb1 & Hpb1 & Hnb1) Hl1].
    rewrite (bind_heap_get b cb1) by done. rewrite Hnb1. rewrite zlen_cons in *.
    pose proof (zlen_nonneg l). rewrite u64_small by lia.
    pose proof Hnd as Hnd0. apply list.NoDup_cons in Hnd as [Ha Hnd].
    destruct (IH r1 b l cb1 (count + 1) Hcb1 Hpb1 Hnb1 Hnd Hl1) as (r' & z & cz & Hz & Hr & H1 & H2 & H3 & H4 & H5);
      [cbn in Hlen; lia..|].
    exists r', z, cz. rewrite last_of_cons. split; [done|]. rewrite Hr.
    split; [do 3 f_equal; lia|]. do 3 (split; [done|]). split; [congruence|].
    intros x. rewrite H5, Hdom, (elem_of_cons (b :: l)). 
    assert (z ∈ b :: l).
    { apply last_of_elem in Hz. done. }
    split; [intros [[? ?] [?|?]]; tauto|]. intros [? [->|?]]; [|tauto]. split; [|tauto].
    split; [done|]. by intros ->.
Qed.

Lemma free_access_point_list_run ndebug r a l vs :
  list_rep r (a :: l) vs ->
  exists r', free_access_point_list ndebug r = Ok (tt, r') /\ heap r' = ∅.
Proof.
  intros Hr. unfold free_access_point_list. rewrite (bind_Ok get _ r r r) by done.
  pose proof (lr_seg _ _ _ Hr) as [(c & Hc & Hp & Hn) Hseg].
  rewrite (lr_first _ _ _ Hr). cbn [hd_of].
  rewrite (bind_Ok (non_null (Some a)) _ r a r) by done.
  rewrite (bind_heap_get a c), Hn, (lr_length _ _ _ Hr), zlen_cons by done.
  pose proof (lr_max _ _ _ Hr) as Hmax. rewrite zlen_cons in Hmax. pose proof (zlen_nonneg l).
  destruct (free_points_run ndebug (S (Z.to_nat (1 + zlen l))) r a l c 0 Hc Hp Hn (lr_nodup _ _ _ Hr) Hseg)
    as (r1 & z & cz & Hz & Hrun & Hcz & Hpz & Hnz & Hpts & Hdom); [unfold zlen in *; lia|lia..|].
  rewrite (bind_Ok _ _ _ _ _ Hrun), (bind_Ok get _ r1 r1 r1) by done. cbn [fst snd].
  rewrite Hpts, (lr_last _ _ _ Hr), last_of_cons, Hz, bool_decide_eq_true_2 by done.
  rewrite (bind_Ok (c_assert ndebug true) _ r1 tt r1) by (by destruct ndebug).
  destruct (free_first_run r1 z [] cz Hcz Hpz Hnz (NoDup_singleton z) I) as (r2 & Hrun2 & _ & _ & Hdom2).
  rewrite (bind_Ok _ _ _ _ _ Hrun2). exists r2. split.
  - rewrite (lr_length _ _ _ Hr), zlen_cons, u64_small by lia.
    rewrite (proj2 (Z.eqb_eq _ _)) by lia. by destruct ndebug.
  - apply map_empty. intros x. destruct (heap r2 !! x) as [y|] eqn:E; [|done]. exfalso.
    apply mk_is_Some, Hdom2 in E as [E Hxz]. apply Hdom in E as [E [?|Hx]]; [done|].
    by apply (lr_dom _ _ _ Hr) in E.
Qed.

(** ** Decoding *)

Section gzip_facts.
Context `{ZL : Zlib} (ndebug : bool) (fuel : nat).

(** A stream at a point where the input that follows is [inp] and the output
    still to come is [out]: a call of [inflate] with any amount of that input
    and any room uses some input, gives output or both, and ends the stream
    exactly when the output is complete. *)
Inductive inflates : z_stream -> bytes -> bytes -> Prop :=
| inflates_step st inp out :
    inp <> [] ->
    (forall k av code used w dt st', 0 < k <= zlen inp -> k <= CHUNK -> 0 < av ->
       inflate st Z_NO_FLUSH (take (Z.to_nat k) inp) av = (code, used, w, dt, st') ->
       0 <= used <= k /\ zlen w <= av /\
       ((code = Z_STREAM_END /\ w = out) \/
        (code = Z_OK /\ 0 < used + zlen w /\ exists out', out = w ++ out'))) ->
    (forall k av used w dt st' out', 0 < k <= zlen inp -> k <= CHUNK -> 0 < av ->
       inflate st Z_NO_FLUSH (take (Z.to_nat k) inp) av = (Z_OK, used, w, dt, st') ->
       out = w ++ out' -> inflates st' (drop (Z.to_nat used) inp) out') ->
    inflates st inp out.

(** The stream that [seek_point] prepares at an access point, from the file
    content. *)
Definition point_stream (c : bytes) (e : GzipAccessPointEntry) (st : z_stream) : z_stream :=
  inflateSetDictionary
    (if bits e =? 0 then st else
     inflatePrime st (bits e) (Z.shiftr (le_at (compressed_byte_address e - 1) 1 c) (8 - bits e)))
    (context e).

(** Decoding can start at the access point. *)
Record point_ok (c img : bytes) (e : GzipAccessPointEntry) : Prop := {
  po_raw : 0 <= raw_byte_address e <= zlen img;
  po_bits : 0 <= bits e <= 7;
  po_start : (if bits e =? 0 then 0 else 1) <= compressed_byte_address e <= zlen c;
  po_decodes : inflates (point_stream c e (snd (inflateInit2 RAW_INFLATE_BITS)))
    (drop (Z.to_nat (compressed_byte_address e)) c) (drop (Z.to_nat (raw_byte_address e)) img) }.

(** The file between two calls: its content, no error. *)
Definition gfile_ok (c : bytes) (f : FILE) : Prop :=
  f_content f = c /\ f_bad f = None /\ f_err f = false.
Definition at_pos (c : bytes) (p : Z) : FILE := mkFILE c p false None.

Lemma fread_run c p n (r : GzipReader) :
  0 <= p <= zlen c -> 0 <= n ->
  let k := Z.min n (zlen c - p) in
  on_gfile (fread n) (at_pos c p, r) = Ok (slice p k c, (at_pos c (p + k), r)).
Proof.
  intros Hp Hn k. unfold on_gfile, zoom, fread, io_data, io_fault, io_end, at_pos.
  cbn [fst snd f_content f_pos f_err f_bad orb]. fold k. by rewrite zlen_slice by lia.
Qed.

Lemma ferror_run c p (r : GzipReader) :
  on_gfile ferror (at_pos c p, r) = Ok (false, (at_pos c p, r)).
Proof. done. Qed.

Lemma seek_point_run c img e f r :
  point_ok c img e -> gfile_ok c f ->
  seek_point e (snd (inflateInit2 RAW_INFLATE_BITS)) (f, r)
  = Ok (inr (point_stream c e (snd (inflateInit2 RAW_INFLATE_BITS))),
        (at_pos c (compressed_byte_address e), r)).
Proof.
  intros [Hraw Hbits Hstart _] (Hc & Hb & He). destruct f as [fc fp fe fb]. cbn in Hc, Hb, He. subst fc fb fe.
  unfold seek_point, point_stream. set (st := snd _).
  set (pos := compressed_byte_address e - (if bits e =? 0 then 0 else 1)).
  assert (Hpos : 0 <= pos <= zlen c) by (unfold pos; destruct (bits e =? 0); lia).
  rewrite (bind_Ok (on_gfile (fseeko_set pos)) _ _ 0 (at_pos c pos, r))
    by (unfold on_gfile, zoom, fseeko_set; rewrite (proj2 (Z.ltb_ge pos 0)) by lia; done).
  cbn [Z.eqb]. destruct (Z.eqb_spec (bits e) 0) as [Hz|Hnz]; unfold pos.
  { by rewrite Z.sub_0_r. }
  assert (Hgetc : on_gfile getc (at_pos c (compressed_byte_address e - 1), r)
    = Ok (le_at (compressed_byte_address e - 1) 1 c, (at_pos c (compressed_byte_address e), r))).
  { pose proof (fread_run c (compressed_byte_address e - 1) 1 r ltac:(lia) ltac:(lia)) as Hr. cbv zeta in Hr.
    rewrite Z.min_l in Hr by lia. revert Hr. unfold on_gfile, zoom, getc, bind.
    cbn [fst snd]. destruct (fread 1 _) as [[d f1]|]; [|done]. intros [= -> ->].
    replace (compressed_byte_address e - 1 + 1) with (compressed_byte_address e) by lia.
    unfold ret, le_at. set (s := slice _ 1 c).
    assert (Hs : zlen s = 1) by (apply zlen_slice; lia). destruct s as [|b s]; [done|].
    rewrite zlen_cons in Hs. destruct s; [|rewrite zlen_cons in Hs; pose proof (zlen_nonneg s); lia].
    cbn [le_decode fst snd]. by rewrite Z.mul_0_r, Z.add_0_r. }
  rewrite (bind_Ok _ _ _ _ _ Hgetc).
  pose proof (le_at_range (compressed_byte_address e - 1) 1 c ltac:(lia)).
  rewrite (proj2 (Z.eqb_neq _ (-1))) by lia. by rewrite (proj2 (Z.leb_le (bits e) 8)) by lia.
Qed.

(** The input of the next call: what is left of the buffer, or a chunk. *)
Lemma next_input c inp next_in p (r : GzipReader) :
  inp <> [] -> inp = next_in ++ drop (Z.to_nat p) c -> 0 <= p <= zlen c -> zlen next_in <= CHUNK ->
  exists k p', 0 < k <= zlen inp /\ k <= CHUNK /\ 0 <= p' <= zlen c /\
    inp = take (Z.to_nat k) inp ++ drop (Z.to_nat p') c /\ zlen (take (Z.to_nat k) inp) = k /\
    (if zlen next_in =? 0 then
       let* b := on_gfile (fread CHUNK) in
       let* e := on_gfile ferror in
       ret (if e : bool then inl Z_ERRNO else if zlen b =? 0 then inl Z_DATA_ERROR else inr b)
     else ret (inr next_in)) (at_pos c p, r) = Ok (inr (take (Z.to_nat k) inp), (at_pos c p', r)).
Proof.
  intros Hne Hinp Hp Hni. change CHUNK with 16384 in *.
  destruct (Z.eqb_spec (zlen next_in) 0) as [Hz|Hnz].
  - assert (next_in = []) as -> by (destruct next_in; [done|rewrite zlen_cons in Hz; pose proof (zlen_nonneg next_in); lia]).
    cbn [app] in Hinp. assert (Hl : zlen inp = zlen c - p) by (rewrite Hinp, zlen_drop by lia; lia).
    assert (0 < zlen inp) by (destruct inp; [done|rewrite zlen_cons; pose proof (zlen_nonneg inp); lia]).
    set (k := Z.min 16384 (zlen c - p)). exists k, (p + k).
    assert (Hk : take (Z.to_nat k) inp = slice p k c) by (rewrite Hinp; done).
    assert (Hlk : zlen (take (Z.to_nat k) inp) = k) by (rewrite zlen_take by lia; lia).
    split; [lia|]. split; [lia|]. split; [lia|]. split; [|split; [done|]].
    + rewrite <- (take_drop (Z.to_nat k) inp) at 1. f_equal. rewrite Hinp, drop_drop. f_equal. lia.
    + rewrite Hk in Hlk |- *.
      rewrite (bind_Ok _ _ _ _ _ (fread_run c p 16384 r Hp ltac:(lia))). fold k.
      rewrite (bind_Ok _ _ _ _ _ (ferror_run c (p + k) r)). rewrite Hlk.
      by rewrite (proj2 (Z.eqb_neq k 0)) by lia.
  - exists (zlen next_in), p. pose proof (zlen_nonneg next_in).
    assert (Hk : take (Z.to_nat (zlen next_in)) inp = next_in)
      by (rewrite Hinp; unfold zlen; rewrite Nat2Z.id; apply take_app_length).
    assert (zlen next_in <= zlen inp)
      by (rewrite Hinp, zlen_app; pose proof (zlen_nonneg (drop (Z.to_nat p) c)); lia).
    rewrite Hk. do 5 (split; [done || lia|]). done.
Qed.

Lemma read_next_chunk_run c p p' (r : GzipReader) st next_in inp av code used w dt st' :
  (if zlen next_in =? 0 then
     let* b := on_gfile (fread CHUNK) in
     let* e := on_gfile ferror in
     ret (if e : bool then inl Z_ERRNO else if zlen b =? 0 then inl Z_DATA_ERROR else inr b)
   else ret (inr next_in)) (at_pos c p, r) = Ok (inr inp, (at_pos c p', r)) ->
  inflate st Z_NO_FLUSH inp av = (code, used, w, dt, st') ->
  read_next_chunk st next_in av (at_pos c p, r)
  = Ok ((s8 code, st', drop (Z.to_nat used) inp, w), (at_pos c p', r)).
Proof.
  intros Hin Hinf. unfold read_next_chunk. rewrite (bind_Ok _ _ _ _ _ Hin). by rewrite Hinf.
Qed.

(** Filling the output from the stream: complete, or up to its end. *)
Lemma fill_out_run c st inp out :
  inflates st inp out ->
  forall n next_in p av r, inp = next_in ++ drop (Z.to_nat p) c -> 0 <= p <= zlen c ->
  zlen next_in <= CHUNK -> 0 < av -> zlen inp + zlen out < Z.of_nat n ->
  exists code st' next_in' p',
    fill_out n st next_in av (at_pos c p, r)
      = Ok ((code, st', next_in', take (Z.to_nat av) out), (at_pos c p', r)) /\
    ((code = Z_OK /\ av <= zlen out /\ 0 <= p' <= zlen c /\ zlen next_in' <= CHUNK /\
      inflates st' (next_in' ++ drop (Z.to_nat p') c) (drop (Z.to_nat av) out) /\
      zlen (next_in' ++ drop (Z.to_nat p') c) <= zlen inp) \/
     (code = Z_STREAM_END /\ zlen out <= av)).
Proof.
  intros Hinf. induction Hinf as [st inp out Hne Hstep Hnext IH].
  intros n next_in p av r Hinp Hp Hni Hav Hn.
  destruct n as [|n]; [pose proof (zlen_nonneg inp); pose proof (zlen_nonneg out); lia|]. cbn [fill_out].
  destruct (next_input c inp next_in p r Hne Hinp Hp Hni) as (k & p1 & Hk & Hkb & Hp1 & Hsplit & Hlk & Hrun).
  destruct (inflate st Z_NO_FLUSH (take (Z.to_nat k) inp) av) as [[[[code used] w] dt] st'] eqn:Hcode.
  destruct (Hstep k av code used w dt st' Hk Hkb Hav Hcode) as (Hused & Hw & Hres).
  rewrite (bind_Ok _ _ _ _ _ (read_next_chunk_run c p p1 r st next_in _ av _ _ _ _ _ Hrun Hcode)).
  rewrite (proj2 (Z.leb_le _ _)) by lia. rewrite (bind_Ok (require true) _ _ tt (at_pos c p1, r)) by done.
  pose proof (zlen_nonneg w). pose proof (zlen_nonneg inp).
  destruct Hres as [[-> ->]|(-> & Hprog & out' & Hout)].
  { change (s8 Z_STREAM_END) with Z_STREAM_END. change (Z_STREAM_END =? Z_OK) with false. rewrite andb_false_r.
    exists Z_STREAM_END, st', (drop (Z.to_nat used) (take (Z.to_nat k) inp)), p1.
    rewrite (take_ge out) by (unfold zlen in *; lia). split; [done|]. by right. }
  change (s8 Z_OK =? Z_OK) with true. rewrite andb_true_r.
  assert (Hrest : drop (Z.to_nat used) inp = drop (Z.to_nat used) (take (Z.to_nat k) inp) ++ drop (Z.to_nat p1) c).
  { rewrite Hsplit at 1. by rewrite drop_app_le by (unfold zlen in Hlk; lia). }
  assert (Hrl : zlen (drop (Z.to_nat used) (take (Z.to_nat k) inp)) <= CHUNK) by (rewrite zlen_drop by lia; lia).
  assert (Hdl : zlen (drop (Z.to_nat used) inp) = zlen inp - used) by (rewrite zlen_drop by lia; lia).
  rewrite Hout in Hn |- *. rewrite zlen_app in Hn |- *. pose proof (zlen_nonneg out').
  destruct (Z.eqb_spec (av - zlen w) 0) as [Hz|Hnz]; cbn [negb].
  - exists Z_OK, st', (drop (Z.to_nat used) (take (Z.to_nat k) inp)), p1.
    assert (Hav' : Z.to_nat av = length w) by (unfold zlen in *; lia).
    rewrite Hav', take_app_length, drop_app_length. split; [done|]. left.
    split; [done|]. split; [lia|]. split; [done|]. split; [done|]. rewrite <- Hrest. split; [|lia].
    by apply (Hnext k av used w dt st' out').
  - destruct (IH k av used w dt st' out' Hk Hkb Hav Hcode Hout n _ p1 (av - zlen w) r Hrest Hp1 Hrl)
      as (code & st2 & ni & p2 & Hfill & Hres); [lia..|].
    rewrite (bind_Ok _ _ _ _ _ Hfill). cbn [fst snd]. exists code, st2, ni, p2.
    assert (Hsp : (Z.to_nat av = length w + Z.to_nat (av - zlen w))%nat) by (unfold zlen in *; lia).
    rewrite Hsp, take_app_add, drop_app_add. split; [done|].
    destruct Hres as [(G1 & G2 & G3 & G4 & G5 & G6)|[G1 G2]]; [left|right; split; [done|lia]].
    do 4 (split; [done || lia|]). split; [done|lia].
Qed.

Lemma slice_past {A} off n (l : list A) : zlen l <= off -> slice off n l = [].
Proof.
  intros H. unfold slice. rewrite drop_ge by (unfold zlen in H; lia). by destruct (Z.to_nat n).
Qed.

(** Discarding windows up to the offset, then reading. *)
Lemma skip_and_read_run c n : forall st next_in p offset length out inp r,
  inflates st inp out -> inp = next_in ++ drop (Z.to_nat p) c -> 0 <= p <= zlen c ->
  zlen next_in <= CHUNK -> 0 <= offset < Z.of_nat n -> 0 < length < 2 ^ 32 ->
  zlen inp + zlen out < Z.of_nat fuel ->
  exists code f', skip_and_read fuel n st next_in offset length (at_pos c p, r)
      = Ok ((code, slice offset length out), (f', r)) /\
    (code = Z_OK \/ code = Z_STREAM_END) /\ gfile_ok c f'.
Proof.
  induction n as [|n IH]; intros st next_in p offset length out inp r Hinf Hinp Hp Hni Hoff Hlen Hfuel; [lia|].
  cbn [skip_and_read]. pose proof (zlen_nonneg inp). destruct (Z.eqb_spec offset 0) as [->|Hnz].
  - rewrite u32_small by lia.
    destruct (fill_out_run c st inp out Hinf fuel next_in p length r Hinp Hp Hni ltac:(lia) Hfuel)
      as (code & st' & ni & p' & Hrun & Hres).
    rewrite (bind_Ok _ _ _ _ _ Hrun). rewrite take_slice. exists code, (at_pos c p').
    split; [done|]. split; [|done]. destruct Hres as [[-> _]|[-> _]]; tauto.
  - unfold WINDOW_SIZE. set (av := if 32768 <? offset then 32768 else u32 offset).
    assert (Hav : 0 < av <= offset /\ (if 32768 <? offset then offset - 32768 else 0) = offset - av).
    { unfold av. destruct (Z.ltb_spec 32768 offset); [lia|]. rewrite u32_small by lia. lia. }
    destruct Hav as [Hav ->].
    destruct (fill_out_run c st inp out Hinf fuel next_in p av r Hinp Hp Hni ltac:(lia) Hfuel)
      as (code & st' & ni & p' & Hrun & Hres).
    rewrite (bind_Ok _ _ _ _ _ Hrun).
    assert (Hav32 : av <= 32768).
    { unfold av. destruct (Z.ltb_spec 32768 offset); [lia|]. rewrite u32_small by lia. lia. }
    rewrite (proj2 (Z.leb_le (zlen (take (Z.to_nat av) out)) 32768)) by (rewrite zlen_take by lia; lia).
    rewrite (bind_Ok (require true) _ _ tt (at_pos c p', r)) by done.
    destruct Hres as [(-> & G1 & G2 & G3 & G4 & G5)|[-> G1]].
    + change (Z_OK =? Z_OK) with true. cbv iota.
      destruct (IH st' ni p' (offset - av) length _ _ r G4 eq_refl G2 G3) as (code & f' & Hrest & Hc & Hf);
        [lia|lia|rewrite zlen_drop by lia; lia|].
      exists code, f'. rewrite Hrest. split; [|done]. do 3 f_equal. unfold slice.
      rewrite drop_drop. do 2 f_equal. lia.
    + change (Z_STREAM_END =? Z_OK) with false. cbv iota. rewrite slice_past by lia.
      exists Z_STREAM_END, (at_pos c p'). split; [done|]. split; [tauto|done].
Qed.

Lemma rep_cell r l vs i a v :
  list_rep r l vs -> l !! i = Some a -> vs !! i = Some v ->
  exists c, heap r !! a = Some c /\ val c = v /\ next c = l !! S i.
Proof.
  intros Hr Ha Hv. pose proof (lr_seg _ _ _ Hr) as Hseg.
  pose proof (Forall2_lookup_lr _ _ _ _ _ _ (lr_vals _ _ _ Hr) Ha Hv) as Hval.
  rewrite <- (take_drop_middle l i a Ha) in Hseg. destruct (dseg_mid _ _ _ _ _ _ Hseg) as (c & Hc & _ & Hn).
  exists c. split; [done|]. unfold vals in Hval. rewrite lookup_fmap, Hc in Hval. injection Hval as Hval.
  split; [done|]. rewrite Hn. pose proof (lookup_drop l (S i) 0) as Hd. rewrite Nat.add_0_r in Hd.
  rewrite <- Hd. by destruct (drop (S i) l).
Qed.

Lemma find_point_run f r l vs n i a v offset :
  list_rep r l vs -> l !! i = Some a -> vs !! i = Some v -> raw_byte_address v <= offset ->
  (length l < n + i)%nat ->
  exists j b w, find_point n a offset (f, r) = Ok (b, (f, r)) /\
    l !! j = Some b /\ vs !! j = Some w /\ raw_byte_address w <= offset.
Proof.
  intros Hr. revert i a v. induction n as [|n IH]; intros i a v Ha Hv Hraw Hn.
  { apply lookup_lt_Some in Ha. lia. }
  assert (Hget : forall (B : Type) x cx (k : cell GzipAccessPointEntry -> GM B), heap r !! x = Some cx ->
    bind (on_points (on_heap (cell_get x))) k (f, r) = k cx (f, r)).
  { intros B x cx k Hx. unfold bind, on_points, on_heap, zoom, cell_get. cbn [snd fst]. rewrite Hx. by destruct r. }
  cbn [find_point]. destruct (rep_cell r l vs i a v Hr Ha Hv) as (c & Hc & Hvc & Hnc).
  rewrite (Hget _ a c) by done. rewrite Hnc. destruct (l !! S i) as [b|] eqn:Hb; [|by exists i, a, v].
  destruct (lookup_lt_is_Some_2 vs (S i)) as [w Hw].
  { apply lookup_lt_Some in Hb. by rewrite <- (Forall2_length _ _ _ (lr_vals _ _ _ Hr)). }
  destruct (rep_cell r l vs (S i) b w Hr Hb Hw) as (cb & Hcb & Hvb & _).
  rewrite (Hget _ b cb) by done. rewrite Hvb. destruct (Z.ltb_spec (raw_byte_address w) offset).
  - apply (IH (S i) b w Hb Hw); lia.
  - by exists i, a, v.
Qed.

(** Reading from the access points there are; what lies behind the end of the
    image is not read. *)
Lemma gzip_read_points c img f r l vs v offset length :
  list_rep r l vs -> vs !! 0%nat = Some v -> raw_byte_address v <= offset -> Forall (point_ok c img) vs ->
  gfile_ok c f -> fst (inflateInit2 RAW_INFLATE_BITS) = Z_OK ->
  0 <= offset < 2 ^ 63 -> 0 < length < 2 ^ 32 -> zlen c + zlen img < Z.of_nat fuel ->
  exists code f', _gzip_read ndebug fuel offset length (f, r)
      = Ok ((code, slice offset length img), (f', r)) /\
    (code = Z_OK \/ code = Z_STREAM_END) /\ gfile_ok c f'.
Proof.
  intros Hr Hv Hraw Hpts Hf Hinit Hoff Hlen Hfuel. unfold _gzip_read.
  rewrite (proj2 (Z.eqb_neq length 0)) by lia. rewrite (bind_Ok get _ _ (f, r) (f, r)) by done. cbn [snd].
  pose proof (Forall2_length _ _ _ (lr_vals _ _ _ Hr)) as Hll.
  destruct l as [|a l]; [destruct vs; [done|cbn in Hll; lia]|].
  rewrite (lr_first _ _ _ Hr). cbn [hd_of]. rewrite bool_decide_eq_true_2 by eauto.
  rewrite (bind_Ok (c_assert ndebug true) _ _ tt (f, r)) by (by destruct ndebug).
  rewrite (bind_Ok (non_null (Some a)) _ _ a (f, r)) by done.
  rewrite (lr_length _ _ _ Hr).
  destruct (find_point_run f r (a :: l) vs (S (Z.to_nat (zlen (a :: l)))) 0 a v offset Hr eq_refl Hv Hraw
    ltac:(unfold zlen; lia)) as (j & b & w & Hrun & Hb & Hw & Hrw).
  rewrite (bind_Ok _ _ _ _ _ Hrun). destruct (rep_cell r _ vs j b w Hr Hb Hw) as (cb & Hcb & Hvb & _).
  rewrite (bind_Ok (on_points (on_heap (cell_get b))) _ (f, r) cb (f, r))
    by (unfold on_points, on_heap, zoom, cell_get; cbn [snd fst]; rewrite Hcb; by destruct r).
  rewrite Hvb. assert (Hpw : point_ok c img w)
    by (eapply Forall_forall; [exact Hpts|]; by eapply list_elem_of_lookup_2).
  pose proof (seek_point_run c img w f r Hpw Hf) as Hseek.
  destruct Hpw as [[Hr0 Hr1] _ Hst Hdec].
  destruct (inflateInit2 RAW_INFLATE_BITS) as [rv st]. cbn [fst snd] in *. subst rv.
  change (s8 Z_OK =? Z_OK) with true. cbn [negb]. rewrite (bind_Ok _ _ _ _ _ Hseek).
  rewrite s64_small by lia.
  assert (Hcb0 : 0 <= compressed_byte_address w <= zlen c) by (destruct (bits w =? 0); lia).
  set (o := offset - raw_byte_address w).
  destruct (skip_and_read_run c (S (S (Z.to_nat o))) _ [] (compressed_byte_address w) o length _ _ r Hdec eq_refl
    Hcb0 ltac:(done) ltac:(lia) Hlen) as (code & f' & Hrest & Hc & Hf').
  { rewrite !zlen_drop by lia. lia. }
  exists code, f'. rewrite Hrest. split; [|done]. do 3 f_equal. unfold slice. rewrite drop_drop.
  do 2 f_equal. unfold o. lia.
Qed.

(** ** The entries of the index *)

Lemma on_points_ok {A} (m : M GzipReader A) f r a r' :
  m r = Ok (a, r') -> on_points m (f, r) = Ok (a, (f, r')).
Proof. intros Hm. unfold on_points, zoom. cbn [snd]. by rewrite Hm. Qed.

Lemma last_entry r l vs v :
  list_rep r l vs -> list.last vs = Some v ->
  exists a c, last (points r) = Some a /\ heap r !! a = Some c /\ val c = v.
Proof.
  intros Hr Hv. pose proof (Forall2_length _ _ _ (lr_vals _ _ _ Hr)) as Hll. rewrite last_lookup in Hv.
  assert (Hl : (length vs > 0)%nat) by (destruct vs; [done|cbn; lia]).
  destruct (lookup_lt_is_Some_2 l (Nat.pred (length vs))) as [a Ha]; [lia|].
  destruct (rep_cell r l vs _ a v Hr Ha Hv) as (c & Hc & Hvc & _). exists a, c. split; [|done].
  rewrite (lr_last _ _ _ Hr). unfold last_of. by rewrite last_lookup, Hll, Ha.
Qed.

Lemma last_address_run f r l vs v :
  list_rep r l vs -> list.last vs = Some v ->
  last_address (f, r) = Ok (raw_byte_address v, (f, r)).
Proof.
  intros Hr Hv. unfold last_address. apply on_points_ok.
  destruct (last_entry r l vs v Hr Hv) as (a & c & Ha & Hc & Hvc).
  rewrite (bind_Ok get _ r r r), Ha by done. rewrite (bind_Ok (non_null (Some a)) _ r a r) by done.
  rewrite (bind_heap_get a c) by done. by rewrite Hvc.
Qed.
End gzip_facts.

(** ** What the window buffer holds *)

(** The writes of [inflate] into the buffer: [base] is the buffer in front of
    them, [h] what they wrote so far, [left] the value of [avail_out]. *)
Inductive buffered (base : bytes) : bytes -> Z -> bytes -> Prop :=
| buf_start : buffered base [] WINDOW_SIZE base
| buf_wrap h ctx : buffered base h 0 ctx -> buffered base h WINDOW_SIZE ctx
| buf_out h left ctx out ctx' :
    buffered base h left ctx -> zlen out <= left -> store (WINDOW_SIZE - left) out ctx = Ok ctx' ->
    buffered base (h ++ out) (left - zlen out) ctx'.

Lemma buffered_in_order base h left ctx :
  zlen base = WINDOW_SIZE -> buffered base h left ctx ->
  zlen ctx = WINDOW_SIZE /\ 0 <= left <= WINDOW_SIZE /\ in_order left ctx = drop (length h) (base ++ h).
Proof.
  intros Hbase Hb. induction Hb as [|h ctx _ IH|h left ctx out ctx' _ IH Hout Hst].
  - split; [done|]. split; [unfold WINDOW_SIZE; lia|]. unfold in_order. rewrite Z.sub_diag.
    cbn [Z.to_nat length]. by rewrite !drop_0, take_0.
  - destruct IH as (H1 & H2 & H3). split; [done|]. split; [unfold WINDOW_SIZE; lia|].
    by rewrite <- in_order_reset.
  - destruct IH as (H1 & H2 & H3). destruct (in_order_step left ctx out ctx' H1 H2 Hout Hst) as [G1 G2].
    pose proof (zlen_nonneg out). split; [done|]. split; [lia|].
    rewrite G2, H3, drop_drop, length_app, app_assoc.
    rewrite <- (drop_app_le (base ++ h) out) by (rewrite length_app; unfold zlen, WINDOW_SIZE in *; lia).
    done.
Qed.

Section gzip_theorems.
Context `{ZL : Zlib} (ndebug : bool) (fuel : nat).

(** Reading from an index of usable access points: the access point before
    the offset is found, the output up to the offset is discarded and the bytes
    of the image at the offset are given, over any number of chunks and however
    the decoder splits its output; behind the end of the image there are fewer
    bytes, which the code does not report. *)
Theorem gzip_read_indexed_ok c img f r l vs v offset length :
  list_rep r l vs -> vs !! 0%nat = Some v -> raw_byte_address v <= offset -> Forall (point_ok c img) vs ->
  gfile_ok c f -> fst (inflateInit2 RAW_INFLATE_BITS) = Z_OK ->
  0 <= offset < 2 ^ 63 -> 0 < length < 2 ^ 32 -> zlen c + zlen img < Z.of_nat fuel ->
  exists code f', _gzip_read ndebug fuel offset length (f, r)
      = Ok ((code, slice offset length img), (f', r)) /\
    (code = Z_OK \/ code = Z_STREAM_END) /\ gfile_ok c f'.
Proof. apply gzip_read_points. Qed.
End gzip_theorems.

(** A new access point goes to the end of the list with the last 32 KiB
    that came out as its window, in order, once that much was written since the
    buffer was last started; otherwise the window is filled up with the end of
    what the buffer held at that start. *)
Theorem add_access_point_ok r l vs base h left ctx raw comp b :
  list_rep r l vs -> zlen l + 1 < 2 ^ 63 -> zlen base = WINDOW_SIZE -> buffered base h left ctx ->
  exists e r1 r', create_access_point_entry raw comp b left ctx r = Ok (e, r1) /\
    append_access_point_list e r1 = Ok (tt, r') /\
    list_rep r' (l ++ [e]) (vs ++ [mkPoint raw comp (u8 b) (drop (length h) (base ++ h))]) /\
    (WINDOW_SIZE <= zlen h ->
     drop (length h) (base ++ h) = drop (length h - Z.to_nat WINDOW_SIZE) h).
Proof.
  intros Hr Hmax Hbase Hb. destruct (buffered_in_order base h left ctx Hbase Hb) as (H1 & H2 & H3).
  destruct (add_point_run r l vs raw comp b left ctx Hr H1 H2 Hmax) as (r' & Hadd & Hr' & Hlast).
  rewrite H3 in Hr'. unfold add_point in Hadd. apply bind_Ok_inv in Hadd as (e & r1 & Hc & Ha).
  assert (e = g_brk r) as ->.
  { unfold create_access_point_entry, bind, lift in Hc. rewrite rotate_context_run in Hc by done.
    by injection Hc as <- _. }
  exists (g_brk r), r1, r'. split; [done|]. split; [done|]. split; [done|]. intros Hh.
  rewrite drop_app_ge by (unfold zlen in *; lia). f_equal. unfold zlen in *. lia.
Qed.

(** C30: freeing the list of a reader frees every entry once and leaves
    nothing, unless there is no entry: then it reads through the null pointer
    [list->first]. *)
Theorem free_access_point_list_ok ndebug r l vs :
  list_rep r l vs ->
  match l with
  | [] => free_access_point_list ndebug r = Err UB
  | _ :: _ => exists r', free_access_point_list ndebug r = Ok (tt, r') /\ heap r' = ∅
  end.
Proof.
  intros Hr. destruct l as [|a l]; [|by apply (free_access_point_list_run ndebug r a l vs)].
  unfold free_access_point_list, bind, get. by rewrite (lr_first _ _ _ Hr).
Qed.
