(* ===== verification/GzipIndex.v ===== *)
(** * compression/gzip/gzip_reader.c: building the index

    [block_stream] is what the code relies on zlib for when it inflates with
    Z_BLOCK: at the end of a block decoding can start again with the last 32 KiB
    of output.  The code has these only while it works on one chunk of input,
    since every chunk starts the window buffer again (GzipFacts); so the theorems
    are for files of a single chunk, and for longer ones whose blocks do not refer
    to earlier ones.  For these the index grows by usable access points, at
    whatever block ends the loop of [index_next_chunk] meets, from the beginning
    of the file or from the last access point, and every read of the image is
    served; for any file every read in the first MiB is.  That nothing more holds
    is shown on a file of two chunks in GzipWindow. *)
From Stdlib Require Import ZArith Lia Strings.Byte.
From stdpp Require Import base numbers list option gmap.
From S2P Require Import Prelude Clib Disk Reader DList GzipReader GzipFacts.

Section gzip_index.
Context `{ZL : Zlib} (ndebug : bool) (fuel : nat).

(** ** The contract of zlib *)

(** The header is in the first chunk: [inflate] stops behind it, in front of the
    first block, with no output; decoding can start there whatever the window
    holds. *)
Record gz_header (c img : bytes) : Prop := {
  gh_file : 0 < zlen c < 2 ^ 62;
  gh_img : zlen img < 2 ^ 62;
  gh_raw : fst (inflateInit2 RAW_INFLATE_BITS) = Z_OK;
  gh_first : exists st used dt st',
    inflateInit2 GZIP_WINDOW_BITS = (Z_OK, st) /\
    inflate st Z_BLOCK (slice 0 (Z.min CHUNK (zlen c)) c) WINDOW_SIZE = (Z_OK, used, [], dt, st') /\
    0 <= used <= Z.min CHUNK (zlen c) /\ Z.land dt 128 <> 0 /\ Z.land dt 64 = 0 /\
    forall ctx, zlen ctx = WINDOW_SIZE -> point_ok c img (mkPoint 0 used (u8 (Z.land dt 7)) ctx) }.

(** [inflate] stopped at the end of a block that is not the last one. *)
Definition at_block_end (data_type : Z) : bool :=
  negb (Z.land data_type 128 =? 0) && (Z.land data_type 64 =? 0).

(** A raw stream for an access point. *)
Definition raw_stream : z_stream := snd (inflateInit2 RAW_INFLATE_BITS).

(** Blocks may refer to the 32 KiB of output in front of them.  The flag says
    that those of the file do not: decoding can then start at one with any
    window. *)
Context (any : bool).

(** A window with which decoding can start at the position [raw] of the image. *)
Definition usable_window (img : bytes) (raw : Z) (ctx : bytes) : Prop :=
  zlen ctx = WINDOW_SIZE /\
  (any = true \/
   let n := Z.min raw WINDOW_SIZE in drop (Z.to_nat (WINDOW_SIZE - n)) ctx = slice (raw - n) n img).

(** A stream that used [comp] bytes of the file and gave [raw] bytes of the
    image: a call of [inflate] with any amount of the input that follows and any
    room in the window uses input or gives output, which is the image, and ends
    the stream exactly when the image is complete; where it stops at the end of a
    block, decoding can start with a usable window. *)
Inductive block_stream (c img : bytes) : z_stream -> Z -> Z -> Prop :=
| block_step st comp raw :
    comp < zlen c ->
    (forall k av code used w dt st', 0 < k <= CHUNK -> comp + k <= zlen c -> 0 < av <= WINDOW_SIZE ->
       inflate st Z_BLOCK (slice comp k c) av = (code, used, w, dt, st') ->
       0 <= used <= k /\ zlen w <= av /\ raw + zlen w <= zlen img /\ w = slice raw (zlen w) img /\
       (code = Z_STREAM_END /\ raw + zlen w = zlen img \/ code = Z_OK /\ 0 < used + zlen w)) ->
    (forall k av used w dt st', 0 < k <= CHUNK -> comp + k <= zlen c -> 0 < av <= WINDOW_SIZE ->
       inflate st Z_BLOCK (slice comp k c) av = (Z_OK, used, w, dt, st') ->
       block_stream c img st' (comp + used) (raw + zlen w)) ->
    (forall k av used w dt st' ctx, 0 < k <= CHUNK -> comp + k <= zlen c -> 0 < av <= WINDOW_SIZE ->
       inflate st Z_BLOCK (slice comp k c) av = (Z_OK, used, w, dt, st') ->
       at_block_end dt = true -> usable_window img (raw + zlen w) ctx ->
       point_ok c img (mkPoint (raw + zlen w) (comp + used) (u8 (Z.land dt 7)) ctx)) ->
    (forall k av used w dt st' ctx, 0 < k <= CHUNK -> comp + k <= zlen c -> 0 < av <= WINDOW_SIZE ->
       inflate st Z_BLOCK (slice comp k c) av = (Z_OK, used, w, dt, st') ->
       at_block_end dt = true -> usable_window img (raw + zlen w) ctx ->
       block_stream c img
         (point_stream c (mkPoint (raw + zlen w) (comp + used) (u8 (Z.land dt 7)) ctx) raw_stream)
         (comp + used) (raw + zlen w)) ->
    block_stream c img st comp raw.

(** Blocks that can be indexed one by one, from the header on. *)
Definition gz_blocks (c img : bytes) : Prop :=
  forall st used dt st',
    inflateInit2 GZIP_WINDOW_BITS = (Z_OK, st) ->
    inflate st Z_BLOCK (slice 0 (Z.min CHUNK (zlen c)) c) WINDOW_SIZE = (Z_OK, used, [], dt, st') ->
    block_stream c img st' used 0 /\
    forall ctx, zlen ctx = WINDOW_SIZE ->
      block_stream c img (point_stream c (mkPoint 0 used (u8 (Z.land dt 7)) ctx) raw_stream) used 0.

(** The files whose whole image can be indexed: the code keeps the output of the
    chunk of input it works on, so that it always has the right window when the
    file is a single chunk; for longer files every window has to do. *)
Definition gz_whole (c img : bytes) : Prop := gz_blocks c img /\ (any = true \/ zlen c <= CHUNK).

(** ** The index *)

(** An access point from which reads, and when the blocks allow it the building
    of the index, can go on. *)
Definition entry_ok (c img : bytes) (e : GzipAccessPointEntry) : Prop :=
  point_ok c img e /\
  (gz_blocks c img ->
   block_stream c img (point_stream c e raw_stream) (compressed_byte_address e) (raw_byte_address e)).

(** A point that may follow another one: more than a [SPAN] behind it, or still
    at the start of the image. *)
Definition follows (e e' : GzipAccessPointEntry) : Prop :=
  raw_byte_address e <= raw_byte_address e' /\
  (raw_byte_address e' = 0 \/ raw_byte_address e + SPAN < raw_byte_address e').

(** The list of the reader: usable points, the first at the start of the image,
    one following the other.  Every point is farther in the file or in the image
    than the one before, which bounds their number; [w] is the last one. *)
Record indexed (c img : bytes) (r : GzipReader) (l : list nat) (vs : list GzipAccessPointEntry)
    (w : GzipAccessPointEntry) : Prop := {
  id_rep : list_rep r l vs;
  id_first : exists v, vs !! 0%nat = Some v /\ raw_byte_address v = 0;
  id_last : list.last vs = Some w;
  id_entries : Forall (entry_ok c img) vs;
  id_spaced : forall i e e', vs !! i = Some e -> vs !! S i = Some e' -> follows e e';
  id_count : zlen l <= raw_byte_address w + compressed_byte_address w + 1 }.

Lemma indexed_last c img r l vs w : indexed c img r l vs w -> entry_ok c img w.
Proof.
  intros Hi. eapply Forall_forall; [exact (id_entries _ _ _ _ _ _ Hi)|].
  pose proof (id_last _ _ _ _ _ _ Hi) as Hl. rewrite last_lookup in Hl. by eapply list_elem_of_lookup_2.
Qed.
Lemma indexed_bounds c img r l vs w :
  indexed c img r l vs w ->
  0 <= raw_byte_address w <= zlen img /\ 0 <= compressed_byte_address w <= zlen c.
Proof.
  intros [[H1 _ H2 _] _]%indexed_last. destruct (bits w =? 0); lia.
Qed.
Lemma indexed_points c img r l vs w : indexed c img r l vs w -> Forall (point_ok c img) vs.
Proof. intros Hi. eapply Forall_impl; [exact (id_entries _ _ _ _ _ _ Hi)|]. by intros e []. Qed.
Lemma indexed_some c img r l vs w : indexed c img r l vs w -> exists a l', l = a :: l'.
Proof.
  intros Hi. pose proof (Forall2_length _ _ _ (lr_vals _ _ _ (id_rep _ _ _ _ _ _ Hi))) as Hl.
  pose proof (id_last _ _ _ _ _ _ Hi) as Hw. destruct l as [|a l]; [by destruct vs|by eauto].
Qed.
Lemma indexed_last_address c img f r l vs w :
  indexed c img r l vs w -> last_address (f, r) = Ok (raw_byte_address w, (f, r)).
Proof.
  intros Hi. exact (last_address_run f r l vs w (id_rep _ _ _ _ _ _ Hi) (id_last _ _ _ _ _ _ Hi)).
Qed.

(** A farther point is added. *)
Lemma indexed_add c img r l vs w raw comp b left ctx :
  indexed c img r l vs w -> zlen ctx = WINDOW_SIZE -> 0 <= left <= WINDOW_SIZE ->
  raw_byte_address w + compressed_byte_address w < raw + comp < 2 ^ 63 - 1 ->
  raw_byte_address w <= raw -> raw = 0 \/ raw_byte_address w + SPAN < raw ->
  entry_ok c img (mkPoint raw comp (u8 b) (in_order left ctx)) ->
  exists r', add_point raw comp b left ctx r = Ok (tt, r') /\
    let v := mkPoint raw comp (u8 b) (in_order left ctx) in indexed c img r' (l ++ [g_brk r]) (vs ++ [v]) v.
Proof.
  intros Hi Hctx Hleft Hfar Hge Hspan Hok.
  destruct Hi as [Hr (v0 & Hv0 & Hraw0) Hlast Hents Hspaced Hcount].
  destruct (add_point_run r l vs raw comp b left ctx Hr Hctx Hleft ltac:(lia)) as (r' & Hadd & Hr' & _).
  exists r'. split; [done|].
  split; [done| | | | |].
  - exists v0. split; [by apply lookup_app_l_Some|done].
  - apply last_snoc.
  - apply Forall_app. split; [done|]. by constructor.
  - intros i e e' He He'. apply lookup_app_Some in He' as [He'|[Hge' He']].
    + apply (Hspaced i); [|done]. rewrite lookup_app_l in He; [done|]. apply lookup_lt_Some in He'. lia.
    + apply list_lookup_singleton_Some in He' as [Hi' <-]. rewrite lookup_app_l in He by lia.
      rewrite last_lookup in Hlast. replace (Nat.pred (length vs)) with i in Hlast by lia.
      rewrite He in Hlast. injection Hlast as ->. by split.
  - rewrite zlen_app, zlen_cons, zlen_nil. cbn [raw_byte_address compressed_byte_address]. lia.
Qed.

(** ** One turn of the loop *)

(** Is there to be a new point?  The position of the last one is asked for only
    where a block ends. *)
Definition far_enough (raw dt : Z) : GM bool :=
  if at_block_end dt then
    if raw =? 0 then ret true else
    let* a := last_address in ret (SPAN <? s64 (raw - a))
  else ret false.

(** Add it, and stop when the index goes far enough. *)
Definition add_and_test (max raw comp dt left : Z) (ctx : bytes) (far : bool) : GM bool :=
  if far then
    let* new_entry := on_points (create_access_point_entry raw comp (Z.land dt 7) left ctx) in
    do* on_points (append_access_point_list new_entry) in
    let* a := last_address in
    ret (max <? s64 (a + SPAN))
  else ret false.

Lemma index_turn n max st ctx raw comp inp av f r code used w dt st' :
  let av' := if av =? 0 then WINDOW_SIZE else av in
  inflate st Z_BLOCK inp av' = (code, used, w, dt, st') ->
  zlen ctx = WINDOW_SIZE -> 0 <= av <= WINDOW_SIZE -> 0 <= used <= zlen inp -> zlen w <= av' ->
  0 <= comp -> comp + zlen inp < 2 ^ 62 -> 0 <= raw -> raw + zlen w < 2 ^ 62 ->
  code = Z_OK \/ code = Z_STREAM_END ->
  exists ctx', store (WINDOW_SIZE - av') w ctx = Ok ctx' /\ zlen ctx' = WINDOW_SIZE /\
    let ix' := mkIndexing st' ctx' (raw + zlen w) (comp + used) in
    index_loop (S n) max (mkIndexing st ctx raw comp) inp av (f, r)
    = (if code =? Z_STREAM_END then ret (Z_OK, ix') else
       let* far := far_enough (raw + zlen w) dt in
       let* stop := add_and_test max (raw + zlen w) (comp + used) dt (av' - zlen w) ctx' far in
       if stop : bool then ret (Z_OK, ix') else
       let rest := drop (Z.to_nat used) inp in
       if zlen rest =? 0 then ret (Z_OK, ix') else
       index_loop n max ix' rest (av' - zlen w)) (f, r).
Proof.
  intros av' Hinf Hctx Hav Hused Hw Hcomp Hcb Hraw Hrb Hcode.
  assert (Hav' : 0 < av' <= WINDOW_SIZE)
    by (unfold av', WINDOW_SIZE in *; destruct (Z.eqb_spec av 0); lia).
  pose proof (zlen_nonneg w). pose proof (zlen_nonneg inp). unfold WINDOW_SIZE in *.
  exists (splice (32768 - av') w ctx).
  split; [unfold store; by rewrite in_range_true by lia|]. split; [by rewrite zlen_splice by lia|]. cbv zeta.
  cbn [index_loop ix_stream ix_context raw_byte_counter compressed_byte_counter].
  unfold WINDOW_SIZE. fold av'. rewrite Hinf. unfold store. rewrite in_range_true by lia.
  rewrite (bind_Ok (lift (Ok _)) _ _ _ (f, r) eq_refl).
  rewrite zlen_drop, Z.max_r by lia.
  rewrite (s64_small (comp + zlen inp)), (s64_small (raw + av')) by lia.
  replace (comp + zlen inp - (zlen inp - used)) with (comp + used) by lia.
  replace (raw + av' - (av' - zlen w)) with (raw + zlen w) by lia.
  rewrite (s64_small (comp + used)), (s64_small (raw + zlen w)) by lia.
  by destruct Hcode as [-> | ->].
Qed.

(** The last point is not in front of a position of the stream. *)
Definition behind (w : GzipAccessPointEntry) (raw comp : Z) : Prop :=
  raw_byte_address w <= raw /\ raw_byte_address w + compressed_byte_address w <= raw + comp.

Lemma add_and_test_run c img f r l vs w max raw comp dt left ctx :
  indexed c img r l vs w -> zlen ctx = WINDOW_SIZE -> 0 <= left <= WINDOW_SIZE ->
  raw_byte_address w + compressed_byte_address w < raw + comp ->
  raw_byte_address w <= raw -> raw = 0 \/ raw_byte_address w + SPAN < raw ->
  0 <= raw < 2 ^ 62 -> 0 <= comp < 2 ^ 62 ->
  entry_ok c img (mkPoint raw comp (u8 (Z.land dt 7)) (in_order left ctx)) ->
  exists r' l' vs' w', add_and_test max raw comp dt left ctx true (f, r)
      = Ok (max <? raw + SPAN, (f, r')) /\
    indexed c img r' l' vs' w' /\ behind w' raw comp /\ raw_byte_address w' = raw.
Proof.
  intros Hi Hctx Hleft Hfar Hge Hspan Hraw Hcomp Hok.
  destruct (indexed_add c img r l vs w raw comp (Z.land dt 7) left ctx Hi Hctx Hleft ltac:(lia) Hge Hspan Hok)
    as (r' & Hadd & Hi').
  eexists r', _, _, _. split; [|split; [exact Hi'|by unfold behind; cbn; split; [lia|]]].
  unfold add_point in Hadd. apply bind_Ok_inv in Hadd as (e & r1 & Hcreate & Happend). unfold add_and_test.
  rewrite (bind_Ok _ _ _ _ _ (on_points_ok _ f r e r1 Hcreate)).
  rewrite (bind_Ok _ _ _ _ _ (on_points_ok _ f r1 tt r' Happend)).
  rewrite (bind_Ok _ _ _ _ _ (indexed_last_address _ _ f _ _ _ _ Hi')).
  cbn [raw_byte_address]. unfold SPAN. by rewrite s64_small by lia.
Qed.

Lemma point_step c img f r l vs w max raw comp dt left ctx :
  indexed c img r l vs w -> zlen ctx = WINDOW_SIZE -> 0 <= left <= WINDOW_SIZE ->
  raw_byte_address w <= raw -> raw_byte_address w + compressed_byte_address w < raw + comp ->
  0 <= raw < 2 ^ 62 -> 0 <= comp < 2 ^ 62 ->
  (at_block_end dt = true -> raw = 0 \/ raw_byte_address w + SPAN < raw ->
   entry_ok c img (mkPoint raw comp (u8 (Z.land dt 7)) (in_order left ctx))) ->
  exists far stop r' l' vs' w', far_enough raw dt (f, r) = Ok (far, (f, r)) /\
    add_and_test max raw comp dt left ctx far (f, r) = Ok (stop, (f, r')) /\
    indexed c img r' l' vs' w' /\ behind w' raw comp /\ raw_byte_address w <= raw_byte_address w' /\
    (stop = true -> max < raw + SPAN).
Proof.
  intros Hi Hctx Hleft Hr1 Hr2 Hraw Hcomp Hok.
  assert (Hfar : exists far, far_enough raw dt (f, r) = Ok (far, (f, r)) /\
    (far = true -> at_block_end dt = true /\ (raw = 0 \/ raw_byte_address w + SPAN < raw))).
  { unfold far_enough. destruct (at_block_end dt); [|by exists false].
    destruct (Z.eqb_spec raw 0) as [?|_]; [exists true; split; [done|tauto]|].
    pose proof (indexed_bounds _ _ _ _ _ _ Hi) as [Hw _].
    rewrite (bind_Ok _ _ _ _ _ (indexed_last_address _ _ f _ _ _ _ Hi)). eexists. split; [done|].
    rewrite s64_small by lia. intros H%Z.ltb_lt. split; [done|lia]. }
  destruct Hfar as ([] & Hfar & Hend).
  - destruct (Hend eq_refl) as [He Hspan].
    destruct (add_and_test_run c img f r l vs w max raw comp dt left ctx Hi Hctx Hleft Hr2 Hr1 Hspan Hraw
      Hcomp (Hok He Hspan))
      as (r' & l' & vs' & w' & Hrun & Hi' & Hb & Hw).
    exists true, (max <? raw + SPAN), r', l', vs', w'. do 4 (split; [done|]). lia.
  - exists false, false, r, l, vs, w. do 3 (split; [done|]). split; [unfold behind; lia|]. split; [lia|done].
Qed.

(** ** The window in a chunk *)

(** The buffer holds the output from [raw0] to [raw], all of it or the last
    32 KiB. *)
Definition output_since (img : bytes) (raw0 raw av : Z) (ctx : bytes) : Prop :=
  0 <= raw0 <= raw /\ raw <= zlen img /\
  exists base, zlen base = WINDOW_SIZE /\
    buffered base (slice raw0 (raw - raw0) img) (if av =? 0 then WINDOW_SIZE else av) ctx.

Lemma output_start img raw ctx : 0 <= raw <= zlen img -> zlen ctx = WINDOW_SIZE -> output_since img raw raw 0 ctx.
Proof.
  intros Hr Hc. split; [lia|]. split; [lia|]. exists ctx. rewrite Z.sub_diag, slice_0. split; [done|]. constructor.
Qed.

Lemma output_more img raw0 raw av ctx out ctx' :
  let av' := if av =? 0 then WINDOW_SIZE else av in
  output_since img raw0 raw av ctx -> out = slice raw (zlen out) img -> raw + zlen out <= zlen img ->
  zlen out <= av' -> store (WINDOW_SIZE - av') out ctx = Ok ctx' ->
  output_since img raw0 (raw + zlen out) (av' - zlen out) ctx'.
Proof.
  intros av' (H0 & _ & base & Hbase & Hb) Hout Himg Hav Hst. fold av' in Hb. pose proof (zlen_nonneg out).
  split; [lia|]. split; [done|]. exists base. split; [done|].
  assert (Hs : slice raw0 (raw + zlen out - raw0) img = slice raw0 (raw - raw0) img ++ out).
  { rewrite Hout at 2. replace (raw + zlen out - raw0) with ((raw - raw0) + zlen out) by lia.
    rewrite <- slice_app by lia. do 2 f_equal. lia. }
  rewrite Hs. pose proof (buf_out base _ av' ctx out ctx' Hb Hav Hst) as Hb'.
  destruct (Z.eqb_spec (av' - zlen out) 0) as [Hz|_]; [|done]. rewrite Hz in Hb'. by constructor.
Qed.

(** At the start of the image and once enough came out, it is a usable window. *)
Lemma output_usable img raw0 raw av ctx :
  output_since img raw0 raw av ctx -> 0 <= av <= WINDOW_SIZE -> raw = 0 \/ raw0 + SPAN < raw ->
  usable_window img raw (in_order av ctx).
Proof.
  intros (H0 & Himg & base & Hbase & Hb) Hav Hraw.
  destruct (buffered_in_order base _ _ ctx Hbase Hb) as (Hc & Hl & Hin).
  assert (Hio : in_order av ctx = in_order (if av =? 0 then WINDOW_SIZE else av) ctx)
    by (destruct (Z.eqb_spec av 0) as [->|]; [by apply in_order_reset|done]).
  split; [by apply zlen_in_order|]. right. cbv zeta. rewrite Hio, Hin. unfold SPAN in Hraw.
  assert (Hh : zlen (slice raw0 (raw - raw0) img) = raw - raw0) by (apply zlen_slice; lia).
  set (h := slice raw0 (raw - raw0) img) in *. change WINDOW_SIZE with 32768 in *.
  rewrite drop_drop. destruct Hraw as [->|Hspan].
  - rewrite Z.min_l by lia. rewrite drop_ge by (rewrite length_app; unfold zlen in *; lia).
    by rewrite slice_0.
  - rewrite Z.min_r by lia. rewrite drop_app_ge by (unfold zlen in *; lia).
    unfold zlen in Hh, Hbase. set (k := length h) in *. unfold h, slice.
    rewrite skipn_firstn_comm, drop_drop. f_equal; [lia|]. f_equal. lia.
Qed.

(** ** A chunk *)

(** What the loop over a chunk leaves: the index, and when it did not go far
    enough the stream at the end of the chunk. *)
Definition chunk_done (c img : bytes) (max : Z) (next : Z) (ix : indexing) (r : GzipReader) : Prop :=
  exists l vs w, indexed c img r l vs w /\ zlen (ix_context ix) = WINDOW_SIZE /\
    0 <= raw_byte_counter ix <= zlen img /\
    (max < raw_byte_counter ix + SPAN \/
     compressed_byte_counter ix = next /\ block_stream c img (ix_stream ix) next (raw_byte_counter ix) /\
     behind w (raw_byte_counter ix) next).

Lemma index_loop_run c img max st comp raw :
  block_stream c img st comp raw -> gz_blocks c img ->
  zlen c < 2 ^ 62 -> zlen img < 2 ^ 62 -> max < zlen img + SPAN ->
  forall n k ctx av f r l vs w raw0,
  any = true \/ output_since img raw0 raw av ctx /\ raw0 <= raw_byte_address w ->
  0 < k <= CHUNK -> comp + k <= zlen c -> 0 <= av <= WINDOW_SIZE -> zlen ctx = WINDOW_SIZE ->
  0 <= comp -> 0 <= raw -> indexed c img r l vs w -> behind w raw comp ->
  zlen c - comp + (zlen img - raw) <= Z.of_nat n ->
  exists ix r', index_loop n max (mkIndexing st ctx raw comp) (slice comp k c) av (f, r) = Ok ((Z_OK, ix), (f, r')) /\
    chunk_done c img max (comp + k) ix r'.
Proof.
  intros Hs Hblocks Hc Himg Hmax.
  induction Hs as [st comp raw Hlt Hcall Hnext IH Hpt Hptb _].
  intros n k ctx av f r l vs w raw0 Hwin Hk Hck Hav Hctx Hcomp Hraw Hi Hb Hn.
  set (av' := if av =? 0 then WINDOW_SIZE else av).
  assert (Hav' : 0 < av' <= WINDOW_SIZE)
    by (unfold av', WINDOW_SIZE in *; destruct (Z.eqb_spec av 0); lia).
  destruct (inflate st Z_BLOCK (slice comp k c) av') as [[[[code used] out] dt] st'] eqn:Hinf.
  destruct (Hcall k av' code used out dt st' Hk Hck Hav' Hinf) as (Hused & Hout & Hrl & Himgout & Hcode).
  pose proof (zlen_nonneg out). assert (Hlk : zlen (slice comp k c) = k) by (apply zlen_slice; lia).
  destruct n as [|n]; [lia|].
  destruct (index_turn n max st ctx raw comp (slice comp k c) av f r code used out dt st' Hinf Hctx Hav)
    as (ctx' & Hst & Hctx' & Hturn); [lia..| |]; [tauto|]. cbv zeta in Hturn. rewrite Hturn. clear Hturn.
  set (ix' := mkIndexing _ _ _ _). destruct Hcode as [[-> Hend]|[-> Hprog]].
  { change (Z_STREAM_END =? Z_STREAM_END) with true. exists ix', r. split; [done|].
    exists l, vs, w. cbn. do 2 (split; [done|]). split; [lia|]. left. lia. }
  change (Z_OK =? Z_STREAM_END) with false. cbv iota. destruct Hb as [Hb1 Hb2].
  assert (Hwin' : any = true \/ output_since img raw0 (raw + zlen out) (av' - zlen out) ctx' /\ raw0 <= raw_byte_address w)
    by (destruct Hwin as [?|[Hwin ?]]; [by left|right; split; [by apply (output_more img raw0 raw av ctx)|done]]).
  destruct (point_step c img f r l vs w max (raw + zlen out) (comp + used) dt (av' - zlen out) ctx' Hi Hctx')
    as (far & stop & r1 & l1 & vs1 & w1 & Hfar & Hadd & Hi1 & Hb' & Hw1 & Hstop); [lia..| |].
  { intros He Hspan. assert (Hc1 : usable_window img (raw + zlen out) (in_order (av' - zlen out) ctx')).
    { destruct Hwin' as [Hany|[Hwin' ?]]; [split; [apply zlen_in_order; [done|lia]|by left]|].
      apply (output_usable img raw0); [done|lia|lia]. }
    split; [by eapply (Hpt k av')|]. intros _. by eapply (Hptb k av'). }
  rewrite (bind_Ok _ _ _ _ _ Hfar), (bind_Ok _ _ _ _ _ Hadd).
  destruct stop; [|destruct (Z.eqb_spec (zlen (drop (Z.to_nat used) (slice comp k c))) 0) as [Hz|Hz]];
    try rewrite zlen_drop, Hlk in Hz by lia.
  - exists ix', r1. split; [done|]. exists l1, vs1, w1. cbn. do 2 (split; [done|]). split; [lia|].
    left. by apply Hstop.
  - exists ix', r1. split; [done|]. exists l1, vs1, w1. cbn. do 2 (split; [done|]). split; [lia|]. right.
    replace (comp + k) with (comp + used) by lia. split; [done|]. split; [by eapply (Hnext k av')|done].
  - assert (Hrest : drop (Z.to_nat used) (slice comp k c) = slice (comp + used) (k - used) c).
    { unfold slice. rewrite skipn_firstn_comm, drop_drop. f_equal; [lia|]. f_equal. lia. }
    rewrite Hrest. replace (comp + k) with (comp + used + (k - used)) by lia.
    apply (IH k av' used out dt st' Hk Hck Hav' Hinf n (k - used) ctx' (av' - zlen out) f r1 l1 vs1 w1 raw0);
      try done; try lia. destruct Hwin' as [?|[? ?]]; [by left|right; split; [done|lia]].
Qed.

Lemma next_chunk_run c p max ix (r : GzipReader) x :
  0 <= p < zlen c ->
  let k := Z.min CHUNK (zlen c - p) in
  index_loop fuel max ix (slice p k c) 0 (at_pos c (p + k), r) = x ->
  index_next_chunk fuel max ix (at_pos c p, r) = x.
Proof.
  intros Hp k Hx. unfold index_next_chunk.
  pose proof (fread_run c p CHUNK r ltac:(lia) ltac:(by unfold CHUNK)) as Hfr. cbv zeta in Hfr. fold k in Hfr.
  rewrite (bind_Ok _ _ _ _ _ Hfr), (bind_Ok _ _ _ _ _ (ferror_run c (p + k) r)).
  assert (Hk : 0 < k <= zlen c - p) by (unfold k, CHUNK; lia).
  rewrite zlen_slice by lia. by rewrite (proj2 (Z.eqb_neq k 0)) by lia.
Qed.

(** ** The whole index *)

(** How far the index can be asked for. *)
Definition indexable (c img : bytes) (max : Z) : Prop :=
  max < SPAN \/ gz_whole c img /\ max < zlen img + SPAN.

Definition has_index (c img : bytes) (r : GzipReader) : Prop := exists l vs w, indexed c img r l vs w.

Lemma build_loop_run c img max :
  gz_blocks c img -> zlen c < 2 ^ 62 -> zlen img < 2 ^ 62 -> max < zlen img + SPAN ->
  zlen c + zlen img < Z.of_nat fuel ->
  forall n st ctx comp raw r l vs w,
  block_stream c img st comp raw -> zlen ctx = WINDOW_SIZE -> 0 <= comp -> 0 <= raw <= zlen img ->
  indexed c img r l vs w -> behind w raw comp -> zlen c - comp <= Z.of_nat n ->
  any = true \/ raw <= raw_byte_address w /\ zlen c - comp <= CHUNK ->
  exists k r', build_loop fuel n max (mkIndexing st ctx raw comp) Z_OK (at_pos c comp, r)
      = Ok (Z_OK, (at_pos c k, r')) /\ has_index c img r'.
Proof.
  intros Hblocks Hc Himg Hmax Hfuel. induction n as [|n IH];
    intros st ctx comp raw r l vs w Hs Hctx Hcomp Hraw Hi Hb Hn Hwin.
  { destruct Hs. lia. }
  assert (Hlt : comp < zlen c) by (by destruct Hs). set (k := Z.min CHUNK (zlen c - comp)).
  assert (Hk : 0 < k <= CHUNK /\ k <= zlen c - comp) by (unfold k, CHUNK; lia).
  destruct (index_loop_run c img max st comp raw Hs Hblocks Hc Himg Hmax fuel k ctx 0 (at_pos c (comp + k)) r l vs w raw)
    as (ix & r1 & Hrun & l1 & vs1 & w1 & Hi1 & Hctx1 & Hraw1 & Hdone);
    [|lia|lia|by vm_compute|done|done|lia|done|done|lia|].
  { destruct Hwin as [?|[? _]]; [by left|right]. split; [by apply output_start|done]. }
  cbn [build_loop]. change (Z_OK =? Z_OK) with true. cbn [negb].
  rewrite (bind_Ok _ _ _ _ _ (next_chunk_run c comp max _ r _ ltac:(lia) Hrun)).
  unfold SPAN in *. rewrite s64_small by lia.
  destruct (Z.ltb_spec max (raw_byte_counter ix + 1048576)).
  { exists (comp + k), r1. split; [done|by exists l1, vs1, w1]. }
  destruct Hdone as [?|(Hnext & Hs1 & Hb1)]; [lia|]. destruct ix as [st1 ctx1 raw1 comp1].
  cbn [ix_stream ix_context raw_byte_counter compressed_byte_counter] in *. subst comp1.
  apply (IH st1 ctx1 (comp + k) raw1 r1 l1 vs1 w1); try done; try lia.
  destruct Hwin as [?|[_ Hone]]; [by left|].
  assert (comp + k < zlen c) by (by destruct Hs1). unfold k, CHUNK in *. lia.
Qed.

(** The first point: where the header ends. *)
Lemma indexed_first c img r used dt ctx :
  list_rep r [] [] -> zlen ctx = WINDOW_SIZE -> 0 <= used ->
  (forall ctx', zlen ctx' = WINDOW_SIZE -> entry_ok c img (mkPoint 0 used (u8 (Z.land dt 7)) ctx')) ->
  exists r' l vs w, indexed c img r' l vs w /\ behind w 0 used /\ raw_byte_address w = 0 /\
    forall max f, add_and_test max 0 used dt WINDOW_SIZE ctx true (f, r) = Ok (max <? SPAN, (f, r')).
Proof.
  intros Hr Hctx Hused Hok.
  destruct (add_point_run r [] [] 0 used (Z.land dt 7) WINDOW_SIZE ctx Hr Hctx ltac:(by unfold WINDOW_SIZE)
    ltac:(done)) as (r' & Hadd & Hr' & Hlast).
  set (v := mkPoint _ _ _ _) in Hr'. exists r', [g_brk r], [v], v.
  assert (Hi : indexed c img r' [g_brk r] [v] v).
  { split; [done|by exists v|done| |by intros [] ? ?|].
    2:{ rewrite zlen_cons, zlen_nil. unfold v. cbn [raw_byte_address compressed_byte_address]. lia. }
    constructor; [|done].
    apply Hok, zlen_in_order; [done|by unfold WINDOW_SIZE]. }
  split; [done|]. split; [by unfold behind; cbn; lia|]. split; [done|]. intros max f.
  unfold add_point in Hadd. apply bind_Ok_inv in Hadd as (e & r1 & Hcreate & Happend). unfold add_and_test.
  rewrite (bind_Ok _ _ _ _ _ (on_points_ok _ f r e r1 Hcreate)).
  rewrite (bind_Ok _ _ _ _ _ (on_points_ok _ f r1 tt r' Happend)).
  by rewrite (bind_Ok _ _ _ _ _ (indexed_last_address _ _ f _ _ _ _ Hi)).
Qed.

Lemma first_chunk_run c img junk max f r st :
  gz_header c img -> list_rep r [] [] -> zlen junk = WINDOW_SIZE -> zlen c + zlen img < Z.of_nat fuel ->
  indexable c img max -> inflateInit2 GZIP_WINDOW_BITS = (Z_OK, st) ->
  let k := Z.min CHUNK (zlen c) in
  exists ix r', index_loop fuel max (mkIndexing st junk 0 0) (slice 0 k c) 0 (f, r) = Ok ((Z_OK, ix), (f, r')) /\
    chunk_done c img max k ix r'.
Proof.
  intros [Hc Himg _ (st0 & used & dt & st' & Hinit & Hinf & Hused & Hd1 & Hd2 & Hpt)] Hr Hj Hfuel Hmax Hst k.
  rewrite Hinit in Hst. injection Hst as ->. fold k in Hinf, Hused. pose proof (zlen_nonneg img).
  assert (Hk : 0 < k <= CHUNK /\ k <= zlen c) by (unfold k, CHUNK; lia).
  assert (Hlk : zlen (slice 0 k c) = k) by (apply zlen_slice; lia).
  destruct fuel as [|n] eqn:Ef; [lia|].
  destruct (index_turn n max st junk 0 0 (slice 0 k c) 0 f r Z_OK used [] dt st' Hinf Hj)
    as (ctx & Hst0 & Hctx & Hturn); [by unfold WINDOW_SIZE|lia|by unfold WINDOW_SIZE|lia|lia|lia|done|tauto|].
  cbv zeta in Hturn. change (zlen (@nil Byte.byte)) with 0 in Hturn.
  change (Z_OK =? Z_STREAM_END) with false in Hturn. change (0 =? 0) with true in Hturn.
  change (0 + 0) with 0 in Hturn. rewrite Z.add_0_l, Z.sub_0_r in Hturn. rewrite Hturn. clear Hturn.
  assert (Hend : at_block_end dt = true) by (unfold at_block_end; by rewrite (proj2 (Z.eqb_neq _ 0) Hd1), Hd2).
  destruct (indexed_first c img r used dt ctx Hr Hctx ltac:(lia)) as (r1 & l & vs & w & Hi & Hb & Hw0 & Hadd).
  { intros ctx' Hc'. split; [by apply Hpt|]. intros Hbl. by apply (Hbl st used dt st' Hinit Hinf). }
  rewrite (bind_Ok (far_enough 0 dt) _ (f, r) true (f, r)) by (unfold far_enough; by rewrite Hend).
  rewrite (bind_Ok _ _ _ _ _ (Hadd max f)). set (ix' := mkIndexing _ _ _ _).
  destruct (Z.ltb_spec max SPAN) as [Hlt|Hge].
  { exists ix', r1. split; [done|]. exists l, vs, w. cbn. do 2 (split; [done|]). split; [lia|]. left. lia. }
  destruct Hmax as [?|[[Hbl Hwhole] Hmax]]; [lia|]. destruct (Hbl st used dt st' Hinit Hinf) as [Hs _].
  destruct (Z.eqb_spec (zlen (drop (Z.to_nat used) (slice 0 k c))) 0) as [Hz|Hz]; rewrite zlen_drop, Hlk in Hz by lia.
  - exists ix', r1. split; [done|]. exists l, vs, w. cbn. do 2 (split; [done|]). split; [lia|]. right.
    replace k with used by lia. done.
  - assert (Hrest : drop (Z.to_nat used) (slice 0 k c) = slice used (k - used) c).
    { unfold slice. rewrite skipn_firstn_comm, drop_drop. f_equal; lia. }
    rewrite Hrest.
    destruct (index_loop_run c img max st' used 0 Hs Hbl ltac:(lia) ltac:(lia) Hmax n (k - used) ctx
      WINDOW_SIZE f r1 l vs w 0)
      as (ix & r2 & Hrun & Hdone); [|lia|lia|by unfold WINDOW_SIZE|done|lia|lia|done|done|lia|].
    { right. split; [exact (output_start img 0 ctx ltac:(lia) Hctx)|lia]. }
    exists ix, r2. split; [done|]. by replace k with (used + (k - used)) by lia.
Qed.

Lemma first_index_run c img junk max r :
  gz_header c img -> list_rep r [] [] -> zlen junk = WINDOW_SIZE -> zlen c + zlen img < Z.of_nat fuel ->
  indexable c img max ->
  exists k r', build_index fuel junk max (at_pos c 0, r) = Ok (Z_OK, (at_pos c k, r')) /\ has_index c img r'.
Proof.
  intros Hh Hr Hj Hfuel Hmax. pose proof (gh_first _ _ Hh) as (st & _ & _ & _ & Hinit & _).
  pose proof (gh_file _ _ Hh) as Hc. pose proof (gh_img _ _ Hh) as Himg. pose proof (zlen_nonneg img).
  set (k := Z.min CHUNK (zlen c)).
  assert (Hk : 0 < k <= zlen c) by (unfold k, CHUNK; lia).
  destruct (first_chunk_run c img junk max (at_pos c k) r st Hh Hr Hj Hfuel Hmax Hinit)
    as (ix & r1 & Hrun & l & vs & w & Hi & Hctx & Hraw & Hdone). fold k in Hrun, Hdone.
  unfold build_index. rewrite (bind_Ok get _ _ (at_pos c 0, r) (at_pos c 0, r)) by done. cbn [snd].
  rewrite (lr_length _ _ _ Hr), zlen_nil. cbn [Z.eqb negb]. rewrite Hinit. change (s8 Z_OK) with Z_OK.
  pose proof (next_chunk_run c 0 max (mkIndexing st junk 0 0) r _ ltac:(lia)
    ltac:(rewrite Z.sub_0_r; exact Hrun)) as Hnc.
  assert (Hn : exists n, fuel = S n) by (destruct fuel; [lia|eauto]). destruct Hn as [n Hn].
  assert (Hloop : forall rv ix, build_loop fuel fuel max ix rv = build_loop fuel (S n) max ix rv)
    by (intros; by rewrite <- Hn).
  rewrite Hloop. cbn [build_loop]. change (Z_OK =? Z_OK) with true. cbn [negb].
  rewrite (bind_Ok _ _ _ _ _ Hnc).
  unfold SPAN in *. rewrite s64_small by lia.
  destruct (Z.ltb_spec max (raw_byte_counter ix + 1048576)).
  { exists k, r1. split; [done|by exists l, vs, w]. }
  destruct Hdone as [?|(Hnext & Hs1 & Hb1)]; [lia|]. destruct Hmax as [?|[[Hbl Hwhole] Hmax]]; [unfold SPAN in *; lia|].
  destruct ix as [st1 ctx1 raw1 comp1].
  cbn [ix_stream ix_context raw_byte_counter compressed_byte_counter] in *. subst comp1.
  apply (build_loop_run c img max Hbl ltac:(lia) ltac:(lia) Hmax Hfuel n st1 ctx1 k raw1 r1 l vs w); try done; try lia.
  destruct Hwhole as [?|Hone]; [by left|]. assert (k < zlen c) by (by destruct Hs1). unfold k, CHUNK in *. lia.
Qed.

(** Going on from the last access point. *)
Lemma next_index_run c img junk max f r l vs w :
  gz_header c img -> indexed c img r l vs w -> gfile_ok c f -> zlen junk = WINDOW_SIZE ->
  zlen c + zlen img < Z.of_nat fuel -> gz_whole c img -> max < zlen img + SPAN ->
  exists k r', build_index fuel junk max (f, r) = Ok (Z_OK, (at_pos c k, r')) /\ has_index c img r'.
Proof.
  intros Hh Hi Hf Hj Hfuel [Hbl Hwhole] Hmax. pose proof (gh_file _ _ Hh) as Hc. pose proof (gh_img _ _ Hh) as Himg.
  pose proof (id_rep _ _ _ _ _ _ Hi) as Hr. pose proof (id_last _ _ _ _ _ _ Hi) as Hlast.
  pose proof (indexed_bounds _ _ _ _ _ _ Hi) as [Hw1 Hw2].
  destruct (indexed_last _ _ _ _ _ _ Hi) as [Hpt Hs]. specialize (Hs Hbl).
  destruct (last_entry r l vs w Hr Hlast) as (a & ca & Ha & Hca & Hvca).
  unfold build_index. rewrite (bind_Ok get _ _ (f, r) (f, r)) by done. cbn [snd].
  destruct (indexed_some _ _ _ _ _ _ Hi) as (b & l' & Hl).
  rewrite (lr_length _ _ _ Hr), (proj2 (Z.eqb_neq _ _)) by (rewrite Hl, zlen_cons; pose proof (zlen_nonneg l'); lia).
  cbn [negb]. pose proof (seek_point_run c img w f r Hpt Hf) as Hseek. pose proof (gh_raw _ _ Hh) as Hraw.
  unfold raw_stream in Hs. destruct (inflateInit2 RAW_INFLATE_BITS) as [rv st]. cbn [fst snd] in *. subst rv.
  rewrite Ha. rewrite (bind_Ok (non_null (Some a)) _ (f, r) a (f, r)) by done.
  rewrite (bind_Ok (on_points (on_heap (cell_get a))) _ (f, r) ca (f, r))
    by (unfold on_points, on_heap, zoom, cell_get; cbn [snd fst]; rewrite Hca; by destruct r).
  rewrite Hvca, (bind_Ok _ _ _ _ _ Hseek). change (s8 Z_OK) with Z_OK.
  apply (build_loop_run c img max Hbl ltac:(lia) ltac:(lia) Hmax Hfuel fuel _ junk _ _ r l vs w); try done; try lia.
  destruct Hwhole as [?|Hone]; [by left|right; lia].
Qed.

(** ** The reader *)

(** Between two reads; before the first one the stream is at its beginning. *)
Definition gz_inv (c img : bytes) (f : FILE) (r : GzipReader) : Prop :=
  gz_header c img /\ zlen c + zlen img < Z.of_nat fuel /\
  ((list_rep r [] [] /\ f = at_pos c 0) \/ (has_index c img r /\ gfile_ok c f)).

Lemma check_index_run c img junk f r m :
  gz_inv c img f r -> zlen junk = WINDOW_SIZE -> indexable c img m ->
  exists f' r', check_and_build_index ndebug fuel junk m (f, r) = Ok (Z_OK, (f', r')) /\
    gfile_ok c f' /\ has_index c img r'.
Proof.
  intros (Hh & Hfuel & Hr) Hj Hm. unfold check_and_build_index.
  rewrite (bind_Ok get _ _ (f, r) (f, r)) by done. cbn [snd].
  destruct Hr as [[Hr ->]|[(l & vs & w & Hi) Hf]].
  - rewrite (lr_length _ _ _ Hr), zlen_nil. cbn [Z.eqb negb].
    destruct (first_index_run c img junk m r Hh Hr Hj Hfuel Hm) as (k & r' & Hrun & Hix).
    by exists (at_pos c k), r'.
  - pose proof (id_rep _ _ _ _ _ _ Hi) as Hr. destruct (indexed_some _ _ _ _ _ _ Hi) as (b & l' & Hl).
    pose proof (indexed_bounds _ _ _ _ _ _ Hi) as [Hw1 Hw2]. pose proof (gh_img _ _ Hh) as Himg.
    destruct (last_entry r l vs w Hr (id_last _ _ _ _ _ _ Hi)) as (a & ca & Ha & _).
    rewrite (lr_length _ _ _ Hr), (proj2 (Z.eqb_neq _ _)) by (rewrite Hl, zlen_cons; pose proof (zlen_nonneg l'); lia).
    cbn [negb]. rewrite Ha, bool_decide_eq_true_2 by eauto.
    rewrite (bind_Ok (c_assert ndebug true) _ _ tt (f, r)) by (by destruct ndebug).
    rewrite (bind_Ok _ _ _ _ _ (indexed_last_address _ _ f _ _ _ _ Hi)).
    unfold SPAN. rewrite s64_small by lia. destruct (Z.ltb_spec m (raw_byte_address w + 1048576)).
    { exists f, r. split; [done|]. split; [done|by exists l, vs, w]. }
    destruct Hm as [?|[Hbl Hm]]; [unfold SPAN in *; lia|].
    destruct (next_index_run c img junk m f r l vs w Hh Hi Hf Hj Hfuel Hbl Hm) as (k & r' & Hrun & Hix).
    by exists (at_pos c k), r'.
Qed.

Lemma gzip_read_used c img junk f r off n :
  gz_inv c img f r -> zlen junk = WINDOW_SIZE -> 0 <= off -> 0 < n < 2 ^ 31 -> indexable c img (off + n) ->
  exists f' r', gzip_read ndebug fuel junk off n (f, r) = Ok ((n, slice off n img), (f', r')) /\
    gz_inv c img f' r' /\ gzip_reader_free ndebug r' = Ok tt.
Proof.
  intros Hinv Hj Hoff Hn Hm. pose proof Hinv as (Hh & Hfuel & _). pose proof (gh_img _ _ Hh) as Himg.
  assert (Hmax : off + n < 2 ^ 62 + 1048576)
    by (pose proof (zlen_nonneg img); destruct Hm as [?|[_ ?]]; unfold SPAN in *; lia).
  unfold gzip_read. rewrite s64_small by lia.
  destruct (check_index_run c img junk f r (off + n) Hinv Hj Hm) as (f1 & r1 & Hrun & Hf1 & l & vs & w & Hi).
  rewrite (bind_Ok _ _ _ _ _ Hrun). change (stream_end_ok Z_OK =? Z_OK) with true.
  rewrite (bind_Ok (c_assert ndebug true) _ _ tt (f1, r1)) by (by destruct ndebug).
  destruct (id_first _ _ _ _ _ _ Hi) as (v & Hv & Hraw).
  destruct (gzip_read_points ndebug fuel c img f1 r1 l vs v off n (id_rep _ _ _ _ _ _ Hi) Hv ltac:(lia)
    (indexed_points _ _ _ _ _ _ Hi) Hf1 (gh_raw _ _ Hh)) as (code2 & f2 & Hread & Hc2 & Hf2); [lia..|].
  rewrite (bind_Ok _ _ _ _ _ Hread). cbn [fst snd].
  assert (Hc : stream_end_ok code2 = Z_OK) by (destruct Hc2 as [-> | ->]; done).
  rewrite Hc. change (Z_OK =? Z_OK) with true.
  rewrite (bind_Ok (c_assert ndebug true) _ _ tt (f2, r1)) by (by destruct ndebug).
  rewrite s32_small by lia.
  exists f2, r1. split; [done|]. split.
  - split; [done|]. split; [done|]. right. split; [by exists l, vs, w|done].
  - unfold gzip_reader_free. destruct (indexed_some _ _ _ _ _ _ Hi) as (a & l' & ->).
    by destruct (free_access_point_list_run ndebug r1 a l' vs (id_rep _ _ _ _ _ _ Hi)) as (r2 & -> & _).
Qed.
End gzip_index.

(** ** The theorems *)

Section gzip_reader_theorems.
Context `{ZL : Zlib} (ndebug : bool) (fuel : nat) (junk : bytes).

(** The promise of the reader to the read layer: an image below 1 MiB, or one
    that can be indexed. *)
Definition gzip_decodes (c img : bytes) : Prop :=
  gz_header c img /\ zlen c + zlen img < Z.of_nat fuel /\ zlen junk = WINDOW_SIZE /\
  (zlen img < SPAN \/ exists any, gz_whole any c img).

Lemma whole_indexable any c img max :
  zlen img < SPAN \/ gz_whole any c img -> max <= zlen img -> indexable any c img max.
Proof. unfold indexable, SPAN. intros [?|?] Hm; [left; lia|right; split; [done|lia]]. Qed.

#[export] Instance gzip_ok : ReaderOk (gzip_impl ndebug fuel junk).
Proof.
  refine (Build_ReaderOk (gzip_impl ndebug fuel junk) gzip_decodes
    (fun c img f r => exists any, gz_inv fuel any c img f r /\ zlen junk = WINDOW_SIZE /\
       (zlen img < SPAN \/ gz_whole any c img)) _ _ _).
  - intros c img f r [any [(_ & _ & [[_ ->]|(_ & Hc & Hb & _)]) _]]; [by split|by split].
  - intros c img (Hh & Hfuel & Hj & Hs). eexists _, (at_pos c 0). split; [reflexivity|].
    assert (Hs' : exists any, zlen img < SPAN \/ gz_whole any c img)
      by (destruct Hs as [?|[any ?]]; [exists true|exists any]; tauto).
    destruct Hs' as [any Hs']. exists any.
    split; [|done]. split; [done|]. split; [done|]. left. split; [apply list_rep_new|done].
  - intros c img f r off n (any & Hinv & Hj & Hs) Hoff Hn Hin.
    destruct (gzip_read_used ndebug fuel any c img junk f r off n Hinv Hj Hoff Hn
      (whole_indexable any c img (off + n) Hs Hin)) as (f' & r' & Hrun & Hinv' & Hfree).
    exists f', r'. split; [done|]. split; [by exists any|done].
Defined.

(** C24: every read inside the image returns exactly its bytes, the one that
    builds the index from the header, those that take it farther from the last
    access point and those that find it there: in the first MiB for any file,
    and everywhere when the file is a single chunk of 16 KiB or decoding can start
    at a block with any window. *)
Theorem gzip_read_ok any c img f r off n :
  gz_inv fuel any c img f r -> zlen junk = WINDOW_SIZE -> 0 <= off -> 0 < n < 2 ^ 31 ->
  off + n < SPAN \/ gz_whole any c img -> off + n <= zlen img ->
  exists f' r', gzip_read ndebug fuel junk off n (f, r) = Ok ((n, slice off n img), (f', r')) /\
    zlen (slice off n img) = n /\ gz_inv fuel any c img f' r'.
Proof.
  intros Hinv Hj Hoff Hn Hm Hin.
  assert (Hix : indexable any c img (off + n))
    by (unfold indexable, SPAN in *; destruct Hm; [left; lia|right; split; [done|lia]]).
  destruct (gzip_read_used ndebug fuel any c img junk f r off n Hinv Hj Hoff Hn Hix) as (f' & r' & Hrun & Hinv' & _).
  exists f', r'. split; [done|]. split; [by apply zlen_slice; lia|done].
Qed.

(** A read over the end of the image reports its full length although
    fewer bytes were put in the buffer, none at all behind the end. *)
Theorem gzip_read_past_end any c img f r off n :
  gz_inv fuel any c img f r -> zlen junk = WINDOW_SIZE -> 0 <= off -> 0 < n < 2 ^ 31 ->
  indexable any c img (off + n) -> zlen img < off + n ->
  exists f' r' data, gzip_read ndebug fuel junk off n (f, r) = Ok ((n, data), (f', r')) /\
    zlen data = Z.max 0 (zlen img - off) /\ zlen data < n /\ gz_inv fuel any c img f' r'.
Proof.
  intros Hinv Hj Hoff Hn Hm Hin.
  destruct (gzip_read_used ndebug fuel any c img junk f r off n Hinv Hj Hoff Hn Hm) as (f' & r' & Hrun & Hinv' & _).
  exists f', r', (slice off n img). split; [done|].
  assert (Hl : zlen (slice off n img) = Z.max 0 (zlen img - off)).
  { unfold slice. rewrite zlen_take, zlen_drop by lia. lia. }
  pose proof (zlen_nonneg img). split; [done|]. split; [lia|done].
Qed.

End gzip_reader_theorems.
