(* ===== verification/GzipTokens.v ===== *)
(** * A gzip-like format with references to earlier output

    The parameter of GzipReader at a format of tokens behind a header: 0 ends
    the stream, 1 is a run of the last byte of output, which a decoder that
    starts in the middle takes from its window, 2 ends a block, a byte below 96 is
    a run of itself and any other byte itself.  It keeps the contract of
    GzipIndex, with blocks that refer to earlier ones when 1 occurs. *)
From Stdlib Require Import ZArith Lia Strings.Byte.
From stdpp Require Import base numbers list option gmap.
From S2P Require Import Prelude Clib Disk Reader DList GzipReader GzipFacts GzipIndex.

(** In front of the header, in front of a token behind some last byte, or in a
    run with some bytes to come. *)
Inductive tk_stream : Type :=
| tk_head
| tk_token (last : Byte.byte)
| tk_run (b : Byte.byte) (n : Z).

Definition tk_step (run : Z) (l b : Byte.byte) : Z * Z * bytes * Z * tk_stream :=
  if byte_val b =? 1 then (Z_OK, 1, [], 0, tk_run l run) else
  if byte_val b =? 2 then (Z_OK, 1, [], 128, tk_token l) else
  if byte_val b <? 96 then (Z_OK, 1, [], 0, tk_run b run) else (Z_OK, 1, [b], 0, tk_token b).

Definition tk_inflate (hlen run : Z) (st : tk_stream) (flush : Z) (inp : bytes) (avail_out : Z)
    : Z * Z * bytes * Z * tk_stream :=
  match st with
  | tk_head => (Z_OK, hlen, [], 128, tk_token Byte.x00)
  | tk_token l =>
      match inp with
      | b :: _ => if byte_val b =? 0 then (Z_STREAM_END, 1, [], 0, st) else tk_step run l b
      | [] => (Z_DATA_ERROR, 0, [], 0, st)
      end
  | tk_run b n =>
      if n <=? avail_out then (Z_OK, 0, replicate (Z.to_nat n) b, 0, tk_token b)
      else (Z_OK, 0, replicate (Z.to_nat avail_out) b, 0, tk_run b (n - avail_out))
  end.

Definition tk_gzip (hlen run : Z) : Zlib := {|
  z_stream := tk_stream;
  inflateInit2 w := (Z_OK, if w =? GZIP_WINDOW_BITS then tk_head else tk_token Byte.x00);
  inflatePrime st _ _ := st;
  inflateSetDictionary st d :=
    match st with tk_token l => tk_token (default l (list.last d)) | _ => st end;
  inflate := tk_inflate hlen run |}.

Section tokens.
Context (hlen run : Z) (Hrun : 0 < run).
#[local] Instance tk_zlib : Zlib := tk_gzip hlen run.

Definition is_code (b : Byte.byte) : Prop := byte_val b <> 0.
Definition tk_tail (cs : bytes) : bytes := cs ++ [Byte.x00].

Fixpoint tk_decode (l : Byte.byte) (cs : bytes) : bytes :=
  match cs with
  | [] => []
  | b :: cs =>
      if byte_val b =? 1 then replicate (Z.to_nat run) l ++ tk_decode l cs else
      if byte_val b =? 2 then tk_decode l cs else
      if byte_val b <? 96 then replicate (Z.to_nat run) b ++ tk_decode b cs else b :: tk_decode b cs
  end.

(** The tokens and the output still to come. *)
Inductive tk_at : tk_stream -> bytes -> bytes -> Prop :=
| at_token l cs : tk_at (tk_token l) cs (tk_decode l cs)
| at_run b n cs : 0 < n -> tk_at (tk_run b n) cs (replicate (Z.to_nat n) b ++ tk_decode b cs).

(** ** One call *)

Inductive tk_call (av : Z) : tk_stream -> bytes -> bytes -> Z -> tk_stream -> bytes -> Prop :=
| call_repeat l b cs : byte_val b = 1 -> tk_call av (tk_token l) (b :: cs) [] 0 (tk_run l run) cs
| call_block l b cs : byte_val b = 2 -> tk_call av (tk_token l) (b :: cs) [] 128 (tk_token l) cs
| call_start l b cs : 2 < byte_val b < 96 -> tk_call av (tk_token l) (b :: cs) [] 0 (tk_run b run) cs
| call_byte l b cs : 96 <= byte_val b -> tk_call av (tk_token l) (b :: cs) [b] 0 (tk_token b) cs
| call_some b n cs : av < n ->
    tk_call av (tk_run b n) cs (replicate (Z.to_nat av) b) 0 (tk_run b (n - av)) cs
| call_rest b n cs : n <= av ->
    tk_call av (tk_run b n) cs (replicate (Z.to_nat n) b) 0 (tk_token b) cs.

Lemma zlen_replicate {A} n (x : A) : 0 <= n -> zlen (replicate (Z.to_nat n) x) = n.
Proof. intros H. unfold zlen. rewrite length_replicate. lia. Qed.

Lemma tk_inflate_call st flush cs out k av code used w dt st' :
  Forall is_code cs -> tk_at st cs out -> 0 < k -> 0 < av ->
  tk_inflate hlen run st flush (take (Z.to_nat k) (tk_tail cs)) av = (code, used, w, dt, st') ->
  (code = Z_STREAM_END /\ used = 1 /\ w = [] /\ out = []) \/
  (code = Z_OK /\ exists cs', tk_call av st cs w dt st' cs' /\ used + zlen cs' = zlen cs /\
     drop (Z.to_nat used) (tk_tail cs) = tk_tail cs').
Proof.
  intros Hcs Hat Hk Hav. destruct (Z.to_nat k) as [|k'] eqn:E; [lia|]. destruct Hat as [l cs|b n cs Hn]; cbn [tk_inflate].
  - destruct cs as [|b cs]; cbn [tk_tail app take].
    { change (byte_val Byte.x00 =? 0) with true. intros [= <- <- <- _ _]. by left. }
    apply Forall_cons in Hcs as [Hb Hcs]. rewrite (proj2 (Z.eqb_neq _ _) Hb). intros Hs. right.
    assert (H0 : 0 <= byte_val b < 256) by apply byte_val_range. unfold is_code in Hb.
    assert (Hused : code = Z_OK /\ used = 1)
      by (unfold tk_step in Hs; repeat case_match; by injection Hs as <- <- _ _ _).
    destruct Hused as [-> ->]. split; [done|]. exists cs. rewrite zlen_cons. split; [|split; [lia|done]].
    unfold tk_step in Hs.
    destruct (Z.eqb_spec (byte_val b) 1); [injection Hs as <- <- <-; by constructor|].
    destruct (Z.eqb_spec (byte_val b) 2); [injection Hs as <- <- <-; by constructor|].
    destruct (Z.ltb_spec (byte_val b) 96); injection Hs as <- <- <-; constructor; lia.
  - intros Hs. right. assert (Hused : code = Z_OK /\ used = 0) by (case_match; by injection Hs as <- <- _ _ _).
    destruct Hused as [-> ->]. split; [done|]. exists cs. split; [|split; [lia|done]].
    destruct (Z.leb_spec n av); injection Hs as <- <- <-; by constructor.
Qed.

(** The output of a call is the next one, and the call gets on. *)
Lemma tk_call_out av st cs out w dt st' cs' :
  tk_at st cs out -> 0 < av -> tk_call av st cs w dt st' cs' ->
  zlen w <= av /\ (zlen cs' + 1 <= zlen cs \/ cs' = cs /\ 0 < zlen w) /\
  exists out', out = w ++ out' /\ tk_at st' cs' out'.
Proof.
  intros Hat Hav Hc. destruct Hc as [l b cs Hb|l b cs Hb|l b cs Hb|l b cs Hb|b n cs Hn|b n cs Hn];
    inversion Hat as [l' cs1|b' n' cs1 Hn']; subst; clear Hat; rewrite ?zlen_cons, ?zlen_nil; cbn [tk_decode].
  - rewrite (proj2 (Z.eqb_eq _ _) Hb). split; [lia|]. split; [lia|]. eexists. by split; [|constructor].
  - rewrite Hb. cbn [Z.eqb Pos.eqb]. split; [lia|]. split; [lia|]. eexists. by split; [|constructor].
  - rewrite (proj2 (Z.eqb_neq _ _)), (proj2 (Z.eqb_neq _ 2)), (proj2 (Z.ltb_lt _ _)) by lia.
    split; [lia|]. split; [lia|]. eexists. by split; [|constructor].
  - rewrite (proj2 (Z.eqb_neq _ _)), (proj2 (Z.eqb_neq _ 2)), (proj2 (Z.ltb_ge _ _)) by lia.
    split; [lia|]. split; [lia|]. eexists. by split; [|constructor].
  - rewrite zlen_replicate by lia. split; [lia|]. split; [right; split; [done|lia]|].
    exists (replicate (Z.to_nat (n - av)) b ++ tk_decode b cs). split; [|constructor; lia].
    rewrite app_assoc, <- replicate_add. do 2 f_equal. lia.
  - rewrite zlen_replicate by lia. split; [lia|]. split; [right; split; [done|lia]|]. eexists. by split; [|constructor].
Qed.

Lemma tk_call_code av st cs w dt st' cs' : Forall is_code cs -> tk_call av st cs w dt st' cs' -> Forall is_code cs'.
Proof. intros Hcs Hc. inversion Hc; subst; try done; by apply Forall_cons in Hcs as [_ ?]. Qed.

Lemma tk_call_end av st cs w dt st' cs' :
  tk_call av st cs w dt st' cs' -> at_block_end dt = true -> dt = 128 /\ exists l, st' = tk_token l.
Proof. intros Hc Hdt. destruct Hc; try discriminate Hdt. by eauto. Qed.

(** ** Decoding *)

Lemma tk_inflates st cs out :
  Forall is_code cs -> tk_at st cs out -> inflates (ZL := tk_zlib) st (tk_tail cs) out.
Proof.
  intros Hcs Hat. remember (length cs + length out)%nat as m eqn:Hm. revert st cs out Hcs Hat Hm.
  induction m as [m IH] using lt_wf_ind. intros st cs out Hcs Hat ->. apply inflates_step.
  - by destruct cs.
  - intros k av code used w dt st' [Hk _] _ Hav Hinf.
    destruct (tk_inflate_call _ _ _ _ _ _ _ _ _ _ _ Hcs Hat Hk Hav Hinf)
      as [(-> & -> & -> & ->)|(-> & cs' & Hc & Hu & Hd)].
    { change (zlen (@nil Byte.byte)) with 0. split; [lia|]. split; [lia|]. by left. }
    destruct (tk_call_out _ _ _ _ _ _ _ _ Hat Hav Hc) as (Hw & Hprog & out' & -> & _).
    assert (Hu1 : 0 <= used <= k) by (destruct Hc; rewrite ?zlen_cons in Hu; lia).
    split; [done|]. split; [done|]. right. split; [done|]. split; [|by exists out'].
    destruct Hprog as [?|[-> ?]]; [pose proof (zlen_nonneg w); lia|lia].
  - intros k av used w dt st' out' [Hk _] _ Hav Hinf Hout.
    destruct (tk_inflate_call _ _ _ _ _ _ _ _ _ _ _ Hcs Hat Hk Hav Hinf)
      as [(? & _)|(_ & cs' & Hc & Hu & Hd)]; [done|].
    destruct (tk_call_out _ _ _ _ _ _ _ _ Hat Hav Hc) as (Hw & Hprog & out1 & Hout1 & Hat').
    rewrite Hout in Hout1. apply app_inv_head in Hout1 as <-. rewrite Hd.
    eapply IH; [|by eapply tk_call_code|exact Hat'|reflexivity].
    subst out. rewrite length_app. unfold zlen in *. destruct Hprog as [?|[-> ?]]; lia.
Qed.

(** ** Indexing *)

(** No reference in front of the first output. *)
Fixpoint no_ref (cs : bytes) : Prop :=
  match cs with
  | [] => True
  | b :: cs => byte_val b <> 1 /\ (byte_val b = 2 -> no_ref cs)
  end.
Definition no_refs (cs : bytes) : Prop := Forall (fun b => byte_val b <> 1) cs.

Lemma no_refs_ref cs : no_refs cs -> no_ref cs.
Proof. induction 1; by constructor. Qed.
Lemma tk_decode_fresh l l' cs : no_ref cs -> tk_decode l cs = tk_decode l' cs.
Proof.
  induction cs as [|b cs IH]; [done|]. intros [H1 H2]. cbn [tk_decode]. rewrite (proj2 (Z.eqb_neq _ _) H1).
  destruct (Z.eqb_spec (byte_val b) 2); [by apply IH, H2|done].
Qed.

Section file.
Context (any : bool) (c img : bytes).

(** The file and the image from a position on. *)
Definition rest_is (cs out : bytes) (comp raw : Z) : Prop :=
  0 <= comp <= zlen c /\ drop (Z.to_nat comp) c = tk_tail cs /\
  0 <= raw <= zlen img /\ drop (Z.to_nat raw) img = out.

Lemma rest_comp cs out comp raw : rest_is cs out comp raw -> comp + zlen cs + 1 = zlen c.
Proof.
  intros (H1 & H2 & _). pose proof (zlen_drop comp c ltac:(lia)) as Hl. rewrite H2 in Hl.
  unfold tk_tail in Hl. rewrite zlen_app, zlen_cons, zlen_nil in Hl. lia.
Qed.
Lemma rest_raw cs out comp raw : rest_is cs out comp raw -> raw + zlen out = zlen img.
Proof.
  intros (_ & _ & H1 & H2). pose proof (zlen_drop raw img ltac:(lia)) as Hl. rewrite H2 in Hl. lia.
Qed.
Lemma rest_step cs w out comp raw used cs' :
  rest_is cs (w ++ out) comp raw -> 0 <= used -> used + zlen cs' = zlen cs ->
  drop (Z.to_nat used) (tk_tail cs) = tk_tail cs' -> rest_is cs' out (comp + used) (raw + zlen w).
Proof.
  intros Hr Hu Hl Hd. pose proof (rest_raw _ _ _ _ Hr) as Hraw. pose proof (rest_comp _ _ _ _ Hr) as Hcomp.
  rewrite zlen_app in Hraw. pose proof (zlen_nonneg w). pose proof (zlen_nonneg out). pose proof (zlen_nonneg cs').
  destruct Hr as (R1 & R2 & R3 & R4). split; [lia|]. split; [|split; [lia|]].
  - rewrite Z2Nat.inj_add, <- drop_drop, R2 by lia. done.
  - rewrite Z2Nat.inj_add, <- drop_drop, R4 by lia. unfold zlen. by rewrite Nat2Z.id, drop_app_length.
Qed.

(** The last byte that the decoder knows is that of the image, unless it does
    not matter. *)
Definition known (st : tk_stream) (cs : bytes) (raw : Z) : Prop :=
  (any = true -> no_refs cs) /\
  match st with
  | tk_head => False
  | tk_token l => any = true \/ raw = 0 /\ no_ref cs \/ 0 < raw /\ img !! Z.to_nat (raw - 1) = Some l
  | tk_run _ _ => True
  end.

Lemma last_output raw w out l :
  0 <= raw -> drop (Z.to_nat raw) img = w ++ out -> list.last w = Some l ->
  0 < raw + zlen w /\ img !! Z.to_nat (raw + zlen w - 1) = Some l.
Proof.
  intros Hraw Hd Hl. destruct w as [|x w _] using rev_ind; [done|]. rewrite last_snoc in Hl. injection Hl as ->.
  rewrite zlen_app. change (zlen [l]) with 1. pose proof (zlen_nonneg w). split; [lia|].
  replace (Z.to_nat (raw + (zlen w + 1) - 1)) with (Z.to_nat raw + length w)%nat by (unfold zlen; lia).
  rewrite <- lookup_drop, Hd, <- app_assoc, lookup_app_r by lia. by rewrite Nat.sub_diag.
Qed.

Lemma known_call av st cs out w dt st' cs' out' raw :
  known st cs raw -> tk_at st cs out -> 0 < av -> tk_call av st cs w dt st' cs' -> 0 <= raw ->
  drop (Z.to_nat raw) img = w ++ out' -> known st' cs' (raw + zlen w).
Proof.
  intros [Hany Hst] Hat Hav Hc Hraw Hd.
  assert (Hlast : forall l, list.last w = Some l ->
    any = true \/ raw + zlen w = 0 /\ no_ref cs' \/ 0 < raw + zlen w /\ img !! Z.to_nat (raw + zlen w - 1) = Some l)
    by (intros l Hl; right; right; by eapply last_output).
  assert (Hrefs : any = true -> no_refs cs').
  { intros Ha. specialize (Hany Ha). inversion Hc; subst; try done; by apply Forall_cons in Hany as [_ ?]. }
  split; [done|]. inversion Hc as [l b cs1 Hb|l b cs1 Hb|l b cs1 Hb|l b cs1 Hb|b n cs1 Hn|b n cs1 Hn]; subst; try done.
  - change (zlen (@nil Byte.byte)) with 0. rewrite Z.add_0_r. destruct Hst as [?|[[? Href]|?]]; [by left| |tauto].
    right; left. split; [done|]. by apply Href.
  - by apply Hlast.
  - inversion Hat; subst. apply Hlast. destruct (Z.to_nat n) as [|m] eqn:E; [lia|].
    by rewrite replicate_S_end, last_snoc.
Qed.

(** A decoder that starts with a usable window goes on in the same way. *)
Lemma known_window l cs raw ctx :
  known (tk_token l) cs raw -> usable_window any img raw ctx -> 0 <= raw <= zlen img ->
  exists l', list.last ctx = Some l' /\ tk_decode l' cs = tk_decode l cs /\ known (tk_token l') cs raw.
Proof.
  intros [Hany Hst] [Hlen Hw] Hraw.
  destruct (list.last ctx) as [l'|] eqn:Hl; [|apply last_None in Hl as ->; done]. exists l'. split; [done|].
  assert (Hfree : any = true -> tk_decode l' cs = tk_decode l cs)
    by (intros Ha; by apply tk_decode_fresh, no_refs_ref, Hany).
  destruct Hst as [Ha|[[H0 Href]|[Hpos Hlast]]].
  - split; [by apply Hfree|]. split; [done|by left].
  - split; [by apply tk_decode_fresh|]. split; [done|by right; left].
  - destruct Hw as [Ha|Hw]; [split; [by apply Hfree|]; split; [done|by left]|].
    cbv zeta in Hw. unfold WINDOW_SIZE in *. set (n := Z.min raw 32768) in *.
    assert (Hn : 0 < n <= raw /\ n <= 32768) by lia.
    assert (Hl' : slice (raw - n) n img !! Z.to_nat (n - 1) = Some l').
    { rewrite <- Hw, lookup_drop. rewrite last_lookup in Hl. rewrite <- Hl. f_equal. unfold zlen in Hlen. lia. }
    rewrite slice_lookup in Hl' by lia.
    replace (Z.to_nat (raw - n) + Z.to_nat (n - 1))%nat with (Z.to_nat (raw - 1)) in Hl' by lia.
    rewrite Hl' in Hlast. injection Hlast as ->. split; [done|]. split; [done|]. right; right. done.
Qed.

Lemma tk_point_stream raw comp ctx :
  point_stream (ZL := tk_zlib) c (mkPoint raw comp (u8 (Z.land 128 7)) ctx) raw_stream
  = tk_token (default Byte.x00 (list.last ctx)).
Proof. done. Qed.

Lemma tk_point_ok l cs raw comp ctx :
  Forall is_code cs -> rest_is cs (tk_decode l cs) comp raw -> known (tk_token l) cs raw ->
  usable_window any img raw ctx ->
  point_ok (ZL := tk_zlib) c img (mkPoint raw comp (u8 (Z.land 128 7)) ctx).
Proof.
  intros Hcs (H1 & H2 & H3 & H4) Hk Hw. destruct (known_window l cs raw ctx Hk Hw H3) as (l' & Hl & Hd & _).
  split; [done|by vm_compute|done|].
  change (snd (inflateInit2 RAW_INFLATE_BITS)) with (raw_stream (ZL := tk_zlib)). rewrite tk_point_stream, Hl.
  cbn [raw_byte_address compressed_byte_address default]. rewrite H2, H4, <- Hd.
  apply tk_inflates; [done|constructor].
Qed.

(** A call on the file: the end, or the next tokens and output with the same
    facts and less to come. *)
Lemma tk_file_call st cs out comp raw k av code used w dt st' :
  Forall is_code cs -> tk_at st cs out -> rest_is cs out comp raw -> known st cs raw -> 0 < k -> 0 < av ->
  tk_inflate hlen run st Z_BLOCK (slice comp k c) av = (code, used, w, dt, st') ->
  code = Z_STREAM_END /\ used = 1 /\ w = [] /\ out = [] \/
  code = Z_OK /\ exists cs' out', tk_call av st cs w dt st' cs' /\ used + zlen cs' = zlen cs /\
    0 <= used <= 1 /\ 0 < used + zlen w /\ zlen w <= av /\ out = w ++ out' /\
    (length cs' + length out' < length cs + length out)%nat /\
    Forall is_code cs' /\ tk_at st' cs' out' /\ rest_is cs' out' (comp + used) (raw + zlen w) /\
    known st' cs' (raw + zlen w).
Proof.
  intros Hcs Hat Hr Hkn Hk Hav Hinf. pose proof Hr as (R1 & R2 & R3 & R4).
  unfold slice in Hinf. rewrite R2 in Hinf.
  destruct (tk_inflate_call _ _ _ _ _ _ _ _ _ _ _ Hcs Hat Hk Hav Hinf)
    as [?|(-> & cs' & Hc & Hu & Hd)]; [by left|right]. split; [done|].
  destruct (tk_call_out _ _ _ _ _ _ _ _ Hat Hav Hc) as (Hw & Hprog & out' & Hout & Hat').
  assert (Hu1 : 0 <= used <= 1) by (inversion Hc; subst; rewrite ?zlen_cons in Hu; lia).
  pose proof (zlen_nonneg w). exists cs', out'. do 3 (split; [done|]).
  split; [destruct Hprog as [?|[-> ?]]; lia|]. do 2 (split; [done|]).
  split; [rewrite Hout, length_app; unfold zlen in *; destruct Hprog as [?|[-> ?]]; lia|].
  split; [by eapply tk_call_code|]. split; [done|]. rewrite Hout in R4.
  split; [apply (rest_step cs w out'); [by rewrite <- Hout|lia|done|done]|].
  exact (known_call av st cs out w dt st' cs' out' raw Hkn Hat Hav Hc (proj1 R3) R4).
Qed.

Lemma tk_block_stream st cs out comp raw :
  Forall is_code cs -> tk_at st cs out -> rest_is cs out comp raw -> known st cs raw ->
  block_stream (ZL := tk_zlib) any c img st comp raw.
Proof.
  intros Hcs Hat Hr Hk. remember (length cs + length out)%nat as m eqn:Hm.
  revert st cs out comp raw Hcs Hat Hr Hk Hm.
  induction m as [m IH] using lt_wf_ind. intros st cs out comp raw Hcs Hat Hr Hkn ->.
  pose proof (rest_comp _ _ _ _ Hr) as Hcomp. pose proof (zlen_nonneg cs).
  pose proof (fun k av code used w dt st' =>
    tk_file_call st cs out comp raw k av code used w dt st' Hcs Hat Hr Hkn) as Hcall.
  apply block_step.
  - lia.
  - intros k av code used w dt st' Hk Hck Hav Hinf. pose proof (rest_raw _ _ _ _ Hr) as Hraw.
    destruct (Hcall k av code used w dt st' ltac:(lia) ltac:(lia) Hinf)
      as [(-> & -> & -> & ->)|(-> & cs' & out' & _ & Hu & Hu1 & Hprog & Hw & Hout & _)].
    { change (zlen (@nil Byte.byte)) with 0 in *.
      split; [lia|]. split; [lia|]. split; [lia|]. split; [done|]. left. split; [done|lia]. }
    rewrite Hout, zlen_app in Hraw. pose proof (zlen_nonneg out').
    split; [lia|]. split; [done|]. split; [lia|]. split; [|right; split; [done|lia]].
    destruct Hr as (_ & _ & _ & Hd). unfold slice. rewrite Hd, Hout. unfold zlen.
    by rewrite Nat2Z.id, take_app_length.
  - intros k av used w dt st' Hk Hck Hav Hinf.
    destruct (Hcall k av _ used w dt st' ltac:(lia) ltac:(lia) Hinf)
      as [(? & _)|(_ & cs' & out' & _ & _ & _ & _ & _ & _ & Hlt & Hcs' & Hat' & Hr' & Hk')]; [done|].
    by apply (IH _ Hlt st' cs' out').
  - intros k av used w dt st' ctx Hk Hck Hav Hinf Hend Hctx.
    destruct (Hcall k av _ used w dt st' ltac:(lia) ltac:(lia) Hinf)
      as [(? & _)|(_ & cs' & out' & Hc & _ & _ & _ & _ & _ & _ & Hcs' & Hat' & Hr' & Hk')]; [done|].
    destruct (tk_call_end _ _ _ _ _ _ _ Hc Hend) as [-> [l ->]]. inversion Hat'; subst. by apply (tk_point_ok l cs').
  - intros k av used w dt st' ctx Hk Hck Hav Hinf Hend Hctx.
    destruct (Hcall k av _ used w dt st' ltac:(lia) ltac:(lia) Hinf)
      as [(? & _)|(_ & cs' & out' & Hc & _ & _ & _ & _ & _ & Hlt & Hcs' & Hat' & Hr' & Hk')]; [done|].
    destruct (tk_call_end _ _ _ _ _ _ _ Hc Hend) as [-> [l ->]]. inversion Hat'; subst.
    destruct (known_window l cs' _ ctx Hk' Hctx ltac:(apply Hr')) as (l' & Hl & Hd & Hk2).
    rewrite tk_point_stream, Hl. cbn [default]. apply (IH _ Hlt _ cs' (tk_decode l cs')); try done.
    rewrite <- Hd. constructor.
Qed.
End file.

(** ** Files *)

Definition tk_file (cs : bytes) : bytes := GZIP_MAGIC_HEADER ++ zeros (hlen - 2) ++ tk_tail cs.
Definition tk_img (cs : bytes) : bytes := tk_decode Byte.x00 cs.

(** Codes whose first output does not refer back. *)
Context (Hhlen : 2 <= hlen <= CHUNK) (cs : bytes) (Hcs : Forall is_code cs) (Href : no_ref cs).

Lemma zlen_tk_file : zlen (tk_file cs) = hlen + zlen cs + 1.
Proof.
  unfold tk_file, tk_tail. rewrite !zlen_app, zlen_zeros by lia.
  change (zlen GZIP_MAGIC_HEADER) with 2. change (zlen [Byte.x00]) with 1. lia.
Qed.

Lemma tk_rest_start : rest_is (tk_file cs) (tk_img cs) cs (tk_img cs) hlen 0.
Proof.
  pose proof (zlen_nonneg cs). pose proof (zlen_nonneg (tk_img cs)).
  split; [rewrite zlen_tk_file; lia|]. split; [|by split].
  unfold tk_file. rewrite app_assoc. replace (Z.to_nat hlen) with (length (GZIP_MAGIC_HEADER ++ zeros (hlen - 2))).
  - apply drop_app_length.
  - pose proof (zlen_zeros (hlen - 2) ltac:(lia)) as Hz. unfold zlen in Hz. rewrite length_app.
    cbn [length GZIP_MAGIC_HEADER]. lia.
Qed.

Lemma tk_known any : (any = true -> no_refs cs) -> known any (tk_img cs) (tk_token Byte.x00) cs 0.
Proof. intros Hany. split; [done|]. right; left. done. Qed.
Lemma tk_window_0 any ctx : zlen ctx = WINDOW_SIZE -> usable_window any (tk_img cs) 0 ctx.
Proof.
  intros Hc. split; [done|]. right. cbv zeta. change (Z.min 0 WINDOW_SIZE) with 0.
  rewrite slice_0. apply drop_ge. unfold zlen in Hc. lia.
Qed.

Lemma tk_header :
  zlen cs < 2 ^ 61 -> zlen (tk_img cs) < 2 ^ 62 -> gz_header (ZL := tk_zlib) (tk_file cs) (tk_img cs).
Proof.
  intros H1 H2. pose proof (zlen_nonneg cs). unfold CHUNK in Hhlen. split.
  - rewrite zlen_tk_file. lia.
  - done.
  - done.
  - exists tk_head, hlen, 128, (tk_token Byte.x00). split; [done|]. split; [done|].
    split; [rewrite zlen_tk_file; unfold CHUNK; lia|]. split; [done|]. split; [done|]. intros ctx Hctx.
    apply (tk_point_ok false _ _ Byte.x00 cs); [done|apply tk_rest_start|by apply tk_known|by apply tk_window_0].
Qed.

Lemma tk_blocks any :
  (any = true -> no_refs cs) -> gz_blocks (ZL := tk_zlib) any (tk_file cs) (tk_img cs).
Proof.
  intros Hany st used dt st' [= <-]. intros [= <- <- <-].
  pose proof (tk_known any Hany) as Hk. pose proof tk_rest_start as Hr. split.
  - by apply (tk_block_stream _ _ _ _ cs (tk_img cs)); [|constructor|..].
  - intros ctx Hctx. rewrite tk_point_stream.
    pose proof (zlen_nonneg (tk_img cs)).
    destruct (known_window _ _ _ cs 0 ctx Hk (tk_window_0 any ctx Hctx) ltac:(lia)) as (l & -> & Hd & Hk').
    cbn [default]. apply (tk_block_stream _ _ _ _ cs (tk_img cs)); try done. unfold tk_img. rewrite <- Hd. constructor.
Qed.
End tokens.

(** Bytes inside a run. *)
Lemma slice_run off n m (x : Byte.byte) pre post :
  zlen pre <= off -> 0 <= n -> off + n <= zlen pre + m ->
  slice off n (pre ++ replicate (Z.to_nat m) x ++ post) = replicate (Z.to_nat n) x.
Proof.
  intros Ho Hn Hm. pose proof (zlen_nonneg pre). unfold slice.
  replace (Z.to_nat off) with (length pre + Z.to_nat (off - zlen pre))%nat by (unfold zlen in *; lia).
  rewrite drop_app_add, drop_app_le, drop_replicate by (rewrite length_replicate; lia).
  rewrite take_app_le, take_replicate by (rewrite length_replicate; lia). f_equal. lia.
Qed.

(** Decodes tokens that are given, and leaves the runs alone. *)
Ltac tk_decodes :=
  unfold tk_img; cbn [tk_decode];
  repeat match goal with
    | |- context [byte_val ?b] => let v := eval vm_compute in (byte_val b) in change (byte_val b) with v
    end;
  cbn [Z.eqb Z.ltb Z.compare Pos.eqb Pos.compare Pos.compare_cont].
