(* ===== verification/Constructors.v ===== *)
(** * compression/constructors.h: the readers there are

    The table of compression_reader.c with its three readers, which one a file
    gets by its first bytes, and what the whole read layer then promises. *)
From Stdlib Require Import ZArith Lia Strings.Byte.
From stdpp Require Import base numbers list option gmap.
From S2P Require Import Prelude Clib Disk Reader XzReader XzFacts GzipReader GzipFacts GzipIndex.

Section constructors.
Context `{LZ : Lzma} `{ZL : Zlib} (ndebug : bool) (fuel : nat) (junk : bytes).

(** Highest precedence first.  [junk] is what memory that nobody initialised
    holds. *)
Definition available_readers : list CompressionReaderImpl :=
  [gzip_impl ndebug fuel junk; xz_impl ndebug (le_at 0 8 junk); raw_impl].

Definition is_gzip (c : bytes) : Prop := slice 0 2 c = GZIP_MAGIC_HEADER.
Definition is_xz (c : bytes) : Prop := slice 0 6 c = XZ_MAGIC_HEADER.

(** An xz file whose blocks are small enough. *)
Definition xz_small (c img : bytes) : Prop :=
  exists idx, xz_streams c (zlen c) None idx /\ xz_index_ok c img idx /\
    max_block (lzma_index_blocks idx) <= 64 * 1024 * 1024.

Lemma gzip_probes c b :
  2 <= zlen c -> (b = true <-> is_gzip c) -> probes (gzip_impl ndebug fuel junk) c b.
Proof.
  intros Hl Hb f Hc Hbad Hpos Herr. destruct f as [fc fp fe fb]. cbn in Hc, Hbad, Hpos, Herr.
  subst fc fp fe fb.
  exists (mkFILE c 2 false None). split; [|done].
  change (is_supported (gzip_impl ndebug fuel junk)) with (gzip_is_supported ndebug).
  unfold gzip_is_supported, GZIP_MAGIC_HEADER_SIZE.
  rewrite (bind_Ok (fread 2) _ _ (slice 0 2 c) (mkFILE c 2 false None)).
  - rewrite zlen_slice by lia. cbn [Z.eqb Pos.eqb].
    rewrite (bind_Ok (c_assert ndebug true) _ _ tt _) by (by destruct ndebug). cbn [negb].
    unfold ret. do 2 f_equal. destruct b.
    + by apply bool_decide_eq_true_2, Hb.
    + apply bool_decide_eq_false_2. intros H. by apply Hb in H.
  - unfold fread, io_data, io_fault, io_end. cbn [f_content f_pos f_err f_bad orb].
    rewrite Z.min_l, zlen_slice by lia. done.
Qed.

Lemma xz_probes_other c garbage : 6 <= zlen c -> ~ is_xz c -> probes (xz_impl ndebug garbage) c false.
Proof.
  intros Hl Hx f Hc Hbad Hpos Herr.
  destruct (xz_is_supported_other ndebug c f (conj Hc Hbad) Hpos Hl Hx) as (f' & Hrun & Hf).
  by exists f'.
Qed.

Lemma xz_probes c img garbage :
  is_xz c -> xz_small c img -> probes (xz_impl ndebug garbage) c true.
Proof.
  intros Hx (idx & Hs & Hok & Hmax) f Hc Hbad Hpos Herr.
  destruct (xz_is_supported_run_ok ndebug c img idx f Hs Hok (conj Hc Hbad) Hpos Hx) as (f' & Hrun & Hf).
  exists f'. split; [|exact Hf]. cbn [is_supported xz_impl]. rewrite Hrun. by rewrite (proj2 (Z.leb_le _ _)) by lia.
Qed.

(** What the file is, and the image in it. *)
Inductive compressed_as (c img : bytes) : Prop :=
| as_gzip : is_gzip c -> gzip_decodes fuel junk c img -> compressed_as c img
| as_xz : is_xz c -> xz_small c img -> compressed_as c img
| as_raw : ~ is_gzip c -> ~ is_xz c -> c = img -> compressed_as c img.

Lemma xz_not_gzip c : is_xz c -> ~ is_gzip c.
Proof.
  unfold is_xz, is_gzip. intros Hx Hg. pose proof (slice_slice 0 6 0 2 c) as Hs.
  rewrite Z.add_0_r, Hx, Hg in Hs by lia. discriminate Hs; lia.
Qed.

Lemma raw_layer_inv c :
  6 <= zlen c -> ~ is_gzip c -> ~ is_xz c ->
  layer_inv available_readers c c raw_impl (fopen_content c None) None.
Proof.
  intros Hl Hg Hx. split; [|done]. apply sel_later; [|apply sel_later; [by apply xz_probes_other|]].
  - apply gzip_probes; [lia|]. split; done.
  - apply sel_here. intros f H1 H2 _ _. by exists f.
Qed.

Lemma selects_run c img :
  6 <= zlen c -> compressed_as c img ->
  exists i (H : ReaderOk i), layer_inv available_readers c img i (fopen_content c None) None.
Proof.
  intros Hl Hc. destruct Hc as [Hg Hd|Hx Hs|Hg Hx ->].
  - exists (gzip_impl ndebug fuel junk), (gzip_ok ndebug fuel junk). split; [|done].
    apply sel_here, gzip_probes; [lia|done].
  - exists (xz_impl ndebug (le_at 0 8 junk)), (xz_ok ndebug (le_at 0 8 junk)).
    pose proof (xz_probes c img (le_at 0 8 junk) Hx Hs) as Hp.
    destruct Hs as (idx & Hs & Hok & Hmax). split; [|split; [by exists idx|done]].
    apply sel_later; [|by apply sel_here].
    apply gzip_probes; [lia|]. split; [done|]. intros Hg. by apply xz_not_gzip in Hx.
  - exists raw_impl, raw_ok. by apply raw_layer_inv.
Qed.

(** C15: the read layer over the real table: a file of at least six bytes that
    is a gzip file of an image below 1 MiB, of one chunk or with independent blocks, an xz file
    (with blocks of at most 64 MiB, footers whose byte 2 is not zero and padding
    in multiples of 12 bytes) or neither is given to the right reader, and
    from the first read on every sequence of reads inside the image returns the
    bytes of the image. *)
Theorem available_readers_ok c img :
  6 <= zlen c -> compressed_as c img ->
  exists inv : FILE -> option CompressionReader -> Prop,
    inv (fopen_content c None) None /\
    forall f r off n, inv f r -> 0 <= off -> 0 < n < 2 ^ 31 -> off + n <= zlen img ->
    exists f' r', read_wrapper ndebug available_readers off n (f, r)
        = Ok ((n, slice off n img), (f', r')) /\ inv f' r'.
Proof.
  intros Hl Hc. destruct (selects_run c img Hl Hc) as (i & H & Hinv).
  exists (fun f r => layer_inv available_readers c img i f r). split; [done|].
  intros f r off n Hi Hoff Hn Hin. by apply read_wrapper_run.
Qed.
End constructors.
