(* ===== verification/Example.v ===== *)
(** * examples/compression-reader.c: a part of an image on the standard output *)
From Stdlib Require Import ZArith Lia Strings.Byte.
From stdpp Require Import base numbers list option gmap.
From S2P Require Import Prelude Clib Disk Reader XzReader GzipReader Constructors.

(** [atol]: white space, a sign and digits; a value outside [long] is
    undefined. *)
Definition digit (b : Byte.byte) : option Z :=
  let v := byte_val b - 48 in if (0 <=? v) && (v <=? 9) then Some v else None.
Definition is_space (b : Byte.byte) : bool :=
  (byte_val b =? 32) || ((9 <=? byte_val b) && (byte_val b <=? 13)).
Fixpoint digits (acc : Z) (s : bytes) : Z :=
  match s with
  | [] => acc
  | b :: s' => match digit b with Some v => digits (10 * acc + v) s' | None => acc end
  end.
Fixpoint skip_space (s : bytes) : bytes :=
  match s with
  | b :: s' => if is_space b then skip_space s' else s
  | [] => []
  end.
Definition atol (s : bytes) : res Z :=
  let v := match skip_space s with
           | Byte.x2d :: s' => - digits 0 s'
           | Byte.x2b :: s' => digits 0 s'
           | s' => digits 0 s'
           end in
  if (- 2 ^ 63 <=? v) && (v <? 2 ^ 63) then Ok v else Err UB.

Section example.
Context (ndebug : bool) (available_readers : list CompressionReaderImpl).
(** [fopen(path, "r")], and the memory that [malloc] gives: it has none of more
    than PTRDIFF_MAX bytes. *)
Context (open : bytes -> option FILE) (fresh_memory : Z -> bytes).
Definition malloc (size : Z) : option bytes :=
  if size <? 2 ^ 63 then Some (fresh_memory size) else None.

(** Both [free_read_wrapper] and the file at the end; the exit status and what
    was written to stdout. *)
Definition finish (status : Z) (out : bytes) : M (FILE * option CompressionReader) (Z * bytes) :=
  do* zoom snd (fun r s => (fst s, r)) free_read_wrapper in ret (status, out).

(** The part with the open file; a store through the null pointer is [UB]. *)
Definition copy_part (offset length : Z) : M (FILE * option CompressionReader) (Z * bytes) :=
  let buffer := malloc length in
  let* r := read_wrapper ndebug available_readers offset length in
  let* buffer := (match buffer with
                  | Some b => let* b := lift (store 0 (snd r) b) in ret (Some b)
                  | None => do* require (bool_decide (snd r = [])) in ret None
                  end) in
  if negb (fst r =? s64 length) then finish 1 [] else
  let* b := non_null buffer in
  do* require (in_range 0 length b) in
  finish 0 (slice 0 length b).

Definition main (argv : list bytes) : M (option CompressionReader) (Z * bytes) :=
  match argv with
  | [_; path; arg_offset; arg_length] =>
      match open path with
      | None => ret (1, [])
      | Some f =>
          let* offset := lift (atol arg_offset) in
          let* l := lift (atol arg_length) in
          let length := u64 l in
          if (offset <? 0) || (length <=? 0) then ret (1, []) else
          fun r => match copy_part offset length (f, r) with
                   | Ok (v, (_, r')) => Ok (v, r')
                   | Err e => Err e
                   end
      end
  | _ => ret (1, [])
  end.
End example.

(** ** What it prints *)

Section example_facts.
Context `{LZ : Lzma} `{ZL : Zlib} (ndebug : bool) (fuel : nat) (junk : bytes).
Context (open : bytes -> option FILE) (fresh_memory : Z -> bytes).
Context (Hfresh : forall n, 0 <= n -> zlen (fresh_memory n) = n).
Local Abbreviation readers := (available_readers ndebug fuel junk).

(** C37: on a file that [compressed_as] describes (plain; gzip of an image below
    1 MiB, of one chunk or of independent blocks; xz with blocks of at most 64 MiB,
    footers whose byte 2 is not zero and padding in multiples of 12 bytes) the
    command prints exactly the part of the decompressed image it is asked for, if
    that lies inside the image and has less than 2 GiB, exits with 0, and the reader is gone; a negative
    offset and a length of 0 are refused with 1. *)
Theorem example_main_ok arg0 path so sl c img offset length :
  open path = Some (fopen_content c None) -> atol so = Ok offset -> atol sl = Ok length ->
  6 <= zlen c -> compressed_as fuel junk c img ->
  0 <= length < 2 ^ 31 -> offset + length <= zlen img -> zlen img < 2 ^ 62 ->
  main ndebug readers open fresh_memory [arg0; path; so; sl] None
  = Ok (if (0 <=? offset) && (0 <? length) then (0, slice offset length img) else (1, []), None).
Proof.
  intros Ho Hso Hsl Hc Himg Hlen Hin Hz. unfold main. rewrite Ho, Hso, Hsl.
  unfold bind at 1 2, lift. rewrite u64_small by lia.
  destruct (Z.ltb_spec offset 0) as [Hneg|Hoff]; [by rewrite (proj2 (Z.leb_gt 0 offset)) by lia|].
  rewrite (proj2 (Z.leb_le 0 offset)) by lia. cbn [orb andb].
  destruct (Z.leb_spec length 0) as [Hzero|Hpos]; [by rewrite (proj2 (Z.ltb_ge 0 length)) by lia|].
  rewrite (proj2 (Z.ltb_lt 0 length)) by lia.
  destruct (selects_run ndebug fuel junk c img Hc Himg) as (i & H & Hinv).
  destruct (read_wrapper_run ndebug readers c img i _ _ offset length Hinv Hoff ltac:(lia) Hin)
    as (f & r & Hrun & Hinv').
  assert (Hd : zlen (slice offset length img) = length) by (apply zlen_slice; lia).
  assert (Hsp : splice 0 (slice offset length img) (fresh_memory length) = slice offset length img).
  { unfold splice. change (Z.to_nat 0) with 0%nat. rewrite take_0. cbn [app Nat.add].
    rewrite drop_ge; [by rewrite app_nil_r|].
    pose proof (Hfresh length ltac:(lia)). unfold zlen in *. lia. }
  assert (Hcopy : copy_part ndebug readers fresh_memory offset length (fopen_content c None, None)
    = Ok ((0, slice offset length img), (f, None))).
  { unfold copy_part, malloc. rewrite (proj2 (Z.ltb_lt _ _)) by lia.
    rewrite (bind_Ok _ _ _ _ _ Hrun). cbn [fst snd].
    rewrite (bind_Ok _ _ (f, r) (Some (slice offset length img)) (f, r)).
    2:{ unfold store. rewrite in_range_true by (rewrite ?Hfresh; lia). by rewrite Hsp. }
    rewrite s64_small, Z.eqb_refl by lia. cbn [negb non_null].
    rewrite (bind_Ok _ _ (f, r) (slice offset length img) (f, r)) by done.
    unfold require. rewrite in_range_true by lia.
    rewrite (bind_Ok _ _ (f, r) tt (f, r)) by done. unfold finish.
    rewrite (bind_Ok _ _ (f, r) tt (f, None)).
    - unfold ret. do 3 f_equal. rewrite <- Hd at 1. by rewrite slice_all.
    - unfold zoom. cbn [fst snd].
      by rewrite (layer_free_ok readers i img f r (ex_intro _ c Hinv')). }
  by rewrite Hcopy.
Qed.
End example_facts.
