(* ===== verification/Dcache.v ===== *)
(** * fs/ext4/dcache.c: the directory entry cache

    A tree whose nodes live in a heap of [dcache_entry] cells: every node has
    a pointer to one of its children, and the children of a node form a
    circular list through [siblings].  The heap is explicit, so the pointer
    surgery of [dcache_insert] and the rotation done by [dcache_lookup] are
    the assignments of the source.  Address 0 is the static [root]; a freed or
    foreign address has no cell and using it is [UB]. *)
From Stdlib Require Import ZArith Lia Strings.Byte.
From stdpp Require Import base numbers list option gmap functions.
From S2P Require Import Prelude Clib.

(** types/e4f_dcache.h, 64-bit variant. *)
Definition DCACHE_ENTRY_NAME_LEN : Z := 40.

Record dcache_entry : Type := mkEntry {
  childs : option nat;
  siblings : option nat;
  inode : Z;
  lru_count : Z;
  user_count : Z;
  name : bytes }.

Definition calloc_entry : dcache_entry :=
  mkEntry None None 0 0 0 (zeros DCACHE_ENTRY_NAME_LEN).

Definition set_childs (c : option nat) (e : dcache_entry) : dcache_entry :=
  mkEntry c (siblings e) (inode e) (lru_count e) (user_count e) (name e).
Definition set_siblings (s : option nat) (e : dcache_entry) : dcache_entry :=
  mkEntry (childs e) s (inode e) (lru_count e) (user_count e) (name e).
Definition set_inode (n : Z) (e : dcache_entry) : dcache_entry :=
  mkEntry (childs e) (siblings e) n (lru_count e) (user_count e) (name e).
Definition set_name (nm : bytes) (e : dcache_entry) : dcache_entry :=
  mkEntry (childs e) (siblings e) (inode e) (lru_count e) (user_count e) nm.

Record dcache : Type := mkDcache {
  cells : gmap nat dcache_entry;
  next_addr : nat }.

Definition root : nat := 0.
(** The static root is zero-initialised. *)
Definition dcache_statics : dcache := mkDcache {[root := calloc_entry]} 1.

Definition deref (a : nat) : M dcache dcache_entry := fun d =>
  match cells d !! a with Some e => Ok (e, d) | None => Err UB end.
Definition assign (a : nat) (f : dcache_entry -> dcache_entry) : M dcache unit := fun d =>
  match cells d !! a with
  | Some e => Ok (tt, mkDcache (<[a := f e]> (cells d)) (next_addr d))
  | None => Err UB
  end.
Definition calloc : M dcache nat := fun d =>
  Ok (next_addr d,
      mkDcache (<[next_addr d := calloc_entry]> (cells d)) (S (next_addr d))).
Definition dcache_init_root (n : Z) : M dcache Z :=
  let* r := deref root in
  if negb (inode r =? 0) then ret (-1) else
  do* assign root (set_inode n) in
  do* assign root (set_childs None) in
  ret 0.

(** [name] points into a path, [namelen] is the length of the token there. *)
Definition dcache_insert (parent : option nat) (nm : bytes) (namelen n : Z)
    : M dcache (option nat) :=
  if DCACHE_ENTRY_NAME_LEN <? namelen + 1 then ret None else
  let* parent := (match parent with
                  | Some p => ret p
                  | None => let* r := deref root in
                            do* ASSERT (negb (inode r =? 0)) in
                            ret root
                  end) in
  let* new_entry := calloc in
  let* s := lift (strncpy_bytes (nm ++ [Byte.x00]) (Z.to_nat namelen)) in
  let* e := deref new_entry in
  let* nm1 := lift (store 0 s (name e)) in
  let* nm2 := lift (store namelen [Byte.x00] nm1) in
  do* assign new_entry (set_name nm2) in
  do* assign new_entry (set_inode n) in
  let* p := deref parent in
  match childs p with
  | None =>
      do* assign new_entry (set_siblings (Some new_entry)) in
      do* assign parent (set_childs (Some new_entry)) in
      ret (Some new_entry)
  | Some c =>
      let* ce := deref c in
      do* assign new_entry (set_siblings (siblings ce)) in
      do* assign c (set_siblings (Some new_entry)) in
      do* assign parent (set_childs (Some new_entry)) in
      ret (Some new_entry)
  end.

(** [strncmp(a, b, n) == 0] on two arrays. *)
Fixpoint strncmp_eq (a b : bytes) (n : nat) {struct n} : res bool :=
  match n with
  | O => Ok true
  | S n' =>
      match a, b with
      | x :: a', y :: b' =>
          if decide (x = y) then
            if decide (x = Byte.x00) then Ok true else strncmp_eq a' b' n'
          else Ok false
      | _, _ => Err UB
      end
  end.

(** [strncmp(e->name, nm, namelen) == 0 && e->name[namelen] == 0] *)
Definition name_matches (e : dcache_entry) (nm : bytes) (namelen : Z) : res bool :=
  let? b := strncmp_eq (name e) (nm ++ [Byte.x00]) (Z.to_nat namelen) in
  if b then let? c := load namelen 1 (name e) in Ok (c =? 0) else Ok false.

(** The loop over the siblings; [first] is [parent->childs]. *)
Fixpoint lookup_loop (fuel : nat) (parent first iter : nat) (nm : bytes) (namelen : Z)
    : M dcache (option nat) :=
  match fuel with
  | O => fail NoFuel
  | S fuel' =>
      let* e := deref iter in
      let* b := lift (name_matches e nm namelen) in
      if b : bool then
        do* assign parent (set_childs (Some iter)) in
        ret (Some iter)
      else
        let* nxt := non_null (siblings e) in
        if decide (nxt = first) then ret None
        else lookup_loop fuel' parent first nxt nm namelen
  end.

Definition dcache_lookup_fuel (fuel : nat) (parent : option nat) (nm : bytes) (namelen : Z)
    : M dcache (option nat) :=
  let parent := default root parent in
  let* p := deref parent in
  match childs p with
  | None => ret None
  | Some c => lookup_loop fuel parent c c nm namelen
  end.
(** There are at most [next_addr] cells, so that is the number of turns given. *)
Definition dcache_lookup (parent : option nat) (nm : bytes) (namelen : Z)
    : M dcache (option nat) :=
  let* d := get in dcache_lookup_fuel (next_addr d) parent nm namelen.

Definition dcache_get_inode (entry : option nat) : M dcache Z :=
  let* e := deref (default root entry) in ret (inode e).

(** ** The abstract tree

    [K p] is the list of the children of [p], the first one being the target
    of [childs].  [chain c l z]: the cells of [l] are linked in this order and
    the last one points to [z]. *)
Fixpoint chain (c : gmap nat dcache_entry) (l : list nat) (z : nat) : Prop :=
  match l with
  | [] => True
  | a :: l' =>
      (exists e, c !! a = Some e /\ siblings e = Some (hd z l')) /\ chain c l' z
  end.

Definition entry_name (e : dcache_entry) : bytes := default [] (cstr (name e)).

(** The children of a node, in circular order. *)
Definition kids_ok (c : gmap nat dcache_entry) (first : option nat) (l : list nat) : Prop :=
  match first with
  | None => l = []
  | Some a => hd_error l = Some a /\ chain c l a
  end.

Record dcache_rep (d : dcache) (K : nat -> list nat) : Prop := {
  rep_root : is_Some (cells d !! root);
  rep_bound : forall a e, cells d !! a = Some e -> (a < next_addr d)%nat;
  rep_kids : forall p e, cells d !! p = Some e -> kids_ok (cells d) (childs e) (K p);
  rep_none : forall p, cells d !! p = None -> K p = [];
  rep_nodup : forall p, NoDup (K p);
  rep_disj : forall p q a, a ∈ K p -> a ∈ K q -> p = q;
  rep_older : forall p a, a ∈ K p -> (p < a)%nat;
  rep_name : forall a e, cells d !! a = Some e ->
    zlen (name e) = DCACHE_ENTRY_NAME_LEN /\ is_Some (cstr (name e)) }.

Definition name_of (d : dcache) (a : nat) : option bytes := entry_name <$> cells d !! a.
Definition inode_of (d : dcache) (a : nat) : option Z := inode <$> cells d !! a.

(** The first node of [l] with the given name. *)
Fixpoint find_child (d : dcache) (l : list nat) (nm : bytes) : option nat :=
  match l with
  | [] => None
  | a :: l' => if decide (name_of d a = Some nm) then Some a else find_child d l' nm
  end.

(** Bring [a] to the front of a circular list. *)
Fixpoint rotate_to (a : nat) (done l : list nat) : list nat :=
  match l with
  | [] => done
  | b :: l' => if decide (a = b) then l ++ done else rotate_to a (done ++ [b]) l'
  end.

(** [nm] points to a token of [n] characters, none of them a NUL. *)
Definition token (nm : bytes) (n : Z) : Prop :=
  0 <= n <= zlen nm /\ Byte.x00 ∉ take (Z.to_nat n) nm.

(** The same nodes with the same names and inode numbers. *)
Definition same_nodes (d d' : dcache) : Prop :=
  next_addr d' = next_addr d /\
  forall a, name_of d' a = name_of d a /\ inode_of d' a = inode_of d a.

(** ** Names *)

Lemma cstr_spec l s :
  cstr l = Some s -> exists rest, l = s ++ Byte.x00 :: rest /\ Byte.x00 ∉ s.
Proof.
  revert s. induction l as [|b l IH]; intros s; cbn [cstr]; [done|].
  case_decide as Hb.
  - intros [= <-]. exists l. subst b. split; [done|]. apply not_elem_of_nil.
  - destruct (cstr l) as [s'|]; [|done]. intros [= <-].
    destruct (IH s' eq_refl) as (rest & -> & Hn). exists rest.
    split; [done|]. rewrite elem_of_cons. intros [Hc|Hc]; [congruence|by apply Hn].
Qed.

Lemma cstr_app s rest : Byte.x00 ∉ s -> cstr (s ++ Byte.x00 :: rest) = Some s.
Proof.
  induction s as [|b s IH]; intros Hn; cbn [app cstr].
  - by rewrite decide_True.
  - rewrite elem_of_cons in Hn. rewrite decide_False by (intros ->; tauto).
    rewrite IH by tauto. done.
Qed.

Lemma strncmp_eq_spec s rest tok tail :
  Byte.x00 ∉ s -> Byte.x00 ∉ tok ->
  strncmp_eq (s ++ Byte.x00 :: rest) (tok ++ tail) (length tok)
  = Ok (bool_decide (take (length tok) s = tok)).
Proof.
  revert s. induction tok as [|b tok IH]; intros s Hs Ht; [done|].
  rewrite elem_of_cons in Ht. cbn [length strncmp_eq app].
  destruct s as [|x s]; cbn [app take].
  - rewrite decide_False by (intros <-; tauto).
    rewrite bool_decide_eq_false_2; done.
  - rewrite elem_of_cons in Hs. case_decide as Hx.
    + subst x. rewrite decide_False by (intros ->; tauto).
      rewrite IH by tauto. f_equal. apply bool_decide_ext. split; congruence.
    + rewrite bool_decide_eq_false_2; [done|congruence].
Qed.

Lemma name_matches_spec e nm n :
  is_Some (cstr (name e)) -> token nm n ->
  name_matches e nm n = Ok (bool_decide (entry_name e = take (Z.to_nat n) nm)).
Proof.
  intros [s Hs] [Hn Htok]. unfold name_matches, entry_name. rewrite Hs. change (default [] (Some s)) with s.
  destruct (cstr_spec _ _ Hs) as (rest & -> & Hns).
  set (tok := take (Z.to_nat n) nm) in *.
  assert (Hlen : Z.to_nat n = length tok)
    by (unfold tok, zlen in *; rewrite length_take; lia).
  assert (Hnm : nm = tok ++ drop (Z.to_nat n) nm) by (symmetry; apply take_drop).
  rewrite Hnm, <- app_assoc, Hlen, strncmp_eq_spec by done. cbn [rbind].
  case_bool_decide as Hp; [|by rewrite bool_decide_eq_false_2 by (intros ->; by rewrite firstn_all in Hp)].
  rewrite <- (take_drop (length tok) s), Hp.
  set (s2 := drop (length tok) s). rewrite <- app_assoc.
  rewrite load_ok by (autorewrite with cbytes_len; unfold zlen in *; cbn; lia).
  cbn [rbind]. f_equal. unfold le_at, slice.
  replace (Z.to_nat n) with (length tok) by lia. rewrite drop_app_length.
  assert (Hs2 : Byte.x00 ∉ s2).
  { intros Hi. apply Hns. rewrite <- (take_drop (length tok) s), elem_of_app. by right. }
  destruct s2 as [|x s2]; cbn [app].
  - rewrite app_nil_r. rewrite bool_decide_eq_true_2 by done. done.
  - rewrite bool_decide_eq_false_2.
    2:{ intros Hc. apply (f_equal length) in Hc. rewrite length_app in Hc. cbn in Hc. lia. }
    change (Z.to_nat 1) with 1%nat. rewrite firstn_cons, take_0. cbn [le_decode].
    rewrite elem_of_cons in Hs2. apply Z.eqb_neq. intros Hz. apply Hs2. left.
    rewrite <- (byte_of_val x). replace (byte_val x) with 0 by lia. done.
Qed.

(** ** Chains *)

Lemma chain_app c l1 l2 z :
  chain c (l1 ++ l2) z <-> chain c l1 (hd z l2) /\ chain c l2 z.
Proof.
  induction l1 as [|a l1 IH]; cbn [app chain]; [tauto|].
  rewrite IH. replace (hd z (l1 ++ l2)) with (hd (hd z l2) l1); [tauto|].
  by destruct l1.
Qed.

Lemma chain_ext c c' l z :
  (forall a, a ∈ l -> siblings <$> c' !! a = siblings <$> c !! a) ->
  chain c l z -> chain c' l z.
Proof.
  induction l as [|a l IH]; cbn [chain]; [done|]. intros He [(e & Ha & Hs) Hc].
  split.
  - specialize (He a ltac:(apply elem_of_cons; by left)). rewrite Ha in He.
    destruct (c' !! a) as [e'|]; [|done]. exists e'. cbn in He. naive_solver congruence.
  - apply IH; [|done]. intros b Hb. apply He. apply elem_of_cons. by right.
Qed.

Lemma chain_rotate c l1 a l2 :
  chain c (l1 ++ a :: l2) (hd a l1) -> chain c (a :: l2 ++ l1) a.
Proof.
  rewrite chain_app. intros [H1 H2]. cbn [hd] in H1.
  change (a :: l2 ++ l1) with ((a :: l2) ++ l1). rewrite chain_app. done.
Qed.

Lemma chain_elem c l z a : chain c l z -> a ∈ l -> is_Some (c !! a).
Proof.
  induction l as [|b l IH]; cbn [chain]; [by rewrite elem_of_nil|].
  intros [(e & He & _) Hc]. rewrite elem_of_cons. intros [->|Ha]; eauto.
Qed.

Lemma rotate_to_split a done l1 l2 :
  a ∉ l1 -> rotate_to a done (l1 ++ a :: l2) = a :: l2 ++ done ++ l1.
Proof.
  revert done. induction l1 as [|b l1 IH]; intros done Hn; cbn [app rotate_to].
  - rewrite decide_True by done. by rewrite app_nil_r.
  - rewrite elem_of_cons in Hn. rewrite decide_False by (intros ->; tauto).
    rewrite IH by tauto. by rewrite <- app_assoc.
Qed.

Lemma find_child_split d l nm a :
  find_child d l nm = Some a ->
  exists l1 l2, l = l1 ++ a :: l2 /\ name_of d a = Some nm /\
    Forall (fun b => name_of d b <> Some nm) l1.
Proof.
  induction l as [|b l IH]; cbn [find_child]; [done|]. case_decide as Hb.
  - intros [= <-]. exists [], l. done.
  - intros Hf. destruct (IH Hf) as (l1 & l2 & -> & Ha & Hall).
    exists (b :: l1), l2. split; [done|]. split; [done|]. by constructor.
Qed.

(** ** Lookup *)

Lemma deref_ok d a e : cells d !! a = Some e -> deref a d = Ok (e, d).
Proof. intros H. unfold deref. by rewrite H. Qed.
Lemma assign_ok d a e f :
  cells d !! a = Some e ->
  assign a f d = Ok (tt, mkDcache (<[a := f e]> (cells d)) (next_addr d)).
Proof. intros H. unfold assign. by rewrite H. Qed.

Lemma inode_of_cell d a n :
  inode_of d a = Some n -> exists e, cells d !! a = Some e /\ inode e = n.
Proof.
  unfold inode_of. destruct (cells d !! a) as [e|]; [|done]. intros [= <-]. by exists e.
Qed.

Lemma rep_kid_cell d K p a : dcache_rep d K -> a ∈ K p -> is_Some (cells d !! a).
Proof.
  intros Hr Ha. destruct (cells d !! p) as [e|] eqn:Hp.
  - pose proof (rep_kids d K Hr p e Hp) as Hk. unfold kids_ok in Hk.
    destruct (childs e) as [c|].
    + destruct Hk as [_ Hc]. by eapply chain_elem.
    + rewrite Hk in Ha. by apply not_elem_of_nil in Ha.
  - rewrite (rep_none d K Hr p Hp) in Ha. by apply not_elem_of_nil in Ha.
Qed.

Lemma lookup_loop_spec d p pe first nm n l fuel iter :
  (forall a e, cells d !! a = Some e -> is_Some (cstr (name e))) ->
  cells d !! p = Some pe -> token nm n ->
  chain (cells d) (iter :: l) first -> first ∉ l -> (length l < fuel)%nat ->
  lookup_loop fuel p first iter nm n d =
  match find_child d (iter :: l) (take (Z.to_nat n) nm) with
  | Some a =>
      Ok (Some a, mkDcache (<[p := set_childs (Some a) pe]> (cells d)) (next_addr d))
  | None => Ok (None, d)
  end.
Proof.
  intros Hnames Hp Htok. revert fuel iter.
  induction l as [|b l IH]; intros [|fuel] iter Hc Hf Hlt; [cbn in Hlt; lia..| |cbn in Hlt; lia|];
    cbn [lookup_loop find_child]; destruct Hc as [(e & He & Hs) Hc];
    rewrite (bind_Ok _ _ _ _ _ (deref_ok _ _ _ He));
    unfold lift; rewrite name_matches_spec by eauto;
    unfold bind at 1; unfold name_of; rewrite He; cbn [fmap option_fmap option_map];
    (destruct (decide (entry_name e = take (Z.to_nat n) nm)) as [Hm|Hm];
      [rewrite bool_decide_eq_true_2 by done; rewrite decide_True by congruence;
       rewrite (bind_Ok _ _ _ _ _ (assign_ok _ _ _ _ Hp)); done|
       rewrite bool_decide_eq_false_2 by done; rewrite decide_False by congruence;
       rewrite Hs; cbn [non_null hd]; unfold bind, ret]).
  - by rewrite decide_True.
  - rewrite elem_of_cons in Hf. rewrite decide_False by (intros ->; tauto).
    rewrite IH; [done|done|tauto|cbn in Hlt; lia].
Qed.

(** Making another child of [p] the first one rotates its list. *)
Lemma rep_set_first d K p pe l1 a l2 :
  dcache_rep d K -> cells d !! p = Some pe -> K p = l1 ++ a :: l2 ->
  let d' := mkDcache (<[p := set_childs (Some a) pe]> (cells d)) (next_addr d) in
  dcache_rep d' (<[p := a :: l2 ++ l1]> K) /\ same_nodes d d'.
Proof.
  intros Hr Hp HK d'.
  assert (Hmem : forall q b, b ∈ (<[p := a :: l2 ++ l1]> K : nat -> list nat) q <-> b ∈ K q).
  { intros q b. destruct (decide (p = q)) as [<-|Hne].
    - rewrite fn_lookup_insert, HK. rewrite elem_of_cons, !elem_of_app, elem_of_cons. tauto.
    - by rewrite fn_lookup_insert_ne. }
  assert (Hsib : forall b, siblings <$> cells d' !! b = siblings <$> cells d !! b).
  { intros b. cbn. rewrite lookup_insert. case_decide as Hb; [|done].
    subst b. rewrite Hp. done. }
  assert (Hsame : same_nodes d d').
  { split; [done|]. intros b. unfold name_of, inode_of. cbn. rewrite lookup_insert.
    case_decide as Hb; [|done]. subst b. rewrite Hp. done. }
  split; [|done]. split.
  - cbn. rewrite lookup_insert. case_decide; [done|]. apply Hr.
  - intros b e. cbn. rewrite lookup_insert. case_decide as Hb.
    + intros _. subst b. by eapply Hr.
    + apply Hr.
  - intros q e. cbn. rewrite lookup_insert. case_decide as Hb.
    + intros [= <-]. subst q. rewrite fn_lookup_insert.
      unfold kids_ok. cbn [childs set_childs]. split; [done|].
      apply (chain_ext (cells d)); [intros; apply Hsib|]. apply chain_rotate.
      pose proof (rep_kids d K Hr p pe Hp) as Hk. unfold kids_ok in Hk.
      destruct (childs pe) as [c|]; [|rewrite HK in Hk; by destruct l1].
      destruct Hk as [Hh Hc]. rewrite HK in Hc, Hh.
      replace (hd a l1) with c; [done|]. destruct l1; cbn in Hh |- *; congruence.
    + intros He. rewrite fn_lookup_insert_ne by done.
      pose proof (rep_kids d K Hr q e He) as Hk. unfold kids_ok in *.
      destruct (childs e); [|done]. destruct Hk as [Hh Hc]. split; [done|].
      apply (chain_ext (cells d)); [intros; apply Hsib|done].
  - intros q. cbn. rewrite lookup_insert. case_decide as Hb; [done|].
    intros Hq. rewrite fn_lookup_insert_ne by done. by apply (rep_none d K Hr).
  - intros q. destruct (decide (p = q)) as [<-|Hne].
    + rewrite fn_lookup_insert. pose proof (rep_nodup d K Hr p) as Hn. rewrite HK in Hn.
      change (NoDup ((a :: l2) ++ l1)). by rewrite Permutation_app_comm.
    + rewrite fn_lookup_insert_ne by done. apply Hr.
  - intros q r b. rewrite !Hmem. apply Hr.
  - intros q b. rewrite Hmem. apply Hr.
  - intros b e. cbn. rewrite lookup_insert. case_decide as Hb.
    + intros [= <-]. subst b. by apply (rep_name d K Hr p pe).
    + apply Hr.
Qed.

(** [rotate_to] on a decomposed list. *)
Lemma rotate_to_front a l1 l2 :
  NoDup (l1 ++ a :: l2) -> rotate_to a [] (l1 ++ a :: l2) = a :: l2 ++ l1.
Proof.
  intros Hn. rewrite rotate_to_split; [done|].
  apply list.NoDup_app in Hn. destruct Hn as (_ & Hd & _). intros Ha.
  apply (Hd a Ha). apply elem_of_cons. by left.
Qed.

(** The run of [dcache_lookup]. *)
Lemma dcache_lookup_run d K parent nm n :
  dcache_rep d K -> is_Some (cells d !! default root parent) -> token nm n ->
  let p := default root parent in
  let r := find_child d (K p) (take (Z.to_nat n) nm) in
  exists d', dcache_lookup parent nm n d = Ok (r, d') /\ same_nodes d d' /\
    dcache_rep d' (match r with
                   | Some a => <[p := rotate_to a [] (K p)]> K
                   | None => K
                   end).
Proof.
  intros Hr [pe Hp] Htok p r. unfold dcache_lookup, dcache_lookup_fuel.
  rewrite (bind_Ok get _ d d d) by done. fold p.
  rewrite (bind_Ok _ _ _ _ _ (deref_ok _ _ _ Hp)).
  assert (Hnames : forall a e, cells d !! a = Some e -> is_Some (cstr (name e)))
    by (intros a e He; by apply (rep_name d K Hr a e)).
  pose proof (rep_kids d K Hr p pe Hp) as Hk. unfold kids_ok in Hk.
  destruct (childs pe) as [c|] eqn:Hch.
  2:{ exists d. unfold r. rewrite Hk. done. }
  destruct Hk as [Hh Hc]. destruct (K p) as [|c' l] eqn:HK; [done|].
  injection Hh as ->.
  pose proof (rep_nodup d K Hr p) as Hnd. rewrite HK in Hnd.
  apply list.NoDup_cons in Hnd as Hnd'.
  rewrite (lookup_loop_spec d p pe c nm n l); [|done..|apply Hnd'|].
  - fold p in r. unfold r. rewrite <- HK.
    destruct (find_child d (K p) (take (Z.to_nat n) nm)) as [a|] eqn:Hf.
    + destruct (find_child_split _ _ _ _ Hf) as (l1 & l2 & Hsp & _ & _).
      destruct (rep_set_first d K p pe l1 a l2 Hr Hp Hsp) as [Hr' Hs'].
      eexists. split; [done|]. split; [done|]. rewrite Hsp, rotate_to_front; [done|].
      rewrite <- Hsp, HK. done.
    + exists d. done.
  - assert (Hsub : (length (c :: l) <= length (seq 0 (next_addr d)))%nat).
    { apply submseteq_length, NoDup_submseteq; [done|]. intros b Hb.
      destruct (rep_kid_cell d K p b Hr ltac:(by rewrite HK)) as [e He].
      apply elem_of_seq. pose proof (rep_bound d K Hr b e He). lia. }
    rewrite length_seq in Hsub. cbn in Hsub. lia.
Qed.

(** C17: [dcache_lookup] refines the abstract search: the result is the first
    child (in circular order) whose name is the token, the ring of the parent
    is rotated to start there, nothing else changes, and the traversal always
    ends. *)
Theorem dcache_lookup_refines d K parent nm n :
  dcache_rep d K -> is_Some (cells d !! default root parent) -> token nm n ->
  let p := default root parent in
  let r := find_child d (K p) (take (Z.to_nat n) nm) in
  exists d', dcache_lookup parent nm n d = Ok (r, d') /\ same_nodes d d' /\
    dcache_rep d' (match r with
                   | Some a => <[p := rotate_to a [] (K p)]> K
                   | None => K
                   end).
Proof. by apply dcache_lookup_run. Qed.

(** ** Insertion *)

(** The entry [dcache_insert] builds for a token. *)
Definition new_entry_cell (nm : bytes) (namelen n : Z) (sib : option nat) : dcache_entry :=
  mkEntry None sib n 0 0
    (take (Z.to_nat namelen) nm ++ Byte.x00 :: zeros (DCACHE_ENTRY_NAME_LEN - namelen - 1)).

(** Where the node goes in the list of the parent: in front, the former first
    child last. *)
Definition insert_front (a : nat) (l : list nat) : list nat := a :: tail l ++ take 1 l.

Lemma strncpy_token nm n :
  token nm n ->
  strncpy_bytes (nm ++ [Byte.x00]) (Z.to_nat n) = Ok (take (Z.to_nat n) nm).
Proof.
  intros [[Hn Hl] Hnul]. unfold zlen in Hl. revert nm Hl Hnul.
  assert (Hk : exists k, Z.to_nat n = k) by eauto. destruct Hk as [k Hk].
  rewrite Hk. assert (Hle : Z.of_nat k = n) by lia. clear Hk. revert n Hn Hle.
  induction k as [|k IH]; intros n Hn Hle nm Hl Hnul; [done|].
  destruct nm as [|b nm]; [cbn in Hl; lia|].
  cbn [take] in Hnul. rewrite elem_of_cons in Hnul.
  cbn [app strncpy_bytes take]. rewrite decide_False by (intros ->; tauto).
  cbn [length] in Hl. rewrite (IH (Z.of_nat k)); [done|lia..|tauto].
Qed.

Lemma new_name_ok nm n :
  token nm n -> n + 1 <= DCACHE_ENTRY_NAME_LEN ->
  exists nm1, store 0 (take (Z.to_nat n) nm) (zeros DCACHE_ENTRY_NAME_LEN) = Ok nm1 /\
    store n [Byte.x00] nm1 = Ok (name (new_entry_cell nm n 0 None)).
Proof.
  intros [[Hn Hl] _] Hle. unfold DCACHE_ENTRY_NAME_LEN in *.
  set (tok := take (Z.to_nat n) nm).
  assert (Htok : zlen tok = n) by (unfold tok; rewrite zlen_take by lia; lia).
  assert (Hs : splice 0 tok (zeros 40) = tok ++ zeros (40 - n)).
  { unfold splice, zeros. change (Z.to_nat 0) with 0%nat.
    rewrite take_0. cbn [app Nat.add]. f_equal.
    rewrite drop_replicate. f_equal. unfold zlen in Htok. lia. }
  exists (tok ++ zeros (40 - n)). unfold store.
  rewrite !in_range_true; rewrite ?zlen_app, ?zlen_zeros, ?Htok, ?zlen_cons by lia;
    [|change (zlen (@nil Byte.byte)) with 0 in *; lia..].
  split; [by rewrite Hs|]. f_equal. unfold splice.
  replace (Z.to_nat n) with (length tok) by (unfold zlen in Htok; lia).
  rewrite take_app_length. cbn [name new_entry_cell].
  replace (take (length tok) nm) with tok
    by (unfold tok; rewrite length_take; unfold zlen in *; f_equal; lia).
  do 2 f_equal. cbn [length]. rewrite drop_app_ge by lia. unfold zeros.
  rewrite drop_replicate. f_equal. unfold zlen, DCACHE_ENTRY_NAME_LEN in *. lia.
Qed.

Lemma new_entry_name nm n i sib :
  token nm n -> n + 1 <= DCACHE_ENTRY_NAME_LEN ->
  let e := new_entry_cell nm n i sib in
  zlen (name e) = DCACHE_ENTRY_NAME_LEN /\ cstr (name e) = Some (take (Z.to_nat n) nm).
Proof.
  intros [[Hn Hl] Hnul] Hle e. cbn. split; [|by apply cstr_app].
  rewrite zlen_app, zlen_cons, zlen_take, zlen_zeros by lia.
  unfold DCACHE_ENTRY_NAME_LEN in *. lia.
Qed.

(** The cells after the insertion. *)
Definition inserted (d : dcache) (p : nat) (pe : dcache_entry) (nm : bytes) (namelen n : Z)
    : dcache :=
  let new := next_addr d in
  mkDcache
    (match childs pe with
     | None => <[p := set_childs (Some new) pe]>
                 (<[new := new_entry_cell nm namelen n (Some new)]> (cells d))
     | Some c =>
         match cells d !! c with
         | Some ce =>
             <[p := set_childs (Some new) pe]>
               (<[c := set_siblings (Some new) ce]>
                 (<[new := new_entry_cell nm namelen n (siblings ce)]> (cells d)))
         | None => cells d
         end
     end) (S new).

(** One heap access of a run, at an address known to hold a cell. *)
Ltac find_cell :=
  cbn [cells]; repeat first [rewrite lookup_insert_eq | rewrite lookup_insert_ne by congruence];
  first [reflexivity | eassumption].
Ltac heap_step :=
  lazymatch goal with
  | |- bind (deref ?a) _ _ = _ =>
      erewrite (bind_Ok (deref a)) by (apply deref_ok; find_cell)
  | |- bind (assign ?a ?f) _ _ = _ =>
      erewrite (bind_Ok (assign a f)) by (apply assign_ok; find_cell)
  | |- bind (ret ?a) _ _ = _ => rewrite (bind_Ok (ret a)) by reflexivity
  end; cbn [cells next_addr].

Lemma dcache_insert_run d K parent pe nm n ino :
  dcache_rep d K -> cells d !! default root parent = Some pe ->
  (parent = None -> inode pe <> 0) ->
  token nm n -> n + 1 <= DCACHE_ENTRY_NAME_LEN ->
  dcache_insert parent nm n ino d =
  Ok (Some (next_addr d), inserted d (default root parent) pe nm n ino).
Proof.
  intros Hr Hp Hino Htok Hlen. unfold dcache_insert.
  destruct (Z.ltb_spec DCACHE_ENTRY_NAME_LEN (n + 1)); [lia|].
  set (p := default root parent) in *.
  assert (Hparent : (match parent with
                     | Some q => ret q
                     | None => let* r := deref root in
                               do* ASSERT (negb (inode r =? 0)) in ret root
                     end) d = Ok (p, d)).
  { destruct parent as [q|]; [done|]. cbn in p. subst p.
    rewrite (bind_Ok _ _ _ _ _ (deref_ok _ _ _ Hp)). unfold bind, ASSERT.
    destruct (Z.eqb_spec (inode pe) 0); [naive_solver|done]. }
  rewrite (bind_Ok _ _ _ _ _ Hparent).
  set (new := next_addr d).
  assert (Hnew : cells d !! new = None).
  { destruct (cells d !! new) as [e|] eqn:E; [|done].
    pose proof (rep_bound d K Hr new e E). unfold new in *. lia. }
  assert (Hpn : p <> new) by congruence.
  rewrite (bind_Ok calloc _ d new _) by reflexivity. fold new. unfold lift.
  rewrite (strncpy_token nm n Htok). unfold bind at 1.
  heap_step. destruct (new_name_ok nm n Htok Hlen) as (nm1 & Hs1 & Hs2).
  change (name calloc_entry) with (zeros DCACHE_ENTRY_NAME_LEN).
  rewrite Hs1. unfold bind at 1. rewrite Hs2. unfold bind at 1.
  do 3 heap_step. unfold inserted. fold new. cbv zeta.
  pose proof (rep_kids d K Hr p pe Hp) as Hk. unfold kids_ok in Hk.
  destruct (childs pe) as [c|] eqn:Hch.
  - destruct Hk as [Hh Hc]. destruct (K p) as [|c' l] eqn:HK; [done|].
    injection Hh as ->. destruct Hc as [(ce & Hce & _) _]. rewrite Hce.
    assert (Hcn : c <> new) by congruence.
    assert (Hcp : c <> p).
    { pose proof (rep_older d K Hr p c ltac:(rewrite HK; apply elem_of_cons; by left)). lia. }
    do 4 heap_step. unfold ret. do 3 f_equal.
    rewrite !insert_insert_eq. done.
  - do 2 heap_step. unfold ret. do 3 f_equal. rewrite !insert_insert_eq. done.
Qed.

Section inserted.
Context (d : dcache) (K : nat -> list nat) (p : nat) (pe : dcache_entry)
  (nm : bytes) (n ino : Z).
Hypothesis Hr : dcache_rep d K.
Hypothesis Hp : cells d !! p = Some pe.
Local Abbreviation new := (next_addr d).
Local Abbreviation d' := (inserted d p pe nm n ino).
Local Abbreviation rest := (tail (K p) ++ take 1 (K p)).

Lemma new_fresh : cells d !! new = None.
Proof.
  destruct (cells d !! new) as [e|] eqn:E; [|done].
  pose proof (rep_bound d K Hr new e E). lia.
Qed.

Lemma new_not_kid q : new ∉ K q.
Proof.
  intros Hi. destruct (rep_kid_cell d K q new Hr Hi) as [e He].
  by rewrite new_fresh in He.
Qed.

Lemma inserted_lookup b :
  cells d' !! b =
  if decide (b = new) then Some (new_entry_cell nm n ino (Some (hd new rest)))
  else if decide (b = p) then Some (set_childs (Some new) pe)
  else if decide (hd_error (K p) = Some b) then set_siblings (Some new) <$> cells d !! b
  else cells d !! b.
Proof.
  pose proof new_fresh as Hnew. assert (Hpn : p <> new) by congruence.
  pose proof (rep_kids d K Hr p pe Hp) as Hk. unfold kids_ok in Hk.
  unfold inserted. cbv zeta. destruct (childs pe) as [c|].
  - destruct Hk as [Hh Hc]. destruct (K p) as [|c' l] eqn:HK; [done|].
    injection Hh as ->. destruct Hc as [(ce & Hce & Hs) _]. rewrite Hce.
    assert (Hcp : c <> p).
    { pose proof (rep_older d K Hr p c ltac:(rewrite HK; apply elem_of_cons; by left)). lia. }
    assert (Hcn : c <> new) by congruence. cbn [cells tail take hd_error].
    rewrite !lookup_insert. repeat case_decide; try congruence; simplify_eq.
    + rewrite Hce. done.
    + rewrite Hs. by destruct l.
  - rewrite Hk. cbn. rewrite !lookup_insert.
    repeat case_decide; try congruence; done.
Qed.

Lemma head_kid q b : hd_error (K q) = Some b -> b ∈ K q.
Proof.
  destruct (K q) as [|c l]; cbn; [done|]. intros [= ->]. apply elem_of_cons. by left.
Qed.

Lemma inserted_siblings b :
  siblings <$> cells d' !! b =
  if decide (b = new) then Some (Some (hd new rest))
  else if decide (hd_error (K p) = Some b) then (fun _ => Some new) <$> cells d !! b
  else siblings <$> cells d !! b.
Proof.
  rewrite inserted_lookup. case_decide as H1; [done|]. case_decide as H2.
  - subst b. rewrite decide_False, Hp; [done|]. intros Hh%head_kid.
    pose proof (rep_older d K Hr p p Hh). lia.
  - case_decide; [by destruct (cells d !! b)|done].
Qed.

Lemma inserted_chain_same q :
  q <> p -> forall l z, (forall b, b ∈ l -> b ∈ K q) ->
  chain (cells d) l z -> chain (cells d') l z.
Proof.
  intros Hq l z Hsub. apply chain_ext. intros b Hb. apply Hsub in Hb.
  rewrite inserted_siblings, !decide_False; [done|..].
  - intros Hh%head_kid. apply Hq. by apply (rep_disj d K Hr q p b).
  - intros ->. by apply new_not_kid in Hb.
Qed.

Lemma inserted_chain_parent : chain (cells d') (insert_front new (K p)) new.
Proof.
  unfold insert_front. cbn [chain]. split.
  { eexists. rewrite inserted_lookup, decide_True by done. split; [done|]. done. }
  pose proof (rep_kids d K Hr p pe Hp) as Hk. unfold kids_ok in Hk.
  pose proof (rep_nodup d K Hr p) as Hnd.
  pose proof (new_not_kid p) as Hnk.
  destruct (childs pe) as [c|]; [|by rewrite Hk].
  destruct Hk as [Hh Hc]. destruct (K p) as [|c' l] eqn:HK; [done|].
  injection Hh as ->. destruct Hc as [(ce & Hce & Hs) Hl].
  apply list.NoDup_cons in Hnd. cbn [tail take]. apply chain_app. cbn [hd chain].
  split; [|split; [|done]].
  - revert Hl. apply chain_ext. intros b Hb. rewrite inserted_siblings, HK. cbn.
    rewrite elem_of_cons in Hnk.
    rewrite !decide_False; [done|intros [= ->]; tauto|intros ->; tauto].
  - rewrite inserted_lookup, HK. rewrite elem_of_cons in Hnk.
    rewrite decide_False by (intros ->; tauto).
    rewrite decide_False.
    2:{ pose proof (rep_older d K Hr p c ltac:(rewrite HK; apply elem_of_cons; by left)). lia. }
    cbn. rewrite decide_True by done. rewrite Hce. by eexists.
Qed.

Lemma insert_front_mem q b :
  b ∈ (<[p := insert_front new (K p)]> K : nat -> list nat) q <->
  b ∈ K q \/ (q = p /\ b = new).
Proof.
  destruct (decide (p = q)) as [<-|Hne].
  - rewrite fn_lookup_insert. unfold insert_front. rewrite elem_of_cons, elem_of_app.
    destruct (K p) as [|c l]; cbn [tail take].
    + rewrite elem_of_nil. tauto.
    + rewrite take_0, list_elem_of_singleton, elem_of_cons. tauto.
  - rewrite fn_lookup_insert_ne by done. split; [by left|].
    intros [?|[Heq _]]; congruence.
Qed.

Lemma insert_front_nodup : NoDup (insert_front new (K p)).
Proof.
  pose proof (new_not_kid p) as Hnk. pose proof (rep_nodup d K Hr p) as Hnd.
  unfold insert_front. destruct (K p) as [|c l]; cbn [tail take].
  - apply list.NoDup_singleton.
  - rewrite take_0. rewrite (Permutation_app_comm l [c]). apply list.NoDup_cons. done.
Qed.

Context (Htok : token nm n) (Hlen : n + 1 <= DCACHE_ENTRY_NAME_LEN).

Lemma inserted_name b :
  name_of d' b = if decide (b = new) then Some (take (Z.to_nat n) nm) else name_of d b.
Proof.
  unfold name_of. rewrite inserted_lookup. repeat case_decide; [..|done].
  - cbn. unfold entry_name. f_equal.
    destruct (new_entry_name nm n ino (Some (hd new rest)) Htok Hlen) as [_ Hs].
    cbn [name new_entry_cell] in Hs. by rewrite Hs.
  - subst b. by rewrite Hp.
  - by destruct (cells d !! b).
Qed.

Lemma inserted_inode b :
  inode_of d' b = if decide (b = new) then Some ino else inode_of d b.
Proof.
  unfold inode_of. rewrite inserted_lookup. repeat case_decide; [done|..|done].
  - subst b. by rewrite Hp.
  - by destruct (cells d !! b).
Qed.

Lemma inserted_next : next_addr d' = S new.
Proof. done. Qed.

Lemma inserted_rep : dcache_rep d' (<[p := insert_front new (K p)]> K).
Proof.
  pose proof new_fresh as Hnew. assert (Hpn : p <> new) by congruence.
  split.
  - rewrite inserted_lookup. destruct (rep_root d K Hr) as [r Hroot].
    repeat case_decide; eauto. rewrite Hroot. eauto.
  - intros b e. rewrite inserted_lookup, inserted_next. repeat case_decide; intros He.
    + subst b. lia.
    + subst b. pose proof (rep_bound d K Hr p pe Hp). lia.
    + destruct (cells d !! b) as [e0|] eqn:E; [|done].
      pose proof (rep_bound d K Hr b e0 E). lia.
    + pose proof (rep_bound d K Hr b e He). lia.
  - intros q e He. destruct (decide (q = p)) as [->|Hne].
    + rewrite fn_lookup_insert. rewrite inserted_lookup, decide_False, decide_True in He by done.
      injection He as <-. split; [done|]. apply inserted_chain_parent.
    + rewrite fn_lookup_insert_ne by done.
      rewrite inserted_lookup, (decide_False (P := q = p)) in He by done.
      case_decide as Hq.
      { injection He as <-. subst q. by apply (rep_none d K Hr). }
      assert (Hold : exists e0, cells d !! q = Some e0 /\ childs e = childs e0).
      { case_decide; [|by exists e]. destruct (cells d !! q) as [e0|]; [|done].
        injection He as <-. by exists e0. }
      destruct Hold as (e0 & He0 & ->).
      pose proof (rep_kids d K Hr q e0 He0) as Hk. unfold kids_ok in *.
      destruct (childs e0); [|done]. destruct Hk as [Hh Hc]. split; [done|].
      by apply (inserted_chain_same q).
  - intros q. rewrite inserted_lookup. repeat case_decide; [done..| |].
    + destruct (cells d !! q) eqn:E; [done|]. intros _.
      rewrite fn_lookup_insert_ne by done. by apply (rep_none d K Hr).
    + intros Hq. rewrite fn_lookup_insert_ne by done. by apply (rep_none d K Hr).
  - intros q. destruct (decide (p = q)) as [<-|Hne].
    + rewrite fn_lookup_insert. apply insert_front_nodup.
    + rewrite fn_lookup_insert_ne by done. apply Hr.
  - intros q r b. rewrite !insert_front_mem. intros [Hq|[-> ->]] [Hr'|[-> Hb]];
      try done; try (subst b); try (by apply new_not_kid in Hq);
      try (by apply new_not_kid in Hr'). by apply (rep_disj d K Hr q r b).
  - intros q b. rewrite insert_front_mem. intros [Hq|[-> ->]].
    + by apply (rep_older d K Hr).
    + by apply (rep_bound d K Hr p pe).
  - intros b e. rewrite inserted_lookup. repeat case_decide; intros He.
    + injection He as <-. destruct (new_entry_name nm n ino (Some (hd new rest)) Htok Hlen)
        as [Hz Hs]. rewrite Hs. eauto.
    + injection He as <-. by apply (rep_name d K Hr p pe).
    + destruct (cells d !! b) as [e0|] eqn:E; [|done]. injection He as <-.
      by apply (rep_name d K Hr b e0).
    + by apply (rep_name d K Hr b e).
Qed.
End inserted.

(** The two cases of [dcache_insert]. *)
Lemma dcache_insert_spec d K parent pe nm n ino :
  dcache_rep d K -> cells d !! default root parent = Some pe ->
  (parent = None -> inode pe <> 0) -> token nm n ->
  let p := default root parent in
  let a := next_addr d in
  (n + 1 <= DCACHE_ENTRY_NAME_LEN ->
   exists d', dcache_insert parent nm n ino d = Ok (Some a, d') /\
     dcache_rep d' (<[p := insert_front a (K p)]> K) /\
     name_of d' a = Some (take (Z.to_nat n) nm) /\ inode_of d' a = Some ino /\
     next_addr d' = S a /\
     forall b, b <> a -> name_of d' b = name_of d b /\ inode_of d' b = inode_of d b) /\
  (DCACHE_ENTRY_NAME_LEN < n + 1 -> dcache_insert parent nm n ino d = Ok (None, d)).
Proof.
  intros Hr Hp Hino Htok p a. split; intros Hlen.
  - eexists. split; [by eapply dcache_insert_run|]. fold p.
    split; [by apply inserted_rep|].
    rewrite (inserted_name d K p pe nm n ino Hr Hp Htok Hlen), decide_True by done.
    rewrite (inserted_inode d K p pe nm n ino Hr Hp), decide_True by done.
    do 3 (split; [done|]). intros b Hb.
    rewrite (inserted_name d K p pe nm n ino Hr Hp Htok Hlen), decide_False by done.
    by rewrite (inserted_inode d K p pe nm n ino Hr Hp), decide_False by done.
  - unfold dcache_insert. by rewrite (proj2 (Z.ltb_lt _ _) Hlen).
Qed.

(** C18: [dcache_insert] refines the insertion in the abstract tree: a name of
    at most 39 characters becomes a new first child with that name and inode
    number, the former first child goes to the end of the circle, every other
    node keeps its name, inode number and children; a longer name inserts
    nothing and gives a null pointer. *)
Theorem dcache_insert_refines d K parent pe nm n ino :
  dcache_rep d K -> cells d !! default root parent = Some pe ->
  (parent = None -> inode pe <> 0) -> token nm n ->
  let p := default root parent in
  let a := next_addr d in
  (n + 1 <= DCACHE_ENTRY_NAME_LEN ->
   exists d', dcache_insert parent nm n ino d = Ok (Some a, d') /\
     dcache_rep d' (<[p := insert_front a (K p)]> K) /\
     name_of d' a = Some (take (Z.to_nat n) nm) /\ inode_of d' a = Some ino /\
     next_addr d' = S a /\
     forall b, b <> a -> name_of d' b = name_of d b /\ inode_of d' b = inode_of d b) /\
  (DCACHE_ENTRY_NAME_LEN < n + 1 -> dcache_insert parent nm n ino d = Ok (None, d)).
Proof. by apply dcache_insert_spec. Qed.

(** C32: a name that is inserted is found: looking it up again under the same
    parent gives the new entry, and [dcache_get_inode] its inode number. *)
Theorem dcache_insert_lookup d K parent pe nm n ino :
  dcache_rep d K -> cells d !! default root parent = Some pe ->
  (parent = None -> inode pe <> 0) -> token nm n -> n + 1 <= DCACHE_ENTRY_NAME_LEN ->
  wp (let* a := dcache_insert parent nm n ino in
      let* b := dcache_lookup parent nm n in
      let* i := dcache_get_inode b in ret (a, b, i))
     (fun r d' => same_nodes (inserted d (default root parent) pe nm n ino) d' /\
        r = (Some (next_addr d), Some (next_addr d), ino)) d.
Proof.
  intros Hr Hp Hino Htok Hlen. set (p := default root parent) in *. set (a := next_addr d).
  eapply wpx_run; [by eapply (dcache_insert_run d K)|]. fold p a.
  set (d1 := inserted d p pe nm n ino).
  pose proof (inserted_rep d K p pe nm n ino Hr Hp Htok Hlen) as Hr1. fold d1 in Hr1.
  assert (Hname : name_of d1 a = Some (take (Z.to_nat n) nm)).
  { unfold d1. by rewrite (inserted_name d K p pe nm n ino Hr Hp Htok Hlen), decide_True. }
  destruct (dcache_lookup_run d1 _ parent nm n Hr1) as (d2 & Hrun & Hsame & _).
  { fold p. unfold d1. rewrite (inserted_lookup d K p pe nm n ino Hr Hp).
    case_decide; [by eexists|]. rewrite decide_True by done. by eexists. }
  { done. }
  rewrite fn_lookup_insert in Hrun. unfold insert_front in Hrun. cbn [find_child] in Hrun.
  fold a in Hrun. rewrite decide_True in Hrun by done.
  eapply wpx_run; [exact Hrun|].
  assert (Hi : inode_of d2 a = Some ino).
  { destruct Hsame as [_ Hs]. rewrite (proj2 (Hs a)). unfold d1.
    by rewrite (inserted_inode d K p pe nm n ino Hr Hp), decide_True. }
  unfold inode_of in Hi. destruct (cells d2 !! a) as [e|] eqn:He; [|done]. injection Hi as Hi.
  eapply wpx_run with (a := ino) (s' := d2).
  { unfold dcache_get_inode. cbn [default]. rewrite (bind_Ok _ _ _ _ _ (deref_ok _ _ _ He)).
    by rewrite <- Hi. }
  apply wpx_ret. done.
Qed.
