(* ===== verification/DcacheConc.v ===== *)
(** * fs/ext4/dcache.c: the dcache under concurrent calls

    FUSE serves requests with several threads and the dcache has no lock: "what
    we try to do is to keep insertions and lookups threadsafe by atomic
    updates".  Here every access to memory that another thread can see is a
    step of its own ([tstep], an executable function), calls interleave in any
    order ([step]), and any number of them is in flight.

    Memory accesses are atomic and in program order.  The entry that a call of
    dcache_insert fills in before it is published is private, so allocating and
    filling it is one step. *)
From Stdlib Require Import ZArith Lia Strings.Byte.
From stdpp Require Import base numbers list option gmap relations.
From S2P Require Import Prelude Clib Dcache.

(** A call, with its arguments. *)
Inductive op : Type :=
| Insert (parent : option nat) (nm : bytes) (namelen n : Z)
| Lookup (parent : option nat) (nm : bytes) (namelen : Z).

Definition op_parent (o : op) : nat :=
  match o with Insert p _ _ _ | Lookup p _ _ => default root p end.
Definition op_name (o : op) : bytes :=
  match o with Insert _ nm len _ | Lookup _ nm len => take (Z.to_nat len) nm end.

(** Where a call is, with its local variables: in dcache_insert [new] is
    [new_entry], [c] a value of [parent->childs], [s] one of [siblings]. *)
Inductive pc : Type :=
| Start
| I_test (new : nat)                   (* if (!parent->childs) *)
| I_own (new : nat)                    (* new_entry->siblings = new_entry *)
| I_succ (new : nat)                   (* parent->childs ... *)
| I_load (new c : nat)                 (* ... ->siblings *)
| I_link (new : nat) (s : option nat)  (* new_entry->siblings = s *)
| I_pred (new : nat)                   (* parent->childs ... *)
| I_store (new c : nat)                (* ... ->siblings = new_entry *)
| I_publish (new : nat)                (* parent->childs = new_entry *)
| L_first                              (* iter = parent->childs *)
| L_match (iter : nat)                 (* the comparison of the names *)
| L_found (iter : nat)                 (* parent->childs = iter *)
| L_next (iter : nat)                  (* iter = iter->siblings *)
| L_while (s : option nat)             (* iter != parent->childs *)
| Return (r : option nat)
| Fault.

Definition running (t : pc) : bool :=
  match t with Return _ | Fault => false | _ => true end.

(** [DCACHE_ENTRY_CALLOC] and the members set before the entry is linked. *)
Definition new_entry (nm : bytes) (namelen n : Z) : M dcache nat :=
  let* new := calloc in
  let* s := lift (strncpy_bytes (nm ++ [Byte.x00]) (Z.to_nat namelen)) in
  let* e := deref new in
  let* nm1 := lift (store 0 s (name e)) in
  let* nm2 := lift (store namelen [Byte.x00] nm1) in
  do* assign new (set_name nm2) in
  do* assign new (set_inode n) in
  ret new.

(** Read a cell, or write one, and go on; [Fault] for a bad address. *)
Definition reads (a : nat) (k : dcache_entry -> pc) (d : dcache) : pc * dcache :=
  match cells d !! a with Some e => (k e, d) | None => (Fault, d) end.
Definition writes (a : nat) (f : dcache_entry -> dcache_entry) (t : pc) (d : dcache) : pc * dcache :=
  match assign a f d with Ok (_, d') => (t, d') | Err _ => (Fault, d) end.
(** A pointer that is dereferenced next. *)
Definition through (p : option nat) (k : nat -> pc) : pc :=
  match p with Some a => k a | None => Fault end.

Definition start_insert (parent : option nat) (nm : bytes) (namelen n : Z) (d : dcache) : pc * dcache :=
  if DCACHE_ENTRY_NAME_LEN <? namelen + 1 then (Return None, d) else
  match (match parent with
         | Some _ => Ok (tt, d)
         | None => (let* r := deref root in ASSERT (negb (inode r =? 0))) d
         end) with
  | Err _ => (Fault, d)
  | Ok _ => match new_entry nm namelen n d with
            | Ok (new, d') => (I_test new, d')
            | Err _ => (Fault, d)
            end
  end.

Definition tstep (o : op) (t : pc) (d : dcache) : pc * dcache :=
  let p := op_parent o in
  match t with
  | Start =>
      match o with
      | Insert parent nm namelen n => start_insert parent nm namelen n d
      | Lookup _ _ _ => reads p (fun e => match childs e with Some _ => L_first | None => Return None end) d
      end
  | I_test new => reads p (fun e => match childs e with Some _ => I_succ new | None => I_own new end) d
  | I_own new => writes new (set_siblings (Some new)) (I_publish new) d
  | I_succ new => reads p (fun e => through (childs e) (I_load new)) d
  | I_load new c => reads c (fun e => I_link new (siblings e)) d
  | I_link new s => writes new (set_siblings s) (I_pred new) d
  | I_pred new => reads p (fun e => through (childs e) (I_store new)) d
  | I_store new c => writes c (set_siblings (Some new)) (I_publish new) d
  | I_publish new => writes p (set_childs (Some new)) (Return (Some new)) d
  | L_first => reads p (fun e => through (childs e) L_match) d
  | L_match iter =>
      match o with
      | Lookup _ nm namelen =>
          reads iter (fun e => match name_matches e nm namelen with
                               | Ok true => L_found iter
                               | Ok false => L_next iter
                               | Err _ => Fault
                               end) d
      | Insert _ _ _ _ => (Fault, d)
      end
  | L_found iter => writes p (set_childs (Some iter)) (Return (Some iter)) d
  | L_next iter => reads iter (fun e => L_while (siblings e)) d
  | L_while s => reads p (fun e => if decide (s = childs e) then Return None else through s L_match) d
  | Return _ | Fault => (t, d)
  end.

(** The calls made so far and the memory they share. *)
Definition config : Type := dcache * list (op * pc).

Section calls.
(** What the callers know: the directory with inode [i] has an entry of that
    name for inode [n]. *)
Context (E : Z -> bytes -> Z -> Prop).

(** A call may be made with the root or with an entry that a call returned;
    an insertion caches an entry of the directory that the parent stands for. *)
Definition handle (d : dcache) (ts : list (op * pc)) (parent : option nat) : Prop :=
  match parent with
  | None => True
  | Some a => exists o, (o, Return (Some a)) ∈ ts
  end.
Definition call_ok (d : dcache) (ts : list (op * pc)) (o : op) : Prop :=
  match o with
  | Lookup parent nm len => handle d ts parent /\ token nm len
  | Insert parent nm len n => handle d ts parent /\ token nm len /\
      exists i, inode_of d (default root parent) = Some i /\ E i (take (Z.to_nat len) nm) n
  end.

Inductive step : config -> config -> Prop :=
| step_run d ts i o t :
    ts !! i = Some (o, t) -> running t = true ->
    step (d, ts) (snd (tstep o t d), <[i := (o, fst (tstep o t d))]> ts)
| step_call d ts o : call_ok d ts o -> step (d, ts) (d, ts ++ [(o, Start)]).
End calls.

(** The cache after [dcache_init_root(n)]. *)
Definition init_cells (n : Z) : dcache := mkDcache {[root := set_inode n calloc_entry]} 1.

(** ** The invariant *)

Definition complete (d : dcache) (a : nat) : Prop :=
  exists e b, cells d !! a = Some e /\ siblings e = Some b.
Definition has_child (d : dcache) (p : nat) : Prop :=
  exists e c, cells d !! p = Some e /\ childs e = Some c.

(** [par] says which node an entry was made for.  Every pointer that a call can
    read leads to an entry of the same node whose own [siblings] is set. *)
Record conc_inv (E : Z -> bytes -> Z -> Prop) (d : dcache) (par : gmap nat nat) : Prop := {
  ci_root : exists i, inode_of d root = Some i /\ i <> 0;
  ci_bound : forall a, is_Some (cells d !! a) -> (a < next_addr d)%nat;
  ci_par : forall a p, par !! a = Some p -> exists i n nm,
    inode_of d p = Some i /\ name_of d a = Some nm /\ inode_of d a = Some n /\ E i nm n;
  ci_name : forall a e, cells d !! a = Some e -> is_Some (cstr (name e));
  ci_childs : forall p e c, cells d !! p = Some e -> childs e = Some c ->
    par !! c = Some p /\ complete d c;
  ci_siblings : forall a e b, cells d !! a = Some e -> siblings e = Some b ->
    complete d b /\ exists p, par !! a = Some p /\ par !! b = Some p }.

(** What a call knows at each of its points. *)
Definition entry_ok (d : dcache) (par : gmap nat nat) (p a : nat) : Prop :=
  par !! a = Some p /\ complete d a.
(** The entry an insertion has made carries the inode number it was given. *)
Definition own_inode (d : dcache) (o : op) (a : nat) : Prop :=
  match o with Insert _ _ _ n => inode_of d a = Some n | Lookup _ _ _ => True end.
Definition own_entry (d : dcache) (par : gmap nat nat) (o : op) (a : nat) : Prop :=
  par !! a = Some (op_parent o) /\ name_of d a = Some (op_name o) /\ own_inode d o a.
Definition is_lookup (o : op) : Prop :=
  match o with Insert _ _ _ _ => False | Lookup _ _ _ => True end.
(** When NULL is an answer: an insertion gives it for long names only. *)
Definition no_entry (o : op) : Prop :=
  match o with Insert _ _ len _ => DCACHE_ENTRY_NAME_LEN < len + 1 | Lookup _ _ _ => True end.
Definition pc_ok (d : dcache) (par : gmap nat nat) (o : op) (t : pc) : Prop :=
  let p := op_parent o in
  match t with
  | Start => True
  | I_test new | I_own new => own_entry d par o new
  | I_succ new => own_entry d par o new /\ has_child d p
  | I_load new c => own_entry d par o new /\ has_child d p /\ entry_ok d par p c
  | I_link new s => own_entry d par o new /\ has_child d p /\
      exists b, s = Some b /\ entry_ok d par p b
  | I_pred new => own_entry d par o new /\ complete d new /\ has_child d p
  | I_store new c => own_entry d par o new /\ complete d new /\ entry_ok d par p c
  | I_publish new => own_entry d par o new /\ complete d new
  | L_first => is_lookup o /\ has_child d p
  | L_match iter | L_next iter => is_lookup o /\ entry_ok d par p iter
  | L_found iter => is_lookup o /\ entry_ok d par p iter /\ name_of d iter = Some (op_name o)
  | L_while s => is_lookup o /\ exists b, s = Some b /\ entry_ok d par p b
  | Return (Some a) => own_entry d par o a
  | Return None => no_entry o
  | Fault => False
  end.
Definition op_ok (E : Z -> bytes -> Z -> Prop) (d : dcache) (o : op) : Prop :=
  is_Some (cells d !! op_parent o) /\
  match o with
  | Lookup _ nm len => token nm len
  | Insert _ nm len n => token nm len /\
      exists i, inode_of d (op_parent o) = Some i /\ E i (take (Z.to_nat len) nm) n
  end.
Definition thread_ok (E : Z -> bytes -> Z -> Prop) (d : dcache) (par : gmap nat nat) (th : op * pc)
    : Prop :=
  op_ok E d (fst th) /\ pc_ok d par (fst th) (snd th).

(** What steps never undo. *)
Record grows (d d' : dcache) (par par' : gmap nat nat) : Prop := {
  gr_name : forall a nm, name_of d a = Some nm -> name_of d' a = Some nm;
  gr_inode : forall a n, inode_of d a = Some n -> inode_of d' a = Some n;
  gr_complete : forall a, complete d a -> complete d' a;
  gr_child : forall p, has_child d p -> has_child d' p;
  gr_par : forall a p, par !! a = Some p -> par' !! a = Some p }.

Lemma grows_refl d par : grows d d par par.
Proof. by split. Qed.

Lemma op_ok_grows E d d' par par' o : grows d d' par par' -> op_ok E d o -> op_ok E d' o.
Proof.
  intros Hg [[e He] Ho]. split.
  - pose proof (gr_inode _ _ _ _ Hg (op_parent o) (inode e)) as Hi. unfold inode_of in Hi.
    rewrite He in Hi. destruct (cells d' !! op_parent o); [done|]. by specialize (Hi eq_refl).
  - destruct o; [|done]. destruct Ho as (Ht & i & Hi & HE). split; [done|].
    exists i. split; [by apply Hg|done].
Qed.

Lemma entry_ok_grows d d' par par' p a :
  grows d d' par par' -> entry_ok d par p a -> entry_ok d' par' p a.
Proof. intros Hg [Hp Hc]. split; by apply Hg. Qed.

Lemma own_entry_grows d d' par par' o a :
  grows d d' par par' -> own_entry d par o a -> own_entry d' par' o a.
Proof.
  intros Hg (Hp & Hn & Hi). split; [|split]; [by apply Hg..|].
  destruct o; [by apply Hg|done].
Qed.

#[local] Hint Resolve gr_complete gr_child gr_name entry_ok_grows own_entry_grows : core.

Lemma thread_ok_grows E d d' par par' th :
  grows d d' par par' -> thread_ok E d par th -> thread_ok E d' par' th.
Proof.
  intros Hg [Ho Hp]. split; [by eapply op_ok_grows|].
  destruct (snd th) as [| | | | | | | | | | | | | |[a|]|]; cbn in *;
    repeat match goal with H : _ /\ _ |- _ => destruct H | H : exists _, _ |- _ => destruct H end;
    eauto 10.
Qed.

(** ** One step *)

(** A cell is overwritten by one with the same name and inode number; pointers
    that were set stay set. *)
Record refines (e e' : dcache_entry) : Prop := {
  rf_name : name e' = name e;
  rf_inode : inode e' = inode e;
  rf_siblings : is_Some (siblings e) -> is_Some (siblings e');
  rf_childs : is_Some (childs e) -> is_Some (childs e') }.

Definition update (d : dcache) (a : nat) (e : dcache_entry) : dcache :=
  mkDcache (<[a := e]> (cells d)) (next_addr d).

Lemma update_lookup d a e b :
  cells (update d a e) !! b = if decide (a = b) then Some e else cells d !! b.
Proof. cbn. by rewrite lookup_insert. Qed.

Lemma update_grows d par a e e' :
  cells d !! a = Some e -> refines e e' -> grows d (update d a e') par par.
Proof.
  intros Ha [Hn Hi Hs Hc]. split; [..|done].
  - intros b nm. unfold name_of. rewrite update_lookup. case_decide; [subst b|done].
    rewrite Ha. unfold entry_name. cbn. by rewrite Hn.
  - intros b n. unfold inode_of. rewrite update_lookup. case_decide; [subst b|done].
    rewrite Ha. cbn. by rewrite Hi.
  - intros b (e0 & c & Hb & Hsb). unfold complete. rewrite update_lookup.
    case_decide; [subst b|by exists e0, c]. rewrite Ha in Hb. simplify_eq.
    destruct Hs as [x Hx]; [by eexists|]. by exists e', x.
  - intros b (e0 & c & Hb & Hcb). unfold has_child. rewrite update_lookup.
    case_decide; [subst b|by exists e0, c]. rewrite Ha in Hb. simplify_eq.
    destruct Hc as [x Hx]; [by eexists|]. by exists e', x.
Qed.

Lemma update_inv E d par a e e' :
  conc_inv E d par -> cells d !! a = Some e -> refines e e' ->
  let d' := update d a e' in
  (forall c, childs e' = Some c -> par !! c = Some a /\ complete d' c) ->
  (forall b, siblings e' = Some b ->
     complete d' b /\ exists p, par !! a = Some p /\ par !! b = Some p) ->
  conc_inv E d' par.
Proof.
  intros Hinv Ha Hrf d' Hc Hs.
  pose proof (update_grows d par a e e' Ha Hrf) as Hg. fold d' in Hg. split.
  - destruct (ci_root _ _ _ Hinv) as (i & Hi & Hne). exists i. split; [by apply Hg|done].
  - intros b. unfold d'. rewrite update_lookup. case_decide; [subst b|apply Hinv].
    intros _. apply (ci_bound _ _ _ Hinv). by eexists.
  - intros b p Hp. destruct (ci_par _ _ _ Hinv b p Hp) as (i & n & nm & H1 & H2 & H3 & H4).
    exists i, n, nm. repeat split; [by apply Hg..|done].
  - intros b e0. unfold d'. rewrite update_lookup. case_decide; [subst b|apply Hinv].
    intros [= <-]. rewrite (rf_name _ _ Hrf). by apply (ci_name _ _ _ Hinv a).
  - intros p e0 c. unfold d' at 1. rewrite update_lookup.
    case_decide; [subst p; intros [= <-]; apply Hc|]. intros Hp Hch.
    destruct (ci_childs _ _ _ Hinv p e0 c Hp Hch). split; [done|by apply Hg].
  - intros b e0 x. unfold d' at 1. rewrite update_lookup.
    case_decide; [subst b; intros [= <-]; apply Hs|]. intros Hb Hsib.
    destruct (ci_siblings _ _ _ Hinv b e0 x Hb Hsib). split; [by apply Hg|done].
Qed.

Lemma writes_run a f t d e :
  cells d !! a = Some e -> writes a f t d = (t, update d a (f e)).
Proof. intros Ha. unfold writes, assign. by rewrite Ha. Qed.

Lemma reads_run a k d e : cells d !! a = Some e -> reads a k d = (k e, d).
Proof. intros Ha. unfold reads. by rewrite Ha. Qed.

Lemma refines_siblings e a : refines e (set_siblings (Some a) e).
Proof. by split. Qed.
Lemma refines_childs e a : refines e (set_childs (Some a) e).
Proof. by split. Qed.

Lemma own_cell d par o a : own_entry d par o a -> exists e, cells d !! a = Some e.
Proof.
  intros (_ & Hn & _). unfold name_of in Hn. destruct (cells d !! a); [by eexists|done].
Qed.

(** [a->siblings = b] between entries of one node. *)
Lemma write_siblings_ok E d par p a b e :
  conc_inv E d par -> cells d !! a = Some e -> par !! a = Some p -> par !! b = Some p ->
  complete d b \/ b = a ->
  let d' := update d a (set_siblings (Some b) e) in
  conc_inv E d' par /\ grows d d' par par /\ complete d' a.
Proof.
  intros Hinv Ha Hpa Hpb Hb d'.
  assert (Hg : grows d d' par par) by (by eapply update_grows, refines_siblings).
  assert (Hca : complete d' a).
  { unfold complete, d'. rewrite update_lookup, decide_True by done. by do 2 eexists. }
  split; [|done]. apply (update_inv E d par a e); [done..|by apply refines_siblings| |].
  - intros c Hc. destruct (ci_childs _ _ _ Hinv a e c Ha Hc). split; [done|by apply Hg].
  - cbn. intros ? [= <-]. split; [|by exists p]. destruct Hb as [Hb| ->]; [by apply Hg|done].
Qed.

(** [p->childs = a] for a complete entry of [p]. *)
Lemma write_childs_ok E d par p a e :
  conc_inv E d par -> cells d !! p = Some e -> entry_ok d par p a ->
  let d' := update d p (set_childs (Some a) e) in
  conc_inv E d' par /\ grows d d' par par.
Proof.
  intros Hinv Hp [Hpa Ha] d'.
  assert (Hg : grows d d' par par) by (by eapply update_grows, refines_childs).
  split; [|done]. apply (update_inv E d par p e); [done..|by apply refines_childs| |].
  - cbn. intros ? [= <-]. split; [done|by apply Hg].
  - intros b Hs. destruct (ci_siblings _ _ _ Hinv p e b Hp Hs). split; [by apply Hg|done].
Qed.

Lemma new_entry_run nm len n d :
  token nm len -> len + 1 <= DCACHE_ENTRY_NAME_LEN ->
  new_entry nm len n d =
  Ok (next_addr d, mkDcache (<[next_addr d := new_entry_cell nm len n None]> (cells d))
                            (S (next_addr d))).
Proof.
  intros Htok Hlen. unfold new_entry. set (new := next_addr d).
  rewrite (bind_Ok calloc _ d new _) by reflexivity. fold new. unfold lift.
  rewrite (strncpy_token nm len Htok). unfold bind at 1.
  heap_step. destruct (new_name_ok nm len Htok Hlen) as (nm1 & Hs1 & Hs2).
  change (name calloc_entry) with (zeros DCACHE_ENTRY_NAME_LEN).
  rewrite Hs1. unfold bind at 1. rewrite Hs2. unfold bind at 1.
  do 2 heap_step. unfold ret. rewrite !insert_insert_eq. done.
Qed.

(** The cells once an entry has been allocated. *)
Definition allocated (d : dcache) (nm : bytes) (namelen n : Z) : dcache :=
  mkDcache (<[next_addr d := new_entry_cell nm namelen n None]> (cells d)) (S (next_addr d)).

Lemma conc_fresh E d par : conc_inv E d par ->
  cells d !! next_addr d = None /\ par !! next_addr d = None.
Proof.
  intros Hinv. assert (Hc : cells d !! next_addr d = None).
  { destruct (cells d !! next_addr d) eqn:Hc; [|done].
    pose proof (ci_bound _ _ _ Hinv (next_addr d) ltac:(by eexists)). lia. }
  split; [done|]. destruct (par !! next_addr d) eqn:Hp; [|done].
  destruct (ci_par _ _ _ Hinv _ _ Hp) as (i & m & nm & _ & Hn & _).
  unfold name_of in Hn. by rewrite Hc in Hn.
Qed.

Lemma allocated_old d nm len n a :
  cells d !! next_addr d = None -> is_Some (cells d !! a) ->
  cells (allocated d nm len n) !! a = cells d !! a.
Proof. intros Hf [e He]. cbn. rewrite lookup_insert_ne by congruence. done. Qed.

Lemma allocated_grows E d par nm len n p :
  conc_inv E d par -> grows d (allocated d nm len n) par (<[next_addr d := p]> par).
Proof.
  intros Hinv. destruct (conc_fresh _ _ _ Hinv) as [Hf Hp]. split.
  - intros a x Hx. unfold name_of in *.
    rewrite allocated_old; [done..|]. by destruct (cells d !! a).
  - intros a x Hx. unfold inode_of in *.
    rewrite allocated_old; [done..|]. by destruct (cells d !! a).
  - intros a (e & b & He & Hs). exists e, b. by rewrite allocated_old.
  - intros a (e & b & He & Hs). exists e, b. by rewrite allocated_old.
  - intros a q Hq. rewrite lookup_insert_ne by congruence. done.
Qed.

Lemma allocated_ok E d par nm len n p i :
  conc_inv E d par -> token nm len -> len + 1 <= DCACHE_ENTRY_NAME_LEN ->
  inode_of d p = Some i -> E i (take (Z.to_nat len) nm) n ->
  let d' := allocated d nm len n in
  let a := next_addr d in
  conc_inv E d' (<[a := p]> par) /\
  name_of d' a = Some (take (Z.to_nat len) nm) /\ inode_of d' a = Some n.
Proof.
  intros Hinv Htok Hlen Hi HE d' a. destruct (conc_fresh _ _ _ Hinv) as [Hf Hpar].
  pose proof (allocated_grows E d par nm len n p Hinv) as Hg. fold d' a in Hg.
  destruct (new_entry_name nm len n None Htok Hlen) as [_ Hstr].
  assert (Hname : name_of d' a = Some (take (Z.to_nat len) nm)).
  { unfold name_of, d', a. cbn [allocated cells]. rewrite lookup_insert_eq.
    change (Some (default [] (cstr (name (new_entry_cell nm len n None)))) =
            Some (take (Z.to_nat len) nm)). by rewrite Hstr. }
  assert (Hino : inode_of d' a = Some n).
  { unfold inode_of, d', a. cbn. by rewrite lookup_insert_eq. }
  assert (Hcell : forall b e, cells d' !! b = Some e ->
            (b = a /\ e = new_entry_cell nm len n None) \/ cells d !! b = Some e).
  { intros b e. unfold d', a. cbn. rewrite lookup_insert. case_decide; naive_solver. }
  split; [|done]. split.
  - destruct (ci_root _ _ _ Hinv) as (j & Hj & Hne). exists j. split; [by apply Hg|done].
  - intros b [e [[-> _]|He]%Hcell]; unfold d', a; cbn; [lia|].
    pose proof (ci_bound _ _ _ Hinv b ltac:(by eexists)). lia.
  - intros b q. rewrite lookup_insert. case_decide as Hb.
    + intros [= <-]. subst b. exists i, n, (take (Z.to_nat len) nm). by split; [apply Hg|].
    + intros Hq. destruct (ci_par _ _ _ Hinv b q Hq) as (j & m & x & H1 & H2 & H3 & H4).
      exists j, m, x. repeat split; [by apply Hg..|done].
  - intros b e [[_ ->]|He]%Hcell; [by rewrite Hstr|by apply (ci_name _ _ _ Hinv b)].
  - intros q e c [[_ ->]|He]%Hcell; [done|]. intros Hc.
    destruct (ci_childs _ _ _ Hinv q e c He Hc). split; by apply Hg.
  - intros b e c [[_ ->]|He]%Hcell; [done|]. intros Hs.
    destruct (ci_siblings _ _ _ Hinv b e c He Hs) as (H1 & q & H2 & H3).
    split; [by apply Hg|]. exists q. split; by apply Hg.
Qed.

(** What a step of a call keeps. *)
Definition step_ok (E : Z -> bytes -> Z -> Prop) (o : op) (par : gmap nat nat) (d : dcache)
    (r : pc * dcache) : Prop :=
  exists par', conc_inv E (snd r) par' /\ grows d (snd r) par par' /\
    pc_ok (snd r) par' o (fst r).

Lemma step_ok_read E o par d t :
  conc_inv E d par -> pc_ok d par o t -> step_ok E o par d (t, d).
Proof. intros Hinv Ht. exists par. split; [done|]. split; [apply grows_refl|done]. Qed.

Lemma start_ok E d par o : conc_inv E d par -> op_ok E d o -> step_ok E o par d (tstep o Start d).
Proof.
  intros Hinv [[e He] Ho]. destruct o as [parent nm len n|parent nm len]; cbn [tstep].
  - destruct Ho as (Htok & i & Hi & HE). unfold start_insert.
    destruct (Z.ltb_spec DCACHE_ENTRY_NAME_LEN (len + 1)); [by apply step_ok_read|].
    assert (Hm : (match parent with
                  | Some _ => Ok (tt, d)
                  | None => (let* r := deref root in ASSERT (negb (inode r =? 0))) d
                  end) = Ok (tt, d)).
    { destruct parent; [done|]. destruct (ci_root _ _ _ Hinv) as (j & Hj & Hne).
      unfold inode_of in Hj. destruct (cells d !! root) as [r|] eqn:Hr; [|done].
      rewrite (bind_Ok _ _ _ _ _ (deref_ok _ _ _ Hr)). unfold ASSERT.
      destruct (Z.eqb_spec (inode r) 0); [naive_solver|done]. }
    rewrite Hm, new_entry_run by (done || lia).
    exists (<[next_addr d := op_parent (Insert parent nm len n)]> par). cbn [fst snd].
    destruct (allocated_ok E d par nm len n (op_parent (Insert parent nm len n)) i)
      as (H1 & H2 & H3); [done..|lia|done|done|]. fold (allocated d nm len n).
    split; [done|]. split; [by eapply allocated_grows|].
    split; [by rewrite lookup_insert_eq|]. done.
  - rewrite (reads_run _ _ _ _ He).
    destruct (childs e) eqn:Hc; apply step_ok_read; [done| |done|done].
    split; [done|]. by exists e, n.
Qed.

Lemma insert_step_ok E d par o t :
  conc_inv E d par -> op_ok E d o -> pc_ok d par o t ->
  match t with
  | I_test _ | I_own _ | I_succ _ | I_load _ _ | I_link _ _ | I_pred _ | I_store _ _
  | I_publish _ => step_ok E o par d (tstep o t d)
  | _ => True
  end.
Proof.
  intros Hinv [[pe Hpe] _] Ht. set (p := op_parent o) in *.
  assert (Hchild : forall c, childs pe = Some c -> entry_ok d par p c).
  { intros c. by apply (ci_childs _ _ _ Hinv). }
  assert (Hhas : has_child d p -> exists c, childs pe = Some c).
  { intros (e & c & He & Hc). exists c. congruence. }
  destruct t as [|new|new|new|new c|new s|new|new c|new| | | | | | |]; try done; cbn [tstep];
    fold p; cbn [pc_ok] in Ht; fold p in Ht.
  - rewrite (reads_run _ _ _ _ Hpe). apply step_ok_read; [done|].
    destruct (childs pe) eqn:Hc; [|done]. split; [done|]. by exists pe, n.
  - destruct (own_cell _ _ _ _ Ht) as [e He]. rewrite (writes_run _ _ _ _ _ He). exists par.
    destruct (write_siblings_ok E d par p new new e) as (H1 & H2 & H3); [done| |apply Ht..|by right|].
    1: done. split; [done|]. split; [done|]. split; [by eapply own_entry_grows|done].
  - rewrite (reads_run _ _ _ _ Hpe). destruct Ht as [Ht Hc].
    destruct (Hhas Hc) as [c Hch]. rewrite Hch. apply step_ok_read; [done|].
    split; [done|]. split; [done|]. by apply Hchild.
  - destruct Ht as (Ht & Hc & Hpc & e & b & He & Hs). rewrite (reads_run _ _ _ _ He).
    apply step_ok_read; [done|]. split; [done|]. split; [done|]. exists b. split; [done|].
    destruct (ci_siblings _ _ _ Hinv c e b He Hs) as (Hb & q & H1 & H2).
    unfold entry_ok. fold p in Hpc. rewrite Hpc in H1. injection H1 as <-. done.
  - destruct Ht as (Ht & Hc & b & -> & Hpb & Hb). destruct (own_cell _ _ _ _ Ht) as [e He].
    rewrite (writes_run _ _ _ _ _ He). exists par.
    destruct (write_siblings_ok E d par p new b e) as (H1 & H2 & H3); [done| |apply Ht|done|by left|].
    1: done. split; [done|]. split; [done|]. split; [by eapply own_entry_grows|].
    split; [done|by apply H2].
  - rewrite (reads_run _ _ _ _ Hpe). destruct Ht as (Ht & Hn & Hc).
    destruct (Hhas Hc) as [c Hch]. rewrite Hch. apply step_ok_read; [done|].
    split; [done|]. split; [done|]. by apply Hchild.
  - destruct Ht as (Ht & Hn & Hpc & e & b & He & Hs). rewrite (writes_run _ _ _ _ _ He).
    exists par. destruct (write_siblings_ok E d par p c new e) as (H1 & H2 & H3);
      [done..|apply Ht|by left|].
    split; [done|]. split; [done|]. split; [by eapply own_entry_grows|by apply H2].
  - destruct Ht as (Ht & Hn). rewrite (writes_run _ _ _ _ _ Hpe). exists par.
    destruct (write_childs_ok E d par p new pe) as (H1 & H2); [done..| |].
    { split; [apply Ht|done]. }
    split; [done|]. split; [done|]. by eapply own_entry_grows.
Qed.

Lemma lookup_step_ok E d par o t :
  conc_inv E d par -> op_ok E d o -> pc_ok d par o t ->
  match t with
  | L_first | L_match _ | L_found _ | L_next _ | L_while _ => step_ok E o par d (tstep o t d)
  | _ => True
  end.
Proof.
  intros Hinv [[pe Hpe] Ho] Ht. set (p := op_parent o) in *.
  assert (Hchild : forall c, childs pe = Some c -> entry_ok d par p c).
  { intros c. by apply (ci_childs _ _ _ Hinv). }
  destruct t as [| | | | | | | | | |iter|iter|iter|s| |]; try done; cbn [tstep];
    fold p; cbn [pc_ok] in Ht; fold p in Ht.
  - destruct Ht as (Hl & e & c & He & Hc). rewrite (reads_run _ _ _ _ Hpe).
    rewrite Hpe in He. injection He as <-. rewrite Hc. apply step_ok_read; [done|].
    split; [done|]. by apply Hchild.
  - destruct Ht as [Hl Hit]. destruct o as [|q nm len]; [done|].
    destruct Hit as [Hpi (e & b & He & Hs)]. rewrite (reads_run _ _ _ _ He).
    rewrite name_matches_spec by (done || by apply (ci_name _ _ _ Hinv iter)).
    case_bool_decide as Hm; apply step_ok_read; try done; (split; [done|]).
    + split; [split; [done|by exists e, b]|]. unfold name_of. rewrite He. cbn [fmap option_fmap option_map].
      by rewrite Hm.
    + split; [done|by exists e, b].
  - destruct Ht as (Hl & Hit & Hn). rewrite (writes_run _ _ _ _ _ Hpe). exists par.
    destruct (write_childs_ok E d par p iter pe) as (H1 & H2); [done..|].
    split; [done|]. split; [done|]. split; [apply Hit|]. split; [by apply H2|].
    by destruct o.
  - destruct Ht as [Hl [Hpi (e & b & He & Hs)]]. rewrite (reads_run _ _ _ _ He).
    apply step_ok_read; [done|]. split; [done|]. exists b. split; [done|].
    destruct (ci_siblings _ _ _ Hinv iter e b He Hs) as (Hb & q & H1 & H2).
    rewrite Hpi in H1. injection H1 as <-. done.
  - destruct Ht as (Hl & b & -> & Hb). rewrite (reads_run _ _ _ _ Hpe).
    apply step_ok_read; [done|]. case_decide; [by destruct o|]. by split.
Qed.

Lemma tstep_ok E d par o t :
  conc_inv E d par -> thread_ok E d par (o, t) -> step_ok E o par d (tstep o t d).
Proof.
  intros Hinv [Ho Ht]. cbn [fst snd] in *.
  pose proof (insert_step_ok E d par o t Hinv Ho Ht) as Hi.
  pose proof (lookup_step_ok E d par o t Hinv Ho Ht) as Hl.
  destruct t; try done; [by apply start_ok|by apply step_ok_read].
Qed.

(** ** All interleavings *)

Definition config_ok (E : Z -> bytes -> Z -> Prop) (c : config) : Prop :=
  exists par, conc_inv E (fst c) par /\ Forall (thread_ok E (fst c) par) (snd c).

Lemma config_ok_init E n : n <> 0 -> config_ok E (init_cells n, []).
Proof.
  intros Hn. exists ∅. split; [|constructor]. split; cbn.
  - exists n. done.
  - intros a [e He]. apply lookup_singleton_Some in He as [<- _]. unfold root. lia.
  - done.
  - intros a e He. apply lookup_singleton_Some in He as [_ <-]. by eexists.
  - intros a e c He. apply lookup_singleton_Some in He as [_ <-]. done.
  - intros a e c He. apply lookup_singleton_Some in He as [_ <-]. done.
Qed.

(** The node a caller may name has a cell. *)
Lemma handle_cell E d par ts parent :
  conc_inv E d par -> Forall (thread_ok E d par) ts -> handle d ts parent ->
  is_Some (cells d !! default root parent).
Proof.
  intros Hinv Hts Hh. destruct parent as [a|]; cbn in *.
  - destruct Hh as [o Ho]. rewrite Forall_forall in Hts. destruct (Hts _ Ho) as [_ Hown].
    destruct (own_cell _ _ _ _ Hown) as [e He]. by exists e.
  - destruct (ci_root _ _ _ Hinv) as (i & Hi & _). unfold inode_of in Hi.
    by destruct (cells d !! root).
Qed.

Lemma config_ok_step E c c' : config_ok E c -> step E c c' -> config_ok E c'.
Proof.
  intros (par & Hinv & Hts) Hst. destruct Hst as [d ts i o t Hi Hrun|d ts o Hcall];
    cbn [fst snd] in *.
  - rewrite Forall_lookup in Hts.
    destruct (tstep_ok E d par o t Hinv (Hts i _ Hi)) as (par' & Hinv' & Hg & Ht').
    exists par'. split; [done|]. apply Forall_insert.
    + apply Forall_lookup. intros j th Hj. eapply thread_ok_grows; [done|]. by eapply Hts.
    + split; [|done]. eapply op_ok_grows; [done|]. apply (Hts i _ Hi).
  - exists par. split; [done|]. apply Forall_app. split; [done|]. apply Forall_singleton.
    split; [|done]. destruct o as [parent nm len n|parent nm len]; cbn in Hcall.
    + destruct Hcall as (Hh & Htok & Hex). split; [by eapply handle_cell|]. done.
    + destruct Hcall as (Hh & Htok). split; [by eapply handle_cell|]. done.
Qed.

Lemma config_ok_steps E c c' : config_ok E c -> rtc (step E) c c' -> config_ok E c'.
Proof. intros Hc Hs. induction Hs; eauto using config_ok_step. Qed.

(** C7: whatever the interleaving of any number of calls of [dcache_insert] and
    [dcache_lookup], no call uses a bad pointer, and a call that returns an
    entry returns one with the name asked for, cached for the directory that the
    parent stands for, with an inode number this name has there (the inserted
    one for an insertion): the tree is safe. *)
Theorem dcache_concurrent_safe E n d ts o t :
  n <> 0 -> rtc (step E) (init_cells n, []) (d, ts) -> (o, t) ∈ ts ->
  t <> Fault /\
  forall a, t = Return (Some a) ->
    exists i m, inode_of d (op_parent o) = Some i /\ name_of d a = Some (op_name o) /\
      inode_of d a = Some m /\ E i (op_name o) m /\
      match o with Insert _ _ _ k => m = k | Lookup _ _ _ => True end.
Proof.
  intros Hn Hs Ht.
  destruct (config_ok_steps E _ _ (config_ok_init E n Hn) Hs) as (par & Hinv & Hts).
  rewrite Forall_forall in Hts. destruct (Hts _ Ht) as [_ Hpc]. cbn [fst snd] in *.
  split; [by intros ->|]. intros a ->. destruct Hpc as (Hp & Hname & Hino).
  destruct (ci_par _ _ _ Hinv a _ Hp) as (i & m & nm & H1 & H2 & H3 & H4).
  exists i, m. rewrite Hname in H2. injection H2 as <-. repeat split; [done..|].
  destruct o; [|done]. cbn in Hino. congruence.
Qed.

(** ** Schedules *)

(** Thread [i] makes its next step, a returned one stays as it is. *)
Definition run_thread (i : nat) (c : config) : config :=
  match snd c !! i with
  | Some (o, t) => let r := tstep o t (fst c) in (snd r, <[i := (o, fst r)]> (snd c))
  | None => c
  end.
Definition run_schedule (s : list nat) (c : config) : config := fold_left (fun c i => run_thread i c) s c.

Lemma tstep_stopped o t d : running t = false -> tstep o t d = (t, d).
Proof. by destruct t. Qed.

Lemma run_thread_steps E i c : rtc (step E) c (run_thread i c).
Proof.
  destruct c as [d ts]. unfold run_thread. cbn [fst snd].
  destruct (ts !! i) as [[o t]|] eqn:Hi; [|done].
  destruct (running t) eqn:Hrun; [by apply rtc_once, step_run|].
  rewrite tstep_stopped by done. cbn [fst snd]. by rewrite list_insert_id.
Qed.

Lemma run_schedule_steps E s c : rtc (step E) c (run_schedule s c).
Proof.
  revert c. induction s as [|i s IH]; intros c; [done|].
  etrans; [apply (run_thread_steps E i)|apply IH].
Qed.

(** The steps an insertion can still make. *)
Definition insert_left (t : pc) : nat :=
  match t with
  | Start => 8 | I_test _ => 7 | I_succ _ => 6 | I_load _ _ => 5 | I_link _ _ => 4
  | I_pred _ => 3 | I_store _ _ => 2 | I_own _ => 2 | I_publish _ => 1 | _ => 0
  end.

Lemma insert_left_step q nm len n t d :
  (insert_left (fst (tstep (Insert q nm len n) t d)) <= insert_left t - 1)%nat.
Proof.
  destruct t; cbn [tstep]; unfold start_insert, reads, writes, through;
    repeat (case_match; simplify_eq; cbn [fst insert_left]); cbn [fst insert_left]; lia.
Qed.

Lemma run_schedule_insert s q nm len n i c t :
  snd c !! i = Some (Insert q nm len n, t) ->
  exists t', snd (run_schedule s c) !! i = Some (Insert q nm len n, t') /\
    (insert_left t' <= insert_left t - count_occ Nat.eq_dec s i)%nat.
Proof.
  revert c t. induction s as [|j s IH]; intros c t Hi; [exists t; cbn; split; [done|lia]|].
  cbn [run_schedule fold_left count_occ]. destruct (Nat.eq_dec j i) as [->|Hne].
  - destruct (IH (run_thread i c) (fst (tstep (Insert q nm len n) t (fst c)))) as (t' & H1 & H2).
    { unfold run_thread. rewrite Hi. cbn [snd]. apply list_lookup_insert_eq.
      by apply lookup_lt_Some in Hi. }
    exists t'. split; [done|]. pose proof (insert_left_step q nm len n t (fst c)). lia.
  - apply IH. unfold run_thread. destruct (snd c !! j) as [[o' t'']|]; [|done].
    cbn [snd]. by rewrite list_lookup_insert_ne.
Qed.

(** C8: insertions are wait-free: whatever else runs and however it is
    interleaved, eight steps of its own take a call of [dcache_insert] from
    any point to its return (with a value, never a fault). *)
Theorem dcache_insert_wait_free E ino c s i q nm len n t :
  ino <> 0 -> rtc (step E) (init_cells ino, []) c ->
  snd c !! i = Some (Insert q nm len n, t) -> (8 <= count_occ Nat.eq_dec s i)%nat ->
  exists r, snd (run_schedule s c) !! i = Some (Insert q nm len n, Return r).
Proof.
  intros Hino Hs Hi Hc.
  destruct (run_schedule_insert s q nm len n i c t Hi) as (t' & Hi' & Hl).
  assert (Ht : (insert_left t <= 8)%nat) by (destruct t; cbn; lia).
  pose proof (transitivity Hs (run_schedule_steps E s c)) as Hreach.
  destruct (config_ok_steps E _ _ (config_ok_init E ino Hino) Hreach) as (par & Hinv & Hts).
  rewrite Forall_lookup in Hts. destruct (Hts i _ Hi') as [_ Hpc]. cbn [fst snd] in Hpc.
  assert (Hz : insert_left t' = 0%nat) by lia.
  destruct t'; cbn in Hz, Hpc; try lia; try tauto. by exists r.
Qed.

(** ** A call that runs alone *)

(** The steps of one call while no other runs. *)
Definition alone (o : op) (x y : pc * dcache) : Prop :=
  running (fst x) = true /\ y = tstep o (fst x) (snd x).

Lemma alone_step o t d y z : running t = true -> tstep o t d = y -> rtc (alone o) y z ->
  rtc (alone o) (t, d) z.
Proof. intros Ht <- Hs. by eapply rtc_l; [split|]. Qed.

Lemma bind_inv {S A B} (m : M S A) (k : A -> M S B) s r :
  bind m k s = r ->
  (exists a s', m s = Ok (a, s') /\ k a s' = r) \/ (exists e, m s = Err e /\ r = Err e).
Proof. unfold bind. destruct (m s) as [[a s']|e]; eauto. Qed.

(** How the result of a call shows. *)
Definition outcome (r : res (option nat * dcache)) (x : pc * dcache) : Prop :=
  match r with Ok (a, d) => x = (Return a, d) | Err _ => fst x = Fault end.

Lemma lookup_loop_alone fuel q nm len pe first iter d :
  let p := default root q in
  cells d !! p = Some pe -> childs pe = Some first ->
  lookup_loop fuel p first iter nm len d <> Err NoFuel ->
  exists x, rtc (alone (Lookup q nm len)) (L_match iter, d) x /\
    outcome (lookup_loop fuel p first iter nm len d) x.
Proof.
  intros p Hp Hc. revert iter. induction fuel as [|fuel IH]; intros iter Hf; [done|].
  cbn [lookup_loop] in *.
  destruct (cells d !! iter) as [e|] eqn:He.
  2:{ exists (Fault, d). split.
      - eapply alone_step; [done| |done]. cbn. unfold reads. by rewrite He.
      - rewrite (bind_Err _ _ _ UB); [done|]. unfold deref. by rewrite He. }
  rewrite (bind_Ok _ _ _ _ _ (deref_ok _ _ _ He)) in *. unfold lift in *.
  destruct (name_matches e nm len) as [b|err] eqn:Hm.
  2:{ exists (Fault, d). split; [|done].
      eapply alone_step; [done| |done]. cbn. rewrite (reads_run _ _ _ _ He), Hm. done. }
  unfold bind at 1 in Hf. unfold bind at 1. destruct b.
  - exists (Return (Some iter), update d p (set_childs (Some iter) pe)). split.
    + eapply alone_step; [done|cbn; by rewrite (reads_run _ _ _ _ He), Hm|].
      eapply alone_step; [done|cbn; by rewrite (writes_run _ _ _ _ _ Hp)|done].
    + rewrite (bind_Ok _ _ _ tt (update d p (set_childs (Some iter) pe))); [done|].
      unfold assign. by rewrite Hp.
  - assert (Hnext : forall x, rtc (alone (Lookup q nm len)) (L_while (siblings e), d) x ->
        rtc (alone (Lookup q nm len)) (L_match iter, d) x).
    { intros x Hx. eapply alone_step; [done|cbn; by rewrite (reads_run _ _ _ _ He), Hm|].
      eapply alone_step; [done|cbn; by rewrite (reads_run _ _ _ _ He)|done]. }
    assert (Hwhile : tstep (Lookup q nm len) (L_while (siblings e)) d =
        (if decide (siblings e = Some first) then Return None else through (siblings e) L_match, d)).
    { cbn. fold p. rewrite (reads_run _ _ _ _ Hp), Hc. done. }
    destruct (siblings e) as [nxt|]; cbn [non_null] in *.
    + unfold bind, ret in Hf |- *. destruct (decide (nxt = first)) as [Hd|Hd].
      * exists (Return None, d). split; [|done]. apply Hnext.
        eapply alone_step; [done| |done]. rewrite Hwhile, decide_True by congruence. done.
      * destruct (IH nxt Hf) as (x & Hx & Ho). exists x. split; [|done]. apply Hnext.
        eapply alone_step; [done| |exact Hx]. rewrite Hwhile, decide_False by congruence. done.
    + exists (Fault, d). split; [|done]. apply Hnext.
      eapply alone_step; [done| |done]. rewrite Hwhile. done.
Qed.


(** [dcache_insert] from the point where the entry is filled in. *)
Definition link_entry (parent new : nat) : M dcache (option nat) :=
  let* p := deref parent in
  match childs p with
  | None =>
      do* assign new (set_siblings (Some new)) in
      do* assign parent (set_childs (Some new)) in
      ret (Some new)
  | Some c =>
      let* ce := deref c in
      do* assign new (set_siblings (siblings ce)) in
      do* assign c (set_siblings (Some new)) in
      do* assign parent (set_childs (Some new)) in
      ret (Some new)
  end.

Lemma dcache_insert_split parent nm len n d :
  dcache_insert parent nm len n d =
  (if DCACHE_ENTRY_NAME_LEN <? len + 1 then ret None else
   let* p := (match parent with
              | Some p => ret p
              | None => let* r := deref root in
                        do* ASSERT (negb (inode r =? 0)) in
                        ret root
              end) in
   let* new := new_entry nm len n in
   link_entry p new) d.
Proof.
  unfold dcache_insert, new_entry, link_entry. case_match; [done|].
  unfold bind, lift, ret.
  repeat (case_match; simplify_eq; try done).
Qed.

Lemma assign_keeps_childs a s d d' b e :
  assign a (set_siblings s) d = Ok (tt, d') -> cells d !! b = Some e ->
  exists e', cells d' !! b = Some e' /\ childs e' = childs e.
Proof.
  unfold assign. destruct (cells d !! a) as [e0|] eqn:Ha; [|done]. intros [= <-] Hb. cbn.
  rewrite lookup_insert. case_decide; [subst b|by exists e].
  rewrite Ha in Hb. injection Hb as ->. by eexists.
Qed.

(** A write of the run, or the fault it ends in. *)
Ltac alone_write H :=
  match goal with
  | |- exists x, _ /\ outcome (bind (assign ?a ?f) _ ?d) _ =>
      destruct (assign a f d) as [[[] ?]|?] eqn:H;
      [rewrite (bind_Ok _ _ _ _ _ H) |
       rewrite (bind_Err _ _ _ _ H); exists (Fault, d); split; [|done];
       eapply alone_step; [done|cbn [tstep op_parent]; unfold writes; by rewrite H|done]]
  end.
(** The first of the remaining steps. *)
Ltac alone_next tac :=
  match goal with
  | |- exists x, rtc (alone ?o) (?t, ?d) x /\ outcome ?r x =>
      enough (exists x, rtc (alone o) (tstep o t d) x /\ outcome r x) as (?x & ?Hx & ?Ho);
      [by exists x; split; [eapply alone_step|]|]
  end; cbn [tstep op_parent]; tac.

Lemma link_entry_alone q nm len n d new :
  exists x, rtc (alone (Insert q nm len n)) (I_test new, d) x /\
    outcome (link_entry (default root q) new d) x.
Proof.
  unfold link_entry.
  destruct (cells d !! default root q) as [pe|] eqn:Hp.
  2:{ alone_next idtac. unfold reads. rewrite Hp. exists (Fault, d). split; [done|].
      rewrite (bind_Err _ _ _ UB); [done|]. unfold deref. by rewrite Hp. }
  rewrite (bind_Ok _ _ _ _ _ (deref_ok _ _ _ Hp)).
  alone_next ltac:(rewrite (reads_run _ _ _ _ Hp)).
  destruct (childs pe) as [c|] eqn:Hc.
  2:{ alone_write H1. alone_next ltac:(unfold writes; rewrite H1).
      alone_write H2. alone_next ltac:(unfold writes; rewrite H2).
      eexists. by split. }
  alone_next ltac:(rewrite (reads_run _ _ _ _ Hp)). rewrite Hc. cbn [through].
  destruct (cells d !! c) as [ce|] eqn:Hce.
  2:{ alone_next idtac. unfold reads. rewrite Hce. exists (Fault, d). split; [done|].
      rewrite (bind_Err _ _ _ UB); [done|]. unfold deref. by rewrite Hce. }
  rewrite (bind_Ok _ _ _ _ _ (deref_ok _ _ _ Hce)).
  alone_next ltac:(rewrite (reads_run _ _ _ _ Hce)).
  alone_write H1. alone_next ltac:(unfold writes; rewrite H1).
  destruct (assign_keeps_childs _ _ _ _ _ _ H1 Hp) as (pe' & Hp' & Hc').
  alone_next ltac:(rewrite (reads_run _ _ _ _ Hp')). rewrite Hc', Hc. cbn [through].
  alone_write H2. alone_next ltac:(unfold writes; rewrite H2).
  alone_write H3. alone_next ltac:(unfold writes; rewrite H3).
  eexists. by split.
Qed.

Lemma insert_parent_cases parent d :
  let m := match parent with
           | Some p => ret p
           | None => let* r := deref root in
                     do* ASSERT (negb (inode r =? 0)) in
                     ret root
           end : M dcache nat in
  let chk := match parent with
             | Some _ => Ok (tt, d)
             | None => (let* r := deref root in ASSERT (negb (inode r =? 0))) d
             end in
  (m d = Ok (default root parent, d) /\ chk = Ok (tt, d)) \/
  (exists e e', m d = Err e /\ chk = Err e').
Proof.
  destruct parent; [by left|]. unfold bind, ret, ASSERT, deref.
  destruct (cells d !! root) as [r|]; [|by right; do 2 eexists].
  destruct (negb _); [by left|by right; do 2 eexists].
Qed.

Lemma insert_alone parent nm len n d :
  exists x, rtc (alone (Insert parent nm len n)) (Start, d) x /\ outcome (dcache_insert parent nm len n d) x.
Proof.
  rewrite dcache_insert_split.
  alone_next ltac:(unfold start_insert). case_match; [by eexists|].
  destruct (insert_parent_cases parent d) as [[Hm ->]|(e & e' & Hm & ->)].
  2:{ rewrite (bind_Err _ _ _ _ Hm). by eexists. }
  rewrite (bind_Ok _ _ _ _ _ Hm).
  destruct (new_entry nm len n d) as [[new d']|e] eqn:Hnew.
  + rewrite (bind_Ok _ _ _ _ _ Hnew). apply link_entry_alone.
  + rewrite (bind_Err _ _ _ _ Hnew). by eexists.
Qed.

Lemma lookup_alone fuel parent nm len d :
  dcache_lookup_fuel fuel parent nm len d <> Err NoFuel ->
  exists x, rtc (alone (Lookup parent nm len)) (Start, d) x /\
    outcome (dcache_lookup_fuel fuel parent nm len d) x.
Proof.
  unfold dcache_lookup_fuel. intros Hf.
  destruct (cells d !! default root parent) as [pe|] eqn:Hp.
  2:{ alone_next idtac. unfold reads. rewrite Hp. exists (Fault, d). split; [done|].
      rewrite (bind_Err _ _ _ UB); [done|]. unfold deref. by rewrite Hp. }
  rewrite (bind_Ok _ _ _ _ _ (deref_ok _ _ _ Hp)) in *.
  alone_next ltac:(rewrite (reads_run _ _ _ _ Hp)).
  destruct (childs pe) as [c|] eqn:Hc; [|by eexists].
  alone_next ltac:(rewrite (reads_run _ _ _ _ Hp)). rewrite Hc. cbn [through].
  by apply (lookup_loop_alone fuel parent nm len pe c).
Qed.

(** A call that runs without interruption computes what the sequential
    function computes: the same result in the same final memory, or a fault
    where that has one. *)
Theorem dcache_alone_sequential d :
  (forall parent nm len n, exists x,
     rtc (alone (Insert parent nm len n)) (Start, d) x /\
     outcome (dcache_insert parent nm len n d) x) /\
  (forall fuel parent nm len,
     dcache_lookup_fuel fuel parent nm len d <> Err NoFuel -> exists x,
     rtc (alone (Lookup parent nm len)) (Start, d) x /\
     outcome (dcache_lookup_fuel fuel parent nm len d) x).
Proof. split; intros; [apply insert_alone|by apply lookup_alone]. Qed.

(** ** A race that the atomic updates do not survive *)

(** A call whose program points form a set closed under its steps. *)
Lemma run_forever i o d (P : pc -> Prop) ts t :
  (forall t, P t -> running t = true /\ exists t', P t' /\ tstep o t d = (t', d)) ->
  P t -> ts !! i = Some (o, t) ->
  forall k, exists t', P t' /\ fst (run_schedule (replicate k i) (d, ts)) = d /\
    snd (run_schedule (replicate k i) (d, ts)) !! i = Some (o, t').
Proof.
  intros HP Ht Hi k. revert t ts Ht Hi. induction k as [|k IH]; intros t ts Ht Hi; [by exists t|].
  destruct (HP t Ht) as (_ & t' & Ht' & Hs).
  assert (Hr : run_thread i (d, ts) = (d, <[i := (o, t')]> ts)).
  { unfold run_thread. cbn [fst snd]. by rewrite Hi, Hs. }
  change (run_schedule (replicate (S k) i) (d, ts)) with
    (run_schedule (replicate k i) (run_thread i (d, ts))).
  rewrite Hr. apply (IH t'); [done|]. apply list_lookup_insert_eq.
  by apply lookup_lt_Some in Hi.
Qed.

(** A directory with three entries, and one insertion for each of them. *)
Definition race_dir (i : Z) (nm : bytes) (m : Z) : Prop :=
  i = 2 /\ (nm, m) ∈ [([Byte.x61], 11); ([Byte.x62], 12); ([Byte.x63], 13)].
Definition race_inserts : list op :=
  [Insert None [Byte.x61] 1 11; Insert None [Byte.x62] 1 12; Insert None [Byte.x63] 1 13].
Definition race_lookup : op := Lookup None [Byte.x64] 1.
(** The first insertion ends; the two others read the same last and first
    child, then write the same [siblings]. *)
Definition race_schedule : list nat :=
  replicate 4 0%nat ++ replicate 5 1%nat ++ replicate 5 2%nat ++ [1; 2; 1; 2; 2; 1]%nat.
Definition race_run (s : list nat) : config :=
  run_schedule s (init_cells 2, (fun o => (o, Start)) <$> (race_inserts ++ [race_lookup])).
Definition race_config : config := race_run race_schedule.

(** What has become of the calls: the insertions have returned, the lookup has
    not begun. *)
Definition race_threads : list (op * pc) :=
  [(Insert None [Byte.x61] 1 11, Return (Some 1%nat));
   (Insert None [Byte.x62] 1 12, Return (Some 2%nat));
   (Insert None [Byte.x63] 1 13, Return (Some 3%nat));
   (race_lookup, Start)].

Lemma race_reachable s : rtc (step race_dir) (init_cells 2, []) (race_run s).
Proof.
  etrans; [|apply run_schedule_steps].
  assert (Hcall : forall ts o, o ∈ race_inserts ++ [race_lookup] ->
    step race_dir (init_cells 2, ts) (init_cells 2, ts ++ [(o, Start)])).
  { intros ts o Ho. apply step_call. unfold race_inserts, race_lookup in Ho.
    cbn [app] in Ho. rewrite !elem_of_cons, elem_of_nil in Ho.
    assert (Htok : forall b, Byte.x00 <> b -> token [b] 1).
    { intros b Hb. split; [by cbn|]. change (Byte.x00 ∉ [b]). by rewrite list_elem_of_singleton. }
    assert (Hroot : inode_of (init_cells 2) root = Some 2) by done.
    destruct Ho as [-> |[-> |[-> |[-> |[]]]]]; cbn [call_ok handle default];
      (split; [done|]); try (apply Htok; done); (split; [apply Htok; done|]);
      exists 2; (split; [done|]); (split; [done|]); rewrite !elem_of_cons; tauto. }
  eapply rtc_l; [apply Hcall, (list_elem_of_lookup_2 _ 0); reflexivity|].
  eapply rtc_l; [apply Hcall, (list_elem_of_lookup_2 _ 1); reflexivity|].
  eapply rtc_l; [apply Hcall, (list_elem_of_lookup_2 _ 2); reflexivity|].
  eapply rtc_l; [apply Hcall, (list_elem_of_lookup_2 _ 3); reflexivity|].
  done.
Qed.

(** C33: the tree is not safe: two insertions next to one child can interleave
    so that both complete and return their entries, but the ring of the
    parent no longer leads back to its first child.  A lookup of a name that
    is not cached, running alone from then on, never returns. *)
Theorem dcache_race_breaks_ring :
  exists d, rtc (step race_dir) (init_cells 2, []) (d, race_threads) /\
  forall k, exists t, running t = true /\
    snd (run_schedule (replicate k 3%nat) (d, race_threads)) !! 3%nat = Some (race_lookup, t).
Proof.
  exists (fst race_config). split.
  - exact (race_reachable race_schedule).
  - intros k. set (cyc := [Start; L_first; L_match 2; L_next 2; L_while (Some 1%nat); L_match 1;
      L_next 1; L_while (Some 3%nat); L_match 3; L_next 3]).
    assert (Hcyc : Forall (fun t => running t = true /\
       exists t', t' ∈ cyc /\ tstep race_lookup t (fst race_config) = (t', fst race_config)) cyc).
    { unfold cyc. repeat (apply Forall_cons; split; [split; [done|]|]); [..|constructor];
        (eexists; split; [|vm_compute; reflexivity]); rewrite !elem_of_cons; tauto. }
    rewrite Forall_forall in Hcyc.
    destruct (run_forever 3 race_lookup (fst race_config) (fun t => t ∈ cyc) race_threads Start Hcyc)
      with (k := k) as (t & Ht & _ & Hl); [left|done|].
    exists t. split; [by apply Hcyc|done].
Qed.

(** ** Witnesses *)

Lemma dcache_concurrent_safe_witness :
  (race_lookup, Start) ∈ race_threads /\
  exists i m, inode_of (fst race_config) root = Some i /\
    name_of (fst race_config) 2 = Some [Byte.x62] /\ inode_of (fst race_config) 2 = Some m /\
    race_dir i [Byte.x62] m /\ m = 12.
Proof.
  split; [by apply (list_elem_of_lookup_2 _ 3)|].
  apply (dcache_concurrent_safe race_dir 2 (fst race_config) race_threads
    (Insert None [Byte.x62] 1 12) (Return (Some 2%nat))); [done|exact (race_reachable race_schedule)| |reflexivity].
  by apply (list_elem_of_lookup_2 _ 1).
Defined.

Lemma dcache_insert_wait_free_witness :
  exists r, snd (run_schedule (replicate 8 1%nat) (race_run (take 14 race_schedule))) !! 1%nat =
    Some (Insert None [Byte.x62] 1 12, Return r).
Proof.
  apply (dcache_insert_wait_free race_dir 2 (race_run (take 14 race_schedule)) (replicate 8 1%nat)
    1 None [Byte.x62] 1 12 (I_pred 2));
    [done|exact (race_reachable (take 14 race_schedule))|reflexivity|cbn; lia].
Defined.

Lemma dcache_alone_sequential_witness :
  exists x, rtc (alone (Lookup None [Byte.x62] 1)) (Start, fst race_config) x /\
    outcome (dcache_lookup_fuel 2 None [Byte.x62] 1 (fst race_config)) x.
Proof.
  apply (proj2 (dcache_alone_sequential (fst race_config))). vm_compute. discriminate.
Defined.
