(* ===== verification/State.v ===== *)
(** * The statics of the file system and the evaluation judgement

    [fs] gathers the file-scope variables of fs/ext4: the disk, the super
    block, the group descriptor table and the dcache.  Most of the file system
    only reads the disk: [evals E m r] says that [m] gives the result [r] in
    every state whose disk decompresses to the image of [E] and whose super
    block and descriptors are those of [E], and that the only thing it may
    change is the state of the layer below the disk. *)
From Stdlib Require Import ZArith Lia Strings.Byte.
From stdpp Require Import base numbers list option.
From S2P Require Import Prelude Clib Layout Disk Dcache.

(** A read that does not leave the image. *)
Definition inside (img : bytes) (off n : Z) : bool :=
  (0 <=? off) && (0 <? n) && (n <? 2 ^ 31) && (off + n <=? zlen img).
Lemma inside_true img off n :
  inside img off n = true <-> 0 <= off /\ 0 < n < 2 ^ 31 /\ off + n <= zlen img.
Proof. unfold inside. rewrite !andb_true_iff, !Z.leb_le, !Z.ltb_lt. tauto. Qed.

Section state.
Context {R : Type} `{RL : ReadLayer R}.

Record fs : Type := mkFs {
  st_disk : disk R;
  st_super : bytes;
  st_gdesc : list bytes;
  st_dcache : dcache }.

(** Zero-initialised statics. *)
Definition fs_statics : fs := mkFs disk_statics (zeros 1024) [] dcache_statics.

Definition set_disk (d : disk R) (s : fs) : fs :=
  mkFs d (st_super s) (st_gdesc s) (st_dcache s).
Definition set_super (sb : bytes) (s : fs) : fs :=
  mkFs (st_disk s) sb (st_gdesc s) (st_dcache s).
Definition set_gdesc (g : list bytes) (s : fs) : fs :=
  mkFs (st_disk s) (st_super s) g (st_dcache s).
Definition set_dcache (c : dcache) (s : fs) : fs :=
  mkFs (st_disk s) (st_super s) (st_gdesc s) c.

Definition on_disk {A : Type} (m : M (disk R) A) : M fs A := zoom st_disk set_disk m.
Definition on_dcache {A : Type} (m : M dcache A) : M fs A := zoom st_dcache set_dcache m.

(** The macro [disk_read(where, size, p)]: the bytes put at [p]. *)
Definition disk_read (where_ size : Z) : M fs (Z * bytes) := on_disk (__disk_read where_ size).

Context `{RLO : !ReadLayerOk R}.

Record env : Type := mkEnv { e_img : bytes; e_super : bytes; e_gdesc : list bytes }.

Definition st_env (E : env) (s : fs) : Prop :=
  disk_ok (e_img E) (st_disk s) /\ st_super s = e_super E /\ st_gdesc s = e_gdesc E.

Definition evals {A : Type} (E : env) (m : M fs A) (r : res A) : Prop :=
  forall s, st_env E s ->
  match r with
  | Ok v => exists d, m s = Ok (v, set_disk d s) /\ disk_ok (e_img E) d
  | Err e => m s = Err e
  end.

(** ** Rules *)

Lemma set_disk_env E s d :
  st_env E s -> disk_ok (e_img E) d -> st_env E (set_disk d s).
Proof. intros (_ & Hs & Hg) Hd. done. Qed.

Lemma set_disk_same s : set_disk (st_disk s) s = s.
Proof. by destruct s. Qed.

Lemma evals_ret {A} E (v : A) : evals E (ret v) (Ok v).
Proof.
  intros s Hs. exists (st_disk s). split; [|apply Hs]. by rewrite set_disk_same.
Qed.

Lemma evals_fail {A} E e : evals E (fail e : M fs A) (Err e).
Proof. by intros s Hs. Qed.

Lemma evals_lift {A} E (r : res A) : evals E (lift r) r.
Proof. destruct r; [apply evals_ret|apply evals_fail]. Qed.

Lemma evals_ASSERT E b : evals E (ASSERT b) (if b then Ok tt else Err Abort).
Proof. destruct b; [apply evals_ret|apply evals_fail]. Qed.

Lemma evals_bind {A B} E (m : M fs A) (k : A -> M fs B) v r :
  evals E m (Ok v) -> evals E (k v) r -> evals E (bind m k) r.
Proof.
  intros Hm Hk s Hs. destruct (Hm s Hs) as (d & He & Hd).
  rewrite (bind_Ok _ _ _ _ _ He).
  specialize (Hk _ (set_disk_env E s d Hs Hd)).
  destruct r as [w|e]; [|done]. destruct Hk as (d' & He' & Hd').
  exists d'. by rewrite He'.
Qed.

Lemma evals_bind_err {A B} E (m : M fs A) (k : A -> M fs B) e :
  evals E m (Err e) -> evals E (bind m k) (Err e).
Proof. intros Hm s Hs. apply bind_Err. by apply Hm. Qed.


(** Reading the super block static. *)
Lemma evals_super {A} E (k : fs -> M fs A) r :
  (forall s, st_env E s -> evals E (k s) r) -> evals E (bind get k) r.
Proof. intros Hk s Hs. rewrite (bind_Ok get k s s s) by done. by apply Hk. Qed.

Lemma evals_on_disk {A} E (m : M (disk R) A) v :
  (forall d, disk_ok (e_img E) d ->
     exists d', m d = Ok (v, d') /\ disk_ok (e_img E) d') ->
  evals E (on_disk m) (Ok v).
Proof.
  intros Hm s Hs. destruct (Hm (st_disk s)) as (d' & He & Hd'); [apply Hs|].
  exists d'. split; [|done]. unfold on_disk, zoom. by rewrite He.
Qed.

Lemma evals_disk_read E off n :
  0 <= off -> 0 < n < 2 ^ 31 -> off + n <= zlen (e_img E) ->
  evals E (disk_read off n) (Ok (n, slice off n (e_img E))).
Proof. intros. apply evals_on_disk. intros d Hd. by apply __disk_read_ok. Qed.

Lemma evals_inside E off n :
  inside (e_img E) off n = true -> evals E (disk_read off n) (Ok (n, slice off n (e_img E))).
Proof. intros (H1 & H2 & H3)%inside_true. by apply evals_disk_read. Qed.

Lemma evals_disk_read_u32 E off :
  0 <= off -> off + 4 <= zlen (e_img E) ->
  evals E (on_disk (disk_read_u32 off)) (Ok (le_at off 4 (e_img E))).
Proof. intros. apply evals_on_disk. intros d Hd. by apply disk_read_u32_ok. Qed.

(** A judgement determines the run. *)
Lemma evals_run {A} E (m : M fs A) v s :
  evals E m (Ok v) -> st_env E s ->
  exists d, m s = Ok (v, set_disk d s) /\ disk_ok (e_img E) d.
Proof. intros Hm Hs. by apply (Hm s). Qed.

(** A judgement is about the states there are, and gives one result in them. *)
Lemma evals_inhabited {A} E (m : M fs A) r : ((exists s, st_env E s) -> evals E m r) -> evals E m r.
Proof. intros Hm s Hs. apply Hm; [by exists s|done]. Qed.
Lemma evals_det {A} E (m : M fs A) v w :
  (exists s, st_env E s) -> evals E m (Ok v) -> evals E m (Ok w) -> v = w.
Proof.
  intros [s Hs] Hv Hw. destruct (evals_run E m v s Hv Hs) as (d & H1 & _).
  destruct (evals_run E m w s Hw Hs) as (d' & H2 & _). congruence.
Qed.
End state.
Arguments fs : clear implicits.

#[export] Hint Resolve evals_ret evals_fail evals_lift : cwp.

(** Evaluate the first computation of a sequence with a known judgement. *)
Ltac estep H := eapply evals_bind; [exact H|]; cbv beta.
(** The same for the pure steps. *)
Ltac epure :=
  lazymatch goal with
  | |- evals _ (bind (lift (Ok ?v)) _) _ =>
      apply (evals_bind _ _ _ v); [apply (evals_lift _ (Ok v))|]; cbv beta
  | |- evals _ (bind (ret ?v) _) _ => apply (evals_bind _ _ _ v); [apply evals_ret|]; cbv beta
  | |- evals _ (bind (ASSERT true) _) _ =>
      apply (evals_bind _ _ _ tt); [apply (evals_ASSERT _ true)|]; cbv beta
  | |- evals _ (ret ?v) _ => apply evals_ret
  end.
