(* ===== verification/Super.v ===== *)
(** * fs/ext4/super.c and super.h: the super block and the group descriptors *)
From Stdlib Require Import ZArith Lia Strings.Byte.
From stdpp Require Import base numbers list option strings.
From S2P Require Import Prelude Clib Layout Disk Dcache State.

Definition BOOT_SECTOR_SIZE : Z := 0x400.
Definition GROUP_DESC_MIN_SIZE : Z := 0x20.

(** [((uint64_t)1) << (super.s_log_block_size + 10)], returned as uint32_t. *)
Definition super_block_size (sb : bytes) : res Z :=
  let? l := fld ext4_super_block "s_log_block_size" sb in
  let sh := u32 (l + 10) in
  if sh <? 64 then Ok (u32 (Z.shiftl 1 sh)) else Err UB.

(** The macros of super.h, with [BLOCK_SIZE] as an argument. *)
Definition BLOCKS2BYTES (blks bs : Z) : Z := u64 (u64 blks * bs).
Definition BYTES2BLOCKS (b bs : Z) : res Z :=
  let? q := c_div b bs in
  let? r := c_mod b bs in
  Ok (u64 (q + (if r =? 0 then 0 else 1))).
(** [ALIGN_TO] of common.h on a 64-bit [n] and the 32-bit [BLOCK_SIZE]: the
    mask [~(align - 1)] is computed in 32 bits. *)
Definition ALIGN_TO (n align : Z) : res Z :=
  let? r := c_mod n align in
  Ok (if r =? 0 then n else Z.land n (u32 (Z.lnot (u32 (align - 1)))) + align).

Definition super_block_group_size (sb : bytes) : res Z :=
  let? bs := super_block_size sb in
  let? n := fld ext4_super_block "s_blocks_per_group" sb in
  Ok (BLOCKS2BYTES n bs).

Definition super_n_block_groups (sb : bytes) : res Z :=
  let? c := fld ext4_super_block "s_blocks_count_lo" sb in
  let? g := fld ext4_super_block "s_blocks_per_group" sb in
  let? n := c_div c g in
  Ok (if n =? 0 then 1 else n).

Definition super_group_desc_size (sb : bytes) : res Z :=
  let? n := fld ext4_super_block "s_desc_size" sb in
  Ok (if n =? 0 then GROUP_DESC_MIN_SIZE else sizeof ext4_group_desc).

Definition super_inodes_per_group (sb : bytes) : res Z :=
  fld ext4_super_block "s_inodes_per_group" sb.

Definition super_inode_size (sb : bytes) : res Z :=
  fld ext4_super_block "s_inode_size" sb.

Section super.
Context {R : Type} `{RL : ReadLayer R}.

(** Use of a function of the super block static. *)
Definition with_super {A : Type} (f : bytes -> res A) : M (fs R) A :=
  let* s := get in lift (f (st_super s)).
Definition BLOCK_SIZE : M (fs R) Z := with_super super_block_size.

(** The [INFO] lines evaluate their arguments even when nothing is logged. *)
Definition super_fill : M (fs R) Z :=
  let* r := disk_read BOOT_SECTOR_SIZE (sizeof ext4_super_block) in
  do* modify (set_super (snd r)) in
  let* _1 := BLOCK_SIZE in
  let* _2 := with_super super_block_group_size in
  let* _3 := with_super super_n_block_groups in
  let* _4 := with_super super_inode_size in
  let* _5 := with_super super_inodes_per_group in
  ret 0.

Definition super_group_inode_table_offset (inode_num : Z) : M (fs R) Z :=
  let* ipg := with_super super_inodes_per_group in
  let* n_group := lift (c_div inode_num ipg) in
  let* n := with_super super_n_block_groups in
  do* ASSERT (n_group <? n) in
  let* s := get in
  match st_gdesc s !! Z.to_nat n_group with
  | Some gd =>
      let* t := lift (fld ext4_group_desc "bg_inode_table_lo" gd) in
      let* bs := BLOCK_SIZE in
      ret (s64 (BLOCKS2BYTES t bs))
  | None => fail UB
  end.

(** One turn of the loop of [super_group_fill]. *)
Definition super_group_fill_step (i : Z) : M (fs R) unit :=
  let* bs := BLOCK_SIZE in
  let* a := lift (ALIGN_TO (BOOT_SECTOR_SIZE + sizeof ext4_super_block) bs) in
  let* dsz := with_super super_group_desc_size in
  let bg_off := s64 (a + u32 (i * dsz)) in
  let* r := disk_read bg_off dsz in
  modify (fun s => set_gdesc (<[Z.to_nat i := snd r]> (st_gdesc s)) s).

(** [for (i = first; i < first + k; i++)]. *)
Fixpoint super_group_fill_loop (k : nat) (i : Z) : M (fs R) unit :=
  match k with
  | O => ret tt
  | S k' =>
      do* super_group_fill_step i in
      super_group_fill_loop k' (i + 1)
  end.

(** [malloc] gives uninitialised objects; the number of turns is the number of
    groups, which the loop does not change. *)
Definition super_group_fill : M (fs R) Z :=
  let* n := with_super super_n_block_groups in
  do* modify (set_gdesc (replicate (Z.to_nat n) [])) in
  do* super_group_fill_loop (Z.to_nat n) 0 in
  ret 0.
End super.

(** ** Well-formed super blocks *)

Definition sb_get (f : string) (sb : bytes) : Z := default 0 (
  match field ext4_super_block f with
  | Some (o, t) => Some (le_at o (csize t) sb)
  | None => None
  end).

Record super_wf (sb : bytes) : Prop := {
  wf_len : zlen sb = sizeof ext4_super_block;
  wf_log : sb_get "s_log_block_size" sb <= 6;
  wf_bpg : 0 < sb_get "s_blocks_per_group" sb;
  wf_ipg : 0 < sb_get "s_inodes_per_group" sb }.

Definition bsize (sb : bytes) : Z := 1024 * 2 ^ sb_get "s_log_block_size" sb.
Definition n_groups (sb : bytes) : Z :=
  Z.max 1 (sb_get "s_blocks_count_lo" sb / sb_get "s_blocks_per_group" sb).
Definition desc_size (sb : bytes) : Z :=
  if sb_get "s_desc_size" sb =? 0 then 32 else 64.
(** Where the group descriptor table starts. *)
Definition gdt_off (sb : bytes) : Z := Z.max 2048 (bsize sb).

(** ** Facts *)

Lemma sb_fld sb f o t :
  field ext4_super_block f = Some (o, t) -> zlen sb = 1024 ->
  0 <= o -> 0 <= csize t -> o + csize t <= 1024 ->
  fld ext4_super_block f sb = Ok (sb_get f sb) /\ 0 <= sb_get f sb < 256 ^ csize t.
Proof.
  intros Hf Hl ???. unfold sb_get. rewrite Hf. cbn [default].
  split; [|by apply le_at_range]. apply (fld_ok _ _ _ _ _ Hf); lia.
Qed.

(** A scalar member of a full super block. *)
Ltac sb_member f Hl :=
  let H := fresh "Hm" in
  pose proof (sb_fld _ f _ _ ltac:(vm_compute; reflexivity) Hl
    ltac:(vm_compute; congruence) ltac:(vm_compute; congruence)
    ltac:(vm_compute; congruence)) as H;
  cbv [csize] in H; destruct H.

Lemma super_block_size_ok sb : super_wf sb -> super_block_size sb = Ok (bsize sb).
Proof.
  intros [Hl Hlog _ _]. change (sizeof ext4_super_block) with 1024 in Hl.
  sb_member "s_log_block_size" Hl. unfold super_block_size. rewrite H. cbn [rbind].
  rewrite u32_small by lia.
  destruct (Z.ltb_spec (sb_get "s_log_block_size" sb + 10) 64); [|lia].
  f_equal. unfold bsize. rewrite Z.shiftl_1_l.
  rewrite Z.pow_add_r by lia. change (2 ^ 10) with 1024.
  assert (2 ^ sb_get "s_log_block_size" sb <= 2 ^ 6) by (apply Z.pow_le_mono_r; lia).
  rewrite u32_small; lia.
Qed.

Lemma bsize_range sb : super_wf sb -> 1024 <= bsize sb <= 65536.
Proof.
  intros [Hl Hlog _ _]. change (sizeof ext4_super_block) with 1024 in Hl.
  sb_member "s_log_block_size" Hl. unfold bsize.
  assert (2 ^ 0 <= 2 ^ sb_get "s_log_block_size" sb <= 2 ^ 6)
    by (split; apply Z.pow_le_mono_r; lia). lia.
Qed.

(** The block size is a power of two. *)
Lemma bsize_pow sb : super_wf sb -> exists k, 10 <= k <= 16 /\ bsize sb = 2 ^ k.
Proof.
  intros [Hl Hlog _ _]. change (sizeof ext4_super_block) with 1024 in Hl.
  sb_member "s_log_block_size" Hl. exists (10 + sb_get "s_log_block_size" sb).
  split; [lia|]. unfold bsize. by rewrite Z.pow_add_r by lia.
Qed.

Lemma super_n_block_groups_ok sb :
  super_wf sb -> super_n_block_groups sb = Ok (n_groups sb).
Proof.
  intros [Hl _ Hg _]. change (sizeof ext4_super_block) with 1024 in Hl.
  sb_member "s_blocks_count_lo" Hl. sb_member "s_blocks_per_group" Hl.
  unfold super_n_block_groups. rewrite H, H1. cbn [rbind].
  rewrite c_div_pos by lia. cbn [rbind]. f_equal. unfold n_groups.
  pose proof (Z.div_pos (sb_get "s_blocks_count_lo" sb)
    (sb_get "s_blocks_per_group" sb) ltac:(lia) ltac:(lia)).
  destruct (Z.eqb_spec (sb_get "s_blocks_count_lo" sb / sb_get "s_blocks_per_group" sb) 0); lia.
Qed.

Lemma n_groups_range sb : super_wf sb -> 1 <= n_groups sb < 2 ^ 32.
Proof.
  intros [Hl _ Hg _]. change (sizeof ext4_super_block) with 1024 in Hl.
  sb_member "s_blocks_count_lo" Hl. unfold n_groups. split; [lia|].
  apply Z.max_lub_lt; [lia|]. apply Z.div_lt_upper_bound; [lia|]. nia.
Qed.

Lemma super_group_desc_size_ok sb :
  super_wf sb -> super_group_desc_size sb = Ok (desc_size sb).
Proof.
  intros [Hl _ _ _]. change (sizeof ext4_super_block) with 1024 in Hl.
  sb_member "s_desc_size" Hl. unfold super_group_desc_size, desc_size. rewrite H.
  cbn [rbind]. done.
Qed.

Lemma super_inodes_per_group_ok sb :
  super_wf sb -> super_inodes_per_group sb = Ok (sb_get "s_inodes_per_group" sb).
Proof.
  intros [Hl _ _ _]. change (sizeof ext4_super_block) with 1024 in Hl.
  sb_member "s_inodes_per_group" Hl. done.
Qed.

Lemma super_inode_size_ok sb :
  super_wf sb ->
  super_inode_size sb = Ok (sb_get "s_inode_size" sb) /\
  0 <= sb_get "s_inode_size" sb < 65536.
Proof.
  intros [Hl _ _ _]. change (sizeof ext4_super_block) with 1024 in Hl.
  sb_member "s_inode_size" Hl. done.
Qed.

(** Clearing the low [k] bits of a 32-bit value. *)
Lemma land_high_mask n k :
  0 <= n < 2 ^ 32 -> 0 <= k <= 32 -> Z.land n (2 ^ 32 - 2 ^ k) = n / 2 ^ k * 2 ^ k.
Proof.
  intros Hn Hk.
  assert (Hm : 2 ^ 32 - 2 ^ k = Z.shiftl (Z.ones (32 - k)) k).
  { rewrite Z.shiftl_mul_pow2, Z.ones_equiv by lia.
    assert (2 ^ 32 = 2 ^ (32 - k) * 2 ^ k) by (rewrite <- Z.pow_add_r by lia; f_equal; lia).
    rewrite <- Z.sub_1_r. lia. }
  rewrite Hm. rewrite <- Z.shiftl_mul_pow2, <- Z.shiftr_div_pow2 by lia.
  apply Z.bits_inj'. intros i Hi. rewrite Z.land_spec.
  destruct (Z.ltb_spec i k).
  - rewrite !Z.shiftl_spec_low by lia. apply andb_false_r.
  - rewrite !Z.shiftl_spec by lia. rewrite Z.shiftr_spec by lia.
    replace (i - k + k) with i by lia.
    destruct (Z.ltb_spec i 32).
    + rewrite Z.ones_spec_low by lia. apply andb_true_r.
    + rewrite Z.ones_spec_high by lia. rewrite andb_false_r. symmetry.
      destruct (Z.eq_dec n 0) as [->|Hnz]; [apply Z.bits_0|].
      apply Z.bits_above_log2; [lia|]. apply Z.log2_lt_pow2; [lia|].
      eapply Z.lt_le_trans; [apply Hn|]. apply Z.pow_le_mono_r; lia.
Qed.

Lemma align_mask k :
  0 <= k <= 31 -> u32 (Z.lnot (u32 (2 ^ k - 1))) = 2 ^ 32 - 2 ^ k.
Proof.
  intros Hk. assert (0 < 2 ^ k <= 2 ^ 31)
    by (split; [lia|apply Z.pow_le_mono_r; lia]).
  rewrite (u32_small (2 ^ k - 1)) by lia. unfold u32, Z.lnot.
  rewrite <- (Z.mod_add _ 1) by lia. rewrite Z.mod_small; lia.
Qed.

(** The two cases of the macro: below 4 GiB, and above. *)
Lemma ALIGN_TO_run n k :
  0 <= n -> 10 <= k <= 16 ->
  (n < 2 ^ 32 -> ALIGN_TO n (2 ^ k) = Ok ((n + 2 ^ k - 1) / 2 ^ k * 2 ^ k)) /\
  (2 ^ 32 <= n -> n mod 2 ^ k <> 0 ->
   ALIGN_TO n (2 ^ k) = ALIGN_TO (n mod 2 ^ 32) (2 ^ k) /\
   forall m, ALIGN_TO n (2 ^ k) = Ok m -> m <= n).
Proof.
  intros Hn Hk.
  assert (Hp : 2 ^ 10 <= 2 ^ k <= 2 ^ 16) by (split; apply Z.pow_le_mono_r; lia).
  assert (Hpos : 0 < 2 ^ k) by lia.
  assert (Hlow : forall x, 0 <= x < 2 ^ 32 -> x mod 2 ^ k <> 0 ->
    Z.land x (2 ^ 32 - 2 ^ k) + 2 ^ k = (x + 2 ^ k - 1) / 2 ^ k * 2 ^ k).
  { intros x Hx Hnz. rewrite land_high_mask by lia.
    pose proof (Z.div_mod x (2 ^ k) ltac:(lia)) as Hd.
    pose proof (Z.mod_pos_bound x (2 ^ k) Hpos) as Hb.
    assert (He : (x + 2 ^ k - 1) / 2 ^ k = x / 2 ^ k + 1).
    { symmetry. apply Z.div_unique with (x mod 2 ^ k - 1); lia. }
    rewrite He. lia. }
  unfold ALIGN_TO. rewrite c_mod_pos by lia. cbn [rbind]. rewrite align_mask by lia.
  split.
  - intros Hlt. f_equal. destruct (Z.eqb_spec (n mod 2 ^ k) 0) as [Hz|Hnz].
    + pose proof (Z.div_mod n (2 ^ k) ltac:(lia)) as Hd.
      assert (He : (n + 2 ^ k - 1) / 2 ^ k = n / 2 ^ k).
      { symmetry. apply Z.div_unique with (2 ^ k - 1); lia. }
      rewrite He. lia.
    + apply Hlow; lia.
  - intros Hge Hnz.
    assert (Hmm : (n mod 2 ^ 32) mod 2 ^ k = n mod 2 ^ k).
    { replace (2 ^ 32) with (2 ^ k * 2 ^ (32 - k))
        by (rewrite <- Z.pow_add_r by lia; f_equal; lia).
      rewrite Z.rem_mul_r by lia.
      rewrite (Z.mul_comm (2 ^ k)), Z.mod_add, Z.mod_mod by lia. done. }
    assert (Hland : Z.land n (2 ^ 32 - 2 ^ k) = Z.land (n mod 2 ^ 32) (2 ^ 32 - 2 ^ k)).
    { rewrite <- (Z.land_ones n 32) by lia. rewrite <- Z.land_assoc. f_equal.
      rewrite Z.land_comm. symmetry. rewrite Z.land_ones by lia.
      apply Z.mod_small. lia. }
    pose proof (Z.mod_pos_bound n (2 ^ 32) ltac:(lia)) as Hr.
    rewrite c_mod_pos by lia. cbn [rbind]. rewrite Hmm, <- Hland.
    destruct (Z.eqb_spec (n mod 2 ^ k) 0); [done|]. split; [done|]. intros m [= <-].
    rewrite Hland, land_high_mask by lia.
    pose proof (Z.div_mod (n mod 2 ^ 32) (2 ^ k) ltac:(lia)) as Hd.
    pose proof (Z.mod_pos_bound (n mod 2 ^ 32) (2 ^ k) Hpos).
    pose proof (Z.div_mod n (2 ^ 32) ltac:(lia)).
    destruct (Z.lt_ge_cases (n mod 2 ^ 32 + 2 ^ k) (2 ^ 32)); [nia|].
    assert (1 <= n / 2 ^ 32) by (apply Z.div_le_lower_bound; lia).
    assert (n mod 2 ^ 32 / 2 ^ k * 2 ^ k <= n mod 2 ^ 32) by lia.
    assert (2 ^ k < 2 ^ 32) by lia. lia.
Qed.

(** [ALIGN_TO] rounds a value below 4 GiB up to the next multiple of the
    block size; for an unaligned value [n] at or above 4 GiB the 32-bit mask
    drops the high half and the result is that of [n mod 2^32], which is below
    [n]. *)
Theorem ALIGN_TO_spec n k :
  0 <= n -> 10 <= k <= 16 ->
  (n < 2 ^ 32 -> ALIGN_TO n (2 ^ k) = Ok ((n + 2 ^ k - 1) / 2 ^ k * 2 ^ k)) /\
  (2 ^ 32 <= n -> n mod 2 ^ k <> 0 ->
   ALIGN_TO n (2 ^ k) = ALIGN_TO (n mod 2 ^ 32) (2 ^ k) /\
   forall m, ALIGN_TO n (2 ^ k) = Ok m -> m <= n).
Proof. by apply ALIGN_TO_run. Qed.

Lemma gdt_off_ok sb :
  super_wf sb -> ALIGN_TO (BOOT_SECTOR_SIZE + sizeof ext4_super_block) (bsize sb)
                 = Ok (gdt_off sb).
Proof.
  intros Hwf. destruct (bsize_pow sb Hwf) as (k & Hk & Hb).
  change (BOOT_SECTOR_SIZE + sizeof ext4_super_block) with 2048.
  rewrite Hb. rewrite (proj1 (ALIGN_TO_run 2048 k ltac:(lia) Hk) ltac:(lia)).
  f_equal. unfold gdt_off. rewrite Hb.
  assert (Hc : k = 10 \/ k = 11 \/ 12 <= k) by lia.
  destruct Hc as [->|[->|Hc]]; [done..|].
  assert (2 ^ 12 <= 2 ^ k) by (apply Z.pow_le_mono_r; lia).
  assert (He : (2048 + 2 ^ k - 1) / 2 ^ k = 1).
  { symmetry. apply Z.div_unique with 2047; lia. }
  rewrite He. lia.
Qed.

Lemma desc_size_cases sb : desc_size sb = 32 \/ desc_size sb = 64.
Proof. unfold desc_size. destruct (_ =? _); auto. Qed.

Section super_facts.
Context {R : Type} `{RLO : ReadLayerOk R}.

Lemma with_super_run {A} (f : bytes -> res A) (s : fs R) v :
  f (st_super s) = Ok v -> with_super f s = Ok (v, s).
Proof. intros Hf. unfold with_super, bind, get, lift. by rewrite Hf. Qed.

Lemma evals_with_super {A} E (f : bytes -> res A) r :
  f (e_super E) = r -> evals E (with_super f) r.
Proof.
  intros Hf. unfold with_super. apply evals_super. intros s (_ & -> & _).
  rewrite Hf. apply evals_lift.
Qed.

Lemma evals_BLOCK_SIZE E : super_wf (e_super E) -> evals E BLOCK_SIZE (Ok (bsize (e_super E))).
Proof. intros. by apply evals_with_super, super_block_size_ok. Qed.

(** The on-disk group descriptors, as [super_group_fill] stores them. *)
Definition gdt (img sb : bytes) : list bytes :=
  (fun i => slice (gdt_off sb + Z.of_nat i * desc_size sb) (desc_size sb) img)
    <$> seq 0 (Z.to_nat (n_groups sb)).

Record gdt_wf (img sb : bytes) : Prop := {
  gdt_fits : gdt_off sb + n_groups sb * desc_size sb <= zlen img;
  gdt_32 : n_groups sb * desc_size sb <= 2 ^ 32 }.

Lemma super_group_fill_step_run img sb (s : fs R) i :
  disk_ok img (st_disk s) -> st_super s = sb -> super_wf sb -> gdt_wf img sb ->
  0 <= i < n_groups sb ->
  exists d, super_group_fill_step i s =
    Ok (tt, set_disk d (set_gdesc (<[Z.to_nat i :=
              slice (gdt_off sb + i * desc_size sb) (desc_size sb) img]> (st_gdesc s)) s)) /\
    disk_ok img d.
Proof.
  intros Hd Hsb Hwf [Hfit H32] Hi. unfold super_group_fill_step, BLOCK_SIZE.
  pose proof (desc_size_cases sb) as Hds. pose proof (n_groups_range sb Hwf).
  pose proof (bsize_range sb Hwf).
  assert (Hg : 2048 <= gdt_off sb <= 65536) by (unfold gdt_off; lia).
  assert (Hoff : 0 <= i * desc_size sb /\ i * desc_size sb + desc_size sb
                 <= n_groups sb * desc_size sb) by nia.
  assert (zlen img < 2 ^ 62) by apply Hd.
  erewrite bind_Ok by (apply with_super_run; rewrite Hsb; by apply super_block_size_ok).
  erewrite (bind_Ok (lift _)) by (unfold lift; by rewrite gdt_off_ok).
  erewrite bind_Ok by (apply with_super_run; rewrite Hsb; by apply super_group_desc_size_ok).
  rewrite u32_small by lia. rewrite s64_small by lia.
  destruct (__disk_read_ok img (st_disk s) (gdt_off sb + i * desc_size sb) (desc_size sb))
    as (d & Hr & Hd'); [done|lia..|].
  exists d. split; [|done].
  erewrite bind_Ok by (unfold disk_read, on_disk, zoom; by rewrite Hr). done.
Qed.

Lemma super_group_fill_loop_run img sb k (s : fs R) i done_ :
  disk_ok img (st_disk s) -> st_super s = sb -> super_wf sb -> gdt_wf img sb ->
  Z.of_nat (i + k) = n_groups sb -> length done_ = i ->
  st_gdesc s = done_ ++ replicate k [] ->
  exists d, super_group_fill_loop k (Z.of_nat i) s =
    Ok (tt, set_disk d (set_gdesc (done_ ++
      ((fun i => slice (gdt_off sb + Z.of_nat i * desc_size sb) (desc_size sb) img)
        <$> seq i k)) s)) /\ disk_ok img d.
Proof.
  revert s i done_. induction k as [|k IH]; intros s i done_ Hd Hsb Hwf Hg Hik Hlen Hgd.
  - exists (st_disk s). split; [|done]. cbn in Hgd |- *. rewrite <- Hgd. by destruct s.
  - destruct (super_group_fill_step_run img sb s (Z.of_nat i) Hd Hsb Hwf Hg ltac:(lia))
      as (d1 & Hs & Hd1).
    cbn [super_group_fill_loop]. rewrite (bind_Ok _ _ _ _ _ Hs).
    set (x := slice _ _ img). replace (Z.of_nat i + 1) with (Z.of_nat (S i)) by lia.
    edestruct (IH (set_disk d1 (set_gdesc (<[Z.to_nat (Z.of_nat i) := x]> (st_gdesc s)) s))
      (S i) (done_ ++ [x])) as (d & Hr & Hd2); [done..|lia| | |].
    { rewrite length_app, Hlen. cbn. lia. }
    { cbn [st_gdesc set_disk set_gdesc]. rewrite Hgd, Nat2Z.id.
      rewrite insert_app_r_alt by lia. rewrite Hlen, Nat.sub_diag.
      cbn [replicate]. by rewrite <- app_assoc. }
    exists d. split; [|done]. rewrite Hr. cbn [seq fmap list_fmap].
    rewrite <- app_assoc. done.
Qed.

(** Filling the descriptor table. *)
Lemma super_group_fill_run img sb (s : fs R) :
  disk_ok img (st_disk s) -> st_super s = sb -> super_wf sb -> gdt_wf img sb ->
  exists d, super_group_fill s = Ok (0, set_disk d (set_gdesc (gdt img sb) s)) /\
    disk_ok img d.
Proof.
  intros Hd Hsb Hwf Hg. pose proof (n_groups_range sb Hwf). unfold super_group_fill.
  erewrite bind_Ok by (apply with_super_run; rewrite Hsb; by apply super_n_block_groups_ok).
  set (s1 := set_gdesc (replicate (Z.to_nat (n_groups sb)) []) s).
  rewrite (bind_Ok (modify _) _ s tt s1) by done.
  destruct (super_group_fill_loop_run img sb (Z.to_nat (n_groups sb)) s1 0%nat [])
    as (d & Hr & Hd'); [done..|lia|done|done|].
  exists d. split; [|done]. change (Z.of_nat 0) with 0 in Hr.
  rewrite (bind_Ok _ _ _ _ _ Hr). done.
Qed.

(** [super_group_fill] succeeds when the descriptor table lies inside the
    image, and leaves in [gdesc_table] the on-disk descriptors, one per group,
    read with the stride of the descriptor size of the super block. *)
Theorem super_group_fill_ok img sb (s : fs R) :
  disk_ok img (st_disk s) -> st_super s = sb -> super_wf sb -> gdt_wf img sb ->
  exists d, super_group_fill s = Ok (0, set_disk d (set_gdesc (gdt img sb) s)) /\
    disk_ok img d.
Proof. by apply super_group_fill_run. Qed.

(** The byte offset of the inode table of a group, by its descriptor. *)
Definition itable_off (E : env) (g : Z) : Z :=
  match e_gdesc E !! Z.to_nat g with
  | Some gd => le_at 8 4 gd * bsize (e_super E)
  | None => 0
  end.

(** The inode table of a group, or the abort. *)
Lemma itable_offset_run E n :
  super_wf (e_super E) -> e_gdesc E = gdt (e_img E) (e_super E) ->
  gdt_wf (e_img E) (e_super E) -> 0 <= n ->
  let g := n / sb_get "s_inodes_per_group" (e_super E) in
  (g < n_groups (e_super E) ->
   evals E (super_group_inode_table_offset n) (Ok (itable_off E g))) /\
  (n_groups (e_super E) <= g ->
   evals E (super_group_inode_table_offset n) (Err Abort)).
Proof.
  intros Hwf Hgd [Hfit _] Hn g. unfold super_group_inode_table_offset.
  pose proof (wf_ipg _ Hwf) as Hipg. pose proof (n_groups_range _ Hwf) as Hng.
  pose proof (bsize_range _ Hwf) as Hbs. pose proof (desc_size_cases (e_super E)) as Hds.
  assert (Hg : 0 <= g) by (apply Z.div_pos; lia).
  split; intros Hlt;
    (eapply evals_bind; [apply evals_with_super; by apply super_inodes_per_group_ok|]);
    rewrite c_div_pos by lia; epure; fold g;
    (eapply evals_bind; [apply evals_with_super; by apply super_n_block_groups_ok|]).
  - rewrite (proj2 (Z.ltb_lt _ _) Hlt). epure. apply evals_super. intros s (_ & _ & Hs).
    unfold itable_off. rewrite Hs, Hgd. unfold gdt. rewrite list_lookup_fmap.
    rewrite lookup_seq_lt by lia. cbn [fmap option_fmap option_map].
    set (gd := slice _ _ _). 
    assert (Hgl : zlen gd = desc_size (e_super E)).
    { unfold gd. apply zlen_slice; [|lia|].
      - unfold gdt_off. nia.
      - replace (Z.of_nat (0 + Z.to_nat g)) with g by lia. nia. }
    rewrite (fld_ok _ _ 8 U32) by (reflexivity || (cbn [csize]; lia)).
    change (csize U32) with 4. epure.
    eapply evals_bind; [by apply evals_BLOCK_SIZE|]. cbv beta.
    pose proof (le_at_range 8 4 gd ltac:(lia)) as Hr.
    unfold BLOCKS2BYTES. rewrite (u64_small (le_at 8 4 gd)) by lia.
    rewrite u64_small by nia. rewrite s64_small by nia. epure.
  - rewrite (proj2 (Z.ltb_ge _ _) Hlt). apply evals_bind_err. apply (evals_ASSERT _ false).
Qed.

(** For an inode number (counted from 0) whose group has a descriptor,
    [super_group_inode_table_offset] is the block of that descriptor in bytes;
    an inode in the last, partial block group of the file system has none,
    because the number of groups is rounded down, and the assertion aborts. *)
Theorem super_group_inode_table_offset_spec E n :
  super_wf (e_super E) -> e_gdesc E = gdt (e_img E) (e_super E) ->
  gdt_wf (e_img E) (e_super E) -> 0 <= n ->
  let g := n / sb_get "s_inodes_per_group" (e_super E) in
  (g < n_groups (e_super E) ->
   evals E (super_group_inode_table_offset n) (Ok (itable_off E g))) /\
  (n_groups (e_super E) <= g ->
   evals E (super_group_inode_table_offset n) (Err Abort)).
Proof. by apply itable_offset_run. Qed.
End super_facts.
