(* ===== verification/Threads.v ===== *)
(** * Threads of the file system

    libfuse answers requests on several threads, which share the dcache and the
    disk.  The code of a thread is a program that stops at every call into the
    dcache, at every read of the disk and at every use of the other statics
    ([prog]); run by itself it is an ordinary computation ([run_prog]), and as a
    thread every access of the calls to the cells of the cache is a step, as in
    DcacheConc.

    A read of the disk is one step, because [__disk_read] holds a mutex while it
    reads: DiskMutex has its lock and its steps, and shows that they come to
    this.  Nothing writes the super block and the descriptors after op_init. *)
From Stdlib Require Import ZArith Lia Strings.Byte.
From stdpp Require Import base numbers list option gmap relations.
From S2P Require Import Prelude Clib Layout Disk Dcache DcacheConc State.

(** ** Programs *)

Inductive prog (A : Type) : Type :=
| PRet (a : A)
| PFail (e : fault)
| PDisk (where_ size : Z) (k : Z * bytes -> prog A)          (* disk_read *)
| PStatics (k : bytes -> list bytes -> prog A)               (* super, gdesc_table *)
| PInode (entry : option nat) (k : Z -> prog A)              (* dcache_get_inode *)
| PCall (o : op) (k : option nat -> prog A).                 (* dcache_lookup, dcache_insert *)
Arguments PRet {A} a.
Arguments PFail {A} e.
Arguments PDisk {A} where_ size k.
Arguments PStatics {A} k.
Arguments PInode {A} entry k.
Arguments PCall {A} o k.

Definition pure {A B : Type} (r : res A) (k : A -> prog B) : prog B :=
  match r with Ok a => k a | Err e => PFail e end.
Fixpoint pbind {A B : Type} (p : prog A) (f : A -> prog B) : prog B :=
  match p with
  | PRet a => f a
  | PFail e => PFail e
  | PDisk w n k => PDisk w n (fun d => pbind (k d) f)
  | PStatics k => PStatics (fun sb g => pbind (k sb g) f)
  | PInode entry k => PInode entry (fun n => pbind (k n) f)
  | PCall o k => PCall o (fun a => pbind (k a) f)
  end.

(** A thread between two of these, or in a call with its continuation. *)
Inductive thread (A : Type) : Type :=
| Running (p : prog A)
| InCall (o : op) (t : pc) (k : option nat -> prog A).
Arguments Running {A} p.
Arguments InCall {A} o t k.

(** The thread has met undefined behaviour or an abort. *)
Definition failed {A} (x : thread A) : Prop :=
  match x with Running (PFail _) | InCall _ Fault _ => True | _ => False end.
Definition returned {A} (x : thread A) : option A :=
  match x with Running (PRet a) => Some a | _ => None end.

Section program.
Context {R : Type} `{RL : ReadLayer R}.

(** *** By itself *)

Definition call (o : op) : M dcache (option nat) :=
  match o with
  | Insert parent nm len n => dcache_insert parent nm len n
  | Lookup parent nm len => dcache_lookup parent nm len
  end.
Fixpoint run_prog {A} (p : prog A) : M (fs R) A :=
  match p with
  | PRet a => ret a
  | PFail e => fail e
  | PDisk w n k => let* d := disk_read w n in run_prog (k d)
  | PStatics k => let* s := get in run_prog (k (st_super s) (st_gdesc s))
  | PInode entry k => let* n := on_dcache (dcache_get_inode entry) in run_prog (k n)
  | PCall o k => let* a := on_dcache (call o) in run_prog (k a)
  end.

Lemma run_pure {A B} (r : res A) (k : A -> prog B) s :
  run_prog (pure r k) s = (let* a := lift r in run_prog (k a)) s.
Proof. by destruct r. Qed.
Lemma run_pbind {A B} (p : prog A) (f : A -> prog B) s :
  run_prog (pbind p f) s = (let* a := run_prog p in run_prog (f a)) s.
Proof.
  revert s. induction p as [a|e|w n k IH|k IH|entry k IH|o k IH]; intros s; cbn [pbind run_prog]; try done;
    rewrite bind_bind; apply bind_ext; intros; apply IH.
Qed.
Lemma on_dcache_bind {A B} (m : M dcache A) (k : A -> M dcache B) (s : fs R) :
  on_dcache (bind m k) s = bind (on_dcache m) (fun a => on_dcache (k a)) s.
Proof. unfold on_dcache, zoom, bind. destruct (m (st_dcache s)) as [[a d]|]; [|done]. by destruct s. Qed.
Lemma on_dcache_lift {A} (r : res A) (s : fs R) : on_dcache (lift r) s = lift r s.
Proof. destruct r; [|done]. by destruct s. Qed.

(** ** Threads *)

Definition thread_step {A} (x : thread A) (s : fs R) : thread A * fs R :=
  match x with
  | Running (PRet _) | Running (PFail _) => (x, s)
  | Running (PDisk w n k) =>
      match disk_read w n s with Ok (d, s') => (Running (k d), s') | Err e => (Running (PFail e), s) end
  | Running (PStatics k) => (Running (k (st_super s) (st_gdesc s)), s)
  | Running (PInode entry k) =>
      match dcache_get_inode entry (st_dcache s) with
      | Ok (n, _) => (Running (k n), s)
      | Err e => (Running (PFail e), s)
      end
  | Running (PCall o k) => (InCall o Start k, s)
  | InCall _ (Return r) k => (Running (k r), s)
  | InCall _ Fault _ => (Running (PFail UB), s)
  | InCall o t k => let r := tstep o t (st_dcache s) in (InCall o (fst r) k, set_dcache (snd r) s)
  end.

Section jobs.
(** What a thread is started for, the program it runs and which jobs come. *)
Context {A J : Type} (start : J -> prog A) (job_ok : J -> Prop).

(** The jobs so far, each with its thread, and the state they share. *)
Definition pool : Type := fs R * list (J * thread A).

Definition run_job (i : nat) (c : pool) : pool :=
  match snd c !! i with
  | Some (j, x) => let r := thread_step x (fst c) in (snd r, <[i := (j, fst r)]> (snd c))
  | None => c
  end.

(** A job comes in, or a thread makes a step. *)
Inductive pool_step : pool -> pool -> Prop :=
| pool_run c i : pool_step c (run_job i c)
| pool_start s ts j : job_ok j -> pool_step (s, ts) (s, ts ++ [(j, Running (start j))]).

Lemma run_jobs_steps sched c : rtc pool_step c (fold_left (fun c i => run_job i c) sched c).
Proof.
  revert c. induction sched as [|i sched IH]; intros c; [done|]. cbn [fold_left].
  eapply rtc_l; [apply pool_run|apply IH].
Qed.
End jobs.

(** ** A thread that runs alone *)

Definition lalone {A} (x y : thread A * fs R) : Prop := y = thread_step (fst x) (snd x).

Lemma lalone_step {A} (x : thread A) s z : rtc lalone (thread_step x s) z -> rtc lalone (x, s) z.
Proof. intros Hz. by eapply rtc_l; [|exact Hz]. Qed.

(** The steps of a call are steps of its thread. *)
Lemma call_alone {A} o (k : option nat -> prog A) (s : fs R) x y :
  rtc (alone o) x y ->
  rtc lalone (InCall o (fst x) k, set_dcache (snd x) s) (InCall o (fst y) k, set_dcache (snd y) s).
Proof.
  induction 1 as [x|[t d] y z [Hrun ->] _ IH]; [done|]. cbn [fst snd] in *. apply lalone_step.
  assert (Hs : thread_step (InCall o t k) (set_dcache d s)
    = (InCall o (fst (tstep o t d)) k, set_dcache (snd (tstep o t d)) s)) by (destruct t; done).
  by rewrite Hs.
Qed.

Lemma call_run o d a d' :
  call o d = Ok (a, d') -> rtc (alone o) (Start, d) (Return a, d').
Proof.
  intros Hc. destruct o as [parent nm len n|parent nm len]; cbn [call] in Hc.
  - destruct (insert_alone parent nm len n d) as (x & Hx & Ho). rewrite Hc in Ho. cbn in Ho. by subst x.
  - unfold dcache_lookup in Hc. rewrite (bind_Ok get _ d d d) in Hc by done.
    destruct (lookup_alone (next_addr d) parent nm len d) as (x & Hx & Ho); [by rewrite Hc|].
    rewrite Hc in Ho. cbn in Ho. by subst x.
Qed.

(** Without interruption a thread does what its program does by itself. *)
Lemma run_prog_alone {A} (p : prog A) (s : fs R) a s' :
  run_prog p s = Ok (a, s') -> rtc lalone (Running p, s) (Running (PRet a), s').
Proof.
  revert s. induction p as [b|e|w n k IH|k IH|entry k IH|o k IH]; intros s Hrun; cbn [run_prog] in Hrun.
  - by injection Hrun as -> ->.
  - done.
  - apply bind_Ok_inv in Hrun as (f & s1 & Hm & Hrun). apply lalone_step. cbn [thread_step]. rewrite Hm. by apply IH.
  - apply lalone_step. cbn [thread_step]. by apply IH.
  - apply bind_Ok_inv in Hrun as (m & s1 & Hm & Hrun). apply lalone_step. cbn [thread_step].
    unfold on_dcache, zoom in Hm. destruct (dcache_get_inode entry (st_dcache s)) as [[j d]|] eqn:Hg; [|done].
    injection Hm as <- <-.
    assert (Hd : d = st_dcache s).
    { unfold dcache_get_inode, bind, deref, ret in Hg. destruct (cells _ !! _); [by injection Hg|done]. }
    rewrite Hd in Hrun. apply IH. by destruct s.
  - apply bind_Ok_inv in Hrun as (b & s1 & Hm & Hrun). apply lalone_step. cbn [thread_step].
    unfold on_dcache, zoom in Hm. destruct (call o (st_dcache s)) as [[b' d]|] eqn:Hc; [|done].
    injection Hm as <- <-. pose proof (call_alone o k s _ _ (call_run _ _ _ _ Hc)) as Hsteps. cbn [fst snd] in Hsteps.
    assert (Hs : set_dcache (st_dcache s) s = s) by (by destruct s). rewrite Hs in Hsteps.
    etrans; [exact Hsteps|]. apply lalone_step. cbn [thread_step]. by apply IH.
Qed.
End program.
Arguments pool R A J : clear implicits.

(** ** Threads are right in every interleaving *)

Lemma grows_trans d1 d2 d3 p1 p2 p3 :
  grows d1 d2 p1 p2 -> grows d2 d3 p2 p3 -> grows d1 d3 p1 p3.
Proof. intros [] []. split; eauto. Qed.

Section good.
Context {R : Type} `{RLO : ReadLayerOk R}.
(** The disk and the statics, and the entries that directories really have. *)
Context (E : env) (edge : Z -> bytes -> Z -> Prop).

(** What a call may answer, as its thread sees it. *)
Definition answer (d : dcache) (o : op) (a : option nat) : Prop :=
  match a with
  | None => no_entry o
  | Some x => exists i m, inode_of d (op_parent o) = Some i /\ inode_of d x = Some m /\
      edge i (op_name o) m /\ match o with Insert _ _ _ n => m = n | Lookup _ _ _ => True end
  end.

Lemma answer_ok d par o a :
  conc_inv edge d par -> thread_ok edge d par (o, Return a) -> answer d o a.
Proof.
  intros Hinv [_ Hpc]. cbn [fst snd] in Hpc. destruct a as [a|]; [|done].
  destruct Hpc as (Hp & Hname & Hino). destruct (ci_par _ _ _ Hinv a _ Hp) as (i & m & nm & H1 & H2 & H3 & H4).
  exists i, m. rewrite Hname in H2. injection H2 as <-. do 3 (split; [done|]). destruct o; [|done].
  cbn in Hino. congruence.
Qed.

(** In the cache [d] and whatever becomes of it the program does not fail, and
    what it returns satisfies [Q] in the cache it returns in. *)
Fixpoint good {A} (p : prog A) (d : dcache) (par : gmap nat nat) (Q : dcache -> A -> Prop) : Prop :=
  match p with
  | PRet a => Q d a
  | PFail _ => False
  | PDisk w n k => inside (e_img E) w n = true /\ good (k (n, slice w n (e_img E))) d par Q
  | PStatics k => good (k (e_super E) (e_gdesc E)) d par Q
  | PInode entry k => exists n, inode_of d (default root entry) = Some n /\ good (k n) d par Q
  | PCall o k => op_ok edge d o /\
      forall d' par' a, grows d d' par par' -> answer d' o a -> good (k a) d' par' Q
  end.

Lemma good_pbind {A B} (p : prog A) (f : A -> prog B) d par Q Q' :
  good p d par Q ->
  (forall d' par' a, grows d d' par par' -> Q d' a -> good (f a) d' par' Q') ->
  good (pbind p f) d par Q'.
Proof.
  revert d par. induction p as [a|e|w n k IH|k IH|entry k IH|o k IH]; intros d par Hp Hf; cbn [pbind good] in *.
  - apply Hf; [apply grows_refl|done].
  - done.
  - destruct Hp as [Hin Hk]. split; [done|]. by apply IH.
  - by apply IH.
  - destruct Hp as (n & Hn & Hk). exists n. split; [done|]. by apply IH.
  - destruct Hp as [Ho Hk]. split; [done|]. intros d' par' a Hg Ha. apply IH; [by apply Hk|].
    intros d2 par2 b Hg2. apply Hf. by eapply grows_trans.
Qed.

Lemma good_mono {A} (p : prog A) d par (Q Q' : dcache -> A -> Prop) :
  good p d par Q -> (forall d a, Q d a -> Q' d a) -> good p d par Q'.
Proof.
  intros Hp HQ. revert d par Hp. induction p; intros d par Hp; cbn [good] in *; naive_solver.
Qed.

Lemma good_grows {A} (p : prog A) d par d' par' (Q : A -> Prop) :
  good p d par (fun _ => Q) -> grows d d' par par' -> good p d' par' (fun _ => Q).
Proof.
  revert d par. induction p as [a|e|w n k IH|k IH|entry k IH|o k IH]; intros d par Hp Hg; cbn [good] in *.
  - done.
  - done.
  - destruct Hp as [Hin Hk]. split; [done|]. by eapply IH.
  - by eapply IH.
  - destruct Hp as (n & Hn & Hk). exists n. split; [by apply Hg|]. by eapply IH.
  - destruct Hp as [Ho Hk]. split; [by eapply op_ok_grows|]. intros d2 par2 a Hg2. apply Hk. by eapply grows_trans.
Qed.

Definition thread_good {A} (d : dcache) (par : gmap nat nat) (x : thread A) (Q : A -> Prop) : Prop :=
  match x with
  | Running p => good p d par (fun _ => Q)
  | InCall o t k => thread_ok edge d par (o, t) /\
      forall d' par' a, grows d d' par par' -> answer d' o a -> good (k a) d' par' (fun _ => Q)
  end.

Lemma thread_good_grows {A} d par (x : thread A) Q d' par' :
  thread_good d par x Q -> grows d d' par par' -> thread_good d' par' x Q.
Proof.
  destruct x as [p|o t k]; [intros Hp Hg; by eapply good_grows|]. intros [Ht Hk] Hg.
  split; [by eapply thread_ok_grows|]. intros d2 par2 a Hg2. apply Hk. by eapply grows_trans.
Qed.

Lemma thread_good_failed {A} d par (x : thread A) Q : thread_good d par x Q -> ~ failed x.
Proof.
  destruct x as [[]|o [] k]; cbn; try tauto. unfold thread_ok. cbn. tauto.
Qed.
Lemma thread_good_returned {A} d par (x : thread A) Q a :
  thread_good d par x Q -> returned x = Some a -> Q a.
Proof. destruct x as [[]|]; try done. cbn. by intros ? [= <-]. Qed.

(** The shared state: the disk and the statics are those of [E], the cache is
    right and its root stands for the inode [ri]. *)
Definition shared_ok (ri : Z) (s : fs R) (par : gmap nat nat) : Prop :=
  st_env E s /\ conc_inv edge (st_dcache s) par /\ inode_of (st_dcache s) root = Some ri.

Lemma thread_step_ok {A} ri s par (x : thread A) Q :
  shared_ok ri s par -> thread_good (st_dcache s) par x Q ->
  let y := thread_step x s in
  exists par', shared_ok ri (snd y) par' /\ grows (st_dcache s) (st_dcache (snd y)) par par' /\
    thread_good (st_dcache (snd y)) par' (fst y) Q.
Proof.
  intros (Henv & Hinv & Hroot) Hx.
  assert (Hsame : forall p, good p (st_dcache s) par (fun _ => Q) -> let y := (Running p, s) in
    exists par', shared_ok ri (snd y) par' /\ grows (st_dcache s) (st_dcache (snd y)) par par' /\
      thread_good (st_dcache (snd y)) par' (fst y) Q)
    by (intros p Hp; exists par; split; [done|]; split; [apply grows_refl|done]).
  destruct x as [[a|e|w n k|k|entry k|o k]|o t k]; cbn [thread_good good] in Hx; cbn [thread_step].
  - by apply Hsame.
  - done.
  - destruct Hx as [Hin Hk]. destruct (evals_run E _ _ s (evals_inside E w n Hin) Henv) as (dk & Hrun & Hok).
    rewrite Hrun. exists par. split; [split; [by apply set_disk_env|done]|]. split; [apply grows_refl|done].
  - destruct Henv as (Hd & Hsb & Hg). rewrite Hsb, Hg. by apply Hsame.
  - destruct Hx as (n & Hn & Hk). destruct (inode_of_cell _ _ _ Hn) as (c & Hc & Hci).
    assert (Hg : dcache_get_inode entry (st_dcache s) = Ok (n, st_dcache s))
      by (unfold dcache_get_inode; rewrite (bind_Ok _ _ _ _ _ (deref_ok _ _ _ Hc)); by rewrite <- Hci).
    rewrite Hg. by apply Hsame.
  - destruct Hx as [Ho Hk]. exists par. split; [done|]. split; [apply grows_refl|]. split; [by split|exact Hk].
  - destruct Hx as [Ht Hk].
    destruct (tstep_ok edge (st_dcache s) par o t Hinv Ht) as (par' & Hinv' & Hg & Hpc).
    assert (Hstep : running t = true -> let y := (InCall o (fst (tstep o t (st_dcache s))) k,
        set_dcache (snd (tstep o t (st_dcache s))) s) in
      exists par', shared_ok ri (snd y) par' /\ grows (st_dcache s) (st_dcache (snd y)) par par' /\
        thread_good (st_dcache (snd y)) par' (fst y) Q).
    { intros _. exists par'. split; [split; [done|split; [done|by apply Hg]]|]. split; [done|].
      split; [split; [by eapply op_ok_grows, Ht|done]|]. intros d2 par2 a Hg2. apply Hk. by eapply grows_trans. }
    destruct t as [| | | | | | | | | | | | | |a|]; try by apply Hstep.
    + apply Hsame, Hk; [apply grows_refl|]. exact (answer_ok _ _ _ _ Hinv Ht).
    + by destruct Ht.
Qed.

(** *** Pools *)

Section pools.
Context {A J : Type} (start : J -> prog A) (job_ok : J -> Prop) (Q : J -> A -> Prop) (ri : Z).
(** Every job is good wherever it starts. *)
Context (Hstart : forall j d par, job_ok j -> inode_of d root = Some ri ->
  good (start j) d par (fun _ => Q j)).

Definition pool_ok (c : pool R A J) : Prop :=
  exists par, shared_ok ri (fst c) par /\
    Forall (fun jx => thread_good (st_dcache (fst c)) par (snd jx) (Q (fst jx))) (snd c).

Lemma pool_ok_step c c' : pool_ok c -> pool_step start job_ok c c' -> pool_ok c'.
Proof.
  intros (par & Hs & Hts) Hst. destruct Hst as [[s ts] i|s ts j Hj]; cbn [fst snd] in *.
  - unfold run_job. cbn [fst snd]. destruct (ts !! i) as [[j x]|] eqn:Hi; [|by exists par].
    pose proof Hts as Hall. rewrite Forall_lookup in Hall. pose proof (Hall i _ Hi) as Hx.
    destruct (thread_step_ok ri s par x (Q j) Hs Hx) as (par' & Hs' & Hg & Hy). exists par'. split; [done|].
    apply Forall_insert; [|done]. eapply Forall_impl; [exact Hts|].
    intros jx Hq. exact (thread_good_grows _ _ _ _ _ _ Hq Hg).
  - exists par. split; [done|]. apply Forall_app. split; [done|]. apply Forall_singleton. cbn.
    apply Hstart; [done|apply Hs].
Qed.

(** A mounted file system before the first job. *)
Definition just_mounted (s : fs R) : Prop := st_env E s /\ st_dcache s = init_cells ri.

Lemma pool_ok_init s0 : ri <> 0 -> just_mounted s0 -> pool_ok (s0, []).
Proof.
  intros Hri [Henv Hd]. destruct (config_ok_init edge ri Hri) as (par & Hinv & _).
  exists par. split; [|constructor]. cbn [fst]. split; [done|]. rewrite Hd. by split.
Qed.
Lemma pool_ok_reach c c' : pool_ok c -> rtc (pool_step start job_ok) c c' -> pool_ok c'.
Proof. intros Hc Hs. revert Hc. induction Hs as [|c c1 c2 Hst _ IH]; [done|]. intros Hc. by eapply IH, pool_ok_step. Qed.

(** Whatever the threads did: none has failed, and what was returned is right. *)
Lemma pool_ok_thread s ts j x :
  pool_ok (s, ts) -> (j, x) ∈ ts -> ~ failed x /\ forall a, returned x = Some a -> Q j a.
Proof.
  intros (par & _ & Hts) Hx. rewrite Forall_forall in Hts. specialize (Hts _ Hx). cbn [fst snd] in Hts.
  split; [by eapply thread_good_failed|]. intros a. by eapply thread_good_returned.
Qed.
Lemma pool_safe s0 s ts j x :
  ri <> 0 -> just_mounted s0 -> rtc (pool_step start job_ok) (s0, []) (s, ts) -> (j, x) ∈ ts ->
  ~ failed x /\ forall a, returned x = Some a -> Q j a.
Proof.
  intros Hri H0 Hs. apply (pool_ok_thread s). eapply pool_ok_reach; [by apply pool_ok_init|done].
Qed.
End pools.
End good.
