(* ===== verification/DiskMutex.v ===== *)
(** * fs/ext4/disk.c: the mutex of [__disk_read]

    Threads takes a read of the disk as one step.  Here it is the steps of the
    code: the assertion, waiting for [read_lock], the read, the unlocking and the
    check of the count.  The read itself is not atomic: it works on the disk as
    it was when the lock was taken and leaves its result when it ends, so what
    another thread did to the disk meanwhile would be lost.  The lock is what
    makes a pool with these steps one of Threads. *)
From Stdlib Require Import ZArith Lia Strings.Byte.
From stdpp Require Import base numbers list option gmap relations.
From S2P Require Import Prelude Clib Layout Disk Dcache DcacheConc State Threads.

Section mutex.
Context {R : Type} `{RL : ReadLayer R}.

(** A thread, by where it is with [__disk_read]. *)
Inductive mthread (A : Type) : Type :=
| Outside (x : thread A)
| Waiting (where_ size : Z) (k : Z * bytes -> prog A)
| Reading (where_ size : Z) (k : Z * bytes -> prog A) (d : disk R)
| Unlocking (size : Z) (pread_ret : Z * bytes) (k : Z * bytes -> prog A).
Arguments Outside {A} x.
Arguments Waiting {A} where_ size k.
Arguments Reading {A} where_ size k d.
Arguments Unlocking {A} size pread_ret k.

(** The statics and [read_lock], with the thread that holds it. *)
Definition mstate : Type := fs R * option nat.

(** What the thread does after the unlocking. *)
Definition checked {A} (size : Z) (pread_ret : Z * bytes) (k : Z * bytes -> prog A) : thread A :=
  Running (if u64 (fst pread_ret) =? size then k (s32 (fst pread_ret), snd pread_ret) else PFail Abort).

(** A step of thread [i]; a thread that waits for the lock does not move. *)
Definition mthread_step {A} (i : nat) (x : mthread A) (s : mstate) : mthread A * mstate :=
  match x with
  | Outside (Running (PDisk w n k)) =>
      if 0 <=? disk_fd (st_disk (fst s)) then (Waiting w n k, s) else (Outside (Running (PFail Abort)), s)
  | Outside x => let r := thread_step x (fst s) in (Outside (fst r), (snd r, snd s))
  | Waiting w n k =>
      match snd s with
      | Some _ => (x, s)
      | None => (Reading w n k (st_disk (fst s)), (fst s, Some i))
      end
  | Reading w n k d =>
      match pread_wrapper n w d with
      | Ok (r, d') => (Unlocking n r k, (set_disk d' (fst s), snd s))
      | Err e => (Outside (Running (PFail e)), s)
      end
  | Unlocking n r k => (Outside (checked n r k), (fst s, None))
  end.

Definition mfailed {A} (x : mthread A) : Prop :=
  match x with Outside x => failed x | _ => False end.
Definition mreturned {A} (x : mthread A) : option A :=
  match x with Outside x => returned x | _ => None end.

(** ** Pools *)

Section jobs.
Context {A J : Type} (start : J -> prog A) (job_ok : J -> Prop).

Definition mpool : Type := mstate * list (J * mthread A).

Definition run_mjob (i : nat) (c : mpool) : mpool :=
  match snd c !! i with
  | Some (j, x) => let r := mthread_step i x (fst c) in (snd r, <[i := (j, fst r)]> (snd c))
  | None => c
  end.

Inductive mpool_step : mpool -> mpool -> Prop :=
| mpool_run c i : mpool_step c (run_mjob i c)
| mpool_start s ts j : job_ok j -> mpool_step (s, ts) (s, ts ++ [(j, Outside (Running (start j)))]).

Lemma run_mjobs_steps sched c : rtc mpool_step c (fold_left (fun c i => run_mjob i c) sched c).
Proof.
  revert c. induction sched as [|i sched IH]; intros c; [done|]. cbn [fold_left].
  eapply rtc_l; [apply mpool_run|apply IH].
Qed.

(** ** The same pool with reads in one step

    The step is the one that ends the read. *)
Definition erase (x : mthread A) : thread A :=
  match x with
  | Outside x => x
  | Waiting w n k | Reading w n k _ => Running (PDisk w n k)
  | Unlocking n r k => checked n r k
  end.
Definition erase_job (jx : J * mthread A) : J * thread A := (fst jx, erase (snd jx)).
Definition erase_pool (c : mpool) : pool R A J := (fst (fst c), erase_job <$> snd c).

(** Who is between the locking and the unlocking. *)
Definition inside_lock (x : mthread A) : bool :=
  match x with Reading _ _ _ _ | Unlocking _ _ _ => true | _ => false end.
(** The assertion has been passed and the read not ended. *)
Definition asserted (x : mthread A) : bool :=
  match x with Waiting _ _ _ | Reading _ _ _ _ => true | _ => false end.

(** Mutual exclusion: the lock is held by the thread that is inside.  The disk
    is open for those who asserted it, and the one who reads sees it as it is. *)
Record mutex_ok (c : mpool) : Prop := {
  mx_inside : forall i j x, snd c !! i = Some (j, x) ->
    inside_lock x = true <-> snd (fst c) = Some i;
  mx_owner : forall i, snd (fst c) = Some i -> is_Some (snd c !! i);
  mx_disk : forall i j w n k d, snd c !! i = Some (j, Reading w n k d) -> d = st_disk (fst (fst c));
  mx_fd : forall i j x, snd c !! i = Some (j, x) -> asserted x = true ->
    0 <= disk_fd (st_disk (fst (fst c))) }.

(** *** One step *)

Lemma mutex_ok_insert s l s' l' ts i j (x y : mthread A) :
  mutex_ok ((s, l), ts) -> ts !! i = Some (j, x) ->
  inside_lock y = true <-> l' = Some i ->
  l' = l \/ (l = None /\ l' = Some i) \/ (l = Some i /\ l' = None) ->
  st_disk s' = st_disk s \/ (l = Some i /\ disk_fd (st_disk s') = disk_fd (st_disk s)) ->
  (forall w n k d, y = Reading w n k d -> d = st_disk s') ->
  (asserted y = true -> 0 <= disk_fd (st_disk s')) ->
  mutex_ok ((s', l'), <[i := (j, y)]> ts).
Proof.
  intros [Hin Hown Hd Hfd] Hi Hy Hl Hs Hread Has. cbn [fst snd] in *.
  pose proof (lookup_lt_Some _ _ _ Hi) as Hlt.
  assert (Hfd' : disk_fd (st_disk s') = disk_fd (st_disk s)) by (destruct Hs as [->|[_ Hs]]; done).
  assert (Hother : forall i' j' z, <[i:=(j, y)]> ts !! i' = Some (j', z) ->
    (i' = i /\ z = y) \/ (i' <> i /\ ts !! i' = Some (j', z))).
  { intros i' j' z. destruct (decide (i' = i)) as [->|Hne].
    - rewrite list_lookup_insert_eq by done. intros [= <- <-]. by left.
    - rewrite list_lookup_insert_ne by done. by right. }
  split; cbn [fst snd].
  - intros i' j' z [[-> ->]|[Hne Hz]]%Hother; [done|]. rewrite (Hin _ _ _ Hz).
    destruct Hl as [->|[[-> ->]|[-> ->]]]; [done|split; congruence..].
  - intros i' Hi'. apply lookup_lt_is_Some. rewrite length_insert.
    destruct Hl as [->|[[_ ->]|[_ ->]]]; [by apply lookup_lt_is_Some, Hown|by injection Hi' as <-|done].
  - intros i' j' w n k d [[_ <-]|[Hne Hz]]%Hother; [by eapply Hread|].
    rewrite (Hd _ _ _ _ _ _ Hz). destruct Hs as [->|[Hli _]]; [done|].
    pose proof (proj1 (Hin _ _ _ Hz) eq_refl). congruence.
  - intros i' j' z [[_ ->]|[Hne Hz]]%Hother Hz'; [by apply Has|]. rewrite Hfd'. by eapply Hfd.
Qed.
End jobs.
Arguments mpool A J : clear implicits.

(** [__disk_read] by its parts. *)
Lemma disk_read_parts w n (s : fs R) :
  disk_read w n s =
  if 0 <=? disk_fd (st_disk s) then
    match pread_wrapper n w (st_disk s) with
    | Ok (r, d') => if u64 (fst r) =? n then Ok ((s32 (fst r), snd r), set_disk d' s) else Err Abort
    | Err e => Err e
    end
  else Err Abort.
Proof.
  unfold disk_read, on_disk, zoom, __disk_read. rewrite (bind_Ok get _ _ (st_disk s) (st_disk s)) by done.
  destruct (0 <=? _); [|done]. rewrite (bind_Ok (ASSERT true) _ _ tt (st_disk s)) by done. unfold bind.
  destruct (pread_wrapper _ _ _) as [[r d']|]; [|done]. by destruct (u64 (fst r) =? n).
Qed.

Lemma pread_fd n w (d d' : disk R) r : pread_wrapper n w d = Ok (r, d') -> disk_fd d' = disk_fd d.
Proof.
  unfold pread_wrapper, _pread. destruct (disk_file d); [|done].
  destruct (rl_read_wrapper _ _ _) as [[[c data] [f' r']]|]; [|done]. by intros [= _ <-].
Qed.

Definition reads_disk {A} (x : thread A) : bool :=
  match x with Running (PDisk _ _ _) => true | _ => false end.
Lemma thread_step_disk {A} (x : thread A) (s : fs R) :
  reads_disk x = false -> st_disk (snd (thread_step x s)) = st_disk s.
Proof.
  destruct x as [[| | | |entry k|]|o t k]; try done; intros _; cbn [thread_step].
  - by destruct (dcache_get_inode _ _) as [[]|].
  - by destruct t.
Qed.
Lemma mthread_step_outside {A} i (x : thread A) (s : mstate) :
  reads_disk x = false ->
  mthread_step i (Outside x) s = (Outside (fst (thread_step x (fst s))), (snd (thread_step x (fst s)), snd s)).
Proof. by destruct x as [[]|]. Qed.

(** Only [__disk_read] uses the lock. *)
Lemma outside_lock {A} i (x : thread A) (s : mstate) : snd (snd (mthread_step i (Outside x) s)) = snd s.
Proof.
  destruct (reads_disk x) eqn:Hx; [|by rewrite mthread_step_outside].
  destruct x as [[]|]; try done. cbn [mthread_step]. by destruct (0 <=? _).
Qed.

(** ** A thread that runs alone *)

Definition malone {A} (x y : mthread A * mstate) : Prop := exists i, y = mthread_step i (fst x) (snd x).

Lemma malone_step {A} i (x : mthread A) s z : rtc malone (mthread_step i x s) z -> rtc malone (x, s) z.
Proof. intros Hz. eapply rtc_l; [by exists i|exact Hz]. Qed.

Lemma failed_alone {A} (x : thread A) (s : fs R) z :
  rtc lalone (x, s) z -> failed x -> failed (fst z).
Proof.
  intros Hs. remember (x, s) as y eqn:Hy. revert x s Hy.
  induction Hs as [y|y y1 z Hst _ IH]; intros x s -> Hf; [done|].
  apply (IH (fst y1) (snd y1)); [by destruct y1|]. rewrite Hst. cbn [fst snd].
  by destruct x as [[]|? [] ?].
Qed.

(** Without interruption the lock is free when the thread wants it, and the
    steps are those of Threads. *)
Lemma lalone_malone {A} (x : thread A) (s : fs R) a s' :
  rtc lalone (x, s) (Running (PRet a), s') ->
  rtc malone (Outside x, (s, None)) (Outside (Running (PRet a)), (s', None)).
Proof.
  intros Hs. remember (x, s) as y eqn:Hy. remember (Running (PRet a), s') as z eqn:Hz. revert x s Hy.
  induction Hs as [y|y y1 z Hst Hs IH]; intros x s Hy.
  { rewrite Hz in Hy. by injection Hy as <- <-. }
  subst. unfold lalone in Hst. cbn [fst snd] in Hst. specialize (IH eq_refl (fst y1) (snd y1) ltac:(by destruct y1)).
  subst y1. apply (malone_step 0). destruct (reads_disk x) eqn:Hx; [|by rewrite mthread_step_outside].
  destruct x as [[| |w n k| | |]|]; try done. cbn [thread_step] in *. rewrite disk_read_parts in *.
  assert (Hfail : forall e, ~ rtc lalone (Running (PFail e), s) (Running (PRet a), s'))
    by (intros e Hr; by apply failed_alone in Hr).
  cbn [mthread_step fst]. destruct (0 <=? disk_fd (st_disk s)) eqn:H0; [|by destruct (Hfail _ Hs)].
  do 2 apply (malone_step 0). cbn [mthread_step fst snd].
  destruct (pread_wrapper n w (st_disk s)) as [[r d']|e]; [|by destruct (Hfail _ Hs)].
  apply (malone_step 0). cbn [mthread_step fst snd]. unfold checked.
  destruct (u64 (fst r) =? n); [exact IH|by destruct (Hfail _ Hs)].
Qed.

Section simulation.
Context {A J : Type} (start : J -> prog A) (job_ok : J -> Prop).

Lemma erase_insert (ts : list (J * mthread A)) i j (y : mthread A) :
  erase_job <$> <[i := (j, y)]> ts = <[i := (j, erase y)]> (erase_job <$> ts).
Proof. by rewrite list_fmap_insert. Qed.
(** The steps that do not show. *)
Lemma erase_same (ts : list (J * mthread A)) i j (x y : mthread A) :
  ts !! i = Some (j, x) -> erase y = erase x -> erase_job <$> <[i := (j, y)]> ts = erase_job <$> ts.
Proof.
  intros Hi He. rewrite erase_insert, He. apply list_insert_id. by rewrite list_lookup_fmap, Hi.
Qed.

Definition none_failed (c : pool R A J) : Prop := Forall (fun jx => ~ failed (snd jx)) (snd c).

Lemma run_job_erased i (s : mstate) (ts : list (J * mthread A)) j x :
  ts !! i = Some (j, x) ->
  run_job i (erase_pool (s, ts))
  = (snd (thread_step (erase x) (fst s)), <[i := (j, fst (thread_step (erase x) (fst s)))]> (erase_job <$> ts)).
Proof. intros Hi. unfold run_job, erase_pool. cbn [fst snd]. by rewrite list_lookup_fmap, Hi. Qed.

Lemma failed_there i (s : fs R) ts (j : J) (y : thread A) :
  (i < length ts)%nat -> none_failed (s, <[i := (j, y)]> ts) -> ~ failed y.
Proof.
  intros Hlt Hn. unfold none_failed in Hn. rewrite Forall_lookup in Hn. cbn [snd] in Hn.
  by apply (Hn i (j, y)), list_lookup_insert_eq.
Qed.

(** A step is none of the pool with reads in one step, or one of it. *)
Lemma run_mjob_sim i (c : mpool A J) :
  mutex_ok c -> none_failed (run_job i (erase_pool c)) ->
  mutex_ok (run_mjob i c) /\
  (erase_pool (run_mjob i c) = erase_pool c \/ erase_pool (run_mjob i c) = run_job i (erase_pool c)).
Proof.
  destruct c as [[s l] ts]. intros Hok Hn. unfold run_mjob. cbn [fst snd].
  destruct (ts !! i) as [[j x]|] eqn:Hi; [|split; [done|by left]].
  rewrite (run_job_erased i (s, l) ts j x Hi) in Hn |- *. cbn [fst] in *.
  pose proof (lookup_lt_Some _ _ _ Hi) as Hlt. pose proof (mx_inside _ Hok i j x Hi) as Hin.
  pose proof (mx_fd _ Hok i j x Hi) as Hfd. cbn [fst snd] in Hin, Hfd.
  destruct x as [x|w n k|w n k d|n r k].
  - destruct (reads_disk x) eqn:Hx.
    + destruct x as [[| |w n k| | |]|]; try done. cbn [erase thread_step] in *. rewrite disk_read_parts in *.
      destruct (Z.leb_spec 0 (disk_fd (st_disk s))) as [H0|H0]; cbn [mthread_step fst snd].
      * rewrite (proj2 (Z.leb_le _ _) H0). split; [eapply mutex_ok_insert; eauto; done|].
        left. unfold erase_pool. cbn [fst snd]. by rewrite (erase_same ts i j (Outside (Running (PDisk w n k)))).
      * exfalso. cbn in Hn. eapply failed_there; [|exact Hn|done]. by rewrite length_fmap.
    + rewrite mthread_step_outside by done. cbn [fst snd erase] in *.
      pose proof (thread_step_disk x s Hx) as Hd.
      split; [eapply mutex_ok_insert; eauto; done|right]. unfold erase_pool. cbn [fst snd]. by rewrite erase_insert.
  - cbn [mthread_step fst snd]. destruct l as [o|]; cbn [fst snd].
    + split; [|left]; rewrite list_insert_id by done; done.
    + split; [|left; unfold erase_pool; cbn [fst snd]; by rewrite (erase_same ts i j (Waiting w n k))].
      eapply mutex_ok_insert; [exact Hok|exact Hi|done|by right; left|by left|congruence|auto].
  - pose proof (mx_disk _ Hok i j w n k d Hi) as ->. cbn [mthread_step erase thread_step fst snd] in *.
    specialize (Hfd eq_refl). rewrite disk_read_parts, (proj2 (Z.leb_le _ _) Hfd) in *.
    destruct (pread_wrapper n w (st_disk s)) as [[r d']|e] eqn:Hr.
    2:{ exfalso. cbn in Hn. eapply failed_there; [|exact Hn|done]. by rewrite length_fmap. }
    destruct (u64 (fst r) =? n) eqn:Hc.
    2:{ exfalso. cbn in Hn. eapply failed_there; [|exact Hn|done]. by rewrite length_fmap. }
    cbn [fst snd]. split.
    + eapply mutex_ok_insert; [exact Hok|exact Hi|exact Hin|by left| |done|done]. right. split; [by apply Hin|]. by apply pread_fd in Hr.
    + right. unfold erase_pool. cbn [fst snd]. rewrite erase_insert. unfold erase, checked. by rewrite Hc.
  - cbn [mthread_step fst snd]. split.
    + eapply mutex_ok_insert; [exact Hok|exact Hi|done| |by left|done|done]. right. right. split; [by apply Hin|done].
    + left. unfold erase_pool. cbn [fst snd]. by rewrite (erase_same ts i j (Unlocking n r k)).
Qed.

Lemma mutex_ok_start s ts j :
  mutex_ok (s, ts) -> mutex_ok (s, ts ++ [(j : J, Outside (Running (start j)))]).
Proof.
  intros [Hin Hown Hd Hfd]. cbn [fst snd] in *.
  assert (Hcase : forall i j' x, (ts ++ [(j, Outside (Running (start j)))]) !! i = Some (j', x) ->
    ts !! i = Some (j', x) \/ (ts !! i = None /\ x = Outside (Running (start j)))).
  { intros i j' x. destruct (decide (i < length ts)%nat) as [Hlt|Hge].
    - rewrite lookup_app_l by done. by left.
    - rewrite lookup_app_r by lia. intros [_ [= <- <-]]%list_lookup_singleton_Some. right.
      split; [apply lookup_ge_None; lia|done]. }
  split; cbn [fst snd].
  - intros i j' x [Hi|[Hi ->]]%Hcase; [by apply (Hin _ _ _ Hi)|]. split; [done|].
    intros Ho. apply Hown in Ho. rewrite Hi in Ho. by destruct Ho.
  - intros i Ho. destruct (Hown i Ho) as [jx Hi]. exists jx. by apply lookup_app_l_Some.
  - intros i j' w n k d [Hi|[_ ?]]%Hcase; [by eapply Hd|done].
  - intros i j' x [Hi|[_ ->]]%Hcase; [by eapply Hfd|done].
Qed.

Lemma mpool_step_sim c c' :
  (forall c2, pool_step start job_ok (erase_pool c) c2 -> none_failed c2) ->
  mutex_ok c -> mpool_step start job_ok c c' ->
  mutex_ok c' /\ rtc (pool_step start job_ok) (erase_pool c) (erase_pool c').
Proof.
  intros Hn Hok Hst. destruct Hst as [c i|s ts j Hj].
  - destruct (run_mjob_sim i c Hok) as [Hok' [->| ->]]; [apply Hn, pool_run|done|].
    split; [done|]. apply rtc_once, pool_run.
  - split; [by apply mutex_ok_start|]. apply rtc_once. unfold erase_pool. cbn [fst snd].
    rewrite fmap_app. by apply pool_start.
Qed.

Lemma mpool_steps_sim c c' :
  (forall c2, rtc (pool_step start job_ok) (erase_pool c) c2 -> none_failed c2) ->
  mutex_ok c -> rtc (mpool_step start job_ok) c c' ->
  mutex_ok c' /\ rtc (pool_step start job_ok) (erase_pool c) (erase_pool c').
Proof.
  intros Hn Hok Hsteps. revert Hn Hok. induction Hsteps as [c|c c1 c2 Hst _ IH]; intros Hn Hok; [done|].
  destruct (mpool_step_sim c c1) as [Hok1 Hs1]; [by intros; apply Hn, rtc_once|done|done|].
  destruct IH as [Hok2 Hs2]; [intros c3 H3; apply Hn; by etrans|done|]. split; [done|by etrans].
Qed.

Lemma mutex_ok_init (s : fs R) : mutex_ok (((s, None), []) : mpool A J).
Proof. by split. Qed.

(** The thread that holds the lock gives it back. *)
Lemma mutex_released i (c : mpool A J) :
  mutex_ok c -> none_failed (run_job i (erase_pool c)) -> snd (fst c) = Some i ->
  snd (fst (run_mjob i (run_mjob i c))) = None.
Proof.
  destruct c as [[s l] ts]. cbn [fst snd]. intros Hok Hn ->.
  destruct (mx_owner _ Hok i eq_refl) as [[j x] Hi]. cbn [snd] in Hi.
  pose proof (proj2 (mx_inside _ Hok i j x Hi) eq_refl) as Hin.
  assert (Hlt : (i < length ts)%nat) by by eapply lookup_lt_Some.
  rewrite (run_job_erased i (s, Some i) ts j x Hi) in Hn. unfold run_mjob at 2. cbn [fst snd]. rewrite Hi.
  destruct x as [x|w n k|w n k d|n r k]; try done.
  - pose proof (mx_disk _ Hok i j w n k d Hi) as ->. pose proof (mx_fd _ Hok i j _ Hi eq_refl) as Hfd.
    cbn [mthread_step erase thread_step fst snd] in *. rewrite disk_read_parts, (proj2 (Z.leb_le _ _) Hfd) in Hn.
    destruct (pread_wrapper n w (st_disk s)) as [[r d']|e] eqn:Hr.
    + unfold run_mjob. cbn [fst snd]. by rewrite list_lookup_insert_eq.
    + exfalso. cbn in Hn. eapply failed_there; [|exact Hn|done]. by rewrite length_fmap.
  - unfold run_mjob. cbn [mthread_step fst snd]. rewrite list_lookup_insert_eq by done. unfold checked.
    apply (outside_lock i _ (s, None)).
Qed.

(** C5: the mutex of [__disk_read].  Take threads that would never fail if every
    read of the disk were one step.  With the steps of the code, however the
    threads take turns: at most one is inside the lock, no read loses what
    another one did to the disk, and what the threads do is what they do when
    every read is one step.  Whoever has the lock gives it back in two steps. *)
Theorem disk_mutex_refines s c :
  (forall c', rtc (pool_step start job_ok) (s, []) c' -> none_failed c') ->
  rtc (mpool_step start job_ok) ((s, None), []) c ->
  mutex_ok c /\ rtc (pool_step start job_ok) (s, []) (erase_pool c) /\
  forall i, snd (fst c) = Some i -> snd (fst (run_mjob i (run_mjob i c))) = None.
Proof.
  intros Hn Hsteps. destruct (mpool_steps_sim ((s, None), []) c Hn (mutex_ok_init s) Hsteps) as [Hok Hs].
  split; [done|]. split; [done|]. intros i. apply mutex_released; [done|].
  apply Hn. eapply rtc_r; [exact Hs|apply pool_run].
Qed.
End simulation.
End mutex.
Arguments mthread R A : clear implicits.
Arguments mpool R A J : clear implicits.
Arguments Outside {R A} x.
Arguments Waiting {R A} where_ size k.
Arguments Reading {R A} where_ size k d.
Arguments Unlocking {R A} size pread_ret k.

(** ** Pools that are right *)

Section right.
Context {R : Type} `{RLO : ReadLayerOk R}.
Context (E : env) (edge : Z -> bytes -> Z -> Prop).
Context {A J : Type} (start : J -> prog A) (job_ok : J -> Prop) (Q : J -> A -> Prop) (ri : Z).
Context (Hstart : forall j d par, job_ok j -> inode_of d root = Some ri ->
  good E edge (start j) d par (fun _ => Q j)).

Local Abbreviation pool_ok := (pool_ok E edge Q ri).

Lemma pool_ok_none_failed c : pool_ok c -> none_failed c.
Proof.
  destruct c as [s ts]. intros Hok. apply Forall_forall. intros [j x] Hx.
  by destruct (pool_ok_thread E edge Q ri s ts j x Hok Hx).
Qed.

(** The invariant of a pool with the mutex. *)
Definition mpool_ok (c : mpool R A J) : Prop := mutex_ok c /\ pool_ok (erase_pool c).

Lemma mpool_ok_init s0 : ri <> 0 -> just_mounted E ri s0 -> mpool_ok ((s0, None), []).
Proof. intros Hri H0. split; [apply mutex_ok_init|by apply pool_ok_init]. Qed.
Lemma mpool_ok_step c c' : mpool_ok c -> mpool_step start job_ok c c' -> mpool_ok c'.
Proof.
  intros [Hm Hok] Hst. destruct (mpool_step_sim start job_ok c c') as [Hm' Hs]; [|done|done|].
  { intros c2 H2. by eapply pool_ok_none_failed, pool_ok_step. }
  split; [done|]. by eapply pool_ok_reach.
Qed.
Lemma mpool_ok_reach c c' : mpool_ok c -> rtc (mpool_step start job_ok) c c' -> mpool_ok c'.
Proof. intros Hc Hs. revert Hc. induction Hs as [|c c1 c2 Hst _ IH]; [done|]. intros Hc. by eapply IH, mpool_ok_step. Qed.

(** With the mutex no thread fails either, and what is returned is right. *)
Lemma mpool_safe (s0 : fs R) s ts j x :
  ri <> 0 -> just_mounted E ri s0 -> rtc (mpool_step start job_ok) ((s0, None), []) (s, ts) -> (j, x) ∈ ts ->
  ~ mfailed x /\ forall a, mreturned x = Some a -> Q j a.
Proof.
  intros Hri H0 Hsteps Hx.
  destruct (mpool_ok_reach _ _ (mpool_ok_init s0 Hri H0) Hsteps) as [_ Hok].
  destruct (pool_ok_thread E edge Q ri (fst s) (erase_job <$> ts) j (erase x) Hok) as [Hf Hr].
  { apply list_elem_of_fmap. by exists (j, x). }
  destruct x; [by split|naive_solver..].
Qed.
End right.
