(* ===== verification/Reads.v ===== *)
(** * Programs of functions that only read

    Most of the file system reads the statics and the disk and writes neither.
    Such a function has one program of Threads, whatever read layer it runs over:
    [Reads m] gives the program of [m], with the proof that running it is running
    [m].  In the program every call of [__disk_read] is a step of its own; and what
    it computes from the bytes of an image can be said without any read layer
    ([denote]).

    [direct_layer] is the image as its own read layer; what the image holds is
    stated over it, and then holds over any other one ([evals_any]). *)
From Stdlib Require Import ZArith Lia Strings.Byte.
From stdpp Require Import base numbers list option gmap relations.
From S2P Require Import Prelude Clib Layout Disk Dcache DcacheConc State Threads Super.

(** ** The program of a function *)

(** A program without calls into the cache. *)
Fixpoint only_reads {A : Type} (p : prog A) : Prop :=
  match p with
  | PRet _ | PFail _ => True
  | PDisk _ _ k => forall d, only_reads (k d)
  | PStatics k => forall sb g, only_reads (k sb g)
  | PInode _ _ | PCall _ _ => False
  end.

Lemma only_reads_pbind {A B} (p : prog A) (f : A -> prog B) :
  only_reads p -> (forall a, only_reads (f a)) -> only_reads (pbind p f).
Proof. intros Hp Hf. induction p; cbn [only_reads pbind] in *; auto. Qed.
Lemma only_reads_pure {A} (r : res A) : only_reads (pure r PRet).
Proof. by destruct r. Qed.

Class Reads {A : Type} (m : forall R, ReadLayer R -> M (fs R) A) : Type := mkReads {
  reads_of : prog A;
  reads_only : only_reads reads_of;
  reads_run : forall R (RL : ReadLayer R) (s : fs R), run_prog reads_of s = m R RL s }.
Arguments reads_of {A} m {_}.
Arguments reads_only {A} m {_}.
Arguments reads_run {A} m {_} {R RL} s.

Section combinators.
Context {A B : Type}.

Lemma Reads_lift_run (r : res A) R (RL : ReadLayer R) (s : fs R) :
  run_prog (pure r PRet) s = lift r s.
Proof. by destruct r. Qed.
Definition Reads_lift (r : res A) : Reads (fun R (RL : ReadLayer R) => (lift r)) :=
  mkReads _ _ (pure r PRet) (only_reads_pure r) (Reads_lift_run r).

Lemma Reads_ret_run (a : A) R (RL : ReadLayer R) (s : fs R) : run_prog (PRet a) s = ret a s.
Proof. done. Qed.
Definition Reads_ret (a : A) : Reads (fun R (RL : ReadLayer R) => (ret a)) := mkReads _ _ (PRet a) I (Reads_ret_run a).

Lemma Reads_fail_run e R (RL : ReadLayer R) (s : fs R) : run_prog (PFail e : prog A) s = fail e s.
Proof. done. Qed.
Definition Reads_fail e : Reads (fun R (RL : ReadLayer R) => (fail e : M (fs R) A)) :=
  mkReads _ _ (PFail e) I (Reads_fail_run e).

Lemma Reads_bind_run (m : forall R, ReadLayer R -> M (fs R) A)
    (k : A -> forall R, ReadLayer R -> M (fs R) B) (Hm : Reads m) (Hk : forall a, Reads (k a))
    R (RL : ReadLayer R) (s : fs R) :
  run_prog (pbind (reads_of m) (fun a => reads_of (k a))) s = bind (m R RL) (fun a => k a R RL) s.
Proof.
  rewrite run_pbind. unfold bind. rewrite (reads_run m). destruct (m R RL s) as [[a s1]|]; [|done].
  apply (reads_run (k a)).
Qed.
Definition Reads_bind (m : forall R, ReadLayer R -> M (fs R) A)
    (k : A -> forall R, ReadLayer R -> M (fs R) B) (Hm : Reads m) (Hk : forall a, Reads (k a)) :
    Reads (fun R (RL : ReadLayer R) => (bind (m R RL) (fun a => k a R RL))) :=
  mkReads _ _ (pbind (reads_of m) (fun a => reads_of (k a)))
    (only_reads_pbind _ _ (reads_only m) (fun a => reads_only (k a))) (Reads_bind_run m k Hm Hk).

(** Use of the statics. *)
Lemma Reads_statics_run (k : bytes -> list bytes -> forall R, ReadLayer R -> M (fs R) A)
    (Hk : forall sb g, Reads (k sb g)) R (RL : ReadLayer R) (s : fs R) :
  run_prog (PStatics (fun sb g => reads_of (k sb g))) s
  = bind get (fun s => k (st_super s) (st_gdesc s) R RL) s.
Proof. apply (reads_run (k (st_super s) (st_gdesc s))). Qed.
Definition Reads_statics (k : bytes -> list bytes -> forall R, ReadLayer R -> M (fs R) A)
    (Hk : forall sb g, Reads (k sb g)) :
    Reads (fun R (RL : ReadLayer R) => (bind get (fun s => k (st_super s) (st_gdesc s) R RL))) :=
  mkReads _ _ (PStatics (fun sb g => reads_of (k sb g))) (fun sb g => reads_only (k sb g)) (Reads_statics_run k Hk).
End combinators.

Lemma Reads_with_super_run {A} (f : bytes -> res A) R (RL : ReadLayer R) (s : fs R) :
  run_prog (PStatics (fun sb _ => pure (f sb) PRet)) s = with_super f s.
Proof. apply Reads_lift_run. Qed.
Definition Reads_with_super {A} (f : bytes -> res A) : Reads (fun R (RL : ReadLayer R) => (with_super f)) :=
  mkReads _ _ (PStatics (fun sb _ => pure (f sb) PRet)) (fun sb _ => only_reads_pure (f sb)) (Reads_with_super_run f).

Lemma Reads_disk_read_run w n R (RL : ReadLayer R) (s : fs R) :
  run_prog (PDisk w n PRet) s = disk_read w n s.
Proof. cbn [run_prog]. unfold bind. by destruct (disk_read w n s) as [[]|]. Qed.
Definition Reads_disk_read w n : Reads (fun R (RL : ReadLayer R) => (disk_read w n)) :=
  mkReads _ _ (PDisk w n PRet) (fun _ => I) (Reads_disk_read_run w n).

Lemma on_disk_bind {R} `{ReadLayer R} {A B} (m : M (disk R) A) (k : A -> M (disk R) B) (s : fs R) :
  on_disk (bind m k) s = bind (on_disk m) (fun a => on_disk (k a)) s.
Proof. unfold on_disk, zoom, bind. destruct (m (st_disk s)) as [[a d]|]; [|done]. by destruct s. Qed.
Lemma on_disk_lift {R} `{ReadLayer R} {A} (r : res A) (s : fs R) : on_disk (lift r) s = lift r s.
Proof. destruct r; [|done]. by destruct s. Qed.
Lemma on_disk_ASSERT {R} `{ReadLayer R} b (s : fs R) : on_disk (ASSERT b) s = ASSERT b s.
Proof. destruct b; [|done]. by destruct s. Qed.
Lemma on_disk_ret {R} `{ReadLayer R} {A} (a : A) (s : fs R) : on_disk (ret a) s = ret a s.
Proof. by destruct s. Qed.

(** A function that is equal to one whose tree is known. *)
Definition Reads_eq {A} (m m' : forall R, ReadLayer R -> M (fs R) A)
    (He : forall R (RL : ReadLayer R) (s : fs R), m' R RL s = m R RL s) (Hm : Reads m') : Reads m :=
  mkReads _ _ (reads_of m') (reads_only m') (fun R RL s => eq_trans (reads_run m' s) (He R RL s)).

(** The step of [reads]: the construct at the head of a function. *)
Ltac reads_destruct f :=
  let b := eval cbv beta in (f unit (Build_ReadLayer unit tt (fun _ _ => fail UB) (fail UB))) in
  lazymatch b with
  | match ?d with _ => _ end => destruct d; cbv beta iota
  end.
Ltac reads_step :=
  lazymatch goal with
  | |- forall _, _ => intro
  | |- Reads (fun R RL s => bind (@?m R RL) (@?k R RL) s) =>
      change (Reads (fun R RL => bind (m R RL) (k R RL))); cbv beta
  | |- Reads (fun R RL => ret ?a) => exact (Reads_ret a)
  | |- Reads (fun R RL => fail ?e) => exact (Reads_fail e)
  | |- Reads (fun R RL => lift ?r) => exact (Reads_lift r)
  | |- Reads (fun R RL => with_super ?f) => exact (Reads_with_super f)
  | |- Reads (fun R RL => BLOCK_SIZE) => exact (Reads_with_super super_block_size)
  | |- Reads (fun R RL => disk_read ?w ?n) => exact (Reads_disk_read w n)
  | |- Reads (fun R RL => ASSERT ?b) => unfold ASSERT; destruct b; cbv beta iota
  | |- Reads (fun R RL => require ?b) => unfold require; destruct b; cbv beta iota
  | |- Reads (fun R RL => bind (@?m R RL) (fun a => @?k a R RL)) =>
      refine (Reads_bind m k _ _); cbv beta
  | |- Reads ?f => first [typeclasses eauto | progress cbv beta zeta | reads_destruct f]
  end.
Ltac reads := cbv zeta; repeat reads_step.

(** ** disk.h *)

Lemma disk_read_u32_reads where_ R (RL : ReadLayer R) (s : fs R) :
  (let* r := disk_read (s64 where_) 4 in
   do* ASSERT (u64 (fst r) =? 4) in lift (load 0 4 (snd r))) s = on_disk (disk_read_u32 where_) s.
Proof.
  unfold disk_read_u32. rewrite on_disk_bind. apply bind_ext. intros r s1. rewrite on_disk_bind.
  unfold bind. rewrite on_disk_ASSERT. destruct (ASSERT _ s1) as [[u s2]|]; [|done]. by rewrite on_disk_lift.
Qed.
#[export] Instance Reads_disk_read_u32 where_ :
    Reads (fun R (RL : ReadLayer R) => on_disk (disk_read_u32 where_)).
Proof. refine (Reads_eq _ _ (disk_read_u32_reads where_) _). reads. Defined.

Lemma disk_ctx_create_reads where_ size len R (RL : ReadLayer R) (s : fs R) :
  (do* ASSERT (negb (size =? 0)) in ret (0, mkDiskCtx where_ (u64 (size * len)))) s
  = on_disk (disk_ctx_create where_ size len) s.
Proof. unfold disk_ctx_create. by destruct (negb (size =? 0)), s. Qed.
#[export] Instance Reads_disk_ctx_create where_ size len :
    Reads (fun R (RL : ReadLayer R) => on_disk (disk_ctx_create where_ size len)).
Proof. refine (Reads_eq _ _ (disk_ctx_create_reads where_ size len) _). reads. Defined.

Lemma disk_ctx_read_reads ctx size R (RL : ReadLayer R) (s : fs R) :
  (do* ASSERT (negb (ctx_size ctx =? 0)) in
   if ctx_size ctx =? 0 then ret (0, [], ctx) else
   let size := if ctx_size ctx <? size then ctx_size ctx else size in
   let* r := disk_read (ctx_cur ctx) size in
   ret (fst r, snd r, mkDiskCtx (s64 (ctx_cur ctx + fst r)) (u64 (ctx_size ctx - fst r)))) s
  = on_disk (__disk_ctx_read ctx size) s.
Proof.
  unfold __disk_ctx_read. rewrite on_disk_bind. unfold bind at 1 3. rewrite on_disk_ASSERT.
  destruct (ASSERT _ s) as [[u s1]|]; [|done]. destruct (ctx_size ctx =? 0); [by rewrite on_disk_ret|].
  cbv zeta. rewrite on_disk_bind. apply bind_ext. intros. by rewrite on_disk_ret.
Qed.
#[export] Instance Reads_disk_ctx_read ctx size :
    Reads (fun R (RL : ReadLayer R) => on_disk (__disk_ctx_read ctx size)).
Proof. refine (Reads_eq _ _ (disk_ctx_read_reads ctx size) _). reads. Defined.

(** ** What a tree computes from an image *)

(** No read may leave the image, and there is nothing else to the program. *)
Fixpoint denote (E : env) {A : Type} (p : prog A) : res A :=
  match p with
  | PRet a => Ok a
  | PFail e => Err e
  | PDisk w n k => if inside (e_img E) w n then denote E (k (n, slice w n (e_img E))) else Err UB
  | PStatics k => denote E (k (e_super E) (e_gdesc E))
  | PInode _ _ | PCall _ _ => Err UB
  end.

Lemma denote_evals {R} `{RLO : ReadLayerOk R} E {A} (p : prog A) v :
  denote E p = Ok v -> evals E (run_prog p) (Ok v).
Proof.
  revert v. induction p as [a|e|w n k IH|k IH|entry k IH|o k IH]; intros v Hp; cbn [denote run_prog] in *; try done.
  - injection Hp as ->. apply evals_ret.
  - destruct (inside _ w n) eqn:Hin; [|done]. eapply evals_bind; [by apply evals_inside|]. by apply IH.
  - apply evals_super. intros s (_ & -> & ->). by apply IH.
Qed.

(** *** The image as its own read layer *)

Definition direct_layer : ReadLayer unit := {|
  rl_init := tt;
  rl_read_wrapper off n := fun s =>
    if inside (f_content (fst s)) off n then Ok ((n, slice off n (f_content (fst s))), s) else Err UB;
  rl_free_read_wrapper := ret tt |}.

Definition direct_inv (img : bytes) (f : FILE) (r : unit) : Prop := f_content f = img.

Lemma direct_read img f r off n :
  direct_inv img f r -> 0 <= off -> 0 < n < 2 ^ 31 -> off + n <= zlen img ->
  exists f' r', rl_read_wrapper (ReadLayer := direct_layer) off n (f, r)
    = Ok ((n, slice off n img), (f', r')) /\ direct_inv img f' r'.
Proof.
  unfold direct_inv. intros <- H1 H2 H3. exists f, r. cbn [rl_read_wrapper direct_layer fst].
  assert (Hi : inside (f_content f) off n = true) by (apply inside_true; auto). by rewrite Hi.
Qed.
Lemma direct_free img f r : direct_inv img f r -> ret (S := unit) tt r = Ok (tt, tt).
Proof. by destruct r. Qed.
Definition direct_ok : @ReadLayerOk unit direct_layer := {|
  rl_inv := direct_inv; rl_read_ok := direct_read; rl_free_ok := direct_free |}.

Lemma direct_state E : zlen (e_img E) < 2 ^ 62 -> exists s, st_env (RLO := direct_ok) E s.
Proof.
  intros Hl. exists (mkFs (mkDisk 0 (Some (fopen_content (e_img E) None)) tt) (e_super E) (e_gdesc E) dcache_statics).
  split; [|done]. split; [done|]. split; [done|]. by eexists.
Qed.

Lemma direct_disk_read_inv E w n (s s' : fs unit) d :
  st_env (RLO := direct_ok) E s -> disk_read (RL := direct_layer) w n s = Ok (d, s') ->
  inside (e_img E) w n = true.
Proof.
  intros ((Hfd & _ & f & Hf & Hinv) & _) Hrun.
  change (f_content f = e_img E) in Hinv. unfold disk_read, on_disk, zoom, __disk_read in Hrun.
  rewrite (bind_Ok get _ _ (st_disk s) (st_disk s)) in Hrun by done.
  rewrite (proj2 (Z.leb_le _ _) Hfd), (bind_Ok (ASSERT true) _ _ tt (st_disk s)) in Hrun by done.
  unfold pread_wrapper, _pread, bind in Hrun. rewrite Hf in Hrun. cbn [rl_read_wrapper direct_layer fst] in Hrun.
  rewrite Hinv in Hrun. by destruct (inside _ w n).
Qed.

Lemma run_denote E {A} (p : prog A) (s s' : fs unit) v :
  only_reads p -> st_env (RLO := direct_ok) E s -> run_prog (RL := direct_layer) p s = Ok (v, s') ->
  denote E p = Ok v.
Proof.
  revert s. induction p as [a|e|w n k IH|k IH|entry k IH|o k IH]; intros s Hp Hs Hrun;
    cbn [run_prog denote only_reads] in *; try done.
  - by injection Hrun as ->.
  - apply bind_Ok_inv in Hrun as (d & s1 & Hd & Hrun).
    pose proof (direct_disk_read_inv _ _ _ _ _ _ Hs Hd) as Hin. rewrite Hin.
    destruct (evals_run E _ _ s (evals_inside (RLO := direct_ok) E w n Hin) Hs) as (dk & Hd' & Hok).
    rewrite Hd in Hd'. injection Hd' as -> ->. eapply IH; [apply Hp| |exact Hrun]. by apply set_disk_env.
  - destruct Hs as (Hd & Hsb & Hg). rewrite (bind_Ok get _ s s s) in Hrun by done.
    rewrite Hsb, Hg in Hrun. by eapply IH.
Qed.

Section transfer.
Context (E : env) (Himg : zlen (e_img E) < 2 ^ 62).
Context {A : Type} (m : forall R, ReadLayer R -> M (fs R) A) {Hm : Reads m}.

(** What a function gives over the image itself is what its tree computes. *)
Lemma direct_denote v : evals (RLO := direct_ok) E (m unit direct_layer) (Ok v) -> denote E (reads_of m) = Ok v.
Proof.
  intros Hv. destruct (direct_state E Himg) as [s Hs].
  destruct (evals_run (RLO := direct_ok) E _ v s Hv Hs) as (d & Hrun & _).
  rewrite <- (reads_run m) in Hrun. by eapply run_denote, Hrun; [apply reads_only|].
Qed.

(** It gives the same over any read layer that keeps its promise. *)
Lemma evals_any {R} `{RLO : ReadLayerOk R} v :
  evals (RLO := direct_ok) E (m unit direct_layer) (Ok v) -> evals E (m R _) (Ok v).
Proof.
  intros Hv%direct_denote. apply (denote_evals E) in Hv. intros s Hs. rewrite <- (reads_run m). by apply Hv.
Qed.
End transfer.

(** ** Threads that read *)

Lemma run_reads {R} `{RL : ReadLayer R} {A} (m : forall R, ReadLayer R -> M (fs R) A) `{Hm : !Reads m} s :
  run_prog (reads_of m) s = m R RL s.
Proof. apply reads_run. Qed.

Lemma run_pbind_reads {R} `{RL : ReadLayer R} {A B} (m : forall R, ReadLayer R -> M (fs R) A)
    `{Hm : !Reads m} (f : A -> prog B) s :
  run_prog (pbind (reads_of m) f) s = (let* a := m R RL in run_prog (f a)) s.
Proof. rewrite run_pbind. unfold bind. by rewrite run_reads. Qed.

(** The reads of a thread may interleave with the steps of others in any way. *)
Lemma good_denote E edge {A} (p : prog A) d par (Q : dcache -> A -> Prop) v :
  denote E p = Ok v -> Q d v -> good E edge p d par Q.
Proof.
  intros Hp HQ. induction p as [a|e|w n k IH|k IH|entry k IH|o k IH]; cbn [denote good] in *; try done.
  - by injection Hp as ->.
  - destruct (inside _ w n) eqn:Hin; [|done]. split; [done|]. by apply IH.
  - by apply IH.
Qed.

Lemma good_reads E edge {A} (m : forall R, ReadLayer R -> M (fs R) A) `{Hm : !Reads m}
    d par (Q : dcache -> A -> Prop) v :
  zlen (e_img E) < 2 ^ 62 -> evals (RLO := direct_ok) E (m unit direct_layer) (Ok v) -> Q d v ->
  good E edge (reads_of m) d par Q.
Proof. intros Hl Hv. eapply good_denote. by apply direct_denote. Qed.
