(* ===== verification/Progress.v ===== *)
(** * Progress of threads that only read

    A lookup of the cache may turn in a broken ring for ever.  A thread that does
    not call the cache ends: the number of its steps is fixed by what the image
    holds ([cost]), however other threads interleave with it, and it only stands
    still while another thread has the lock of the disk. *)
From Stdlib Require Import ZArith Lia Strings.Byte.
From stdpp Require Import base numbers list option gmap relations.
From S2P Require Import Prelude Clib Layout Disk Dcache DcacheConc State Threads DiskMutex Super Reads.

Section progress.
Context {R : Type} `{RLO : ReadLayerOk R}.
Context (E : env).

(** A read takes four steps: the assertion, the lock, the read, the unlocking. *)
Fixpoint cost {A} (p : prog A) : nat :=
  match p with
  | PDisk w n k => 4 + cost (k (n, slice w n (e_img E)))
  | PStatics k => 1 + cost (k (e_super E) (e_gdesc E))
  | _ => 0
  end.

Definition tcost {A} (x : thread A) : nat := match x with Running p => cost p | InCall _ _ _ => 0 end.
Definition tdenote {A} (x : thread A) : res A :=
  match x with Running p => denote E p | InCall _ _ _ => Err UB end.

(** What is left to do. *)
Definition left_steps {A} (x : mthread R A) : nat :=
  match x with
  | Outside x => tcost x
  | Waiting w n k => 3 + cost (k (n, slice w n (e_img E)))
  | Reading w n k _ => 2 + cost (k (n, slice w n (e_img E)))
  | Unlocking n r k => 1 + tcost (checked n r k)
  end.

Lemma nothing_left {A} (x : mthread R A) v :
  tdenote (erase x) = Ok v -> left_steps x = 0%nat -> x = Outside (Running (PRet v)).
Proof.
  destruct x as [[[]|]|w n k|w n k d|n r k]; cbn [erase tdenote denote left_steps tcost cost]; try done.
  by intros [= ->] _.
Qed.

Section jobs.
Context {A J : Type}.

(** The thread waits for a lock that is taken. *)
Definition blocked (i : nat) (c : mpool R A J) : bool :=
  match snd c !! i, snd (fst c) with
  | Some (_, Waiting _ _ _), Some _ => true
  | _, _ => false
  end.
(** The turns in which the thread was not blocked. *)
Fixpoint moves (i : nat) (sched : list nat) (c : mpool R A J) : nat :=
  match sched with
  | [] => 0
  | i' :: sched' =>
      (if bool_decide (i' = i) && negb (blocked i c) then 1 else 0) + moves i sched' (run_mjob i' c)
  end.

Lemma run_mjob_lookup i (c : mpool R A J) j x :
  snd c !! i = Some (j, x) -> snd (run_mjob i c) !! i = Some (j, fst (mthread_step i x (fst c))).
Proof.
  intros Hi. unfold run_mjob. rewrite Hi. cbn [snd].
  by rewrite list_lookup_insert_eq by by eapply lookup_lt_Some.
Qed.
Lemma run_mjob_other i i' (c : mpool R A J) : i' <> i -> snd (run_mjob i' c) !! i = snd c !! i.
Proof.
  intros Hne. unfold run_mjob. destruct (snd c !! i') as [[j x]|]; [|done]. cbn [snd].
  by rewrite list_lookup_insert_ne.
Qed.

(** The parts of a read inside the image. *)
Lemma disk_read_inside w n (s : fs R) :
  st_env E s -> inside (e_img E) w n = true ->
  0 <= disk_fd (st_disk s) /\ exists r d, pread_wrapper n w (st_disk s) = Ok (r, d) /\
    u64 (fst r) = n /\ (s32 (fst r), snd r) = (n, slice w n (e_img E)).
Proof.
  intros Hs Hin. destruct (evals_run E _ _ s (evals_inside E w n Hin) Hs) as (d & Hrun & _).
  rewrite disk_read_parts in Hrun. destruct (Z.leb_spec 0 (disk_fd (st_disk s))) as [H0|]; [|done].
  split; [done|]. destruct (pread_wrapper n w (st_disk s)) as [[r d']|]; [|done]. exists r, d'.
  destruct (Z.eqb_spec (u64 (fst r)) n) as [Hn|]; [|done]. split; [done|]. split; [done|]. by injection Hrun as -> -> _.
Qed.

(** Each own step is one less, or the thread is blocked. *)
Lemma mthread_step_left i (c : mpool R A J) j x v :
  mutex_ok c -> st_env E (fst (fst c)) -> snd c !! i = Some (j, x) -> tdenote (erase x) = Ok v ->
  let y := fst (mthread_step i x (fst c)) in
  tdenote (erase y) = Ok v /\ left_steps y = (left_steps x - if blocked i c then 0 else 1)%nat.
Proof.
  destruct c as [[s l] ts]. cbn [fst snd]. intros Hok Hs Hi Hv. unfold blocked. cbn [fst snd]. rewrite Hi.
  destruct x as [[[a|e|w n k|k|entry k|o k]|o t k]|w n k|w n k d|n r k]; cbn [erase tdenote denote] in Hv; try done.
  - destruct (inside _ w n) eqn:Hin; [|done]. destruct (disk_read_inside w n s Hs Hin) as [H0 _].
    cbn [mthread_step fst]. rewrite (proj2 (Z.leb_le _ _) H0). cbn [fst erase tdenote denote]. rewrite Hin.
    split; [done|]. cbn [left_steps tcost cost]. lia.
  - destruct Hs as (_ & Hsb & Hg). cbn [mthread_step thread_step fst erase tdenote]. rewrite Hsb, Hg.
    split; [done|]. cbn [left_steps tcost cost]. lia.
  - destruct (inside _ w n) eqn:Hin; [|done]. destruct l; cbn [mthread_step fst snd erase tdenote denote]; rewrite Hin;
      (split; [done|]); cbn [left_steps]; lia.
  - destruct (inside _ w n) eqn:Hin; [|done]. pose proof (mx_disk _ Hok i j w n k d Hi) as ->. cbn [fst].
    destruct (disk_read_inside w n s Hs Hin) as (_ & r & d' & Hr & Hn & He).
    cbn [mthread_step]. rewrite Hr. cbn [fst erase left_steps]. unfold checked.
    rewrite Hn, Z.eqb_refl, He. cbn [tdenote tcost]. split; [done|lia].
  - cbn [mthread_step fst erase left_steps] in *. split; [done|lia].
Qed.
End jobs.
End progress.

Section pools.
Context {R : Type} `{RLO : ReadLayerOk R}.
Context (E : env) (edge : Z -> bytes -> Z -> Prop).
Context {A J : Type} (start : J -> prog A) (job_ok : J -> Prop) (Q : J -> A -> Prop) (ri : Z).
Context (Hstart : forall j d par, job_ok j -> inode_of d root = Some ri ->
  good E edge (start j) d par (fun _ => Q j)).
(** The jobs that only read, with what they give. *)
Context (simple : J -> Prop) (P : J -> A -> Prop).
Context (Hsimple : forall j, job_ok j -> simple j -> exists v, denote E (start j) = Ok v /\ P j v).

Local Abbreviation mpool_ok := (mpool_ok E edge Q ri).

Lemma mpool_ok_env (c : mpool R A J) : mpool_ok c -> st_env E (fst (fst c)).
Proof. by intros [_ (par & (Hs & _) & _)]. Qed.

(** A simple job in a pool. *)
Definition simple_ok (j : J) (x : mthread R A) : Prop :=
  exists v, tdenote E (erase x) = Ok v /\ P j v /\ (left_steps E x <= cost E (start j))%nat.
Definition simple_pool (c : mpool R A J) : Prop :=
  forall i j x, snd c !! i = Some (j, x) -> simple j -> simple_ok j x.

Lemma simple_pool_step c c' :
  mpool_ok c -> simple_pool c -> mpool_step start job_ok c c' -> simple_pool c'.
Proof.
  intros Hok Hp Hst i j x Hi Hj. destruct Hst as [c i'|s ts j' Hj'].
  - destruct (decide (i' = i)) as [->|Hne]; [|rewrite run_mjob_other in Hi by done; by eapply Hp].
    destruct (snd c !! i) as [[j0 x0]|] eqn:H0; [|by unfold run_mjob in Hi; rewrite H0 in Hi; congruence].
    rewrite (run_mjob_lookup i c j0 x0 H0) in Hi. injection Hi as <- <-.
    destruct (Hp i j0 x0 H0 Hj) as (v & Hv & HP & Hc).
    destruct (mthread_step_left E i c j0 x0 v (proj1 Hok) (mpool_ok_env c Hok) H0 Hv) as [Hv' Hl].
    exists v. split; [done|]. split; [done|]. rewrite Hl. lia.
  - cbn [snd] in Hi. apply lookup_app_Some in Hi as [Hi|[_ Hi]]; [by eapply Hp|].
    apply list_lookup_singleton_Some in Hi as [_ [= <- <-]].
    destruct (Hsimple j' Hj' Hj) as (v & Hv & HP). by exists v.
Qed.
Lemma simple_pool_reach c c' :
  mpool_ok c -> simple_pool c -> rtc (mpool_step start job_ok) c c' -> mpool_ok c' /\ simple_pool c'.
Proof.
  intros Hc Hp Hs. revert Hc Hp. induction Hs as [|c c1 c2 Hst _ IH]; [done|]. intros Hc Hp.
  apply IH; [by eapply (mpool_ok_step E edge start)|by eapply simple_pool_step].
Qed.

Lemma moves_left i sched (c : mpool R A J) j x v :
  mpool_ok c -> snd c !! i = Some (j, x) -> tdenote E (erase x) = Ok v ->
  exists y, snd (fold_left (fun c i => run_mjob i c) sched c) !! i = Some (j, y) /\
    tdenote E (erase y) = Ok v /\ left_steps E y = (left_steps E x - moves i sched c)%nat.
Proof.
  revert c x. induction sched as [|i' sched IH]; intros c x Hok Hi Hv; cbn [fold_left moves].
  { exists x. split; [done|]. split; [done|lia]. }
  assert (Hok' : mpool_ok (run_mjob i' c)) by (eapply (mpool_ok_step E edge start job_ok); [done..|apply mpool_run]).
  destruct (decide (i' = i)) as [->|Hne].
  - pose proof (run_mjob_lookup i c j x Hi) as Hi'.
    destruct (mthread_step_left E i c j x v (proj1 Hok) (mpool_ok_env c Hok) Hi Hv) as [Hv' Hl].
    destruct (IH _ _ Hok' Hi' Hv') as (y & Hy & Hd & Hly). exists y. split; [done|]. split; [done|].
    rewrite Hly, Hl. rewrite bool_decide_eq_true_2 by done. destruct (blocked i c); cbn [negb andb]; lia.
  - rewrite <- (run_mjob_other i i' c Hne) in Hi. destruct (IH _ _ Hok' Hi Hv) as (y & Hy & Hd & Hly).
    exists y. split; [done|]. split; [done|]. by rewrite bool_decide_eq_false_2.
Qed.

(** As many moves as its cost take a simple job from anywhere to its end. *)
Lemma simple_ends s0 c i j x sched :
  ri <> 0 -> just_mounted E ri s0 -> rtc (mpool_step start job_ok) ((s0, None), []) c ->
  snd c !! i = Some (j, x) -> simple j -> (cost E (start j) <= moves i sched c)%nat ->
  exists v, snd (fold_left (fun c i => run_mjob i c) sched c) !! i = Some (j, Outside (Running (PRet v))) /\ P j v.
Proof.
  intros Hri H0 Hsteps Hi Hj Hm.
  destruct (simple_pool_reach _ _ (mpool_ok_init E edge Q ri s0 Hri H0) ltac:(done) Hsteps) as [Hok Hp].
  destruct (Hp i j x Hi Hj) as (v & Hv & HP & Hc).
  destruct (moves_left i sched c j x v Hok Hi Hv) as (y & Hy & Hd & Hl).
  exists v. split; [|done]. rewrite Hy. do 2 f_equal. apply (nothing_left E); [done|lia].
Qed.
End pools.
