(* ===== verification/Extents.v ===== *)
(** * fs/ext4/extents.c: from logical to physical blocks through extent trees

    An array of extents with its header is the list of its bytes, as the
    source keeps it: 60 bytes inside the inode, or a block read from the disk.
    The optional result [*len] is threaded through: callers that pass NULL
    ignore it. *)
From Stdlib Require Import ZArith Lia Strings.Byte.
From stdpp Require Import base numbers list option strings.
From S2P Require Import Prelude Clib Layout Disk Dcache State Super.

Definition EH_SIZE : Z := sizeof ext4_extent_header.

(** The search loop of [extent_get_block_from_ees]: [k] turns are left, [i] is
    the index; the result is the index, [block_ext_offset] and [*len]. *)
Fixpoint ees_loop (k : nat) (ee : bytes) (i lblock : Z) : res (option (Z * Z * Z)) :=
  match k with
  | O => Ok None
  | S k' =>
      let? hi := arr_fld ext4_extent EH_SIZE i "ee_start_hi" ee in
      if negb (hi =? 0) then Err Abort else
      let? b := arr_fld ext4_extent EH_SIZE i "ee_block" ee in
      let? l := arr_fld ext4_extent EH_SIZE i "ee_len" ee in
      if lblock <? u32 (b + l) then Ok (Some (i, u32 (lblock - b), u32 (b + l - lblock)))
      else ees_loop k' ee (i + 1) lblock
  end.

Definition extent_get_block_from_ees (ee : bytes) (n_ee lblock len : Z) : res (Z * Z) :=
  let? r := ees_loop (Z.to_nat n_ee) ee 0 lblock in
  match r with
  | None => Ok (0, len)
  | Some (i, off, len') =>
      let? lo := arr_fld ext4_extent EH_SIZE i "ee_start_lo" ee in
      Ok (u32 (lo + off), len')
  end.

(** The loop that picks the index entry to follow: [recurse_ei] as an index. *)
Fixpoint ei_loop (k : nat) (exts : bytes) (i lblock : Z) (recurse_ei : option Z)
    : res (option Z) :=
  match k with
  | O => Ok recurse_ei
  | S k' =>
      let? hi := arr_fld ext4_extent_idx EH_SIZE i "ei_leaf_hi" exts in
      if negb (hi =? 0) then Err Abort else
      let? b := arr_fld ext4_extent_idx EH_SIZE i "ei_block" exts in
      if lblock <? b then Ok recurse_ei
      else ei_loop k' exts (i + 1) lblock (Some i)
  end.

Section extents.
Context {R : Type} `{RL : ReadLayer R}.

Definition extent_get_extents_in_block (block : Z) : M (fs R) bytes :=
  let* bs := BLOCK_SIZE in
  let* eh := disk_read (s64 (BLOCKS2BYTES block bs)) EH_SIZE in
  let* n := lift (fld ext4_extent_header "eh_entries" (snd eh)) in
  let extents_len := u32 (n * sizeof ext4_extent + EH_SIZE) in
  let* exts := disk_read (s64 (BLOCKS2BYTES block bs)) extents_len in
  ret (snd exts).

(** The recursion follows pointers of the disk; [fuel] bounds its depth. *)
Fixpoint extent_get_pblock (fuel : nat) (extents : bytes) (lblock len : Z)
    : M (fs R) (Z * Z) :=
  match fuel with
  | O => fail NoFuel
  | S fuel' =>
      let* magic := lift (fld ext4_extent_header "eh_magic" extents) in
      do* ASSERT (magic =? EXT4_EXT_MAGIC) in
      let* depth := lift (fld ext4_extent_header "eh_depth" extents) in
      let* n := lift (fld ext4_extent_header "eh_entries" extents) in
      if depth =? 0 then
        lift (extent_get_block_from_ees extents n lblock len)
      else
        let* recurse_ei := lift (ei_loop (Z.to_nat n) extents 0 lblock None) in
        match recurse_ei with
        | None => fail Abort
        | Some i =>
            let* leaf := lift (arr_fld ext4_extent_idx EH_SIZE i "ei_leaf_lo" extents) in
            let* leaf_extents := extent_get_extents_in_block leaf in
            extent_get_pblock fuel' leaf_extents lblock len
        end
  end.
End extents.

(** ** The mapping an extent tree stands for *)

Record extent : Type := mkExtent { x_block : Z; x_len : Z; x_start : Z }.

Definition covers (x : extent) (lblock : Z) : Prop :=
  x_block x <= lblock < x_block x + x_len x.

(** The [i]-th extent and the [i]-th index entry of a node. *)
Definition ee_at (ee : bytes) (i : Z) : extent :=
  mkExtent (le_at (12 + i * 12) 4 ee) (le_at (12 + i * 12 + 4) 2 ee)
    (le_at (12 + i * 12 + 8) 4 ee).
Definition ei_at (ee : bytes) (i : Z) : Z * Z :=
  (le_at (12 + i * 12) 4 ee, le_at (12 + i * 12 + 4) 4 ee).

(** A node with [n] entries at depth [d]: the header fields, and room for the
    entries. *)
Record node_hdr (ext : bytes) (d n : Z) : Prop := {
  hdr_magic : le_at 0 2 ext = EXT4_EXT_MAGIC;
  hdr_entries : le_at 2 2 ext = n;
  hdr_depth : le_at 6 2 ext = d;
  hdr_room : 12 + n * 12 <= zlen ext }.

(** A leaf: extents in order, none of them wrapping around, with block numbers
    of 32 bits. *)
Record leaf_ok (ext : bytes) (n : Z) : Prop := {
  leaf_hi : forall i, 0 <= i < n -> le_at (12 + i * 12 + 6) 2 ext = 0;
  leaf_fit : forall i, 0 <= i < n ->
    x_block (ee_at ext i) + x_len (ee_at ext i) < 2 ^ 32 /\
    x_start (ee_at ext i) + x_len (ee_at ext i) <= 2 ^ 32;
  leaf_sorted : forall i j, 0 <= i < j -> j < n ->
    x_block (ee_at ext i) + x_len (ee_at ext i) <= x_block (ee_at ext j) }.

Definition leaf_extents (ext : bytes) (n : Z) : list extent :=
  (fun i => ee_at ext (Z.of_nat i)) <$> seq 0 (Z.to_nat n).

(** The bytes [extent_get_extents_in_block] returns. *)
Definition node_bytes (img : bytes) (bs block : Z) : bytes :=
  slice (block * bs) (12 + 12 * le_at (block * bs + 2) 2 img) img.

(** [etree img bs d ext xs]: the node [ext] is the root of a well-formed tree of
    depth [d] whose leaves hold the extents [xs]. *)
Fixpoint etree (img : bytes) (bs : Z) (d : nat) (ext : bytes) (xs : list extent) : Prop :=
  match d with
  | O => exists n, node_hdr ext 0 n /\ leaf_ok ext n /\ xs = leaf_extents ext n
  | S d' => exists n (kids : Z -> list extent),
      node_hdr ext (Z.of_nat d) n /\
      (forall i, 0 <= i < n -> le_at (12 + i * 12 + 8) 2 ext = 0) /\
      (forall i j, 0 <= i < j -> j < n -> fst (ei_at ext i) < fst (ei_at ext j)) /\
      (forall i, 0 <= i < n ->
         let '(b, leaf) := ei_at ext i in
         leaf * bs + 12 + 12 * le_at (leaf * bs + 2) 2 img <= zlen img /\
         etree img bs d' (node_bytes img bs leaf) (kids i) /\ kids i <> [] /\
         (forall x, x ∈ kids i -> b <= x_block x) /\
         (forall x, x ∈ kids i -> i + 1 < n ->
            x_block x + x_len x <= fst (ei_at ext (i + 1)))) /\
      (forall x, x ∈ xs <-> exists i, 0 <= i < n /\ x ∈ kids i)
  end.

(** ** Loads from a node *)

Section node.
Context (ext : bytes) (d n : Z).
Hypothesis Hh : node_hdr ext d n.

Lemma node_ee i :
  0 <= i < n ->
  arr_fld ext4_extent EH_SIZE i "ee_start_hi" ext = Ok (le_at (12 + i * 12 + 6) 2 ext) /\
  arr_fld ext4_extent EH_SIZE i "ee_block" ext = Ok (x_block (ee_at ext i)) /\
  arr_fld ext4_extent EH_SIZE i "ee_len" ext = Ok (x_len (ee_at ext i)) /\
  arr_fld ext4_extent EH_SIZE i "ee_start_lo" ext = Ok (x_start (ee_at ext i)).
Proof.
  intros Hi. pose proof (hdr_room _ _ _ Hh). change EH_SIZE with 12.
  rewrite (arr_fld_ok ext4_extent 12 i "ee_start_hi" 6 U16),
    (arr_fld_ok ext4_extent 12 i "ee_block" 0 U32),
    (arr_fld_ok ext4_extent 12 i "ee_len" 4 U16),
    (arr_fld_ok ext4_extent 12 i "ee_start_lo" 8 U32);
    try reflexivity; change (sizeof ext4_extent) with 12; cbn [csize]; try lia.
  cbn [ee_at x_block x_len x_start]. rewrite Z.add_0_r. done.
Qed.

Lemma node_ei i :
  0 <= i < n ->
  arr_fld ext4_extent_idx EH_SIZE i "ei_leaf_hi" ext = Ok (le_at (12 + i * 12 + 8) 2 ext) /\
  arr_fld ext4_extent_idx EH_SIZE i "ei_block" ext = Ok (fst (ei_at ext i)) /\
  arr_fld ext4_extent_idx EH_SIZE i "ei_leaf_lo" ext = Ok (snd (ei_at ext i)).
Proof.
  intros Hi. pose proof (hdr_room _ _ _ Hh). change EH_SIZE with 12.
  rewrite (arr_fld_ok ext4_extent_idx 12 i "ei_leaf_hi" 8 U16),
    (arr_fld_ok ext4_extent_idx 12 i "ei_block" 0 U32),
    (arr_fld_ok ext4_extent_idx 12 i "ei_leaf_lo" 4 U32);
    try reflexivity; change (sizeof ext4_extent_idx) with 12; cbn [csize]; try lia.
  cbn [ei_at fst snd]. rewrite Z.add_0_r. done.
Qed.

Lemma node_count : 0 <= n < 65536.
Proof. rewrite <- (hdr_entries _ _ _ Hh). apply (le_at_range 2 2 ext). lia. Qed.

Lemma node_fields :
  fld ext4_extent_header "eh_magic" ext = Ok EXT4_EXT_MAGIC /\
  fld ext4_extent_header "eh_depth" ext = Ok d /\
  fld ext4_extent_header "eh_entries" ext = Ok n.
Proof.
  pose proof (hdr_room _ _ _ Hh). pose proof node_count.
  rewrite (fld_ok ext4_extent_header "eh_magic" 0 U16),
    (fld_ok ext4_extent_header "eh_depth" 6 U16),
    (fld_ok ext4_extent_header "eh_entries" 2 U16);
    try reflexivity; cbn [csize]; try lia.
  cbn [csize]. by rewrite (hdr_magic _ _ _ Hh), (hdr_entries _ _ _ Hh), (hdr_depth _ _ _ Hh).
Qed.

(** The index loop follows the last entry whose block is not above [lblock]. *)
Lemma ei_loop_spec k i lblock t r :
  (forall j, 0 <= j < n -> le_at (12 + j * 12 + 8) 2 ext = 0) ->
  0 <= i -> i + Z.of_nat k = n -> i <= t < n ->
  (forall j, i <= j <= t -> fst (ei_at ext j) <= lblock) ->
  (t + 1 < n -> lblock < fst (ei_at ext (t + 1))) ->
  ei_loop k ext i lblock r = Ok (Some t).
Proof.
  intros Hhi. revert i r. induction k as [|k IH]; intros i r Hi Hik Ht Hle Hgt; [lia|].
  cbn [ei_loop]. destruct (node_ei i ltac:(lia)) as (-> & -> & _).
  rewrite Hhi by lia. cbn [rbind Z.eqb negb].
  specialize (Hle i ltac:(lia)) as Hb. destruct (Z.ltb_spec lblock (fst (ei_at ext i))); [lia|].
  destruct (Z.eq_dec i t) as [->|Hne].
  - destruct k as [|k]; [done|]. cbn [ei_loop].
    destruct (node_ei (t + 1) ltac:(lia)) as (-> & -> & _).
    rewrite Hhi by lia. cbn [rbind Z.eqb negb].
    rewrite (proj2 (Z.ltb_lt _ _)); [done|]. apply Hgt. lia.
  - apply IH; [lia..| |done]. intros j Hj. apply Hle. lia.
Qed.

Context (Hleaf : leaf_ok ext n).
Context (lblock : Z) (Hlb : 0 <= lblock < 2 ^ 32).
Local Abbreviation xend i := (x_block (ee_at ext i) + x_len (ee_at ext i)).

Lemma ee_range i :
  0 <= x_block (ee_at ext i) < 2 ^ 32 /\ 0 <= x_len (ee_at ext i) < 2 ^ 16 /\
  0 <= x_start (ee_at ext i) < 2 ^ 32.
Proof. cbn. repeat split; apply le_at_range; lia. Qed.

Lemma ees_loop_found k i t :
  0 <= i -> i + Z.of_nat k = n -> i <= t < n ->
  (forall j, i <= j < t -> xend j <= lblock) -> lblock < xend t ->
  ees_loop k ext i lblock =
  Ok (Some (t, u32 (lblock - x_block (ee_at ext t)), xend t - lblock)).
Proof.
  revert i. induction k as [|k IH]; intros i Hi Hik Ht Hle Hgt; [lia|].
  cbn [ees_loop]. destruct (node_ee i ltac:(lia)) as (-> & -> & -> & _).
  rewrite (leaf_hi _ _ Hleaf) by lia. cbn [rbind Z.eqb negb].
  pose proof (ee_range i) as (?&?&?). pose proof (leaf_fit _ _ Hleaf i ltac:(lia)) as [??].
  rewrite (u32_small (x_block (ee_at ext i) + x_len (ee_at ext i))) by lia.
  destruct (Z.eq_dec i t) as [->|Hne].
  - rewrite (proj2 (Z.ltb_lt _ _) Hgt). rewrite u32_small with (z := xend t - lblock) by lia.
    done.
  - specialize (Hle i ltac:(lia)) as Hb. rewrite (proj2 (Z.ltb_ge _ _) Hb).
    apply IH; [lia..| |done]. intros j Hj. apply Hle. lia.
Qed.

Lemma ees_loop_none k i :
  0 <= i -> i + Z.of_nat k = n ->
  (forall j, i <= j < n -> xend j <= lblock) ->
  ees_loop k ext i lblock = Ok None.
Proof.
  revert i. induction k as [|k IH]; intros i Hi Hik Hle; [done|].
  cbn [ees_loop]. destruct (node_ee i ltac:(lia)) as (-> & -> & -> & _).
  rewrite (leaf_hi _ _ Hleaf) by lia. cbn [rbind Z.eqb negb].
  pose proof (ee_range i) as (?&?&?). pose proof (leaf_fit _ _ Hleaf i ltac:(lia)) as [??].
  rewrite (u32_small (x_block (ee_at ext i) + x_len (ee_at ext i))) by lia.
  specialize (Hle i ltac:(lia)) as Hb. rewrite (proj2 (Z.ltb_ge _ _) Hb).
  apply IH; [lia..|]. intros j Hj. apply Hle. lia.
Qed.

(** What a leaf answers: about the first extent that ends behind [lblock],
    whether or not it starts before it. *)
Lemma ees_found t len :
  0 <= t < n -> (forall j, 0 <= j < t -> xend j <= lblock) -> lblock < xend t ->
  extent_get_block_from_ees ext n lblock len =
  Ok (u32 (x_start (ee_at ext t) + (lblock - x_block (ee_at ext t))), xend t - lblock).
Proof.
  intros Ht Hle Hgt. unfold extent_get_block_from_ees.
  rewrite (ees_loop_found (Z.to_nat n) 0 t); [|lia..|done|done]. cbn [rbind].
  destruct (node_ee t Ht) as (_ & _ & _ & ->). cbn [rbind]. do 2 f_equal.
  unfold u32. by rewrite Z.add_mod_idemp_r by lia.
Qed.

Lemma ees_covered t len :
  0 <= t < n -> covers (ee_at ext t) lblock ->
  extent_get_block_from_ees ext n lblock len =
  Ok (x_start (ee_at ext t) + (lblock - x_block (ee_at ext t)), xend t - lblock).
Proof.
  intros Ht [Hlo Hhi]. rewrite (ees_found t); [|done| |done].
  - pose proof (leaf_fit _ _ Hleaf t Ht) as [??]. pose proof (ee_range t) as (?&?&?).
    rewrite u32_small by lia. done.
  - intros j Hj. pose proof (leaf_sorted _ _ Hleaf j t ltac:(lia) ltac:(lia)). lia.
Qed.
End node.

(** ** The tree *)

Lemma leaf_extents_elem ext n x :
  x ∈ leaf_extents ext n <-> exists i, 0 <= i < n /\ x = ee_at ext i.
Proof.
  unfold leaf_extents. rewrite list_elem_of_fmap. split.
  - intros (i & -> & Hi%elem_of_seq). exists (Z.of_nat i). split; [lia|done].
  - intros (i & Hi & ->). exists (Z.to_nat i). rewrite Z2Nat.id by lia.
    split; [done|]. apply elem_of_seq. lia.
Qed.

Section tree.
Context {R : Type} `{RLO : ReadLayerOk R}.
Context (E : env) (Hwf : super_wf (e_super E)).
Local Abbreviation img := (e_img E).
Local Abbreviation bs := (bsize (e_super E)).

Lemma evals_extents_in_block leaf :
  0 <= leaf < 2 ^ 32 ->
  leaf * bs + 12 + 12 * le_at (leaf * bs + 2) 2 img <= zlen img ->
  evals E (extent_get_extents_in_block leaf) (Ok (node_bytes img bs leaf)).
Proof.
  intros Hl Hfit. unfold extent_get_extents_in_block.
  pose proof (bsize_range _ Hwf) as Hbs.
  pose proof (le_at_range (leaf * bs + 2) 2 img ltac:(lia)) as Hn.
  eapply evals_bind; [by apply evals_BLOCK_SIZE|]. cbv beta.
  assert (Hb : s64 (BLOCKS2BYTES leaf bs) = leaf * bs).
  { unfold BLOCKS2BYTES. rewrite (u64_small leaf) by lia.
    rewrite u64_small by nia. rewrite s64_small by nia. done. }
  rewrite Hb. change EH_SIZE with 12.
  eapply evals_bind; [apply evals_disk_read; lia|]. cbv beta. cbn [snd].
  rewrite (fld_ok ext4_extent_header "eh_entries" 2 U16)
    by (reflexivity || (cbn [csize]; rewrite ?zlen_slice; lia)).
  cbn [csize]. rewrite le_at_slice by lia. epure.
  change (sizeof ext4_extent) with 12. rewrite u32_small by lia.
  eapply evals_bind; [apply evals_disk_read; lia|]. cbv beta. cbn [snd].
  unfold node_bytes. replace (12 + 12 * le_at (leaf * bs + 2) 2 img)
    with (le_at (leaf * bs + 2) 2 img * 12 + 12) by lia. epure.
Qed.

(** One level of the descent: the index entry followed is the last one whose
    block is not above [lblock]. *)
Lemma evals_descend fuel ext d n lblock len t leaf b r :
  node_hdr ext d n -> 0 < d ->
  (forall j, 0 <= j < n -> le_at (12 + j * 12 + 8) 2 ext = 0) ->
  0 <= t < n -> ei_at ext t = (b, leaf) ->
  (forall j, 0 <= j <= t -> fst (ei_at ext j) <= lblock) ->
  (t + 1 < n -> lblock < fst (ei_at ext (t + 1))) ->
  leaf * bs + 12 + 12 * le_at (leaf * bs + 2) 2 img <= zlen img ->
  evals E (extent_get_pblock fuel (node_bytes img bs leaf) lblock len) r ->
  evals E (extent_get_pblock (S fuel) ext lblock len) r.
Proof.
  intros Hh Hd Hhi Ht Hei Hle Hgt Hfit Hk. cbn [extent_get_pblock].
  destruct (node_fields ext d n Hh) as (-> & -> & ->). epure.
  rewrite Z.eqb_refl. do 3 epure.
  destruct (Z.eqb_spec d 0); [lia|]. pose proof (node_count ext d n Hh).
  rewrite (ei_loop_spec ext d n Hh (Z.to_nat n) 0 lblock t) by (done || lia).
  epure. destruct (node_ei ext d n Hh t Ht) as (_ & _ & ->). epure. rewrite Hei. cbn [snd].
  eapply evals_bind; [apply evals_extents_in_block; [|done]|done].
  injection Hei as _ <-. split; [apply le_at_range; lia|].
  pose proof (le_at_range (12 + t * 12 + 4) 4 ext ltac:(lia)). lia.
Qed.

(** The depth of a tree is a 16-bit field. *)
Lemma etree_fuel img' bs' d ext xs : etree img' bs' d ext xs -> (d < Z.to_nat 65537)%nat.
Proof.
  intros Ht. assert (Hd : Z.of_nat d < 65536); [|lia].
  destruct d as [|d]; [done|]. destruct Ht as (n & kids & Hh & _).
  rewrite <- (hdr_depth _ _ _ Hh). apply (le_at_range 6 2). lia.
Qed.

Lemma evals_leaf fuel ext n lblock len :
  node_hdr ext 0 n ->
  evals E (extent_get_pblock (S fuel) ext lblock len)
    (extent_get_block_from_ees ext n lblock len).
Proof.
  intros Hh. cbn [extent_get_pblock].
  destruct (node_fields ext 0 n Hh) as (-> & -> & ->). epure.
  rewrite Z.eqb_refl. do 3 epure.
  cbn [Z.eqb]. apply evals_lift.
Qed.

(** The extents of a tree have unsigned fields, and do not wrap around. *)
Lemma etree_range d ext xs x :
  etree img bs d ext xs -> x ∈ xs ->
  0 <= x_block x /\ 0 <= x_len x < 2 ^ 16 /\ 0 <= x_start x /\
  x_block x + x_len x < 2 ^ 32 /\ x_start x + x_len x <= 2 ^ 32.
Proof.
  revert ext xs. induction d as [|d IH]; intros ext xs Ht Hx.
  - destruct Ht as (n & _ & Hl & ->). apply leaf_extents_elem in Hx.
    destruct Hx as (i & Hi & ->). pose proof (ee_range ext i) as (?&?&?).
    pose proof (leaf_fit _ _ Hl i Hi). lia.
  - destruct Ht as (n & kids & _ & _ & _ & Hkids & Hxs).
    apply Hxs in Hx. destruct Hx as (t & Ht & Hx). specialize (Hkids t Ht).
    destruct (ei_at ext t) as [b leaf]. destruct Hkids as (_ & Htree & _). by eapply IH.
Qed.

(** The lookup of a mapped block. *)
Lemma extent_mapped_run d ext xs x lblock len fuel :
  etree img bs d ext xs -> x ∈ xs -> 0 <= lblock < 2 ^ 32 -> covers x lblock ->
  (d < fuel)%nat ->
  evals E (extent_get_pblock fuel ext lblock len)
    (Ok (x_start x + (lblock - x_block x), x_block x + x_len x - lblock)).
Proof.
  intros Ht Hx Hlb Hc. revert ext xs fuel Ht Hx.
  induction d as [|d IH]; intros ext xs [|fuel] Ht Hx Hfuel; try lia.
  - destruct Ht as (n & Hh & Hl & ->). apply leaf_extents_elem in Hx.
    destruct Hx as (i & Hi & ->). rewrite <- (ees_covered ext 0 n Hh Hl lblock Hlb i len Hi Hc).
    by apply evals_leaf.
  - destruct Ht as (n & kids & Hh & Hhi & Hsort & Hkids & Hxs).
    apply Hxs in Hx. destruct Hx as (t & Ht & Hx). pose proof (Hkids t Ht) as Hkt.
    destruct (ei_at ext t) as [b leaf] eqn:Hei.
    destruct Hkt as (Hfit & Htree & _ & Hlow & Hhigh). destruct Hc as [Hc1 Hc2].
    pose proof (Hlow x Hx) as Hb.
    eapply (evals_descend fuel ext (Z.of_nat (S d)) n lblock len t leaf b);
      [done|lia|done|done|done| | |done|].
    + intros j Hj. destruct (Z.eq_dec j t) as [->|Hne]; [rewrite Hei; cbn; lia|].
      pose proof (Hsort j t ltac:(lia) ltac:(lia)) as Hs. rewrite Hei in Hs. cbn in Hs |- *.
      lia.
    + intros Hlt. pose proof (Hhigh x Hx Hlt). lia.
    + by apply (IH _ (kids t)); [..|lia].
Qed.

(** C19: in a well-formed extent tree of depth [d], looking up a logical block
    that an extent covers gives the physical block of that extent at the same
    distance from its start, and the number of blocks left in the extent; the
    depth of the tree bounds the recursion. *)
Theorem extent_get_pblock_mapped d ext xs x lblock len fuel :
  etree img bs d ext xs -> x ∈ xs -> 0 <= lblock < 2 ^ 32 -> covers x lblock ->
  (d < fuel)%nat ->
  evals E (extent_get_pblock fuel ext lblock len)
    (Ok (x_start x + (lblock - x_block x), x_block x + x_len x - lblock)).
Proof. by apply extent_mapped_run. Qed.

(** The lookup behind the last extent. *)
Lemma extent_beyond_run d ext xs lblock len fuel :
  etree img bs d ext xs -> (d = 0%nat \/ xs <> []) -> 0 <= lblock < 2 ^ 32 ->
  (forall x, x ∈ xs -> x_block x + x_len x <= lblock) -> (d < fuel)%nat ->
  evals E (extent_get_pblock fuel ext lblock len) (Ok (0, len)).
Proof.
  intros Ht Hne Hlb Hall. revert ext xs fuel Ht Hne Hall.
  induction d as [|d IH]; intros ext xs [|fuel] Ht Hne Hall Hfuel; try lia.
  - destruct Ht as (n & Hh & Hl & ->). pose proof (node_count ext 0 n Hh).
    replace (Ok (0, len)) with (extent_get_block_from_ees ext n lblock len);
      [by apply evals_leaf|].
    unfold extent_get_block_from_ees.
    rewrite (ees_loop_none ext 0 n Hh Hl lblock); [done|lia|lia|].
    intros j Hj. apply Hall. apply leaf_extents_elem. eauto with lia.
  - destruct Ht as (n & kids & Hh & Hhi & Hsort & Hkids & Hxs).
    assert (Hn : 0 < n).
    { destruct Hne as [|Hne]; [done|]. destruct xs as [|x xs]; [done|].
      destruct (proj1 (Hxs x) ltac:(apply elem_of_cons; by left)) as (i & ? & _). lia. }
    pose proof (Hkids (n - 1) ltac:(lia)) as Hkt.
    destruct (ei_at ext (n - 1)) as [b leaf] eqn:Hei.
    destruct Hkt as (Hfit & Htree & Hkne & Hlow & _).
    assert (Hkall : forall x, x ∈ kids (n - 1) -> x_block x + x_len x <= lblock).
    { intros x Hx. apply Hall, Hxs. exists (n - 1). split; [lia|done]. }
    assert (Hb : b <= lblock).
    { destruct (kids (n - 1)) as [|x ys]; [done|].
      pose proof (Hlow x ltac:(apply elem_of_cons; by left)).
      pose proof (Hkall x ltac:(apply elem_of_cons; by left)).
      pose proof (etree_range d _ _ x Htree ltac:(apply elem_of_cons; by left)). lia. }
    eapply (evals_descend fuel ext (Z.of_nat (S d)) n lblock len (n - 1) leaf b);
      [done|lia|done|lia|done| |lia|done|].
    + intros j Hj. destruct (Z.eq_dec j (n - 1)) as [->|Hnj]; [rewrite Hei; cbn; lia|].
      pose proof (Hsort j (n - 1) ltac:(lia) ltac:(lia)) as Hs. rewrite Hei in Hs.
      cbn in Hs |- *. lia.
    + apply (IH _ (kids (n - 1))); [done|by right|done|lia].
Qed.

(** Behind the last extent the lookup answers block 0 (a hole) and leaves
    the run length alone. *)
Theorem extent_get_pblock_beyond d ext xs lblock len fuel :
  etree img bs d ext xs -> (d = 0%nat \/ xs <> []) -> 0 <= lblock < 2 ^ 32 ->
  (forall x, x ∈ xs -> x_block x + x_len x <= lblock) -> (d < fuel)%nat ->
  evals E (extent_get_pblock fuel ext lblock len) (Ok (0, len)).
Proof. by apply extent_beyond_run. Qed.

(** A logical block in a hole that lies before an extent of the leaf is not
    answered with block 0: the distance to the next extent [t] wraps around,
    and the lookup names a physical block in front of that extent, with a run
    that reaches to the end of it. *)
Theorem extent_get_pblock_hole ext n t lblock len fuel :
  node_hdr ext 0 n -> leaf_ok ext n -> 0 <= lblock < 2 ^ 32 -> 0 <= t < n ->
  lblock < x_block (ee_at ext t) ->
  (forall j, 0 <= j < t -> x_block (ee_at ext j) + x_len (ee_at ext j) <= lblock) ->
  let gap := x_block (ee_at ext t) - lblock in
  evals E (extent_get_pblock (S fuel) ext lblock len)
    (Ok (u32 (x_start (ee_at ext t) - gap), gap + x_len (ee_at ext t))) /\
  (x_start (ee_at ext t) <> gap -> u32 (x_start (ee_at ext t) - gap) <> 0).
Proof.
  intros Hh Hl Hlb Ht Hlt Hbefore gap.
  pose proof (ee_range ext t) as (?&?&?). pose proof (leaf_fit _ _ Hl t Ht) as [??].
  split.
  - replace (Ok (u32 (x_start (ee_at ext t) - gap), gap + x_len (ee_at ext t)))
      with (extent_get_block_from_ees ext n lblock len); [by apply evals_leaf|].
    rewrite (ees_found ext 0 n Hh Hl lblock Hlb t) by (done || lia).
    unfold gap. do 2 f_equal; [f_equal|]; lia.
  - intros Hne Hz. unfold u32 in Hz. unfold gap in *.
    apply Z.mod_divide in Hz as [q Hq]; [|lia]. nia.
Qed.
End tree.
