(* ===== verification/Inode.v ===== *)
(** * fs/ext4/inode.c, first half: inodes, their blocks and directory blocks

    [struct ext4_inode] is the list of the bytes read for it (128 to 156 of
    them); a member behind the end was never initialised and reading it is
    [UB].  Functions with an optional [uint32_t *extent_len] always return the
    length, callers that pass NULL ignore it. *)
From Stdlib Require Import ZArith Lia Strings.Byte.
From stdpp Require Import base numbers list option strings.
From S2P Require Import Prelude Clib Layout Disk Dcache State Super Extents.

Definition ROOT_INODE_N : Z := 2.
Definition ENOENT : Z := 2.

(** inode.h *)
Definition inode_get_size (inode : bytes) : res Z :=
  let? hi := fld ext4_inode "i_size_high" inode in
  let? lo := fld ext4_inode "i_size_lo" inode in
  Ok (Z.lor (u64 (Z.shiftl hi 32)) lo).

Record inode_dir_ctx : Type := mkDirCtx { dc_lblock : Z; dc_buf : bytes }.

(** The depth fields of a well-formed tree count down from at most 65535. *)
Definition EXTENT_FUEL : nat := Z.to_nat 65537.

(** The #defines for ext2/3 block indexing. *)
Definition ADDRESSES_IN_IND_BLOCK (bs : Z) : Z := bs / 4.
Definition ADDRESSES_IN_DIND_BLOCK (bs : Z) : Z :=
  u64 (ADDRESSES_IN_IND_BLOCK bs * ADDRESSES_IN_IND_BLOCK bs).
Definition ADDRESSES_IN_TIND_BLOCK (bs : Z) : Z :=
  u64 (ADDRESSES_IN_DIND_BLOCK bs * ADDRESSES_IN_IND_BLOCK bs).
Definition MAX_IND_BLOCK (bs : Z) : Z := u64 (EXT4_NDIR_BLOCKS + ADDRESSES_IN_IND_BLOCK bs).
Definition MAX_DIND_BLOCK (bs : Z) : Z := u64 (MAX_IND_BLOCK bs + ADDRESSES_IN_DIND_BLOCK bs).
Definition MAX_TIND_BLOCK (bs : Z) : Z := u64 (MAX_DIND_BLOCK bs + ADDRESSES_IN_TIND_BLOCK bs).

Section inode.
Context {R : Type} `{RL : ReadLayer R}.

Definition __inode_get_data_pblock_ind (lblock index_block : Z) : M (fs R) Z :=
  let* bs := BLOCK_SIZE in
  do* ASSERT (lblock <? ADDRESSES_IN_IND_BLOCK bs) in
  on_disk (disk_read_u32 (u64 (BLOCKS2BYTES index_block bs + lblock * 4))).

Definition __inode_get_data_pblock_dind (lblock dindex_block : Z) : M (fs R) Z :=
  let* bs := BLOCK_SIZE in
  do* ASSERT (lblock <? ADDRESSES_IN_DIND_BLOCK bs) in
  let* q := lift (c_div lblock (ADDRESSES_IN_IND_BLOCK bs)) in
  let index_block_offset_in_dindex := u32 (q * 4) in
  let* lblock := lift (c_mod lblock (ADDRESSES_IN_IND_BLOCK bs)) in
  let* index_block :=
    on_disk (disk_read_u32 (u64 (BLOCKS2BYTES dindex_block bs + index_block_offset_in_dindex))) in
  __inode_get_data_pblock_ind lblock index_block.

Definition __inode_get_data_pblock_tind (lblock tindex_block : Z) : M (fs R) Z :=
  let* bs := BLOCK_SIZE in
  do* ASSERT (lblock <? ADDRESSES_IN_TIND_BLOCK bs) in
  let* q := lift (c_div lblock (ADDRESSES_IN_DIND_BLOCK bs)) in
  let dindex_block_offset_in_tindex := u32 (q * 4) in
  let* lblock := lift (c_mod lblock (ADDRESSES_IN_DIND_BLOCK bs)) in
  let* dindex_block :=
    on_disk (disk_read_u32 (u64 (BLOCKS2BYTES tindex_block bs + dindex_block_offset_in_tindex))) in
  __inode_get_data_pblock_dind lblock dindex_block.

Definition inode_get_data_pblock (inode : bytes) (lblock : Z) : M (fs R) (Z * Z) :=
  let extent_len := 1 in
  let* flags := lift (fld ext4_inode "i_flags" inode) in
  if negb (Z.land flags EXT4_EXTENTS_FL =? 0) then
    do* require (in_range 40 60 inode) in
    extent_get_pblock EXTENT_FUEL (fld_bytes ext4_inode "i_block" inode) lblock extent_len
  else
    let* bs := BLOCK_SIZE in
    let* size := lift (inode_get_size inode) in
    let* blocks := lift (BYTES2BLOCKS size bs) in
    do* ASSERT (lblock <=? blocks) in
    if lblock <? EXT4_NDIR_BLOCKS then
      let* b := lift (fld_idx ext4_inode "i_block" lblock inode) in ret (b, extent_len)
    else if lblock <? MAX_IND_BLOCK bs then
      let* index_block := lift (fld_idx ext4_inode "i_block" EXT4_IND_BLOCK inode) in
      let* b := __inode_get_data_pblock_ind (u32 (lblock - EXT4_NDIR_BLOCKS)) index_block in
      ret (b, extent_len)
    else if lblock <? MAX_DIND_BLOCK bs then
      let* dindex_block := lift (fld_idx ext4_inode "i_block" EXT4_DIND_BLOCK inode) in
      let* b := __inode_get_data_pblock_dind (u32 (lblock - MAX_IND_BLOCK bs)) dindex_block in
      ret (b, extent_len)
    else if lblock <? MAX_TIND_BLOCK bs then
      let* tindex_block := lift (fld_idx ext4_inode "i_block" EXT4_TIND_BLOCK inode) in
      let* b := __inode_get_data_pblock_tind (u32 (lblock - MAX_DIND_BLOCK bs)) tindex_block in
      ret (b, extent_len)
    else fail Abort.

(** The macro [disk_read_block]. *)
Definition disk_read_block (block : Z) : M (fs R) (Z * bytes) :=
  let* bs := BLOCK_SIZE in disk_read (s64 (BLOCKS2BYTES block bs)) bs.

Definition dir_ctx_update (inode : bytes) (lblock : Z) : M (fs R) inode_dir_ctx :=
  let* dir_pblock := inode_get_data_pblock inode lblock in
  let* r := disk_read_block (fst dir_pblock) in
  ret (mkDirCtx lblock (snd r)).

(** [inode_dir_ctx_reset] on the context [inode_dir_ctx_get] allocated. *)
Definition inode_dir_ctx_reset (inode : bytes) : M (fs R) inode_dir_ctx :=
  dir_ctx_update inode 0.

(** The dentry is the memory from the returned pointer to the end of the
    buffered block.  The recursive call finds the block it needs buffered, so
    two turns are enough ([inode_dentry_get_total] below). *)
Fixpoint inode_dentry_get_fuel (fuel : nat) (inode : bytes) (offset : Z)
    (ctx : inode_dir_ctx) : M (fs R) (option bytes * inode_dir_ctx) :=
  match fuel with
  | O => fail NoFuel
  | S fuel' =>
      let* bs := BLOCK_SIZE in
      let* q := lift (c_div offset bs) in
      let* r := lift (c_mod offset bs) in
      let lblock := u32 q in
      let blk_offset := u32 r in
      let* inode_size := lift (inode_get_size inode) in
      let un_offset := u64 offset in
      do* ASSERT (un_offset <=? inode_size) in
      if inode_size =? un_offset then ret (None, ctx)
      else if lblock =? dc_lblock ctx then
        ret (Some (drop (Z.to_nat blk_offset) (dc_buf ctx)), ctx)
      else
        let* ctx' := dir_ctx_update inode lblock in
        inode_dentry_get_fuel fuel' inode (s64 un_offset) ctx'
  end.
Definition inode_dentry_get (inode : bytes) (offset : Z) (ctx : inode_dir_ctx)
    : M (fs R) (option bytes * inode_dir_ctx) := inode_dentry_get_fuel 2 inode offset ctx.

(** The return value, and the bytes put in the caller's struct (none when the
    number is 0). *)
Definition inode_get_by_number (n : Z) : M (fs R) (Z * bytes) :=
  if n =? 0 then ret (- ENOENT, []) else
  let n := u32 (n - 1) in
  let* off := super_group_inode_table_offset n in
  let* ipg := with_super super_inodes_per_group in
  let* r := lift (c_mod n ipg) in
  let* isize := with_super super_inode_size in
  let off := s64 (off + u32 (r * isize)) in
  let* d := disk_read off (Z.min isize (sizeof ext4_inode)) in
  ret (0, snd d).

Definition inode_init : M (fs R) Z := on_dcache (dcache_init_root ROOT_INODE_N).
End inode.

(** ** Reference definitions *)

(** The members used, of a full on-disk inode. *)
Definition i_flags (inode : bytes) : Z := le_at 32 4 inode.
Definition i_block (inode : bytes) (i : Z) : Z := le_at (40 + i * 4) 4 inode.
Definition i_size (inode : bytes) : Z := le_at 4 4 inode + 2 ^ 32 * le_at 108 4 inode.
Definition uses_extents (inode : bytes) : bool :=
  negb (Z.land (i_flags inode) EXT4_EXTENTS_FL =? 0).

(** Walking [level] levels of index blocks, [a] addresses per block, to the
    entry of relative block [lb]. *)
Fixpoint ind_walk (img : bytes) (bs a : Z) (level : nat) (lb blk : Z) : Z :=
  match level with
  | O => blk
  | S l =>
      let sub := a ^ Z.of_nat l in
      ind_walk img bs a l (lb mod sub) (le_at (blk * bs + lb / sub * 4) 4 img)
  end.
(** The index blocks on the way lie inside the image. *)
Fixpoint ind_in (img : bytes) (bs a : Z) (level : nat) (lb blk : Z) : Prop :=
  match level with
  | O => True
  | S l =>
      let sub := a ^ Z.of_nat l in
      (blk + 1) * bs <= zlen img /\
      ind_in img bs a l (lb mod sub) (le_at (blk * bs + lb / sub * 4) 4 img)
  end.

(** Which of the block pointers of the inode leads to [lb]: the number of
    levels, the relative block and the pointer. *)
Definition block_path (a lb : Z) (inode : bytes) : option (nat * Z * Z) :=
  if lb <? 12 then Some (0%nat, 0, i_block inode lb)
  else if lb <? 12 + a then Some (1%nat, lb - 12, i_block inode 12)
  else if lb <? 12 + a + a ^ 2 then Some (2%nat, lb - 12 - a, i_block inode 13)
  else if lb <? 12 + a + a ^ 2 + a ^ 3 then Some (3%nat, lb - 12 - a - a ^ 2, i_block inode 14)
  else None.

(** Number of blocks of a file of [size] bytes. *)
Definition blocks_of (size bs : Z) : Z := (size + bs - 1) / bs.

(** ** Facts *)

Lemma inode_size_ok inode :
  128 <= zlen inode -> inode_get_size inode = Ok (i_size inode) /\ 0 <= i_size inode < 2 ^ 64.
Proof.
  intros Hl. unfold inode_get_size, i_size.
  rewrite (fld_ok ext4_inode "i_size_high" 108 U32) by (reflexivity || (cbn [csize]; lia)).
  rewrite (fld_ok ext4_inode "i_size_lo" 4 U32) by (reflexivity || (cbn [csize]; lia)).
  cbn [rbind csize].
  pose proof (le_at_range 4 4 inode ltac:(lia)). pose proof (le_at_range 108 4 inode ltac:(lia)).
  rewrite u64_small by (rewrite Z.shiftl_mul_pow2 by lia; lia). split; [|lia]. f_equal.
  rewrite lor_shiftl_add by lia. lia.
Qed.

Lemma BYTES2BLOCKS_ok size bs :
  0 <= size < 2 ^ 64 -> 2 <= bs -> BYTES2BLOCKS size bs = Ok (blocks_of size bs).
Proof.
  intros Hs Hb. unfold BYTES2BLOCKS, blocks_of.
  rewrite c_div_pos, c_mod_pos by lia. cbn [rbind].
  pose proof (Z.div_mod size bs ltac:(lia)) as Hd.
  pose proof (Z.mod_pos_bound size bs ltac:(lia)) as Hm.
  assert (Hq : 0 <= size / bs <= size) by (split; [apply Z.div_pos; lia|apply Z.div_le_upper_bound; nia]).
  assert (Hq2 : size / bs < 2 ^ 63) by (apply Z.div_lt_upper_bound; lia).
  destruct (Z.eqb_spec (size mod bs) 0) as [Hz|Hnz].
  - rewrite u64_small by lia. f_equal. apply Z.div_unique with (bs - 1); lia.
  - rewrite u64_small by lia. f_equal. apply Z.div_unique with (size mod bs - 1); lia.
Qed.

Section block_map.
Context {R : Type} `{RLO : ReadLayerOk R}.
Context (E : env) (Hwf : super_wf (e_super E)).
Local Abbreviation img := (e_img E).
Local Abbreviation bs := (bsize (e_super E)).
Local Abbreviation a := (bsize (e_super E) / 4).

(** Addresses per block: a power of two between 2^8 and 2^14. *)
Lemma addr_per_block : 256 <= a <= 16384 /\ bs = a * 4.
Proof.
  destruct (bsize_pow _ Hwf) as (k & Hk & Hb). rewrite Hb.
  replace (2 ^ k) with (2 ^ (k - 2) * 4).
  - rewrite Z.div_mul by lia. split; [|lia].
    assert (2 ^ 8 <= 2 ^ (k - 2) <= 2 ^ 14) by (split; apply Z.pow_le_mono_r; lia). lia.
  - change 4 with (2 ^ 2). rewrite <- Z.pow_add_r by lia. f_equal. lia.
Qed.

Lemma index_constants :
  ADDRESSES_IN_IND_BLOCK bs = a /\ ADDRESSES_IN_DIND_BLOCK bs = a ^ 2 /\
  ADDRESSES_IN_TIND_BLOCK bs = a ^ 3 /\ MAX_IND_BLOCK bs = 12 + a /\
  MAX_DIND_BLOCK bs = 12 + a + a ^ 2 /\ MAX_TIND_BLOCK bs = 12 + a + a ^ 2 + a ^ 3.
Proof.
  destruct addr_per_block as [Ha _].
  assert (H2 : 0 <= a ^ 2 <= 2 ^ 28) by (rewrite Z.pow_2_r; nia).
  assert (H3 : a ^ 3 = a ^ 2 * a) by (rewrite Z.pow_2_r; ring).
  assert (H4 : 0 <= a ^ 3 <= 2 ^ 42) by (rewrite H3; nia).
  unfold MAX_TIND_BLOCK, MAX_DIND_BLOCK, MAX_IND_BLOCK, ADDRESSES_IN_TIND_BLOCK,
    ADDRESSES_IN_DIND_BLOCK, ADDRESSES_IN_IND_BLOCK, EXT4_NDIR_BLOCKS.
  rewrite <- Z.pow_2_r. rewrite (u64_small (a ^ 2)) by lia. rewrite <- H3.
  rewrite (u64_small (a ^ 3)) by lia. rewrite (u64_small (12 + a)) by lia.
  rewrite (u64_small (12 + a + a ^ 2)) by lia.
  rewrite u64_small by lia. done.
Qed.

(** Reading entry [i] of the index block [blk]. *)
Lemma evals_index_entry blk i :
  0 <= blk < 2 ^ 32 -> 0 <= i < a -> (blk + 1) * bs <= zlen img ->
  evals E (on_disk (disk_read_u32 (u64 (BLOCKS2BYTES blk bs + i * 4))))
    (Ok (le_at (blk * bs + i * 4) 4 img)).
Proof.
  intros Hb Hi Hin. destruct addr_per_block as [Ha Hbs].
  assert (He : u64 (BLOCKS2BYTES blk bs + i * 4) = blk * bs + i * 4).
  { unfold BLOCKS2BYTES. rewrite (u64_small blk) by lia.
    rewrite (u64_small (blk * bs)) by nia. apply u64_small. nia. }
  rewrite He. apply evals_disk_read_u32; nia.
Qed.

Lemma evals_ind lb blk :
  0 <= blk < 2 ^ 32 -> 0 <= lb < a -> ind_in img bs a 1 lb blk ->
  evals E (__inode_get_data_pblock_ind lb blk) (Ok (ind_walk img bs a 1 lb blk)).
Proof.
  intros Hb Hlb [Hin _]. unfold __inode_get_data_pblock_ind. cbn [ind_walk].
  change (a ^ Z.of_nat 0) with 1. rewrite Z.div_1_r.
  eapply evals_bind; [by apply evals_BLOCK_SIZE|]. cbv beta.
  destruct index_constants as (-> & _). rewrite (proj2 (Z.ltb_lt lb a)) by lia. epure.
  by apply evals_index_entry.
Qed.

Lemma ind_entry_range off : 0 <= le_at off 4 img < 2 ^ 32.
Proof. apply (le_at_range off 4 img). lia. Qed.

Lemma evals_dind lb blk :
  0 <= blk < 2 ^ 32 -> 0 <= lb < a ^ 2 -> ind_in img bs a 2 lb blk ->
  evals E (__inode_get_data_pblock_dind lb blk) (Ok (ind_walk img bs a 2 lb blk)).
Proof.
  intros Hb Hlb. cbn [ind_in ind_walk]. change (Z.of_nat 1) with 1. rewrite Z.pow_1_r.
  intros [Hin Hrest]. unfold __inode_get_data_pblock_dind.
  destruct addr_per_block as [Ha Hbs]. destruct index_constants as (Hi1 & Hi2 & _).
  eapply evals_bind; [by apply evals_BLOCK_SIZE|]. cbv beta. rewrite Hi1, Hi2.
  rewrite (proj2 (Z.ltb_lt lb (a ^ 2))) by lia. epure.
  rewrite c_div_pos, c_mod_pos by lia. do 2 epure.
  assert (Hq : 0 <= lb / a < a)
    by (split; [apply Z.div_pos; lia|apply Z.div_lt_upper_bound; [lia|]; rewrite Z.pow_2_r in Hlb; lia]).
  rewrite u32_small by lia.
  eapply evals_bind; [by apply evals_index_entry|]. cbv beta.
  apply evals_ind; [apply ind_entry_range|apply Z.mod_pos_bound; lia|done].
Qed.

Lemma evals_tind lb blk :
  0 <= blk < 2 ^ 32 -> 0 <= lb < a ^ 3 -> ind_in img bs a 3 lb blk ->
  evals E (__inode_get_data_pblock_tind lb blk) (Ok (ind_walk img bs a 3 lb blk)).
Proof.
  intros Hb Hlb [Hin Hrest]. unfold __inode_get_data_pblock_tind.
  destruct addr_per_block as [Ha Hbs]. destruct index_constants as (_ & Hi2 & Hi3 & _).
  assert (H2 : 0 < a ^ 2) by (rewrite Z.pow_2_r; nia).
  assert (H3 : a ^ 3 = a ^ 2 * a) by (rewrite Z.pow_2_r; ring).
  eapply evals_bind; [by apply evals_BLOCK_SIZE|]. cbv beta. rewrite Hi2, Hi3.
  rewrite (proj2 (Z.ltb_lt lb (a ^ 3))) by lia. epure.
  rewrite c_div_pos, c_mod_pos by lia. do 2 epure.
  assert (Hq : 0 <= lb / a ^ 2 < a)
    by (split; [apply Z.div_pos; lia|apply Z.div_lt_upper_bound; lia]).
  rewrite u32_small by lia.
  eapply evals_bind; [by apply evals_index_entry|]. cbv beta.
  apply (evals_dind (lb mod a ^ 2) (le_at (blk * bs + lb / a ^ 2 * 4) 4 img));
    [apply ind_entry_range|apply Z.mod_pos_bound; lia|done].
Qed.

Lemma i_block_ok inode i :
  128 <= zlen inode -> 0 <= i < 15 ->
  fld_idx ext4_inode "i_block" i inode = Ok (i_block inode i) /\ 0 <= i_block inode i < 2 ^ 32.
Proof.
  intros Hl Hi. rewrite (fld_idx_ok ext4_inode "i_block" 40 U32 15)
    by (reflexivity || (cbn [csize]; lia)).
  cbn [csize]. split; [done|]. apply (le_at_range (40 + i * 4) 4). lia.
Qed.

(** The walk through the index blocks, case by case. *)
Lemma pblock_indirect_run inode lb :
  128 <= zlen inode -> uses_extents inode = false -> 0 <= lb < 2 ^ 32 ->
  lb <= blocks_of (i_size inode) bs ->
  match block_path a lb inode with
  | Some (level, rel, blk) =>
      ind_in img bs a level rel blk ->
      evals E (inode_get_data_pblock inode lb) (Ok (ind_walk img bs a level rel blk, 1))
  | None => evals E (inode_get_data_pblock inode lb) (Err Abort)
  end.
Proof.
  intros Hl Hext Hlb Hsize.
  assert (Hpre : forall r,
    evals E (if lb <? 12 then
       let* b := lift (fld_idx ext4_inode "i_block" lb inode) in ret (b, 1)
     else if lb <? 12 + a then
       let* index_block := lift (fld_idx ext4_inode "i_block" 12 inode) in
       let* b := __inode_get_data_pblock_ind (lb - 12) index_block in ret (b, 1)
     else if lb <? 12 + a + a ^ 2 then
       let* index_block := lift (fld_idx ext4_inode "i_block" 13 inode) in
       let* b := __inode_get_data_pblock_dind (lb - 12 - a) index_block in ret (b, 1)
     else if lb <? 12 + a + a ^ 2 + a ^ 3 then
       let* index_block := lift (fld_idx ext4_inode "i_block" 14 inode) in
       let* b := __inode_get_data_pblock_tind (lb - 12 - a - a ^ 2) index_block in ret (b, 1)
     else fail Abort) r ->
    evals E (inode_get_data_pblock inode lb) r).
  { intros r Hr. unfold inode_get_data_pblock.
    rewrite (fld_ok ext4_inode "i_flags" 32 U32) by (reflexivity || (cbn [csize]; lia)).
    epure. unfold uses_extents, i_flags in Hext. cbn [csize]. rewrite Hext.
    eapply evals_bind; [by apply evals_BLOCK_SIZE|]. cbv beta.
    destruct (inode_size_ok inode Hl) as [-> Hsz]. epure.
    pose proof (bsize_range _ Hwf). rewrite BYTES2BLOCKS_ok by lia. epure.
    rewrite (proj2 (Z.leb_le _ _) Hsize). epure.
    destruct index_constants as (_ & _ & _ & -> & -> & ->).
    unfold EXT4_NDIR_BLOCKS, EXT4_IND_BLOCK, EXT4_DIND_BLOCK, EXT4_TIND_BLOCK.
    change EXT4_NDIR_BLOCKS with 12. destruct addr_per_block as [Ha _].
    assert (0 < a ^ 2) by (rewrite Z.pow_2_r; nia).
    destruct (Z.ltb_spec lb 12); [done|].
    destruct (Z.ltb_spec lb (12 + a)); [by rewrite u32_small by lia|].
    destruct (Z.ltb_spec lb (12 + a + a ^ 2)).
    { rewrite u32_small by lia. by replace (lb - (12 + a)) with (lb - 12 - a) by lia. }
    destruct (Z.ltb_spec lb (12 + a + a ^ 2 + a ^ 3)); [|done].
    rewrite u32_small by lia.
    by replace (lb - (12 + a + a ^ 2)) with (lb - 12 - a - a ^ 2) by lia. }
  unfold block_path.
  destruct (Z.ltb_spec lb 12); [|destruct (Z.ltb_spec lb (12 + a));
    [|destruct (Z.ltb_spec lb (12 + a + a ^ 2));
      [|destruct (Z.ltb_spec lb (12 + a + a ^ 2 + a ^ 3))]]]; intros; apply Hpre;
    try apply evals_fail.
  - destruct (i_block_ok inode lb Hl ltac:(lia)) as [-> _]. epure. cbn [ind_walk]. epure.
  - destruct (i_block_ok inode 12 Hl ltac:(lia)) as [-> ?]. epure.
    eapply evals_bind; [apply evals_ind; [done|lia|done]|]. cbv beta. epure.
  - destruct (i_block_ok inode 13 Hl ltac:(lia)) as [-> ?]. epure.
    eapply evals_bind; [apply evals_dind; [done|lia|done]|]. cbv beta. epure.
  - destruct (i_block_ok inode 14 Hl ltac:(lia)) as [-> ?]. epure.
    eapply evals_bind; [apply evals_tind; [done|lia|done]|]. cbv beta. epure.
Qed.

(** C20: for an inode with ext2/3 block pointers, the mapping of a logical
    block is the walk through the index blocks that its position prescribes;
    a block behind the triple-indirect range aborts. *)
Theorem inode_get_data_pblock_indirect inode lb :
  128 <= zlen inode -> uses_extents inode = false -> 0 <= lb < 2 ^ 32 ->
  lb <= blocks_of (i_size inode) bs ->
  match block_path a lb inode with
  | Some (level, rel, blk) =>
      ind_in img bs a level rel blk ->
      evals E (inode_get_data_pblock inode lb) (Ok (ind_walk img bs a level rel blk, 1))
  | None => evals E (inode_get_data_pblock inode lb) (Err Abort)
  end.
Proof. by apply pblock_indirect_run. Qed.
End block_map.

Section inode_facts.
Context {R : Type} `{RLO : ReadLayerOk R}.
Context (E : env) (Hwf : super_wf (e_super E)).
Local Abbreviation img := (e_img E).
Local Abbreviation bs := (bsize (e_super E)).

(** An inode with extents is looked up in the tree rooted in [i_block]. *)
Lemma evals_pblock_extents inode lb r :
  128 <= zlen inode -> uses_extents inode = true ->
  evals E (extent_get_pblock EXTENT_FUEL (slice 40 60 inode) lb 1) r ->
  evals E (inode_get_data_pblock inode lb) r.
Proof.
  intros Hl Hext Hr. unfold inode_get_data_pblock.
  rewrite (fld_ok ext4_inode "i_flags" 32 U32) by (reflexivity || (cbn [csize]; lia)).
  epure. unfold uses_extents, i_flags in Hext. cbn [csize]. rewrite Hext.
  unfold require. rewrite in_range_true by lia. epure.
  change (fld_bytes ext4_inode "i_block" inode) with (slice 40 60 inode). done.
Qed.

Lemma evals_disk_read_block pb :
  0 <= pb -> pb * bs + bs <= zlen img -> zlen img < 2 ^ 62 ->
  evals E (disk_read_block pb) (Ok (bs, slice (pb * bs) bs img)).
Proof.
  intros Hp Hin Hz. unfold disk_read_block. pose proof (bsize_range _ Hwf).
  eapply evals_bind; [by apply evals_BLOCK_SIZE|]. cbv beta.
  assert (He : s64 (BLOCKS2BYTES pb bs) = pb * bs).
  { unfold BLOCKS2BYTES. rewrite (u64_small pb) by nia.
    rewrite u64_small by nia. apply s64_small. nia. }
  rewrite He. apply evals_disk_read; nia.
Qed.

(** [content] is what a directory inode holds: its blocks are the image blocks
    they are mapped to. *)
Record dir_repr (inode content : bytes) : Prop := {
  dr_inode : 128 <= zlen inode;
  dr_size : i_size inode = zlen content;
  dr_bound : 0 < zlen content < 2 ^ 32;
  dr_mult : zlen content mod bs = 0;
  dr_img : zlen img < 2 ^ 62;
  dr_block : forall lb, 0 <= lb -> lb * bs < zlen content ->
    exists pb len, evals E (inode_get_data_pblock inode lb) (Ok (pb, len)) /\
      0 <= pb /\ pb * bs + bs <= zlen img /\
      slice (lb * bs) bs content = slice (pb * bs) bs img }.

(** The context that buffers block [lb]. *)
Definition dctx (content : bytes) (lb : Z) : inode_dir_ctx :=
  mkDirCtx lb (slice (lb * bs) bs content).

Lemma evals_dir_ctx_update inode content lb :
  dir_repr inode content -> 0 <= lb -> lb * bs < zlen content ->
  evals E (dir_ctx_update inode lb) (Ok (dctx content lb)).
Proof.
  intros Hd Hlb Hin. destruct (dr_block _ _ Hd lb Hlb Hin) as (pb & len & He & Hpb & Hfit & Hs).
  unfold dir_ctx_update. estep He. cbn [fst].
  eapply evals_bind; [by apply evals_disk_read_block, (dr_img _ _ Hd)|]. cbv beta. cbn [snd].
  unfold dctx. rewrite Hs. epure.
Qed.

(** The memory behind the dentry at [off]: the rest of its block. *)
Definition dentry_at (content : bytes) (off : Z) : bytes :=
  drop (Z.to_nat (off mod bs)) (slice (off / bs * bs) bs content).

(** The run of [inode_dentry_get]. *)
Lemma inode_dentry_get_run inode content off lb0 :
  dir_repr inode content -> 0 <= off <= zlen content ->
  evals E (inode_dentry_get inode off (dctx content lb0))
    (Ok (if off =? zlen content then (None, dctx content lb0)
         else (Some (dentry_at content off), dctx content (off / bs)))).
Proof.
  intros Hd Hoff. pose proof (bsize_range _ Hwf) as Hbs. pose proof (dr_bound _ _ Hd) as Hb.
  destruct (inode_size_ok inode (dr_inode _ _ Hd)) as [Hsz _].
  rewrite (dr_size _ _ Hd) in Hsz.
  assert (Hq : 0 <= off / bs <= off)
    by (split; [apply Z.div_pos; lia|apply Z.div_le_upper_bound; nia]).
  pose proof (Z.mod_pos_bound off bs ltac:(lia)) as Hr.
  pose proof (Z.div_mod off bs ltac:(lia)) as Hdm.
  (* one turn of the recursion *)
  assert (Hturn : forall k ctx r,
    (off < zlen content -> off / bs <> dc_lblock ctx ->
     evals E (inode_dentry_get_fuel k inode off (dctx content (off / bs))) r) ->
    (off < zlen content -> off / bs = dc_lblock ctx ->
     r = Ok (Some (drop (Z.to_nat (off mod bs)) (dc_buf ctx)), ctx)) ->
    (off = zlen content -> r = Ok (None, ctx)) ->
    evals E (inode_dentry_get_fuel (S k) inode off ctx) r).
  { intros k ctx r Hrec Hhit Hend. cbn [inode_dentry_get_fuel].
    eapply evals_bind; [by apply evals_BLOCK_SIZE|]. cbv beta.
    rewrite c_div_pos, c_mod_pos by lia. do 2 epure. rewrite Hsz. epure.
    rewrite (u64_small off) by lia. rewrite (u32_small (off / bs)) by lia.
    rewrite (u32_small (off mod bs)) by lia. rewrite s64_small by lia.
    rewrite (proj2 (Z.leb_le off (zlen content))) by lia. epure.
    destruct (Z.eqb_spec (zlen content) off) as [He|Hne].
    { rewrite Hend by done. epure. }
    destruct (Z.eqb_spec (off / bs) (dc_lblock ctx)) as [Hl|Hl].
    { rewrite Hhit by (done || lia). epure. }
    eapply evals_bind; [apply (evals_dir_ctx_update inode content); [done|lia|lia]|].
    cbv beta. apply Hrec; [lia|done]. }
  unfold inode_dentry_get, dentry_at. destruct (Z.eqb_spec off (zlen content)) as [He|Hne].
  - apply Hturn; [lia|lia|done].
  - apply Hturn; [|cbn [dctx dc_lblock]; intros _ ->; done|lia].
    intros _ _. apply Hturn; [cbn; congruence|done|lia].
Qed.

(** C21: [inode_dentry_get] ends after at most one reload: at the end of the
    directory it returns NULL and keeps the context, in front of it it returns
    the memory at that offset of the directory and leaves the block of the
    offset buffered, whichever block was buffered before. *)
Theorem inode_dentry_get_ok inode content off lb0 :
  dir_repr inode content -> 0 <= off <= zlen content ->
  evals E (inode_dentry_get inode off (dctx content lb0))
    (Ok (if off =? zlen content then (None, dctx content lb0)
         else (Some (dentry_at content off), dctx content (off / bs)))).
Proof. exact (inode_dentry_get_run inode content off lb0). Qed.

(** Where inode [n] is on the disk. *)
Definition inode_off (n : Z) : Z :=
  let ipg := sb_get "s_inodes_per_group" (e_super E) in
  itable_off E ((n - 1) / ipg) + (n - 1) mod ipg * sb_get "s_inode_size" (e_super E).
Definition inode_bytes (n : Z) : bytes :=
  slice (inode_off n) (Z.min (sb_get "s_inode_size" (e_super E)) 156) img.

(** Reading an inode by its number. *)
Lemma inode_get_by_number_run n :
  e_gdesc E = gdt img (e_super E) -> gdt_wf img (e_super E) ->
  0 <= n < 2 ^ 32 -> zlen img < 2 ^ 62 ->
  let ipg := sb_get "s_inodes_per_group" (e_super E) in
  let isize := sb_get "s_inode_size" (e_super E) in
  ((n - 1) / ipg < n_groups (e_super E)) -> 0 < isize -> ipg * isize <= 2 ^ 32 ->
  inode_off n + Z.min isize 156 <= zlen img ->
  evals E (inode_get_by_number n)
    (Ok (if n =? 0 then (-2, []) else (0, inode_bytes n))).
Proof.
  intros Hgd Hgwf Hn Hz ipg isize Hg Hi H32 Hin. unfold inode_get_by_number.
  destruct (Z.eqb_spec n 0) as [He|Hne]; [apply evals_ret|].
  rewrite u32_small by lia.
  pose proof (wf_ipg _ Hwf) as Hipg. fold ipg in Hipg.
  pose proof (proj1 (itable_offset_run E (n - 1) Hwf Hgd Hgwf ltac:(lia)) Hg)
    as Hoff. fold ipg in Hoff.
  estep Hoff.
  eapply evals_bind; [apply evals_with_super; by apply super_inodes_per_group_ok|]. cbv beta.
  fold ipg. rewrite c_mod_pos by lia. epure.
  destruct (super_inode_size_ok _ Hwf) as [His Hisz]. fold isize in His, Hisz.
  eapply evals_bind; [apply evals_with_super; exact His|]. cbv beta.
  pose proof (Z.mod_pos_bound (n - 1) ipg Hipg) as Hm.
  assert (Hit : 0 <= itable_off E ((n - 1) / ipg)).
  { unfold itable_off. destruct (e_gdesc E !! _) as [gd|]; [|lia].
    pose proof (le_at_range 8 4 gd ltac:(lia)). pose proof (bsize_range _ Hwf). nia. }
  assert (Hmul : 0 <= (n - 1) mod ipg * isize < 2 ^ 32) by nia.
  rewrite (u32_small ((n - 1) mod ipg * isize)) by lia.
  unfold inode_bytes, inode_off in *. fold ipg isize in Hin |- *.
  change (sizeof ext4_inode) with 156. rewrite s64_small by lia.
  eapply evals_bind; [apply evals_disk_read; lia|]. cbv beta. cbn [snd]. epure.
Qed.

(** C22: [inode_get_by_number] rejects inode 0, and for an inode of a group
    that has a descriptor, in a table that lies in the image, it reads, at index
    [(n - 1) mod inodes_per_group] of that group's inode table, the smaller of the
    on-disk inode size and the size of the struct. *)
Theorem inode_get_by_number_ok n :
  e_gdesc E = gdt img (e_super E) -> gdt_wf img (e_super E) ->
  0 <= n < 2 ^ 32 -> zlen img < 2 ^ 62 ->
  let ipg := sb_get "s_inodes_per_group" (e_super E) in
  let isize := sb_get "s_inode_size" (e_super E) in
  ((n - 1) / ipg < n_groups (e_super E)) -> 0 < isize -> ipg * isize <= 2 ^ 32 ->
  inode_off n + Z.min isize 156 <= zlen img ->
  evals E (inode_get_by_number n)
    (Ok (if n =? 0 then (-2, []) else (0, inode_bytes n))).
Proof. by apply inode_get_by_number_run. Qed.
End inode_facts.
