(* ===== verification/Lookup.v ===== *)
(** * fs/ext4/inode.c, second half: path lookup through the dcache and the
    directories

    A [const char *path] is the string from the pointer on, as in Clib. *)
From Stdlib Require Import ZArith Lia Strings.Byte.
From stdpp Require Import base numbers list option gmap functions strings.
From S2P Require Import Prelude Clib Layout Disk Dcache State Super Extents Inode.

Definition SLASH : Byte.byte := Byte.x2f.

(** [while (path[len] != '/' && path[len]) len++], with [len] a uint8_t. *)
Fixpoint token_len_loop (fuel : nat) (path : bytes) (len : Z) : res Z :=
  match fuel with
  | O => Err NoFuel
  | S fuel' =>
      let? c := char_at path len in
      if decide (c = SLASH) then Ok len
      else if decide (c = Byte.x00) then Ok len
      else token_len_loop fuel' path (u8 (len + 1))
  end.
Definition get_path_token_len (path : bytes) : res Z :=
  token_len_loop (S (length path)) path 0.

Fixpoint skip_trailing_backslash (path : bytes) : bytes :=
  match path with
  | c :: path' => if decide (c = SLASH) then skip_trailing_backslash path' else path
  | [] => []
  end.

(** Skip over one slash. *)
Definition skip_slash (path : bytes) : bytes :=
  match path with
  | c :: path' => if decide (c = SLASH) then path' else path
  | [] => []
  end.

(** The loop of [get_cached_inode_num]: [next] is the entry found last. *)
Fixpoint cached_loop (fuel : nat) (next : option nat) (path : bytes)
    : M dcache (option nat * bytes) :=
  match fuel with
  | O => fail NoFuel
  | S fuel' =>
      let path := skip_slash path in
      let* path_len := lift (get_path_token_len path) in
      let ret_ := next in
      if path_len =? 0 then ret (ret_, path) else
      let* next := dcache_lookup ret_ path path_len in
      match next with
      | Some _ => cached_loop fuel' next (drop (Z.to_nat path_len) path)
      | None => ret (ret_, path)
      end
  end.
Definition get_cached_inode_num (path : bytes) : M dcache (option nat * bytes) :=
  cached_loop (S (length path)) None path.

(** S_ISDIR, S_ISLNK *)
Definition S_IFMT : Z := 0xF000.
Definition S_ISDIR (mode : Z) : bool := Z.land mode S_IFMT =? 0x4000.
Definition S_ISLNK (mode : Z) : bool := Z.land mode S_IFMT =? 0xA000.

Section lookup.
Context {R : Type} `{RL : ReadLayer R}.

(** The loop over the dentries of one directory: the inode number of the entry
    whose name is the token, [None] when the directory ends ([dentry] is NULL).
    [offset] is a uint32_t. *)
Fixpoint dir_scan (fuel : nat) (inode : bytes) (offset : Z) (dctx : inode_dir_ctx)
    (path : bytes) (path_len : Z) : M (fs R) (option Z) :=
  match fuel with
  | O => fail NoFuel
  | S fuel' =>
      let* r := inode_dentry_get inode offset dctx in
      match fst r with
      | None => ret None
      | Some dentry =>
          let* rec_len := lift (fld ext4_dir_entry_2 "rec_len" dentry) in
          let offset := u32 (offset + rec_len) in
          let continue := dir_scan fuel' inode offset (snd r) path path_len in
          let* ino := lift (fld ext4_dir_entry_2 "inode" dentry) in
          if ino =? 0 then continue else
          let* name_len := lift (fld ext4_dir_entry_2 "name_len" dentry) in
          if negb (path_len =? name_len) then continue else
          do* require (in_range 8 name_len dentry) in
          if decide (slice 0 name_len path = slice 8 name_len dentry)
          then ret (Some ino) else continue
      end
  end.

(** A directory of [size] bytes has at most [size] entries of non-zero length. *)
Definition dir_fuel (inode : bytes) : nat :=
  match inode_get_size inode with Ok size => S (Z.to_nat size) | Err _ => 1%nat end.

(** The loop of [inode_get_idx_by_path]; [inode0] is what the local variable
    [inode] holds when the turn begins. *)
Fixpoint path_loop (fuel : nat) (dc_entry : option nat) (inode_idx : Z) (inode0 path : bytes)
    : M (fs R) Z :=
  match fuel with
  | O => fail NoFuel
  | S fuel' =>
      let path := skip_trailing_backslash path in
      let* path_len := lift (get_path_token_len path) in
      if path_len =? 0 then ret inode_idx else
      let* g := inode_get_by_number inode_idx in
      let inode := (if inode_idx =? 0 then inode0 else snd g) in
      let* dctx := inode_dir_ctx_reset inode in
      let* found := dir_scan (dir_fuel inode) inode 0 dctx path path_len in
      match found with
      | None => ret 0
      | Some idx =>
          let* mode := lift (fld ext4_inode "i_mode" inode) in
          let* dc_entry := (if S_ISDIR mode
                            then on_dcache (dcache_insert dc_entry path path_len idx)
                            else ret dc_entry) in
          match strchr path SLASH with
          | Some path' => path_loop fuel' dc_entry idx inode path'
          | None => ret idx
          end
      end
  end.

Definition inode_get_idx_by_path (path : bytes) : M (fs R) Z :=
  do* (match path with
       | c :: _ => ASSERT (bool_decide (c = SLASH))
       | [] => fail Abort
       end) in
  let* c := on_dcache (get_cached_inode_num path) in
  let* inode_idx := on_dcache (dcache_get_inode (fst c)) in
  path_loop (S (length path)) (fst c) inode_idx [] (snd c).

Definition inode_get_by_path (path : bytes) : M (fs R) (Z * bytes) :=
  let* n := inode_get_idx_by_path path in inode_get_by_number n.
End lookup.

(** ** Reference definitions *)

(** The components of a path: the maximal runs of non-slash characters. *)
Fixpoint comps_acc (cur path : bytes) : list bytes :=
  match path with
  | [] => match cur with [] => [] | _ => [cur] end
  | c :: path' =>
      if decide (c = SLASH)
      then match cur with [] => comps_acc [] path' | _ => cur :: comps_acc [] path' end
      else comps_acc (cur ++ [c]) path'
  end.
Definition components (path : bytes) : list bytes := comps_acc [] path.

(** [de_next] is the offset of the following entry. *)
Record dirent : Type := mkDirent { de_inode : Z; de_name : bytes; de_next : Z }.

(** [dir_entries bs content off es]: from [off] on, the directory [content] is
    the sequence of entries [es], none of them crossing a block boundary. *)
Inductive dir_entries (bs : Z) (content : bytes) : Z -> list dirent -> Prop :=
| dir_end : dir_entries bs content (zlen content) []
| dir_entry off es :
    0 <= off < zlen content ->
    let rec_len := le_at (off + 4) 2 content in
    let name_len := le_at (off + 6) 1 content in
    0 < rec_len ->
    off mod bs + 8 + name_len <= bs ->
    dir_entries bs content (off + rec_len) es ->
    dir_entries bs content off
      (mkDirent (le_at off 4 content) (slice (off + 8) name_len content) (off + rec_len) :: es).

(** The first live entry with the name. *)
Fixpoint dir_find (es : list dirent) (nm : bytes) : option Z :=
  match es with
  | [] => None
  | e :: es' =>
      if decide (de_inode e <> 0 /\ de_name e = nm) then Some (de_inode e)
      else dir_find es' nm
  end.

(** Path resolution in the file tree [T], a partial map from the inode numbers
    of directories to their entries: 0 when a component is missing, [None] when
    a component is looked up in something that is not a directory of [T]. *)
Fixpoint resolve (T : Z -> option (list dirent)) (n : Z) (cs : list bytes) : option Z :=
  match cs with
  | [] => Some n
  | c :: cs' =>
      match T n with
      | None => None
      | Some es => match dir_find es c with
                   | None => Some 0
                   | Some m => resolve T m cs'
                   end
      end
  end.

(** What the cache claims: node [a] under [p] stands for an entry of the
    directory [inode_of p]. *)
Definition edge (T : Z -> option (list dirent)) (n : Z) (nm : bytes) (m : Z) : Prop :=
  exists es, T n = Some es /\ dir_find es nm = Some m.
Record dcache_sound (T : Z -> option (list dirent)) (d : dcache) (K : nat -> list nat)
    : Prop := {
  ds_rep : dcache_rep d K;
  ds_root : inode_of d root = Some ROOT_INODE_N;
  ds_edge : forall p a, a ∈ K p -> exists n nm m,
    inode_of d p = Some n /\ name_of d a = Some nm /\ inode_of d a = Some m /\
    edge T n nm m }.

(** A string of the program whose components all fit in a cache entry. *)
Definition short_path (path : bytes) : Prop :=
  (Byte.x00 ∉ path) /\ Forall (fun c => zlen c < DCACHE_ENTRY_NAME_LEN) (components path).

(** The characters before the first slash. *)
Fixpoint tok (path : bytes) : bytes :=
  match path with
  | c :: path' => if decide (c = SLASH) then [] else c :: tok path'
  | [] => []
  end.
Definition after_tok (path : bytes) : bytes := drop (length (tok path)) path.

(** ** Paths *)

Lemma tok_split path : path = tok path ++ after_tok path.
Proof.
  unfold after_tok. induction path as [|c path IH]; [done|]. cbn [tok].
  case_decide; [done|]. cbn. by rewrite <- IH.
Qed.

Lemma after_tok_cases path :
  after_tok path = [] \/ exists p, after_tok path = SLASH :: p.
Proof.
  unfold after_tok. induction path as [|c path IH]; [by left|]. cbn [tok].
  case_decide as Hc; [|done]. right. exists path. by subst c.
Qed.

Lemma tok_noslash path : SLASH ∉ tok path.
Proof.
  induction path as [|c path IH]; cbn [tok]; [apply not_elem_of_nil|].
  case_decide as Hc; [apply not_elem_of_nil|]. rewrite elem_of_cons. intros [He|Hi]; [by apply Hc|by apply IH].
Qed.

Lemma tok_lookup path i :
  Byte.x00 ∉ path ->
  (i < length (tok path))%nat ->
  exists c, path !! i = Some c /\ c <> SLASH /\ c <> Byte.x00.
Proof.
  intros Hn Hi. destruct (lookup_lt_is_Some_2 (tok path) i Hi) as [c Hc].
  assert (Hp : path !! i = Some c) by (rewrite (tok_split path); by apply lookup_app_l_Some).
  exists c. split; [done|]. split; intros ->.
  - apply (tok_noslash path). by eapply list_elem_of_lookup_2.
  - apply Hn. by eapply list_elem_of_lookup_2.
Qed.

Lemma char_after_tok path :
  char_at path (zlen (tok path)) = Ok SLASH \/ char_at path (zlen (tok path)) = Ok Byte.x00.
Proof.
  destruct (after_tok_cases path) as [Ha|[p Ha]].
  - right. pose proof (tok_split path) as Hs. rewrite Ha, app_nil_r in Hs.
    rewrite <- Hs. apply char_at_end.
  - left. unfold zlen. apply char_at_lookup. pose proof (tok_split path) as Hs.
    rewrite Ha in Hs. transitivity ((tok path ++ SLASH :: p) !! length (tok path));
      [by rewrite <- Hs|by apply list_lookup_middle].
Qed.

Lemma token_len_loop_ok path k fuel :
  Byte.x00 ∉ path -> zlen (tok path) < 256 -> (k <= length (tok path))%nat ->
  (length (tok path) - k < fuel)%nat ->
  token_len_loop fuel path (Z.of_nat k) = Ok (zlen (tok path)).
Proof.
  intros Hn Hlt. revert k. induction fuel as [|fuel IH]; intros k Hk Hf; [lia|].
  cbn [token_len_loop].
  destruct (Nat.eq_dec k (length (tok path))) as [->|Hne].
  - change (Z.of_nat (length (tok path))) with (zlen (tok path)).
    destruct (char_after_tok path) as [-> | ->]; cbn [rbind].
    + by rewrite decide_True.
    + rewrite decide_False by done. by rewrite decide_True.
  - destruct (tok_lookup path k Hn ltac:(lia)) as (c & Hc & Hs & H0).
    rewrite (char_at_lookup _ _ _ Hc). cbn [rbind].
    rewrite !decide_False by done. unfold zlen in Hlt. rewrite u8_small by lia.
    replace (Z.of_nat k + 1) with (Z.of_nat (S k)) by lia. apply IH; lia.
Qed.

(** Measuring a token, short or long. *)
Lemma get_path_token_len_run path :
  Byte.x00 ∉ path ->
  (zlen (tok path) < 256 -> get_path_token_len path = Ok (zlen (tok path))) /\
  (256 <= zlen (tok path) -> forall fuel len, 0 <= len < 256 ->
     token_len_loop fuel path len = Err NoFuel).
Proof.
  intros Hn. split.
  - intros Hlt. unfold get_path_token_len. apply (token_len_loop_ok path 0); [done..|lia|].
    assert (length (tok path) <= length path)%nat; [|lia].
    rewrite (tok_split path) at 2. rewrite length_app. lia.
  - intros Hge. unfold zlen in Hge. induction fuel as [|fuel IH]; intros len Hlen; [done|].
    cbn [token_len_loop].
    destruct (tok_lookup path (Z.to_nat len) Hn ltac:(lia)) as (c & Hc & Hs & H0).
    apply char_at_lookup in Hc. rewrite Z2Nat.id in Hc by lia. rewrite Hc. cbn [rbind].
    rewrite !decide_False by done. apply IH. by apply Z.mod_pos_bound.
Qed.

(** C39: the length of the next path component is computed, and computed
    within the string, for components of up to 255 characters; with 256 or
    more the uint8_t counter wraps around before it meets a slash or the end,
    and no number of iterations is enough. *)
Theorem get_path_token_len_spec path :
  Byte.x00 ∉ path ->
  (zlen (tok path) < 256 -> get_path_token_len path = Ok (zlen (tok path))) /\
  (256 <= zlen (tok path) -> forall fuel len, 0 <= len < 256 ->
     token_len_loop fuel path len = Err NoFuel).
Proof. by apply get_path_token_len_run. Qed.

Lemma comps_acc_tok cur path :
  comps_acc cur path =
  match cur ++ tok path with
  | [] => components (after_tok path)
  | w => w :: components (after_tok path)
  end.
Proof.
  revert cur. induction path as [|c path IH]; intros cur.
  - cbn. rewrite app_nil_r. by destruct cur.
  - cbn [comps_acc tok]. unfold after_tok. cbn [tok]. case_decide as Hc.
    + subst c. rewrite app_nil_r. cbn [length drop].
      assert (Hs : components (SLASH :: path) = comps_acc [] path)
        by (unfold components; cbn [comps_acc]; by rewrite decide_True).
      rewrite Hs. by destruct cur.
    + cbn [length drop]. rewrite IH. rewrite <- app_assoc. done.
Qed.

Lemma components_tok path :
  components path = match tok path with
                    | [] => components (after_tok path)
                    | w => w :: components (after_tok path)
                    end.
Proof. apply (comps_acc_tok [] path). Qed.

Lemma components_slash path : components (SLASH :: path) = components path.
Proof. unfold components at 1. cbn [comps_acc]. by rewrite decide_True. Qed.

Lemma components_skip_slash path : components (skip_slash path) = components path.
Proof.
  destruct path as [|c path]; [done|]. cbn [skip_slash]. case_decide as Hc; [|done].
  subst c. by rewrite components_slash.
Qed.

Lemma components_skip_all path : components (skip_trailing_backslash path) = components path.
Proof.
  induction path as [|c path IH]; [done|]. cbn [skip_trailing_backslash].
  case_decide as Hc; [|done]. subst c. by rewrite components_slash.
Qed.

(** After skipping, an empty token means the end of the path. *)
Lemma skip_all_tok path :
  tok (skip_trailing_backslash path) = [] -> skip_trailing_backslash path = [].
Proof.
  induction path as [|c path IH]; [done|]. cbn [skip_trailing_backslash].
  case_decide as Hc; [done|]. cbn [tok]. rewrite decide_False by done. done.
Qed.

Lemma strchr_after_tok path :
  strchr path SLASH = match after_tok path with [] => None | p => Some p end.
Proof.
  unfold after_tok. induction path as [|c path IH]; [done|]. cbn [strchr tok].
  case_decide as Hc; [done|]. cbn [length drop]. done.
Qed.

Lemma skip_slash_suffix path : exists p, path = p ++ skip_slash path.
Proof.
  destruct path as [|c path]; [by exists []|]. cbn [skip_slash].
  case_decide; [by exists [c]|by exists []].
Qed.
Lemma skip_all_suffix path : exists p, path = p ++ skip_trailing_backslash path.
Proof.
  induction path as [|c path [p IH]]; [by exists []|]. cbn [skip_trailing_backslash].
  case_decide; [|by exists []]. exists (c :: p). cbn. by rewrite <- IH.
Qed.

(** A suffix of a string without NULs has none. *)
Lemma suffix_nonul p q : Byte.x00 ∉ p ++ q -> Byte.x00 ∉ q.
Proof. rewrite elem_of_app. tauto. Qed.

Lemma tok_token path :
  Byte.x00 ∉ path -> token path (zlen (tok path)) /\
  take (Z.to_nat (zlen (tok path))) path = tok path.
Proof.
  intros Hn. assert (Ht : take (Z.to_nat (zlen (tok path))) path = tok path).
  { unfold zlen. rewrite Nat2Z.id. rewrite (tok_split path) at 2. by rewrite take_app_length. }
  split; [|done]. split.
  - split; [apply zlen_nonneg|]. rewrite (tok_split path) at 2. rewrite zlen_app.
    pose proof (zlen_nonneg (after_tok path)). lia.
  - rewrite Ht. intros Hi. apply Hn. rewrite (tok_split path), elem_of_app. by left.
Qed.

(** ** Directories *)

Section dirs.
Context {R : Type} `{RLO : ReadLayerOk R}.
Context (E : env) (Hwf : super_wf (e_super E)).
Local Abbreviation bs := (bsize (e_super E)).

Lemma dir_entries_range content off es :
  dir_entries bs content off es -> 0 <= off <= zlen content.
Proof. intros He. pose proof (zlen_nonneg content). destruct He; lia. Qed.

(** The block that holds [off] lies inside a directory of whole blocks. *)
Lemma block_inside inode content off :
  dir_repr E inode content -> 0 <= off < zlen content ->
  off / bs * bs + bs <= zlen content.
Proof.
  intros Hd Hoff. pose proof (bsize_range _ Hwf) as Hb. pose proof (dr_mult _ _ _ Hd) as Hm.
  apply Z.mod_divide in Hm; [|lia]. destruct Hm as [q Hq].
  assert (off / bs < q) by (apply Z.div_lt_upper_bound; lia). nia.
Qed.

Lemma dentry_at_slice content off :
  0 <= off -> dentry_at E content off = slice off (bs - off mod bs) content.
Proof.
  intros Hoff. pose proof (bsize_range _ Hwf) as Hb.
  pose proof (Z.mod_pos_bound off bs ltac:(lia)) as Hr.
  pose proof (Z.div_mod off bs ltac:(lia)) as Hdm.
  assert (0 <= off / bs) by (apply Z.div_pos; lia).
  unfold dentry_at, slice. rewrite skipn_firstn_comm, drop_drop.
  f_equal; [lia|]. f_equal. nia.
Qed.

Lemma zlen_dentry_at inode content off :
  dir_repr E inode content -> 0 <= off < zlen content ->
  zlen (dentry_at E content off) = bs - off mod bs.
Proof.
  intros Hd Hoff. pose proof (bsize_range _ Hwf) as Hb.
  pose proof (Z.mod_pos_bound off bs ltac:(lia)) as Hr.
  pose proof (Z.div_mod off bs ltac:(lia)) as Hdm.
  pose proof (block_inside _ _ _ Hd Hoff).
  rewrite dentry_at_slice by lia. apply zlen_slice; lia.
Qed.

(** The header fields of the dentry at [off]. *)
Lemma dentry_fields inode content off nl :
  dir_repr E inode content -> 0 <= off < zlen content -> 0 <= nl ->
  off mod bs + 8 + nl <= bs ->
  let d := dentry_at E content off in
  fld ext4_dir_entry_2 "rec_len" d = Ok (le_at (off + 4) 2 content) /\
  fld ext4_dir_entry_2 "inode" d = Ok (le_at off 4 content) /\
  fld ext4_dir_entry_2 "name_len" d = Ok (le_at (off + 6) 1 content) /\
  in_range 8 nl d = true /\ slice 8 nl d = slice (off + 8) nl content.
Proof.
  intros Hd Hoff Hnl Hfit d. pose proof (zlen_dentry_at _ _ _ Hd Hoff) as Hlen. fold d in Hlen.
  assert (Hs : d = slice off (bs - off mod bs) content) by (apply dentry_at_slice; lia).
  rewrite (fld_ok ext4_dir_entry_2 "rec_len" 4 U16) by (reflexivity || (cbn [csize]; lia)).
  rewrite (fld_ok ext4_dir_entry_2 "inode" 0 U32) by (reflexivity || (cbn [csize]; lia)).
  rewrite (fld_ok ext4_dir_entry_2 "name_len" 6 U8) by (reflexivity || (cbn [csize]; lia)).
  cbn [csize]. rewrite in_range_true by lia. rewrite Hs.
  rewrite !le_at_slice by lia. rewrite slice_slice by lia.
  rewrite Z.add_0_r. done.
Qed.

(** The scan of a directory finds the first live entry of the name, and a
    bound on the number of turns is the number of entries. *)
Lemma dir_scan_ok inode content off es path n fuel lb :
  dir_repr E inode content -> dir_entries bs content off es -> token path n ->
  (length es < fuel)%nat ->
  evals E (dir_scan fuel inode off (dctx E content lb) path n)
    (Ok (dir_find es (take (Z.to_nat n) path))).
Proof.
  intros Hd Hes Htok. revert fuel lb.
  induction Hes as [|off es Hoff rec_len name_len Hrec Hfit Hes IH]; intros fuel lb Hf;
    (destruct fuel as [|fuel]; [cbn in Hf; lia|]); cbn [dir_scan].
  - eapply evals_bind; [apply (inode_dentry_get_run E Hwf); [done|pose proof (zlen_nonneg content); lia]|].
    cbv beta. rewrite Z.eqb_refl. cbn [fst]. epure.
  - eapply evals_bind; [apply (inode_dentry_get_run E Hwf); [done|lia]|]. cbv beta.
    destruct (Z.eqb_spec off (zlen content)); [lia|]. cbn [fst snd].
    pose proof (le_at_range (off + 6) 1 content ltac:(lia)) as Hnl. fold name_len in Hnl.
    destruct (dentry_fields inode content off name_len Hd Hoff ltac:(lia) Hfit)
      as (-> & -> & -> & Hin & Hname).
    fold rec_len name_len. do 2 epure.
    pose proof (dir_entries_range _ _ _ Hes). pose proof (dr_bound _ _ _ Hd).
    rewrite u32_small by lia. cbn [dir_find de_inode de_name length] in Hf |- *.
    destruct (Z.eqb_spec (le_at off 4 content) 0) as [Hz|Hnz].
    { rewrite decide_False by tauto. apply IH. lia. }
    epure. destruct Htok as [Hn Hnul].
    assert (Hlen : zlen (slice (off + 8) name_len content) = name_len).
    { pose proof (block_inside _ _ _ Hd Hoff). pose proof (bsize_range _ Hwf).
      pose proof (Z.div_mod off bs ltac:(lia)). apply zlen_slice; lia. }
    change (take (Z.to_nat n) path) with (slice 0 n path) in *.
    destruct (Z.eqb_spec n name_len) as [Heq|Hne]; cbn [negb].
    2:{ rewrite decide_False; [apply IH; lia|]. intros [_ He].
        apply Hne. rewrite <- Hlen, He. symmetry. apply zlen_slice; lia. }
    rewrite Hin. unfold require. epure. rewrite Hname, <- Heq.
    destruct (decide (slice 0 n path = slice (off + 8) n content)) as [He|He].
    + rewrite decide_True by done. epure.
    + rewrite decide_False by (intros [_ ?]; congruence). apply IH. lia.
Qed.
End dirs.

(** ** The cache *)

Section cache.
Context (T : Z -> option (list dirent)).

Lemma rotated_mem d K p nm a b :
  dcache_rep d K -> find_child d (K p) nm = Some a ->
  b ∈ rotate_to a [] (K p) <-> b ∈ K p.
Proof.
  intros Hr Hf. pose proof (rep_nodup d K Hr p) as Hnd.
  destruct (find_child_split _ _ _ _ Hf) as (l1 & l2 & HK & _). rewrite HK in *.
  rewrite rotate_to_front by done.
  rewrite elem_of_cons, !elem_of_app, elem_of_cons. tauto.
Qed.

(** A cached child is an entry of the directory; looking it up changes no
    inode number. *)
Lemma sound_lookup d K parent i nm n :
  dcache_sound T d K -> inode_of d (default root parent) = Some i -> token nm n ->
  exists r d' K', dcache_lookup parent nm n d = Ok (r, d') /\ dcache_sound T d' K' /\
    (forall a, inode_of d' a = inode_of d a) /\
    match r with
    | Some a => exists m, inode_of d a = Some m /\ edge T i (take (Z.to_nat n) nm) m
    | None => True
    end.
Proof.
  intros [Hr Hroot Hedge] Hi Htok. destruct (inode_of_cell _ _ _ Hi) as (pe & Hp & _).
  destruct (dcache_lookup_run d K parent nm n Hr ltac:(eauto) Htok)
    as (d' & Hrun & [_ Hsame] & Hr').
  set (p := default root parent) in *. set (t := take (Z.to_nat n) nm) in *.
  destruct (find_child d (K p) t) as [a|] eqn:Hf.
  - exists (Some a), d', (<[p := rotate_to a [] (K p)]> K). split; [done|].
    assert (Hmem : forall q b, b ∈ (<[p := rotate_to a [] (K p)]> K : nat -> list nat) q -> b ∈ K q).
    { intros q b. destruct (decide (p = q)) as [<-|Hne];
        [rewrite fn_lookup_insert; by rewrite (rotated_mem d K p t a b Hr Hf)
        |by rewrite fn_lookup_insert_ne]. }
    split; [split; [done|by rewrite (proj2 (Hsame _))|]|split; [by intros b; apply Hsame|]].
    + intros q b Hb%Hmem. destruct (Hedge q b Hb) as (x & y & z & H1 & H2 & H3 & H4).
      exists x, y, z. by rewrite !(proj2 (Hsame _)), (proj1 (Hsame b)).
    + destruct (find_child_split _ _ _ _ Hf) as (l1 & l2 & HK & Hn & _).
      destruct (Hedge p a) as (x & y & z & H1 & H2 & H3 & H4).
      { rewrite HK, elem_of_app, elem_of_cons. tauto. }
      exists z. split; [done|]. rewrite Hi in H1. injection H1 as <-.
      rewrite Hn in H2. by injection H2 as <-.
  - exists None, d', K. split; [done|]. split; [|split; [by intros b; apply Hsame|done]].
    split; [done|by rewrite (proj2 (Hsame _))|].
    intros q b Hb. destruct (Hedge q b Hb) as (x & y & z & H1 & H2 & H3 & H4).
    exists x, y, z. by rewrite !(proj2 (Hsame _)), (proj1 (Hsame b)).
Qed.

(** Caching an entry of the parent's directory. *)
Lemma sound_insert d K parent i nm n m :
  dcache_sound T d K -> inode_of d (default root parent) = Some i -> token nm n ->
  n < DCACHE_ENTRY_NAME_LEN -> edge T i (take (Z.to_nat n) nm) m ->
  exists a d' K', dcache_insert parent nm n m d = Ok (Some a, d') /\ dcache_sound T d' K' /\
    inode_of d' a = Some m.
Proof.
  intros [Hr Hroot Hedge] Hi Htok Hn He. destruct (inode_of_cell _ _ _ Hi) as (pe & Hp & Hpi).
  assert (Hz : parent = None -> inode pe <> 0).
  { intros ->. cbn in Hi. rewrite Hroot in Hi. injection Hi as <-. by rewrite Hpi. }
  destruct (proj1 (dcache_insert_spec d K parent pe nm n m Hr Hp Hz Htok) ltac:(lia))
    as (d' & Hrun & Hr' & Hnm & Hino & _ & Hold).
  set (p := default root parent) in *. set (a := next_addr d) in *.
  assert (Hcell : forall b e, cells d !! b = Some e -> b <> a)
    by (intros b e Hb; pose proof (rep_bound d K Hr b e Hb); unfold a; lia).
  exists a, d', (<[p := insert_front a (K p)]> K). split; [done|]. split; [|done].
  destruct (rep_root d K Hr) as [re Hre]. split; [done|by rewrite (proj2 (Hold _ (Hcell _ _ Hre)))|].
  intros q b Hb. apply (insert_front_mem d K p) in Hb.
  destruct Hb as [Hb|[-> ->]].
  - destruct (rep_kid_cell d K q b Hr Hb) as [be Hbe].
    destruct (Hedge q b Hb) as (x & y & z & H1 & H2 & H3 & H4).
    destruct (inode_of_cell _ _ _ H1) as (qe & Hqe & _).
    exists x, y, z. rewrite !(proj2 (Hold _ (Hcell _ _ Hqe))).
    rewrite !(proj2 (Hold _ (Hcell _ _ Hbe))), (proj1 (Hold _ (Hcell _ _ Hbe))). done.
  - exists i, (take (Z.to_nat n) nm), m. by rewrite (proj2 (Hold _ (Hcell _ _ Hp))).
Qed.
End cache.

(** ** Short paths *)

Lemma short_suffix path p q :
  path = p ++ q -> components q = components path -> short_path path -> short_path q.
Proof.
  intros -> Hc [Hn Hf]. split; [by eapply suffix_nonul|by rewrite Hc].
Qed.

Lemma short_skip_slash path : short_path path -> short_path (skip_slash path).
Proof.
  destruct (skip_slash_suffix path) as [p Hp].
  by apply (short_suffix _ p), components_skip_slash.
Qed.
Lemma short_skip_all path : short_path path -> short_path (skip_trailing_backslash path).
Proof.
  destruct (skip_all_suffix path) as [p Hp].
  by apply (short_suffix _ p), components_skip_all.
Qed.

(** The next token: measured, short, and split off. *)
Lemma short_tok path :
  short_path path ->
  get_path_token_len path = Ok (zlen (tok path)) /\ token path (zlen (tok path)) /\
  take (Z.to_nat (zlen (tok path))) path = tok path /\
  zlen (tok path) < DCACHE_ENTRY_NAME_LEN /\
  (zlen (tok path) <> 0 -> components path = tok path :: components (after_tok path)) /\
  short_path (after_tok path).
Proof.
  intros [Hn Hf]. rewrite components_tok in Hf.
  assert (Ha : Byte.x00 ∉ after_tok path)
    by (apply (suffix_nonul (tok path)); by rewrite <- tok_split).
  assert (Hl : zlen (tok path) < DCACHE_ENTRY_NAME_LEN).
  { destruct (tok path); [done|]. by apply Forall_cons in Hf as [? _]. }
  destruct (tok_token path Hn) as [Htok Htake].
  assert (Hlt : zlen (tok path) < 256) by (unfold DCACHE_ENTRY_NAME_LEN in Hl; lia).
  split; [by apply (get_path_token_len_run path Hn)|]. do 3 (split; [done|]). split.
  - rewrite components_tok. by destruct (tok path).
  - split; [done|]. destruct (tok path); [done|]. by apply Forall_cons in Hf as [_ ?].
Qed.

Lemma length_after_tok path :
  zlen (tok path) <> 0 -> (length (after_tok path) < length path)%nat.
Proof.
  intros Hne. rewrite (tok_split path) at 2. rewrite length_app. unfold zlen in Hne. lia.
Qed.
Lemma drop_tok path : drop (Z.to_nat (zlen (tok path))) path = after_tok path.
Proof. unfold zlen. by rewrite Nat2Z.id. Qed.

Lemma suffix_length {A} (l p q : list A) : l = p ++ q -> (length q <= length l)%nat.
Proof. intros ->. rewrite length_app. lia. Qed.

(** ** Resolution through the cache *)

Lemma cached_loop_ok T fuel next path i d K r :
  dcache_sound T d K -> inode_of d (default root next) = Some i -> short_path path ->
  (length path < fuel)%nat -> resolve T i (components path) = Some r ->
  exists next' path' d' K' i', cached_loop fuel next path d = Ok ((next', path'), d') /\
    dcache_sound T d' K' /\ inode_of d' (default root next') = Some i' /\
    short_path path' /\ resolve T i' (components path') = Some r /\
    (length path' <= length path)%nat.
Proof.
  revert next path i d K. induction fuel as [|fuel IH]; intros next path i d K Hd Hi Hp Hf Hr;
    [lia|]. cbn [cached_loop].
  destruct (skip_slash_suffix path) as [p0 Hp0%suffix_length].
  rewrite <- components_skip_slash in Hr. apply short_skip_slash in Hp.
  set (q := skip_slash path) in *.
  destruct (short_tok q Hp) as (Hlen & Htok & Htake & _ & Hc & Hpa).
  rewrite (bind_Ok _ _ d (zlen (tok q)) d) by (unfold lift; by rewrite Hlen).
  destruct (Z.eqb_spec (zlen (tok q)) 0) as [Hz|Hnz].
  { exists next, q, d, K, i. done. }
  destruct (sound_lookup T d K next i q (zlen (tok q)) Hd Hi Htok)
    as (res & d' & K' & Hrun & Hd' & Hino & Hres).
  rewrite (bind_Ok _ _ _ _ _ Hrun). destruct res as [a|].
  - destruct Hres as (m & Hm & es & HT & Hfind). rewrite Htake in Hfind.
    rewrite (Hc Hnz) in Hr. cbn [resolve] in Hr. rewrite HT, Hfind in Hr.
    rewrite drop_tok. pose proof (length_after_tok q Hnz).
    destruct (IH (Some a) (after_tok q) m d' K') as (n' & p' & d2 & K2 & i2 & H1 & H2 & H3 & H4 & H5 & H6);
      [done|by cbn; rewrite Hino|done|lia|done|].
    exists n', p', d2, K2, i2. do 5 (split; [done|]). lia.
  - exists next, q, d', K', i. do 2 (split; [done|]). by rewrite Hino.
Qed.

Section resolution.
Context {R : Type} `{RLO : ReadLayerOk R}.
Context (E : env) (Hwf : super_wf (e_super E)).
Context (T : Z -> option (list dirent)).
Local Abbreviation bs := (bsize (e_super E)).

(** The tree on the disk: the inode of a directory of [T] can be read, it is a
    directory and its blocks hold the entries. *)
Definition fs_repr : Prop := forall n es, T n = Some es ->
  n <> 0 /\ exists ino content, evals E (inode_get_by_number n) (Ok (0, ino)) /\
    S_ISDIR (le_at 0 2 ino) = true /\ dir_repr E ino content /\ dir_entries bs content 0 es.

(** The state: the disk and the statics are those of [E], the cache is sound. *)
Definition lookup_inv (s : fs R) : Prop :=
  st_env E s /\ exists K, dcache_sound T (st_dcache s) K.

Lemma dir_entries_count content off es :
  dir_entries bs content off es -> zlen es <= zlen content - off.
Proof.
  induction 1 as [|off es Hoff rec_len name_len Hrec Hfit Hes IH]; [rewrite zlen_nil; lia|].
  rewrite zlen_cons. lia.
Qed.

(** One directory of the tree, searched. *)
Lemma search_ok n es ino content path :
  T n = Some es -> dir_repr E ino content -> dir_entries bs content 0 es ->
  short_path path ->
  evals E (let* dctx := inode_dir_ctx_reset ino in
           dir_scan (dir_fuel ino) ino 0 dctx path (zlen (tok path)))
    (Ok (dir_find es (tok path))).
Proof.
  intros HT Hrep Hes Hp. destruct (short_tok path Hp) as (_ & Htok & Htake & _).
  pose proof (dr_bound _ _ _ Hrep) as Hb.
  eapply evals_bind; [apply (evals_dir_ctx_update E Hwf ino content 0 Hrep); lia|]. cbv beta.
  pose proof (dir_scan_ok E Hwf ino content 0 es path (zlen (tok path)) (dir_fuel ino) 0
    Hrep Hes Htok) as Hs. rewrite Htake in Hs. apply Hs.
  unfold dir_fuel. destruct (inode_size_ok ino (dr_inode _ _ _ Hrep)) as [-> _].
  rewrite (dr_size _ _ _ Hrep). pose proof (dir_entries_count content 0 es Hes).
  unfold zlen in *. lia.
Qed.

(** Steps of the lookup that only use the disk. *)
Lemma wp_evals {A B} (m : M (fs R) A) (k : A -> M (fs R) B) v Q s :
  evals E m (Ok v) -> st_env E s ->
  (forall s', st_env E s' -> st_dcache s' = st_dcache s -> wp (k v) Q s') ->
  wp (bind m k) Q s.
Proof.
  intros Hm Hs Hk. destruct (evals_run E m v s Hm Hs) as (d & Hrun & Hok).
  apply wpx_bind. unfold wpx. rewrite Hrun. apply (Hk (set_disk d s)); [by apply set_disk_env|done].
Qed.

(** What the loop promises: the resolved number, the invariant kept. *)
Definition resolved (r n : Z) (s : fs R) : Prop := n = r /\ lookup_inv s.

(** Caching the entry found in a directory. *)
Lemma wp_cache {B} (k : option nat -> M (fs R) B) Q parent i nm n m s K :
  st_env E s -> dcache_sound T (st_dcache s) K ->
  inode_of (st_dcache s) (default root parent) = Some i -> token nm n ->
  n < DCACHE_ENTRY_NAME_LEN -> edge T i (take (Z.to_nat n) nm) m ->
  (forall a s' K', st_env E s' -> dcache_sound T (st_dcache s') K' ->
     inode_of (st_dcache s') a = Some m -> wp (k (Some a)) Q s') ->
  wp (bind (on_dcache (dcache_insert parent nm n m)) k) Q s.
Proof.
  intros (Hk1 & Hk2 & Hk3) Hd Hi Htok Hn He Hk.
  destruct (sound_insert T _ K parent i nm n m Hd Hi Htok Hn He)
    as (a & d' & K' & Hrun & Hd' & Ha).
  apply wpx_bind. unfold wpx, on_dcache, zoom. rewrite Hrun.
  by apply (Hk a (set_dcache d' s) K').
Qed.

Lemma path_loop_ok fuel dc n inode0 path s K r :
  fs_repr -> st_env E s -> dcache_sound T (st_dcache s) K ->
  inode_of (st_dcache s) (default root dc) = Some n -> short_path path ->
  (length path < fuel)%nat -> resolve T n (components path) = Some r ->
  wp (path_loop fuel dc n inode0 path) (resolved r) s.
Proof.
  intros Hfs. revert dc n inode0 path s K.
  induction fuel as [|fuel IH]; intros dc n inode0 path s K Hs Hd Hi Hp Hf Hr; [lia|].
  cbn [path_loop]. destruct (skip_all_suffix path) as [p0 Hp0%suffix_length].
  rewrite <- components_skip_all in Hr. apply short_skip_all in Hp.
  set (q := skip_trailing_backslash path) in *.
  destruct (short_tok q Hp) as (Hlen & Htok & Htake & Hshort & Hc & Hpa).
  rewrite Hlen. eapply wp_evals; [apply (evals_lift E (Ok (zlen (tok q))))|done|].
  intros s1 Hs1 Hsame. rewrite <- Hsame in Hd, Hi. clear s Hs Hsame.
  destruct (Z.eqb_spec (zlen (tok q)) 0) as [Hz|Hnz].
  { rewrite components_tok in Hr. destruct (tok q) eqn:Htq; [|done].
    apply skip_all_tok in Htq. fold q in Htq. rewrite Htq in Hr. injection Hr as <-.
    apply wpx_ret. split; [done|]. by split; [|exists K]. }
  rewrite (Hc Hnz) in Hr. cbn [resolve] in Hr. destruct (T n) as [es|] eqn:HT; [|done].
  destruct (Hfs n es HT) as (Hn0 & ino & content & Hget & Hdir & Hrep & Hes).
  eapply wp_evals; [exact Hget|done|]. intros s2 Hs2 Hsame. rewrite <- Hsame in Hd, Hi.
  clear s1 Hs1 Hsame. cbn [snd]. destruct (Z.eqb_spec n 0) as [?|_]; [done|].
  apply wpx_assoc.
  eapply wp_evals; [by apply (search_ok n es ino content q)|done|].
  intros s3 Hs3 Hsame. rewrite <- Hsame in Hd, Hi. clear s2 Hs2 Hsame.
  destruct (dir_find es (tok q)) as [m|] eqn:Hfind.
  2:{ injection Hr as <-. apply wpx_ret. split; [done|]. by split; [|exists K]. }
  rewrite (fld_ok ext4_inode "i_mode" 0 U16)
    by (reflexivity || (cbn [csize]; pose proof (dr_inode _ _ _ Hrep); lia)).
  cbn [csize]. eapply wp_evals; [apply (evals_lift E (Ok _))|done|].
  intros s4 Hs4 Hsame. rewrite <- Hsame in Hd, Hi. clear s3 Hs3 Hsame. rewrite Hdir.
  eapply wp_cache; [done..|by rewrite Htake; exists es|].
  clear s4 Hs4 Hd Hi. intros a s5 K5 Hs5 Hd5 Ha.
  rewrite strchr_after_tok. pose proof (length_after_tok q Hnz).
  destruct (after_tok q) as [|c p] eqn:Hat.
  - cbn in Hr. injection Hr as <-. apply wpx_ret. split; [done|]. by split; [|exists K5].
  - apply (IH (Some a) m ino (c :: p) s5 K5); [done..|lia|done].
Qed.

Lemma on_dcache_run {A} (m : M dcache A) (s : fs R) v d' :
  m (st_dcache s) = Ok (v, d') -> on_dcache m s = Ok (v, set_dcache d' s).
Proof. intros Hrun. unfold on_dcache, zoom. by rewrite Hrun. Qed.

(** The run of the path lookup. *)
Lemma inode_get_idx_by_path_run path s r :
  fs_repr -> lookup_inv s -> short_path path -> hd_error path = Some SLASH ->
  resolve T ROOT_INODE_N (components path) = Some r ->
  wp (inode_get_idx_by_path path) (resolved r) s.
Proof.
  intros Hfs [Hs [K Hd]] Hp Hhd Hr. unfold inode_get_idx_by_path.
  destruct path as [|c0 path]; [done|]. injection Hhd as ->.
  apply wpx_bind, wpx_ASSERT; [intros _|by rewrite bool_decide_eq_true_2].
  set (p := SLASH :: path) in *.
  destruct (cached_loop_ok T (S (length p)) None p ROOT_INODE_N (st_dcache s) K r)
    as (n' & p' & d' & K' & i' & Hrun & Hd' & Hi' & Hp' & Hr' & Hlen);
    [done|by apply (ds_root _ _ _ Hd)|done|lia|done|].
  eapply wpx_run; [by apply on_dcache_run|]. cbn [fst snd].
  destruct (inode_of_cell _ _ _ Hi') as (e & He & Hei).
  assert (Hg : dcache_get_inode n' d' = Ok (i', d')).
  { unfold dcache_get_inode. rewrite (bind_Ok _ _ _ _ _ (deref_ok _ _ _ He)). by rewrite <- Hei. }
  eapply wpx_run; [by apply (on_dcache_run _ (set_dcache d' s))|].
  apply (path_loop_ok _ n' i' [] p' _ K' r); [done|done|done|done|done|lia|done].
Qed.

(** C11: path lookup.  For an absolute path without NUL whose components are
    shorter than 40 characters and which does not lead through a file, and with a
    sound cache, whatever the cache holds, [inode_get_idx_by_path] ends and returns
    what resolving the components one by one from the root directory gives, 0 for
    a missing component; the cache it leaves is sound again. *)
Theorem inode_get_idx_by_path_ok path s r :
  fs_repr -> lookup_inv s -> short_path path -> hd_error path = Some SLASH ->
  resolve T ROOT_INODE_N (components path) = Some r ->
  wp (inode_get_idx_by_path path) (resolved r) s.
Proof. by apply inode_get_idx_by_path_run. Qed.
End resolution.

(** A directory entry of 40 or more characters is not cached, and the
    null pointer the walk continues with makes the next component a child of
    the root of the cache: from then on the root directory seems to hold it. *)
Theorem long_name_poisons_root T d K parent nm n i x nx m :
  dcache_sound T d K -> is_Some (cells d !! default root parent) ->
  token nm n -> DCACHE_ENTRY_NAME_LEN <= n -> token x nx -> nx < DCACHE_ENTRY_NAME_LEN ->
  exists a d' d'',
    (let* dc_entry := dcache_insert parent nm n i in dcache_insert dc_entry x nx m) d
      = Ok (Some a, d') /\
    dcache_lookup None x nx d' = Ok (Some a, d'') /\
    dcache_get_inode (Some a) d'' = Ok (m, d'').
Proof.
  intros [Hr Hroot _] [pe Hp] Htok Hn Hx Hnx.
  destruct (inode_of_cell _ _ _ Hroot) as (re & Hre & Hri).
  assert (H1 : dcache_insert parent nm n i d = Ok (None, d)).
  { unfold dcache_insert. by rewrite (proj2 (Z.ltb_lt _ _)) by lia. }
  destruct (proj1 (dcache_insert_spec d K None re x nx m Hr Hre ltac:(by intros _; rewrite Hri) Hx)
    ltac:(lia)) as (d' & Hrun & Hr' & Hnm & Hino & _).
  set (a := next_addr d) in *. cbn [default] in *.
  assert (Hroot' : is_Some (cells d' !! root)) by apply (rep_root _ _ Hr').
  destruct (dcache_lookup_run d' _ None x nx Hr' Hroot' Hx) as (d'' & Hlook & [_ Hsame] & _).
  cbn [default] in Hlook. rewrite fn_lookup_insert in Hlook.
  unfold insert_front in Hlook. cbn [find_child] in Hlook. rewrite decide_True in Hlook by done.
  exists a, d', d''. split; [by rewrite (bind_Ok _ _ _ _ _ H1)|]. split; [done|].
  assert (Hai : inode_of d'' a = Some m) by (by rewrite (proj2 (Hsame a))).
  destruct (inode_of_cell _ _ _ Hai) as (e & He & Hei).
  unfold dcache_get_inode. rewrite (bind_Ok _ _ _ _ _ (deref_ok _ _ _ He)). by rewrite Hei.
Qed.
