(* ===== verification/InodeReads.v ===== *)
(** * The trees of the functions of super.c, extents.c and inode.c

    Each function that only reads, construct by construct; the loops by
    induction on their fuel. *)
From Stdlib Require Import ZArith Lia Strings.Byte.
From stdpp Require Import base numbers list option strings.
From S2P Require Import Prelude Clib Layout Disk Dcache State Threads Super Reads Extents Inode Lookup.

#[export] Typeclasses Opaque
  super_group_inode_table_offset extent_get_extents_in_block extent_get_pblock
  __inode_get_data_pblock_ind __inode_get_data_pblock_dind __inode_get_data_pblock_tind
  inode_get_data_pblock disk_read_block dir_ctx_update inode_dir_ctx_reset
  inode_dentry_get_fuel inode_dentry_get inode_get_by_number dir_scan.

(** ** super.c *)

(** What is done with a group descriptor. *)
Definition itable_of_desc (gd : option bytes) R (RL : ReadLayer R) : M (fs R) Z :=
  match gd with
  | Some gd =>
      let* t := lift (fld ext4_group_desc "bg_inode_table_lo" gd) in
      let* bs := BLOCK_SIZE in
      ret (s64 (BLOCKS2BYTES t bs))
  | None => fail UB
  end.
#[export] Instance Reads_itable_offset n :
    Reads (fun R (RL : ReadLayer R) => super_group_inode_table_offset n).
Proof.
  unfold super_group_inode_table_offset. reads.
  refine (Reads_statics (fun _ g => itable_of_desc (g !! Z.to_nat _)) _). intros _ g.
  unfold itable_of_desc. reads.
Defined.

(** ** extents.c *)

#[export] Instance Reads_extents_in_block block :
    Reads (fun R (RL : ReadLayer R) => extent_get_extents_in_block block).
Proof. unfold extent_get_extents_in_block. reads. Defined.
#[export] Instance Reads_extent_get_pblock fuel extents lblock len :
    Reads (fun R (RL : ReadLayer R) => extent_get_pblock fuel extents lblock len).
Proof. revert extents. induction fuel as [|fuel IH]; intros extents; cbn [extent_get_pblock]; reads. Defined.

(** ** inode.c *)

#[export] Instance Reads_pblock_ind lblock block :
    Reads (fun R (RL : ReadLayer R) => __inode_get_data_pblock_ind lblock block).
Proof. unfold __inode_get_data_pblock_ind. reads. Defined.
#[export] Instance Reads_pblock_dind lblock block :
    Reads (fun R (RL : ReadLayer R) => __inode_get_data_pblock_dind lblock block).
Proof. unfold __inode_get_data_pblock_dind. reads. Defined.
#[export] Instance Reads_pblock_tind lblock block :
    Reads (fun R (RL : ReadLayer R) => __inode_get_data_pblock_tind lblock block).
Proof. unfold __inode_get_data_pblock_tind. reads. Defined.
#[export] Instance Reads_inode_get_data_pblock inode lblock :
    Reads (fun R (RL : ReadLayer R) => inode_get_data_pblock inode lblock).
Proof. unfold inode_get_data_pblock. reads. Defined.
#[export] Instance Reads_disk_read_block block :
    Reads (fun R (RL : ReadLayer R) => disk_read_block block).
Proof. unfold disk_read_block. reads. Defined.
#[export] Instance Reads_dir_ctx_update inode lblock :
    Reads (fun R (RL : ReadLayer R) => dir_ctx_update inode lblock).
Proof. unfold dir_ctx_update. reads. Defined.
#[export] Instance Reads_inode_dir_ctx_reset inode :
    Reads (fun R (RL : ReadLayer R) => inode_dir_ctx_reset inode).
Proof. unfold inode_dir_ctx_reset. reads. Defined.
#[export] Instance Reads_inode_dentry_get inode offset ctx :
    Reads (fun R (RL : ReadLayer R) => inode_dentry_get inode offset ctx).
Proof.
  unfold inode_dentry_get. generalize 2%nat. intros fuel. revert offset ctx.
  induction fuel as [|fuel IH]; intros offset ctx; cbn [inode_dentry_get_fuel]; reads.
Defined.
#[export] Instance Reads_inode_get_by_number n :
    Reads (fun R (RL : ReadLayer R) => inode_get_by_number n).
Proof. unfold inode_get_by_number. reads. Defined.
#[export] Instance Reads_dir_scan fuel inode offset dctx path path_len :
    Reads (fun R (RL : ReadLayer R) => dir_scan fuel inode offset dctx path path_len).
Proof. revert offset dctx. induction fuel as [|fuel IH]; intros offset dctx; cbn [dir_scan]; reads. Defined.
