(* ===== verification/LookupConc.v ===== *)
(** * fs/ext4/inode.c: path lookups of several threads

    [inode_get_idx_by_path] as a program of Threads: it stops at every call into
    the cache and at every read of the disk, so that these interleave with those
    of other threads.  By itself it is the function of Lookup. *)
From Stdlib Require Import ZArith Lia Strings.Byte.
From stdpp Require Import base numbers list option gmap relations strings.
From S2P Require Import Prelude Clib Layout Disk Dcache DcacheConc State Threads DiskMutex Super Reads Extents Inode Lookup InodeReads.

(** ** The program of a lookup *)

(** One turn of the loop up to the end of the search: what was found, and the
    inode of the directory. *)
Definition search {R} `{RL : ReadLayer R} (inode_idx : Z) (inode0 path : bytes) (path_len : Z) :
    M (fs R) (option Z * bytes) :=
  let* g := inode_get_by_number inode_idx in
  let inode := (if inode_idx =? 0 then inode0 else snd g) in
  let* dctx := inode_dir_ctx_reset inode in
  let* found := dir_scan (dir_fuel inode) inode 0 dctx path path_len in
  ret (found, inode).
#[export] Instance Reads_search inode_idx inode0 path path_len :
    Reads (fun R (RL : ReadLayer R) => search inode_idx inode0 path path_len).
Proof. unfold search. reads. Defined.

Section program.
Context {R : Type} `{RL : ReadLayer R}.

Fixpoint cached_prog (fuel : nat) (next : option nat) (path : bytes) : prog (option nat * bytes) :=
  match fuel with
  | O => PFail NoFuel
  | S fuel' =>
      let path := skip_slash path in
      pure (get_path_token_len path) (fun path_len =>
        if path_len =? 0 then PRet (next, path) else
        PCall (Lookup next path path_len) (fun next' =>
          match next' with
          | Some _ => cached_prog fuel' next' (drop (Z.to_nat path_len) path)
          | None => PRet (next, path)
          end))
  end.

Fixpoint path_prog (fuel : nat) (dc_entry : option nat) (inode_idx : Z) (inode0 path : bytes) : prog Z :=
  match fuel with
  | O => PFail NoFuel
  | S fuel' =>
      let path := skip_trailing_backslash path in
      pure (get_path_token_len path) (fun path_len =>
        if path_len =? 0 then PRet inode_idx else
        pbind (reads_of (fun _ _ => search inode_idx inode0 path path_len)) (fun f =>
          match fst f with
          | None => PRet 0
          | Some idx =>
              pure (fld ext4_inode "i_mode" (snd f)) (fun mode =>
                let next := fun dc_entry =>
                  match strchr path SLASH with
                  | Some path' => path_prog fuel' dc_entry idx (snd f) path'
                  | None => PRet idx
                  end in
                if S_ISDIR mode then PCall (Insert dc_entry path path_len idx) next else next dc_entry)
          end))
  end.

Definition lookup_prog (path : bytes) : prog Z :=
  match path with
  | c :: _ =>
      if bool_decide (c = SLASH) then
        pbind (cached_prog (S (length path)) None path) (fun c =>
          PInode (fst c) (fun inode_idx => path_prog (S (length path)) (fst c) inode_idx [] (snd c)))
      else PFail Abort
  | [] => PFail Abort
  end.

Lemma run_cached_prog fuel next path s :
  run_prog (cached_prog fuel next path) s = on_dcache (cached_loop fuel next path) s.
Proof.
  revert next path s. induction fuel as [|fuel IH]; intros next path s; [done|]. cbn [cached_prog cached_loop].
  rewrite run_pure, on_dcache_bind. unfold bind at 1, bind at 1.
  rewrite on_dcache_lift. destruct (lift _ s) as [[len s1]|]; [|done].
  destruct (len =? 0); [by destruct s1|]. cbn [run_prog call]. rewrite on_dcache_bind.
  unfold bind at 1, bind at 1. destruct (on_dcache _ s1) as [[[a|] s2]|]; [apply IH|by destruct s2|done].
Qed.

Lemma run_path_prog fuel dc_entry idx inode0 path s :
  run_prog (path_prog fuel dc_entry idx inode0 path) s = path_loop fuel dc_entry idx inode0 path s.
Proof.
  revert dc_entry idx inode0 path s. induction fuel as [|fuel IH]; intros dc_entry idx inode0 path s; [done|].
  cbn [path_prog path_loop]. rewrite run_pure. apply bind_ext. intros len s1. destruct (len =? 0); [done|].
  rewrite run_pbind_reads. unfold search. rewrite bind_bind. apply bind_ext. intros g s2.
  rewrite bind_bind. apply bind_ext. intros dctx s3. rewrite bind_bind. apply bind_ext. intros found s4.
  change (bind (ret (found, _)) ?k s4) with (k (found, if idx =? 0 then inode0 else snd g) s4). cbv beta.
  cbn [fst snd]. destruct found as [m|]; [|done]. rewrite run_pure. apply bind_ext. intros mode s5.
  destruct (S_ISDIR mode); cbn [run_prog call].
  - apply bind_ext. intros a s6. destruct (strchr _ SLASH); [apply IH|done].
  - change (bind (ret dc_entry) ?k s5) with (k dc_entry s5). cbv beta. destruct (strchr _ SLASH); [apply IH|done].
Qed.

(** Run by itself, the program is the function. *)
Lemma run_lookup_prog path s : run_prog (lookup_prog path) s = inode_get_idx_by_path path s.
Proof.
  unfold lookup_prog, inode_get_idx_by_path. destruct path as [|c path]; [done|].
  destruct (bool_decide (c = SLASH)); [|done]. rewrite run_pbind. unfold bind at 1.
  rewrite run_cached_prog.
  change (bind (ASSERT true) ?k s) with (k tt s). cbv beta. unfold bind at 1, get_cached_inode_num.
  destruct (on_dcache _ s) as [[[next p] s1]|]; [|done].
  cbn [run_prog fst snd]. apply bind_ext. intros n s2. apply run_path_prog.
Qed.

(** A lookup that runs without interruption computes what the sequential
    [inode_get_idx_by_path] computes: the same number, the same final state of
    the cache and the disk. *)
Theorem lookup_thread_sequential path (s : fs R) n s' :
  inode_get_idx_by_path path s = Ok (n, s') ->
  rtc malone (Outside (Running (lookup_prog path)), (s, None)) (Outside (Running (PRet n)), (s', None)).
Proof. rewrite <- run_lookup_prog. intros Hrun. by apply lalone_malone, run_prog_alone. Qed.
End program.

(** ** Lookups are right in every interleaving *)

(** Paths of the tree: short components, none of them looked up in something
    that is not a directory. *)
Definition path_ok (T : Z -> option (list dirent)) (path : bytes) : Prop :=
  short_path path /\ hd_error path = Some SLASH /\
  is_Some (resolve T ROOT_INODE_N (components path)).

Section search.
Context {R : Type} `{RLO : ReadLayerOk R}.
Context (E : env) (Hwf : super_wf (e_super E)).
Context (T : Z -> option (list dirent)).

Lemma evals_assoc {A B C} (m : M (fs R) A) (k : A -> M (fs R) B) (k' : B -> M (fs R) C) r :
  evals E (bind (bind m k) k') r -> evals E (bind m (fun a => bind (k a) k')) r.
Proof. intros Hr s Hs. rewrite <- bind_bind. by apply Hr. Qed.

Lemma search_evals n es ino content path inode0 :
  T n = Some es -> n <> 0 -> evals E (inode_get_by_number n) (Ok (0, ino)) -> dir_repr E ino content ->
  dir_entries (bsize (e_super E)) content 0 es -> short_path path ->
  evals E (search n inode0 path (zlen (tok path))) (Ok (dir_find es (tok path), ino)).
Proof.
  intros HT Hn Hget Hrep Hes Hp. unfold search. eapply evals_bind; [exact Hget|]. cbv beta zeta. cbn [snd].
  destruct (Z.eqb_spec n 0) as [?|_]; [done|]. apply evals_assoc.
  eapply evals_bind; [by apply (search_ok E Hwf T n es ino content path)|]. cbv beta. apply evals_ret.
Qed.
End search.

(** The tree is what the image holds, whatever layer reads it. *)
Section concurrent.
Context {R : Type} `{RLO : ReadLayerOk R}.
Context (E : env) (Hwf : super_wf (e_super E)) (Himg : zlen (e_img E) < 2 ^ 62).
Context (T : Z -> option (list dirent)).
Local Abbreviation good := (good E (edge T)).

(** The end of the walk through the cache: an entry and a rest of the path that
    still resolve to [r]. *)
Definition cached_at (r : Z) (path : bytes) (d : dcache) (c : option nat * bytes) : Prop :=
  exists i, inode_of d (default root (fst c)) = Some i /\ short_path (snd c) /\
    (length (snd c) <= length path)%nat /\ resolve T i (components (snd c)) = Some r.

Lemma cached_good fuel next path d par i r :
  inode_of d (default root next) = Some i -> short_path path -> (length path < fuel)%nat ->
  resolve T i (components path) = Some r ->
  good (cached_prog fuel next path) d par (cached_at r path).
Proof.
  intros Hi Hp Hf Hr. enough (Hall : forall path0, (length path <= length path0)%nat ->
    good (cached_prog fuel next path) d par (cached_at r path0)) by by apply Hall.
  intros path0. revert next path i d par Hi Hp Hf Hr.
  induction fuel as [|fuel IH]; intros next path i d par Hi Hp Hf Hr H0; [lia|].
  cbn [cached_prog]. destruct (skip_slash_suffix path) as [p0 Hp0%suffix_length].
  rewrite <- components_skip_slash in Hr. apply short_skip_slash in Hp.
  set (q := skip_slash path) in *.
  destruct (short_tok q Hp) as (Hlen & Htok & Htake & _ & Hc & Hpa). rewrite Hlen. cbn [pure].
  destruct (Z.eqb_spec (zlen (tok q)) 0) as [Hz|Hnz].
  { cbn [Threads.good]. exists i. do 2 (split; [done|]). split; [cbn; lia|done]. }
  cbn [Threads.good]. split.
  - destruct (inode_of_cell _ _ _ Hi) as (e & He & _). split; [by eexists|done].
  - intros d' par' a Hg Ha. destruct a as [a|].
    + destruct Ha as (i' & m & Hi' & Hm & (es & HT & Hfind) & _). cbn [op_parent op_name] in *.
      apply (gr_inode _ _ _ _ Hg) in Hi. rewrite Hi in Hi'. injection Hi' as <-. rewrite Htake in Hfind.
      rewrite (Hc Hnz) in Hr. cbn [resolve] in Hr. rewrite HT, Hfind in Hr. rewrite drop_tok.
      pose proof (length_after_tok q Hnz). apply (IH (Some a) (after_tok q) m); [done|done|lia|done|lia].
    + exists i. split; [by apply Hg|]. split; [done|]. split; [cbn; lia|done].
Qed.

Lemma path_good (Hfs : fs_repr (RLO := direct_ok) E T) fuel dc n inode0 path d par r :
  inode_of d (default root dc) = Some n -> short_path path -> (length path < fuel)%nat ->
  resolve T n (components path) = Some r ->
  good (path_prog fuel dc n inode0 path) d par (fun _ m => m = r).
Proof.
  revert dc n inode0 path d par. induction fuel as [|fuel IH]; intros dc n inode0 path d par Hi Hp Hf Hr; [lia|].
  cbn [path_prog]. destruct (skip_all_suffix path) as [p0 Hp0%suffix_length].
  rewrite <- components_skip_all in Hr. apply short_skip_all in Hp.
  set (q := skip_trailing_backslash path) in *.
  destruct (short_tok q Hp) as (Hlen & Htok & Htake & Hshort & Hc & Hpa). rewrite Hlen. cbn [pure].
  destruct (Z.eqb_spec (zlen (tok q)) 0) as [Hz|Hnz].
  { rewrite components_tok in Hr. destruct (tok q) eqn:Htq; [|done].
    apply skip_all_tok in Htq. fold q in Htq. rewrite Htq in Hr. by injection Hr as <-. }
  rewrite (Hc Hnz) in Hr. cbn [resolve] in Hr. destruct (T n) as [es|] eqn:HT; [|done].
  destruct (Hfs n es HT) as (Hn0 & ino & content & Hget & Hdir & Hrep & Hes).
  eapply (good_pbind _ _ _ _ d par (fun d' f => inode_of d' (default root dc) = Some n /\ f = (dir_find es (tok q), ino))).
  { eapply (good_reads E (edge T) (fun _ _ => search n inode0 q (zlen (tok q)))); [done| |by split].
    by apply (search_evals (RLO := direct_ok) E Hwf T n es ino content q). }
  clear Hi. intros d1 par1 f _ [Hi ->]. cbn [fst snd].
  destruct (dir_find es (tok q)) as [m|] eqn:Hfind; [|by injection Hr as <-].
  rewrite (fld_ok ext4_inode "i_mode" 0 U16)
    by (reflexivity || (cbn [csize]; pose proof (dr_inode _ _ _ Hrep); lia)).
  cbn [csize pure]. rewrite Hdir. cbn [Threads.good]. split.
  - destruct (inode_of_cell _ _ _ Hi) as (e & He & _). split; [by eexists|]. split; [done|].
    exists n. split; [done|]. rewrite Htake. by exists es.
  - intros d' par' a Hg Ha. pose proof (length_after_tok q Hnz). rewrite strchr_after_tok.
    destruct a as [a|]; [|cbn in Ha; unfold DCACHE_ENTRY_NAME_LEN in *; lia].
    destruct Ha as (i' & m' & _ & Hm & _ & ->).
    destruct (after_tok q) as [|c p] eqn:Hat; [by injection Hr as <-|].
    apply (IH (Some a) m); [done|done|lia|done].
Qed.

Lemma lookup_good (Hfs : fs_repr (RLO := direct_ok) E T) path d par r :
  short_path path -> hd_error path = Some SLASH -> resolve T ROOT_INODE_N (components path) = Some r ->
  inode_of d root = Some ROOT_INODE_N -> good (lookup_prog path) d par (fun _ m => m = r).
Proof.
  intros Hp Hhd Hr Hroot. unfold lookup_prog. destruct path as [|c path]; [done|]. injection Hhd as ->.
  rewrite bool_decide_eq_true_2 by done. eapply good_pbind.
  - apply (cached_good _ None _ _ _ ROOT_INODE_N r); [done|done|lia|done].
  - intros d' par' [next p] Hg (i & Hi & Hp' & Hl & Hr'). cbn [fst snd Threads.good] in *.
    exists i. split; [done|]. apply (path_good Hfs); [done|done|lia|done].
Qed.


Lemma lookup_start (Hfs : fs_repr (RLO := direct_ok) E T) path d par :
  path_ok T path -> inode_of d root = Some ROOT_INODE_N ->
  good (lookup_prog path) d par (fun _ n => resolve T ROOT_INODE_N (components path) = Some n).
Proof.
  intros (Hp & Hhd & r & Hr) Hroot.
  eapply good_mono; [exact (lookup_good Hfs path d par r Hp Hhd Hr Hroot)|]. by intros _ m ->.
Qed.
End concurrent.

(** Path lookups of any number of threads, interleaved in any way at the single
    accesses to the cache they share and the steps of the reads of the disk: none of
    them faults, and each one that returns gives what resolving its components
    one by one from the root directory gives, 0 for a missing one, as it would
    alone. *)
Theorem concurrent_lookups_ok {R} `{RLO : ReadLayerOk R} E T s0 s ts path x :
  super_wf (e_super E) -> fs_repr (RLO := direct_ok) E T -> just_mounted E ROOT_INODE_N s0 ->
  rtc (mpool_step lookup_prog (path_ok T)) ((s0, None), []) (s, ts) -> (path, x) ∈ ts ->
  ~ mfailed x /\ forall n, mreturned x = Some n -> resolve T ROOT_INODE_N (components path) = Some n.
Proof.
  intros Hwf Hfs Hs0. destruct (Hs0) as [((_ & Himg & _) & _) _].
  apply (mpool_safe E (edge T) lookup_prog (path_ok T)
    (fun path n => resolve T ROOT_INODE_N (components path) = Some n) ROOT_INODE_N); [|done|done].
  by apply (lookup_start E Hwf Himg T Hfs).
Qed.
