(* ===== verification/Ops.v ===== *)
(** * fs/ext4/op_*.c: the FUSE operations

    Each operation is a computation on the statics of the file system.  What
    an operation leaves in memory that the caller passed is part of its
    result: a buffer is the list of its bytes, and every write to it is
    checked against its length. *)
From Stdlib Require Import ZArith Lia Strings.Byte.
From stdpp Require Import base numbers list option gmap strings.
From S2P Require Import Prelude Clib Layout Disk Dcache State Super Extents Inode Lookup.

Definition EACCES : Z := 13.
Definition EINVAL : Z := 22.
Definition O_RDONLY : Z := 0.

(** ** op_read.c *)

Definition truncate_size (inode : bytes) (size offset : Z) : res Z :=
  let? inode_size := inode_get_size inode in
  if inode_size <=? offset then Ok 0
  else if inode_size <=? u64 (offset + size) then Ok (u64 (inode_size - offset))
  else Ok size.

(** The members of [struct stat] that [op_getattr] sets; the others stay 0. *)
Record stat : Type := mkStat {
  st_mode : Z; st_nlink : Z; st_size : Z; st_blocks : Z;
  st_uid : Z; st_gid : Z; st_atime : Z; st_mtime : Z; st_ctime : Z }.
Definition stat_zero : stat := mkStat 0 0 0 0 0 0 0 0 0.

(** [get_printable_name]: the whole array [name_buf] afterwards. *)
Definition get_printable_name (s entry : bytes) : res bytes :=
  let? name_len := fld ext4_dir_entry_2 "name_len" entry in
  if in_range 8 name_len entry then
    let? s1 := store 0 (slice 8 name_len entry) s in
    store name_len [Byte.x00] s1
  else Err UB.

Section ops.
Context {R : Type} `{RL : ReadLayer R}.

(** [size_t first_read(...)]: the count and the buffer. *)
Definition first_read (inode buf : bytes) (size offset : Z) : M (fs R) (Z * bytes) :=
  let* bs := BLOCK_SIZE in
  let* e := lift (c_div (u64 (offset + u64 (size - 1))) bs) in
  let end_lblock := u32 e in
  let* q := lift (c_div offset bs) in
  let start_lblock := u32 q in
  let* r := lift (c_mod offset bs) in
  let start_block_off := u32 r in
  if size =? 0 then ret (0, buf) else
  if start_block_off =? 0 then ret (0, buf) else
  let* start_pblock := inode_get_data_pblock inode start_lblock in
  let where_ := s64 (u64 (BLOCKS2BYTES (fst start_pblock) bs + start_block_off)) in
  if start_lblock =? end_lblock then
    let* d := disk_read where_ size in
    let* buf := lift (store 0 (snd d) buf) in
    ret (size, buf)
  else
    let* a := lift (ALIGN_TO offset bs) in
    let size_to_block_end := u64 (a - offset) in
    let* m := lift (c_mod (u64 (offset + size_to_block_end)) bs) in
    do* ASSERT (m =? 0) in
    let* d := disk_read where_ size_to_block_end in
    let* buf := lift (store 0 (snd d) buf) in
    ret (size_to_block_end, buf).

(** The loop of [op_read]: the final [ret] and the buffer. *)
Fixpoint read_loop (fuel : nat) (inode : bytes) (size lblock ret_ : Z) (buf : bytes)
    : M (fs R) (Z * bytes) :=
  match fuel with
  | O => fail NoFuel
  | S fuel' =>
      if negb (ret_ <? size) then ret (ret_, buf) else
      let* p := inode_get_data_pblock inode lblock in
      let pblock := fst p in
      let extent_len := snd p in
      let* r := (if negb (pblock =? 0) then
                   let* bs := BLOCK_SIZE in
                   let* c := on_disk (disk_ctx_create (s64 (BLOCKS2BYTES pblock bs)) bs extent_len) in
                   let* d := on_disk (__disk_ctx_read (snd c) (size - ret_)) in
                   ret (u64 (fst (fst d)), snd (fst d))
                 else
                   let* bs := BLOCK_SIZE in
                   let n := Z.min (size - ret_) bs in
                   ret (n, zeros n)) in
      let* buf := lift (store ret_ (snd r) buf) in
      read_loop fuel' inode size (u32 (lblock + extent_len)) (u64 (ret_ + fst r)) buf
  end.

(** [fh] is [fi->fh]; [buf] is the caller's buffer.  Every turn of the loop
    but the last reads at least a byte. *)
Definition op_read (buf : bytes) (size offset fh : Z) : M (fs R) (Z * bytes) :=
  let un_offset := u64 offset in
  do* ASSERT (0 <=? offset) in
  let* g := inode_get_by_number (u32 fh) in
  if fst g <? 0 then ret (fst g, buf) else
  let inode := snd g in
  let* size := lift (truncate_size inode size un_offset) in
  let* f := first_read inode buf size (s64 un_offset) in
  let ret_ := fst f in
  let un_offset := u64 (un_offset + ret_) in
  let* bs := BLOCK_SIZE in
  let* q := lift (c_div un_offset bs) in
  let* r := read_loop (S (Z.to_nat size)) inode size (u32 q) ret_ (snd f) in
  do* ASSERT (size =? fst r) in
  ret (s32 (fst r), snd r).

(** ** op_open.c: the result and the new [fi->fh] *)
Definition op_open (path : bytes) (flags fh : Z) : M (fs R) (Z * Z) :=
  if negb (Z.land flags 3 =? O_RDONLY) then ret (- EACCES, fh) else
  let* n := inode_get_idx_by_path path in
  ret (0, n).

(** ** op_getattr.c

    What an operation does with the result of [inode_get_by_path] has a name of
    its own. *)
Definition getattr_inode (r : Z * bytes) : M (fs R) (Z * stat) :=
  if fst r <? 0 then ret (fst r, stat_zero) else
  let inode := snd r in
  let* mode := lift (fld ext4_inode "i_mode" inode) in
  let* links := lift (fld ext4_inode "i_links_count" inode) in
  let* size := lift (inode_get_size inode) in
  let* blocks := lift (fld ext4_inode "i_blocks_lo" inode) in
  let* uid := lift (fld ext4_inode "i_uid" inode) in
  let* gid := lift (fld ext4_inode "i_gid" inode) in
  let* atime := lift (fld ext4_inode "i_atime" inode) in
  let* mtime := lift (fld ext4_inode "i_mtime" inode) in
  let* ctime := lift (fld ext4_inode "i_ctime" inode) in
  ret (0, mkStat (Z.land mode (Z.lnot 0x92)) links (s64 size) blocks uid gid atime mtime ctime).
Definition op_getattr (path : bytes) : M (fs R) (Z * stat) :=
  let* r := inode_get_by_path path in getattr_inode r.

(** ** op_readdir.c *)

(** The filler is FUSE's: it takes the name and the offset, changes the state
    [b] of the reply and returns non-zero when the reply is full. *)
Section readdir.
Context {B : Type} (filler : B -> bytes -> Z -> Z * B).

Fixpoint readdir_loop (fuel : nat) (inode name_buf : bytes) (offset : Z)
    (dctx : inode_dir_ctx) (b : B) : M (fs R) B :=
  match fuel with
  | O => fail NoFuel
  | S fuel' =>
      let* r := inode_dentry_get inode offset dctx in
      match fst r with
      | None => ret b
      | Some dentry =>
          let* rec_len := lift (fld ext4_dir_entry_2 "rec_len" dentry) in
          let offset := s64 (offset + rec_len) in
          let* ino := lift (fld ext4_dir_entry_2 "inode" dentry) in
          if ino =? 0 then readdir_loop fuel' inode name_buf offset (snd r) b else
          let* name_buf := lift (get_printable_name name_buf dentry) in
          let* c := lift (load 0 1 name_buf) in
          if c =? 0 then readdir_loop fuel' inode name_buf offset (snd r) b else
          match cstr name_buf with
          | None => fail UB
          | Some nm =>
              let f := filler b nm offset in
              if negb (fst f =? 0) then ret (snd f)
              else readdir_loop fuel' inode name_buf offset (snd r) (snd f)
          end
      end
  end.

(** [name_buf] is the uninitialised array of EXT4_NAME_LEN bytes. *)
Definition readdir_inode (name_buf : bytes) (offset : Z) (b : B) (r : Z * bytes) : M (fs R) (Z * B) :=
  if fst r <? 0 then ret (fst r, b) else
  let inode := snd r in
  let* dctx := inode_dir_ctx_reset inode in
  let* b := readdir_loop (dir_fuel inode) inode name_buf offset dctx b in
  ret (0, b).
Definition op_readdir (path name_buf : bytes) (offset : Z) (b : B) : M (fs R) (Z * B) :=
  let* r := inode_get_by_path path in readdir_inode name_buf offset b r.
End readdir.

(** ** op_readlink.c *)
Definition get_link_dest (inode buf : bytes) (bufsize : Z) : M (fs R) (Z * bytes) :=
  let* inode_size := lift (inode_get_size inode) in
  let* buf :=
    (if inode_size <=? 60 then
       do* require (in_range 40 inode_size inode) in
       lift (store 0 (slice 40 inode_size inode) buf)
     else
       let* pblock := inode_get_data_pblock inode 0 in
       let* block_data := disk_read_block (fst pblock) in
       let* s := lift (strncpy_bytes (snd block_data) (Z.to_nat (u64 (bufsize - 1)))) in
       lift (store 0 s buf)) in
  let* buf := lift (store inode_size [Byte.x00] buf) in
  ret (s32 (u64 (inode_size + 1)), buf).

(** The return value of [inode_get_by_path] is ignored: when it failed, the
    local [inode] is uninitialised, which its empty list of bytes says. *)
Definition readlink_inode (buf : bytes) (bufsize : Z) (r : Z * bytes) : M (fs R) (Z * bytes) :=
  let inode := snd r in
  let* mode := lift (fld ext4_inode "i_mode" inode) in
  if negb (S_ISLNK mode) then ret (- EINVAL, buf) else
  let* d := get_link_dest inode buf bufsize in
  ret (0, snd d).
Definition op_readlink (path buf : bytes) (bufsize : Z) : M (fs R) (Z * bytes) :=
  let* r := inode_get_by_path path in readlink_inode buf bufsize r.

(** ** op_init.c *)
Definition op_init : M (fs R) unit :=
  let* a := super_fill in
  do* ASSERT (a =? 0) in
  let* b := super_group_fill in
  do* ASSERT (b =? 0) in
  let* c := inode_init in
  ASSERT (c =? 0).
End ops.

(** ** Reference definitions *)

Section read_facts.
Context {R : Type} `{RLO : ReadLayerOk R}.
Context (E : env) (Hwf : super_wf (e_super E)).
Local Abbreviation img := (e_img E).
Local Abbreviation bs := (bsize (e_super E)).

(** [content] is what the file holds: every block in front of its end begins a
    run of blocks that are consecutive on the disk, or is a hole. *)
Record file_repr (inode content : bytes) : Prop := {
  fr_inode : 128 <= zlen inode;
  fr_size : i_size inode = zlen content;
  fr_bound : zlen content < 2 ^ 42;
  fr_img : zlen img < 2 ^ 62;
  fr_run : forall lb, 0 <= lb -> lb * bs < zlen content ->
    exists pb len, evals E (inode_get_data_pblock inode lb) (Ok (pb, len)) /\
      0 <= pb /\ 1 <= len < 2 ^ 32 /\
      let k := Z.min (len * bs) (zlen content - lb * bs) in
      (pb = 0 -> len = 1 /\ slice (lb * bs) k content = zeros k) /\
      (pb <> 0 -> pb * bs + k <= zlen img /\
                  slice (lb * bs) k content = slice (pb * bs) k img) }.

(** The run of [len] blocks that begins with [lb] holds what the disk has from
    block [pb] on. *)
Definition run_at (content : bytes) (lb pb len : Z) : Prop :=
  let k := Z.min (len * bs) (zlen content - lb * bs) in
  pb * bs + k <= zlen img /\ slice (lb * bs) k content = slice (pb * bs) k img.
Definition hole_at (content : bytes) (lb : Z) : Prop :=
  let k := Z.min bs (zlen content - lb * bs) in slice (lb * bs) k content = zeros k.

(** The number of bytes a read of [size] bytes at [offset] gives. *)
Definition read_count (content : bytes) (size offset : Z) : Z :=
  Z.max 0 (Z.min size (zlen content - offset)).

(** The block is mapped, so a read may start inside it. *)
Definition mapped (inode : bytes) (lb : Z) : Prop :=
  exists pb len, evals E (inode_get_data_pblock inode lb) (Ok (pb, len)) /\ pb <> 0.

(** ** Facts *)

(** A file whose extent tree maps its blocks: each one lies in an extent, or is
    a hole behind the last extent. *)
Lemma file_repr_extents inode content d xs :
  128 <= zlen inode -> i_size inode = zlen content -> zlen content < 2 ^ 42 ->
  zlen img < 2 ^ 62 -> uses_extents inode = true ->
  etree img bs d (slice 40 60 inode) xs -> (d = 0%nat \/ xs <> []) ->
  (forall lb, 0 <= lb -> lb * bs < zlen content ->
     (exists x, x ∈ xs /\ covers x lb /\ x_start x <> 0 /\
        run_at content lb (x_start x + (lb - x_block x)) (x_block x + x_len x - lb)) \/
     (forall x, x ∈ xs -> x_block x + x_len x <= lb) /\ hole_at content lb) ->
  file_repr inode content.
Proof.
  intros Hl Hs Hb Hi Hu Ht Hne Hall. split; [done..|]. intros lb Hlb Hlt.
  pose proof (bsize_range _ Hwf) as Hbs. assert (H32 : lb < 2 ^ 32) by nia.
  pose proof (etree_fuel _ _ _ _ _ Ht) as Hfuel.
  destruct (Hall lb Hlb Hlt) as [(x & Hx & Hc & Hnz & Hrun)|[Hend Hz]].
  - pose proof (etree_range E d _ xs x Ht Hx) as Hr. unfold covers in Hc.
    eexists _, _. split; [apply evals_pblock_extents; [done..|];
      by apply (extent_mapped_run E Hwf d _ xs x)|].
    split; [lia|]. split; [lia|]. split; [lia|done].
  - exists 0, 1. split; [apply evals_pblock_extents; [done..|];
      by apply (extent_beyond_run E Hwf d _ xs)|].
    split; [lia|]. split; [lia|]. split; [|lia]. rewrite Z.mul_1_l. done.
Qed.

(** A file of block pointers: each block is the end of its walk. *)
Lemma file_repr_pointers inode content :
  128 <= zlen inode -> i_size inode = zlen content -> zlen content < 2 ^ 42 ->
  zlen img < 2 ^ 62 -> uses_extents inode = false ->
  (forall lb, 0 <= lb -> lb * bs < zlen content ->
     exists level rel blk, block_path (bs / 4) lb inode = Some (level, rel, blk) /\
       ind_in img bs (bs / 4) level rel blk /\
       let pb := ind_walk img bs (bs / 4) level rel blk in
       (pb = 0 -> hole_at content lb) /\ (pb <> 0 -> 0 <= pb /\ run_at content lb pb 1)) ->
  file_repr inode content.
Proof.
  intros Hl Hs Hb Hi Hu Hall. split; [done..|]. intros lb Hlb Hlt.
  pose proof (bsize_range _ Hwf) as Hbs. assert (H32 : lb < 2 ^ 32) by nia.
  destruct (Hall lb Hlb Hlt) as (level & rel & blk & Hpath & Hin & Hz & Hnz).
  set (pb := ind_walk img bs (bs / 4) level rel blk) in *.
  exists pb, 1. split.
  - pose proof (pblock_indirect_run E Hwf inode lb Hl Hu ltac:(lia)) as Hr.
    rewrite Hpath in Hr. apply Hr; [|done]. rewrite Hs. unfold blocks_of.
    apply Z.div_le_lower_bound; lia.
  - split; [destruct (Z.eq_dec pb 0); [lia|]; by apply Hnz|]. split; [lia|].
    split; [intros H0; split; [done|]; rewrite Z.mul_1_l; by apply Hz|by apply Hnz].
Qed.

Lemma truncate_size_ok inode content size offset :
  file_repr inode content -> 0 <= size < 2 ^ 31 -> 0 <= offset < 2 ^ 63 ->
  truncate_size inode size offset = Ok (read_count content size offset).
Proof.
  intros Hf Hs Ho. pose proof (fr_bound _ _ Hf) as Hb. pose proof (zlen_nonneg content).
  destruct (inode_size_ok inode (fr_inode _ _ Hf)) as [Hsz _].
  unfold truncate_size, read_count. rewrite Hsz, (fr_size _ _ Hf). cbn [rbind].
  destruct (Z.leb_spec (zlen content) offset); [f_equal; lia|].
  rewrite u64_small by lia. rewrite u64_small by lia. zcase; f_equal; lia.
Qed.

Lemma evals_disk_ctx where_ len size :
  0 <= where_ -> 1 <= len < 2 ^ 32 -> 0 < size < 2 ^ 31 ->
  let n := Z.min size (len * bs) in
  where_ + n <= zlen img ->
  exists c c', evals E (on_disk (disk_ctx_create where_ bs len)) (Ok c) /\
    evals E (on_disk (__disk_ctx_read (snd c) size)) (Ok (n, slice where_ n img, c')).
Proof.
  intros Hw Hl Hs n Hin. pose proof (bsize_range _ Hwf) as Hb.
  eexists (0, mkDiskCtx where_ (len * bs)), _. split.
  - apply evals_on_disk. intros d Hd. exists d. split; [|done]. unfold disk_ctx_create.
    destruct (Z.eqb_spec bs 0); [lia|]. rewrite (Z.mul_comm bs), u64_small by nia. done.
  - apply evals_on_disk. intros d Hd. unfold __disk_ctx_read. cbn [snd ctx_size ctx_cur].
    destruct (Z.eqb_spec (len * bs) 0); [nia|].
    assert (Hn : (if len * bs <? size then len * bs else size) = n)
      by (unfold n; destruct (Z.ltb_spec (len * bs) size); lia).
    rewrite Hn. destruct (__disk_read_ok img d where_ n Hd) as (d' & Hr & Hd'); [nia..|].
    exists d'. split; [|done]. cbn [negb]. rewrite (bind_Ok (ASSERT true) _ d tt d) by done.
    rewrite (bind_Ok _ _ _ _ _ Hr). done.
Qed.

(** One turn of the loop: [n] bytes of the file. *)
Lemma evals_read_run inode content lb size :
  file_repr inode content -> 0 <= lb -> 0 < size < 2 ^ 31 ->
  lb * bs + size <= zlen content ->
  exists pb len n, evals E (inode_get_data_pblock inode lb) (Ok (pb, len)) /\
    1 <= len < 2 ^ 32 /\ n = Z.min size (len * bs) /\
    evals E (if negb (pb =? 0) then
               let* bs := BLOCK_SIZE in
               let* c := on_disk (disk_ctx_create (s64 (BLOCKS2BYTES pb bs)) bs len) in
               let* d := on_disk (__disk_ctx_read (snd c) size) in
               ret (u64 (fst (fst d)), snd (fst d))
             else
               let* bs := BLOCK_SIZE in
               let n := Z.min size bs in
               ret (n, zeros n)) (Ok (n, slice (lb * bs) n content)).
Proof.
  intros Hf Hlb Hs Hin. pose proof (bsize_range _ Hwf) as Hb.
  destruct (fr_run _ _ Hf lb Hlb ltac:(lia)) as (pb & len & He & Hpb & Hlen & Hk).
  set (k := Z.min _ _) in Hk. destruct Hk as [Hhole Hmap].
  exists pb, len, (Z.min size (len * bs)). do 3 (split; [done|]).
  assert (Hsub : forall l : bytes, slice (lb * bs) k content = slice 0 k l ->
    slice (lb * bs) (Z.min size (len * bs)) content = slice 0 (Z.min size (len * bs)) l).
  { intros l Hl. unfold k in Hl.
    apply (f_equal (slice 0 (Z.min size (len * bs)))) in Hl.
    rewrite !slice_slice in Hl by nia. by rewrite !Z.add_0_r in Hl. }
  destruct (Z.eqb_spec pb 0) as [Hz|Hnz]; cbn [negb].
  - destruct (Hhole Hz) as [-> Hc]. eapply evals_bind; [by apply evals_BLOCK_SIZE|]. cbv beta zeta.
    rewrite Z.mul_1_l in *. rewrite (Hsub (zeros k)).
    + replace (slice 0 (Z.min size bs) (zeros k)) with (zeros (Z.min size bs)); [epure|].
      unfold slice, zeros. change (Z.to_nat 0) with 0%nat. rewrite drop_0, take_replicate.
      f_equal. lia.
    + rewrite Hc. rewrite <- (slice_all (zeros k)) at 1. rewrite zlen_zeros by lia. done.
  - destruct (Hmap Hnz) as [Hfit Hc]. pose proof (fr_img _ _ Hf).
    eapply evals_bind; [by apply evals_BLOCK_SIZE|]. cbv beta.
    assert (Hw : s64 (BLOCKS2BYTES pb bs) = pb * bs).
    { unfold BLOCKS2BYTES. rewrite (u64_small pb) by nia. rewrite u64_small by nia.
      apply s64_small. nia. }
    rewrite Hw. destruct (evals_disk_ctx (pb * bs) len size) as (c & c' & H1 & H2); [nia..|].
    estep H1. estep H2. cbn [fst snd]. rewrite u64_small by nia.
    rewrite (Hsub (slice (pb * bs) k img)).
    + rewrite slice_slice by nia. rewrite Z.add_0_r. epure.
    + rewrite Hc, slice_slice by nia. by rewrite Z.add_0_r.
Qed.

(** Extending what has been read by the next piece. *)
Lemma store_next content buf offset ret_ n :
  0 <= offset -> 0 <= ret_ -> 0 <= n -> offset + ret_ + n <= zlen content ->
  ret_ + n <= zlen buf ->
  store ret_ (slice (offset + ret_) n content) (splice 0 (slice offset ret_ content) buf)
  = Ok (splice 0 (slice offset (ret_ + n) content) buf).
Proof.
  intros. assert (Hl1 : zlen (slice offset ret_ content) = ret_) by (apply zlen_slice; lia).
  assert (Hl2 : zlen (slice (offset + ret_) n content) = n) by (apply zlen_slice; lia).
  unfold store. rewrite in_range_true; rewrite ?zlen_splice; try lia. f_equal.
  rewrite <- slice_app by lia. rewrite <- splice_splice by lia. by rewrite Z.add_0_l, Hl1.
Qed.

Lemma read_loop_ok fuel inode content size offset lb ret_ buf :
  file_repr inode content -> 0 <= offset -> 0 <= ret_ <= size -> size < 2 ^ 31 ->
  (0 < size -> offset + size <= zlen content) -> size <= zlen buf ->
  (ret_ < size -> offset + ret_ = lb * bs) -> size - ret_ < Z.of_nat fuel ->
  evals E (read_loop fuel inode size lb ret_ (splice 0 (slice offset ret_ content) buf))
    (Ok (size, splice 0 (slice offset size content) buf)).
Proof.
  intros Hf Ho. revert lb ret_.
  induction fuel as [|fuel IH]; intros lb ret_ Hr Hs Hin Hbuf Hlb Hfuel; [lia|].
  cbn [read_loop]. destruct (Z.ltb_spec ret_ size) as [Hlt|Hge]; cbn [negb].
  2:{ replace ret_ with size by lia. epure. }
  pose proof (bsize_range _ Hwf) as Hb. specialize (Hin ltac:(lia)). specialize (Hlb Hlt).
  pose proof (fr_bound _ _ Hf) as Hbound.
  destruct (evals_read_run inode content lb (size - ret_) Hf) as (pb & len & n & He & Hlen & Hn & Hrun);
    [nia|lia|lia|].
  estep He. cbn [fst snd]. estep Hrun. cbn [fst snd].
  assert (Hn1 : 1 <= n <= size - ret_) by nia.
  rewrite <- Hlb, store_next by lia. epure. rewrite (u64_small (ret_ + n)) by lia.
  apply IH; [lia|lia|lia|lia| |lia].
  intros Hlt2. assert (n = len * bs) by lia. rewrite u32_small by nia. nia.
Qed.

(** Bytes inside the mapped block that holds [offset]. *)
Lemma first_block_data inode content offset n :
  (exists s, st_env E s) -> file_repr inode content -> 0 <= offset -> 0 < n -> offset mod bs + n <= bs ->
  offset + n <= zlen content -> mapped inode (offset / bs) ->
  exists pb len, evals E (inode_get_data_pblock inode (offset / bs)) (Ok (pb, len)) /\
    0 <= pb /\ pb * bs + offset mod bs + n <= zlen img /\
    slice offset n content = slice (pb * bs + offset mod bs) n img.
Proof.
  intros Hst Hf Ho Hn Hfit Hin (pb' & len' & He' & Hnz). pose proof (bsize_range _ Hwf) as Hb.
  pose proof (Z.mod_pos_bound offset bs ltac:(lia)) as Hm.
  pose proof (Z.div_mod offset bs ltac:(lia)) as Hd.
  assert (Hq : 0 <= offset / bs) by (apply Z.div_pos; lia).
  destruct (fr_run _ _ Hf (offset / bs) Hq ltac:(lia)) as (pb & len & He & Hpb & Hlen & Hk).
  set (k := Z.min _ _) in Hk. destruct Hk as [_ Hk].
  pose proof (evals_det E _ _ _ Hst He He') as [= <- _]. destruct (Hk Hnz) as [Hfit' Hs].
  assert (offset mod bs + n <= k) by (unfold k; nia).
  exists pb, len. split; [done|]. split; [done|]. split; [lia|].
  apply (f_equal (slice (offset mod bs) n)) in Hs. rewrite !slice_slice in Hs by nia.
  by replace (offset / bs * bs + offset mod bs) with offset in Hs by lia.
Qed.

(** [first_read] does nothing for an empty or an aligned read. *)
Lemma first_read_skip inode size offset buf :
  0 <= offset < 2 ^ 62 -> 0 <= size < 2 ^ 31 -> size = 0 \/ offset mod bs = 0 ->
  evals E (first_read inode buf size offset) (Ok (0, buf)).
Proof.
  intros Ho Hs Hskip. pose proof (bsize_range _ Hwf) as Hb.
  pose proof (Z.mod_pos_bound offset bs ltac:(lia)) as Hm. unfold first_read.
  eapply evals_bind; [by apply evals_BLOCK_SIZE|]. cbv beta.
  rewrite c_div_pos by (apply u64_range || lia). epure. rewrite c_div_pos by lia. epure.
  rewrite c_mod_pos by lia. epure. rewrite (u32_small (offset mod bs)) by lia.
  destruct (Z.eqb_spec size 0); [epure|].
  destruct (Z.eqb_spec (offset mod bs) 0); [epure|lia].
Qed.

(** Otherwise it reads to the end of the request or of the block, from the
    physical block it is told. *)
Section first_block.
Context (inode : bytes) (size offset pb len : Z) (buf : bytes).
Context (Ho : 0 <= offset) (H42 : offset + size <= 2 ^ 42) (Hs : 0 < size < 2 ^ 31) (Hmod : offset mod bs <> 0).
Context (Hpb : evals E (inode_get_data_pblock inode (offset / bs)) (Ok (pb, len))).
Context (Hpb0 : 0 <= pb) (Hbuf : size <= zlen buf) (Himg : zlen img < 2 ^ 62).
Local Abbreviation n := (Z.min size (bs - offset mod bs)).
Local Abbreviation from := (pb * bs + offset mod bs).
Context (Hfit : from + n <= zlen img).

Lemma first_block_size : 0 < n <= size /\ 0 < offset mod bs < bs /\ 0 <= offset / bs < 2 ^ 32.
Proof.
  pose proof (bsize_range _ Hwf) as Hb. pose proof (Z.mod_pos_bound offset bs ltac:(lia)).
  split; [lia|]. split; [lia|]. split; [apply Z.div_pos; lia|].
  apply Z.div_lt_upper_bound; nia.
Qed.

Lemma first_block_last :
  (u32 (offset / bs) =? u32 ((offset + (size - 1)) / bs)) = (size =? n).
Proof.
  pose proof (bsize_range _ Hwf) as Hb. pose proof first_block_size as (Hn & Hm & Hq).
  pose proof (Z.div_mod offset bs ltac:(lia)) as Hd.
  assert (Hq2 : offset / bs <= (offset + (size - 1)) / bs < 2 ^ 32).
  { split; [apply Z.div_le_mono; lia|]. apply Z.div_lt_upper_bound; nia. }
  rewrite !u32_small by lia. destruct (Z.eqb_spec size n) as [He|Hne].
  - apply Z.eqb_eq. apply Z.div_unique with (offset mod bs + (size - 1)); lia.
  - apply Z.eqb_neq. assert (offset / bs + 1 <= (offset + (size - 1)) / bs); [|lia].
    apply Z.div_le_lower_bound; lia.
Qed.

(** Up to the boundary: below 4 GiB [ALIGN_TO] is right. *)
Lemma first_block_align :
  n < size -> offset < 2 ^ 32 -> ALIGN_TO offset bs = Ok (offset + n) /\ (offset + n) mod bs = 0.
Proof.
  intros Hlt H32. pose proof (bsize_range _ Hwf) as Hb. pose proof first_block_size as (Hn & Hm & Hq).
  pose proof (Z.div_mod offset bs ltac:(lia)) as Hd.
  assert (He : offset + n = (offset / bs + 1) * bs) by lia.
  split; [|rewrite He; apply Z.mod_mul; lia].
  destruct (bsize_pow _ Hwf) as (j & Hj & Hbj).
  rewrite Hbj at 1. rewrite (proj1 (ALIGN_TO_run offset j ltac:(lia) Hj)) by lia. rewrite <- Hbj.
  f_equal. rewrite He. f_equal. symmetry. apply Z.div_unique with (offset mod bs - 1); lia.
Qed.

Lemma first_block_where : s64 (u64 (BLOCKS2BYTES pb bs + u32 (offset mod bs))) = from.
Proof.
  pose proof (bsize_range _ Hwf) as Hb. pose proof first_block_size as (Hn & Hm & Hq).
  rewrite u32_small by lia. unfold BLOCKS2BYTES. rewrite (u64_small pb) by nia.
  rewrite (u64_small (pb * bs)) by nia. rewrite u64_small by nia. apply s64_small. nia.
Qed.

Lemma first_read_block :
  (n < size -> offset < 2 ^ 32) ->
  evals E (first_read inode buf size offset) (Ok (n, splice 0 (slice from n img) buf)).
Proof.
  intros H32. pose proof (bsize_range _ Hwf) as Hb. pose proof first_block_size as (Hn & Hm & Hq).
  assert (Hst : store 0 (slice from n img) buf = Ok (splice 0 (slice from n img) buf)).
  { unfold store. rewrite in_range_true; [done|lia|apply zlen_nonneg|].
    rewrite zlen_slice by nia. lia. }
  assert (Hread : forall m, m = n -> evals E (disk_read from m) (Ok (n, slice from n img)))
    by (intros m ->; apply evals_disk_read; [nia|lia|lia]).
  unfold first_read. eapply evals_bind; [by apply evals_BLOCK_SIZE|]. cbv beta.
  rewrite (u64_small (size - 1)) by lia. rewrite (u64_small (offset + (size - 1))) by lia.
  rewrite c_div_pos by lia. epure. rewrite c_div_pos by lia. epure. rewrite c_mod_pos by lia. epure.
  rewrite first_block_last. rewrite (u32_small (offset / bs)) by lia.
  rewrite (proj2 (Z.eqb_neq size 0)) by lia.
  rewrite (proj2 (Z.eqb_neq (u32 (offset mod bs)) 0)) by (rewrite u32_small; lia).
  estep Hpb. cbn [fst]. rewrite first_block_where. destruct (Z.eqb_spec size n) as [He|Hne].
  - eapply evals_bind; [by apply Hread|]. cbv beta. cbn [snd]. rewrite Hst. epure.
    rewrite <- He at 2. epure.
  - destruct first_block_align as [Hal Hal0]; [lia|apply H32; lia|].
    rewrite Hal. epure. replace (offset + n - offset) with n by lia.
    rewrite (u64_small n), (u64_small (offset + n)) by lia.
    rewrite c_mod_pos, Hal0 by lia. epure. rewrite Z.eqb_refl. epure.
    eapply evals_bind; [by apply Hread|]. cbv beta. cbn [snd]. rewrite Hst. epure. epure.
Qed.
End first_block.

(** The read up to the next block boundary. *)
Lemma first_read_ok inode content size offset buf :
  (exists s, st_env E s) -> file_repr inode content -> 0 <= offset < 2 ^ 62 -> 0 <= size < 2 ^ 31 ->
  (0 < size -> offset + size <= zlen content) -> size <= zlen buf ->
  (0 < size -> offset mod bs = 0 \/ (offset < 2 ^ 32 /\ mapped inode (offset / bs))) ->
  exists n, evals E (first_read inode buf size offset)
      (Ok (n, splice 0 (slice offset n content) buf)) /\
    0 <= n <= size /\ (n < size -> (offset + n) mod bs = 0).
Proof.
  intros Hst Hf Ho Hs Hin Hbuf Hal. pose proof (bsize_range _ Hwf) as Hb.
  pose proof (Z.mod_pos_bound offset bs ltac:(lia)) as Hm.
  pose proof (fr_bound _ _ Hf) as Hbound. pose proof (fr_img _ _ Hf) as Himg.
  destruct (decide (size = 0 \/ offset mod bs = 0)) as [Hskip|Hgo].
  { exists 0. split; [|split; [lia|intros; rewrite Z.add_0_r; destruct Hskip; lia]].
    rewrite slice_0. by apply first_read_skip. }
  apply Decidable.not_or in Hgo. destruct Hgo as [Hsz Hmod].
  specialize (Hin ltac:(lia)). destruct (Hal ltac:(lia)) as [?|[H32 Hmap]]; [done|].
  set (n := Z.min size (bs - offset mod bs)).
  destruct (first_block_data inode content offset n Hst Hf) as (pb & len & He & Hpb & Hfit & Hsl);
    [lia..|done|].
  exists n. split; [|split; [lia|]].
  - rewrite Hsl. apply (first_read_block inode size offset pb len buf); lia || done.
  - intros Hlt. apply (first_block_align size offset); lia.
Qed.

Lemma op_read_run inode content size offset fh buf :
  evals E (inode_get_by_number (u32 fh)) (Ok (0, inode)) -> file_repr inode content ->
  0 <= offset < 2 ^ 62 -> 0 <= size < 2 ^ 31 -> zlen buf = size ->
  let n := read_count content size offset in
  (0 < n -> offset mod bs = 0 \/ (offset < 2 ^ 32 /\ mapped inode (offset / bs))) ->
  evals E (op_read buf size offset fh) (Ok (n, splice 0 (slice offset n content) buf)).
Proof.
  intros Hget Hf Ho Hs Hbuf n Hal. apply evals_inhabited. intros Hst. unfold op_read. pose proof (bsize_range _ Hwf) as Hb.
  assert (Hn : 0 <= n <= size /\ (0 < n -> offset + n <= zlen content))
    by (unfold n, read_count; pose proof (zlen_nonneg content); lia).
  rewrite (proj2 (Z.leb_le 0 offset)) by lia. epure. rewrite (u64_small offset) by lia.
  estep Hget. cbn [fst snd]. change (0 <? 0) with false. cbv iota.
  rewrite (truncate_size_ok inode content size offset Hf) by lia. epure. fold n.
  rewrite (s64_small offset) by lia.
  destruct (first_read_ok inode content n offset buf Hst Hf) as (f & He & Hfn & Hnext);
    [lia|lia|lia|lia|done|].
  estep He. cbn [fst snd]. rewrite (u64_small (offset + f)) by lia.
  eapply evals_bind; [by apply evals_BLOCK_SIZE|]. cbv beta. rewrite c_div_pos by lia. epure.
  pose proof (fr_bound _ _ Hf) as Hbound.
  eapply evals_bind; [apply (read_loop_ok _ inode content n offset); [done|lia|lia|lia|lia|lia| |lia]|].
  - intros Hlt. specialize (Hnext Hlt). rewrite u32_small.
    + pose proof (Z.div_mod (offset + f) bs ltac:(lia)). lia.
    + split; [apply Z.div_pos; lia|]. apply Z.div_lt_upper_bound; nia.
  - cbv beta. cbn [fst snd]. rewrite Z.eqb_refl. epure. rewrite s32_small by lia. epure.
Qed.

(** C10: reading a file, from an offset at the start of a block, or inside a
    mapped block below 4 GiB.  [op_read] ends, returns the number of bytes that are
    left of the file up to the requested size, and puts exactly those bytes of
    the file at the start of the buffer: extents, block pointers, runs of
    consecutive blocks and holes alike.  The condition is needed: a read that starts
    inside a hole is answered wrongly, as [first_read_hole] says. *)
Theorem op_read_ok inode content size offset fh buf :
  evals E (inode_get_by_number (u32 fh)) (Ok (0, inode)) -> file_repr inode content ->
  0 <= offset < 2 ^ 62 -> 0 <= size < 2 ^ 31 -> zlen buf = size ->
  let n := read_count content size offset in
  (0 < n -> offset mod bs = 0 \/ (offset < 2 ^ 32 /\ mapped inode (offset / bs))) ->
  evals E (op_read buf size offset fh) (Ok (n, splice 0 (slice offset n content) buf)).
Proof. by apply op_read_run. Qed.

(** A read that starts inside a block of a hole is not answered with
    zeros: [first_read] does not test the block number and returns the bytes
    of disk block 0. *)
Theorem first_read_hole inode size offset buf :
  evals E (inode_get_data_pblock inode (offset / bs)) (Ok (0, 1)) ->
  0 <= offset -> offset + size <= 2 ^ 42 -> offset mod bs <> 0 -> 0 < size -> offset mod bs + size <= bs ->
  zlen buf = size -> bs <= zlen img < 2 ^ 62 ->
  evals E (first_read inode buf size offset) (Ok (size, slice (offset mod bs) size img)).
Proof.
  intros Hpb Ho H42 Hm Hs Hone Hbuf Himg. pose proof (bsize_range _ Hwf) as Hb.
  pose proof (Z.mod_pos_bound offset bs ltac:(lia)).
  pose proof (first_read_block inode size offset 0 1 buf Ho H42 ltac:(lia) Hm Hpb) as Hr.
  rewrite Z.mul_0_l, Z.add_0_l, Z.min_l in Hr by lia.
  rewrite splice_0_all in Hr by (rewrite zlen_slice; [lia|apply Z.mod_pos_bound; lia|lia..]).
  apply Hr; lia.
Qed.
End read_facts.

(** ** Mounting *)

Section mount.
Context {R : Type} `{RLO : ReadLayerOk R}.

(** The environment a mounted image gives. *)
Definition image_super (img : bytes) : bytes := slice 1024 1024 img.
Definition image_env (img : bytes) : env :=
  mkEnv img (image_super img) (gdt img (image_super img)).

Lemma super_block_group_size_ok sb :
  super_wf sb -> exists v, super_block_group_size sb = Ok v.
Proof.
  intros Hwf. unfold super_block_group_size. rewrite super_block_size_ok by done.
  destruct Hwf as [Hl _ _ _]. change (sizeof ext4_super_block) with 1024 in Hl.
  sb_member "s_blocks_per_group" Hl. cbn [rbind].
  match goal with Hm : fld _ _ sb = Ok _ |- _ => rewrite Hm end. cbn [rbind]. eauto.
Qed.

Lemma super_fill_run img (s : fs R) :
  disk_ok img (st_disk s) -> 2048 <= zlen img -> super_wf (image_super img) ->
  exists d, super_fill s = Ok (0, set_disk d (set_super (image_super img) s)) /\ disk_ok img d.
Proof.
  intros Hd Hl Hwf. unfold super_fill.
  destruct (__disk_read_ok img (st_disk s) 1024 1024 Hd) as (d & Hr & Hd'); [lia..|].
  exists d. split; [|done].
  erewrite bind_Ok.
  2:{ unfold disk_read, on_disk, zoom, BOOT_SECTOR_SIZE. change (sizeof ext4_super_block) with 1024.
      rewrite Hr. reflexivity. }
  set (s1 := set_disk d s). set (s2 := set_super (image_super img) s1).
  cbn [snd]. rewrite (bind_Ok (modify _) _ s1 tt s2) by done.
  destruct (super_block_group_size_ok _ Hwf) as [v Hv].
  assert (Hs2 : st_super s2 = image_super img) by done.
  erewrite bind_Ok by (apply with_super_run; rewrite Hs2; by apply super_block_size_ok).
  erewrite bind_Ok by (apply with_super_run; rewrite Hs2; exact Hv).
  erewrite bind_Ok by (apply with_super_run; rewrite Hs2; by apply super_n_block_groups_ok).
  erewrite bind_Ok by (apply with_super_run; rewrite Hs2; by apply super_inode_size_ok).
  erewrite bind_Ok by (apply with_super_run; rewrite Hs2; by apply super_inodes_per_group_ok).
  done.
Qed.

(** The cache right after [inode_init]: the root alone. *)
Definition init_dcache : dcache := mkDcache {[root := set_inode ROOT_INODE_N calloc_entry]} 1.

Lemma init_dcache_sound T : dcache_sound T init_dcache (fun _ => []).
Proof.
  assert (Hroot : forall p e, cells init_dcache !! p = Some e ->
    p = root /\ e = set_inode ROOT_INODE_N calloc_entry).
  { intros p e Hp. unfold init_dcache in Hp. cbn [cells] in Hp.
    by apply lookup_singleton_Some in Hp as [-> <-]. }
  split; [split|done|].
  - eexists. reflexivity.
  - intros a e [-> _]%Hroot. unfold root. cbn. lia.
  - by intros p e [-> ->]%Hroot.
  - done.
  - intros p. apply base.NoDup_nil_2.
  - intros p q a Ha. by apply elem_of_nil in Ha.
  - intros p a Ha. by apply elem_of_nil in Ha.
  - intros a e [-> ->]%Hroot. split; [done|]. eexists. reflexivity.
  - intros p a Ha. by apply elem_of_nil in Ha.
Qed.

Lemma inode_init_run (s : fs R) :
  st_dcache s = dcache_statics -> inode_init s = Ok (0, set_dcache init_dcache s).
Proof. intros Hc. unfold inode_init, on_dcache, zoom. by rewrite Hc. Qed.

Lemma op_init_fresh img (s : fs R) :
  disk_ok img (st_disk s) -> st_dcache s = dcache_statics -> 2048 <= zlen img ->
  super_wf (image_super img) -> gdt_wf img (image_super img) ->
  exists s', op_init s = Ok (tt, s') /\ st_env (image_env img) s' /\ st_dcache s' = init_dcache.
Proof.
  intros Hd Hc Hl Hwf Hg. unfold op_init.
  destruct (super_fill_run img s Hd Hl Hwf) as (d1 & Hr1 & Hd1).
  rewrite (bind_Ok _ _ _ _ _ Hr1), (bind_Ok (ASSERT _) _ _ tt (set_disk d1 _)) by done.
  set (s1 := set_disk d1 _).
  destruct (super_group_fill_run img (image_super img) s1 Hd1) as (d2 & Hr2 & Hd2); [done..|].
  rewrite (bind_Ok _ _ _ _ _ Hr2), (bind_Ok (ASSERT _) _ _ tt (set_disk d2 _)) by done.
  set (s2 := set_disk d2 _).
  rewrite (bind_Ok _ _ _ _ _ (inode_init_run s2 Hc)).
  eexists. split; [done|]. split; [|done]. unfold st_env, s2, s1.
  cbn [e_img e_super e_gdesc image_env st_disk st_super st_gdesc set_dcache set_disk set_gdesc
    set_super]. done.
Qed.

Lemma op_init_run img T (s : fs R) :
  disk_ok img (st_disk s) -> st_dcache s = dcache_statics -> 2048 <= zlen img ->
  super_wf (image_super img) -> gdt_wf img (image_super img) ->
  wp op_init (fun _ s' => lookup_inv (image_env img) T s') s.
Proof.
  intros Hd Hc Hl Hwf Hg. destruct (op_init_fresh img s Hd Hc Hl Hwf Hg) as (s' & Hr & Henv & Hs').
  unfold wpx. rewrite Hr. split; [done|]. exists (fun _ => []). rewrite Hs'. apply init_dcache_sound.
Qed.

(** C12: mounting.  On a disk open on an image with a well-formed super block
    and a descriptor table inside the image, [op_init] does not abort, and
    establishes what every operation relies on: the super block and the
    descriptors in memory are those of the image, and the cache is sound for
    any tree. *)
Theorem op_init_ok img T (s : fs R) :
  disk_ok img (st_disk s) -> st_dcache s = dcache_statics -> 2048 <= zlen img ->
  super_wf (image_super img) -> gdt_wf img (image_super img) ->
  wp op_init (fun _ s' => lookup_inv (image_env img) T s') s.
Proof. by apply op_init_run. Qed.
End mount.

(** ** The operations that take a path *)

Section path_ops.
Context {R : Type} `{RLO : ReadLayerOk R}.
Context (E : env) (Hwf : super_wf (e_super E)).
Context (T : Z -> option (list dirent)) (Hfs : fs_repr E T).
Local Abbreviation img := (e_img E).
Local Abbreviation bs := (bsize (e_super E)).

(** [path] is an absolute path of short components that resolves to [n]. *)
Record names (path : bytes) (n : Z) : Prop := {
  nm_short : short_path path;
  nm_abs : hd_error path = Some SLASH;
  nm_resolve : resolve T ROOT_INODE_N (components path) = Some n }.

Lemma evals_inode_0 : evals E (inode_get_by_number 0) (Ok (-2, [])).
Proof. apply evals_ret. Qed.

Lemma wp_get_by_path {A} (k : Z * bytes -> M (fs R) A) Q F path n v (s : fs R) :
  names path n -> lookup_inv E T s -> evals E (inode_get_by_number n) (Ok v) ->
  (forall s', lookup_inv E T s' -> wpx (k v) Q F s') ->
  wpx (bind (inode_get_by_path path) k) Q F s.
Proof.
  intros [Hp Ha Hr] Hs Hget Hk. unfold inode_get_by_path.
  pose proof (inode_get_idx_by_path_run E Hwf T path s n Hfs Hs Hp Ha Hr) as Hw.
  apply wp_run in Hw. destruct Hw as (m & s1 & Hrun & -> & Hs1 & K & Hd).
  apply wpx_bind. eapply wpx_run; [exact Hrun|].
  destruct (evals_run E _ _ s1 Hget Hs1) as (d & Hg & Hok).
  unfold wpx at 1. rewrite Hg. apply Hk. split; [by apply set_disk_env|by exists K].
Qed.

(** What a computation that only uses the disk does to the invariant. *)
Lemma wpx_evals {A} (m : M (fs R) A) r Q F (s : fs R) :
  evals E m r -> lookup_inv E T s ->
  (forall v s', r = Ok v -> lookup_inv E T s' -> Q v s') ->
  (forall e, r = Err e -> F e) -> wpx m Q F s.
Proof.
  intros Hm [Hs [K Hd]] HQ HF. specialize (Hm s Hs). unfold wpx. destruct r as [v|e].
  - destruct Hm as (d & Hrun & Hok). rewrite Hrun. apply (HQ v); [done|].
    split; [by apply set_disk_env|by exists K].
  - rewrite Hm. by apply HF.
Qed.

(** The runs of the operations, which the session shares with the theorems. *)
Lemma op_open_run path n flags fh (s : fs R) :
  names path n -> lookup_inv E T s ->
  wp (op_open path flags fh)
    (fun r s' => lookup_inv E T s' /\
       r = if Z.land flags 3 =? 0 then (0, n) else (-13, fh)) s.
Proof.
  intros [Hp Ha Hr] Hs. unfold op_open, O_RDONLY.
  destruct (Z.land flags 3 =? 0); cbn [negb]; [|by apply wpx_ret].
  pose proof (inode_get_idx_by_path_run E Hwf T path s n Hfs Hs Hp Ha Hr) as Hw.
  apply wp_run in Hw. destruct Hw as (m & s1 & Hrun & -> & Hs1).
  eapply wpx_run; [exact Hrun|]. by apply wpx_ret.
Qed.

(** [op_open] refuses every access mode but reading, and otherwise stores
    in [fi->fh] the inode number the path resolves to (0, and still success,
    for a path that does not exist). *)
Theorem op_open_ok path n flags fh (s : fs R) :
  names path n -> lookup_inv E T s ->
  wp (op_open path flags fh)
    (fun r s' => lookup_inv E T s' /\
       r = if Z.land flags 3 =? 0 then (0, n) else (-13, fh)) s.
Proof. by apply op_open_run. Qed.

(** The attributes, every permission to write taken away. *)
Definition attributes_of (ino : bytes) (st : stat) : Prop :=
  (forall i, 0 <= i -> Z.testbit (st_mode st) i =
     Z.testbit (le_at 0 2 ino) i && negb ((i =? 1) || (i =? 4) || (i =? 7))) /\
  st_size st = s64 (i_size ino) /\ st_nlink st = le_at 26 2 ino /\
  st_blocks st = le_at 28 4 ino /\ st_uid st = le_at 2 2 ino /\
  st_gid st = le_at 24 2 ino /\ st_atime st = le_at 8 4 ino /\
  st_mtime st = le_at 16 4 ino /\ st_ctime st = le_at 12 4 ino.

Lemma getattr_inode_evals ino :
  128 <= zlen ino -> exists st, evals E (getattr_inode (0, ino)) (Ok (0, st)) /\ attributes_of ino st.
Proof.
  intros Hl. unfold getattr_inode. cbn [fst snd]. change (0 <? 0) with false. cbv iota.
  rewrite (fld_ok ext4_inode "i_mode" 0 U16) by (reflexivity || (cbn [csize]; lia)).
  rewrite (fld_ok ext4_inode "i_links_count" 26 U16) by (reflexivity || (cbn [csize]; lia)).
  rewrite (fld_ok ext4_inode "i_blocks_lo" 28 U32) by (reflexivity || (cbn [csize]; lia)).
  rewrite (fld_ok ext4_inode "i_uid" 2 U16) by (reflexivity || (cbn [csize]; lia)).
  rewrite (fld_ok ext4_inode "i_gid" 24 U16) by (reflexivity || (cbn [csize]; lia)).
  rewrite (fld_ok ext4_inode "i_atime" 8 U32) by (reflexivity || (cbn [csize]; lia)).
  rewrite (fld_ok ext4_inode "i_mtime" 16 U32) by (reflexivity || (cbn [csize]; lia)).
  rewrite (fld_ok ext4_inode "i_ctime" 12 U32) by (reflexivity || (cbn [csize]; lia)).
  rewrite (proj1 (inode_size_ok ino Hl)). cbn [csize].
  eexists. split; [repeat epure|]. split; [|done].
  cbn [st_mode]. intros i Hi. rewrite Z.land_spec, Z.lnot_spec by lia. do 2 f_equal.
  destruct (Z.lt_ge_cases i 8) as [Hlt|Hge].
  - assert (Hc : i = 0 \/ i = 1 \/ i = 2 \/ i = 3 \/ i = 4 \/ i = 5 \/ i = 6 \/ i = 7) by lia.
    by repeat destruct Hc as [->|Hc]; [..|subst i].
  - rewrite Z.bits_above_log2 by (cbn; lia). repeat zcase; lia || done.
Qed.

Lemma op_getattr_run path n ino (s : fs R) :
  names path n -> lookup_inv E T s -> 128 <= zlen ino ->
  evals E (inode_get_by_number n) (Ok (if n =? 0 then (-2, []) else (0, ino))) ->
  wp (op_getattr path)
    (fun r s' => lookup_inv E T s' /\
       if n =? 0 then r = (-2, stat_zero) else fst r = 0 /\ attributes_of ino (snd r)) s.
Proof.
  intros Hn Hs Hl Hget. unfold op_getattr.
  eapply wp_get_by_path; [done..|]. intros s' Hs'.
  destruct (n =? 0); [by apply wpx_ret|]. destruct (getattr_inode_evals ino Hl) as (st & He & Hst).
  eapply (wpx_evals _ _ _ _ _ He Hs'); [|done]. by intros v s2 [= <-] Hs2.
Qed.

(** [op_getattr] fails with ENOENT for a path that does not exist, and
    otherwise copies the attributes of the inode, every permission to write
    taken away and every other mode bit kept. *)
Theorem op_getattr_ok path n ino (s : fs R) :
  names path n -> lookup_inv E T s -> 128 <= zlen ino ->
  evals E (inode_get_by_number n) (Ok (if n =? 0 then (-2, []) else (0, ino))) ->
  wp (op_getattr path)
    (fun r s' => lookup_inv E T s' /\
       if n =? 0 then r = (-2, stat_zero) else
       fst r = 0 /\
       (forall i, 0 <= i -> Z.testbit (st_mode (snd r)) i =
          Z.testbit (le_at 0 2 ino) i && negb ((i =? 1) || (i =? 4) || (i =? 7))) /\
       st_size (snd r) = s64 (i_size ino) /\ st_nlink (snd r) = le_at 26 2 ino /\
       st_blocks (snd r) = le_at 28 4 ino /\ st_uid (snd r) = le_at 2 2 ino /\
       st_gid (snd r) = le_at 24 2 ino /\ st_atime (snd r) = le_at 8 4 ino /\
       st_mtime (snd r) = le_at 16 4 ino /\ st_ctime (snd r) = le_at 12 4 ino) s.
Proof. by apply op_getattr_run. Qed.

(** ** Directory listings *)

(** What the filler is given: the live entries with a name, in order, with the
    offset behind each, until it says that the reply is full. *)
Section fill.
Context {B : Type} (filler : B -> bytes -> Z -> Z * B).

Fixpoint fill (es : list dirent) (b : B) : B :=
  match es with
  | [] => b
  | e :: es' =>
      if decide (de_inode e = 0 \/ de_name e = []) then fill es' b
      else let f := filler b (de_name e) (de_next e) in
           if fst f =? 0 then fill es' (snd f) else snd f
  end.

(** The same with the fault of the copy into [name_buf]. *)
Fixpoint fill_copy (es : list dirent) (b : B) : res B :=
  match es with
  | [] => Ok b
  | e :: es' =>
      if decide (de_inode e = 0) then fill_copy es' b
      else if EXT4_NAME_LEN <=? zlen (de_name e) then Err UB
      else if decide (de_name e = []) then fill_copy es' b
      else let f := filler b (de_name e) (de_next e) in
           if fst f =? 0 then fill_copy es' (snd f) else Ok (snd f)
  end.

Definition name_fits (e : dirent) : Prop := zlen (de_name e) < EXT4_NAME_LEN.

Lemma fill_copy_fits es b : Forall name_fits es -> fill_copy es b = Ok (fill es b).
Proof.
  intros Hes. revert b. induction Hes as [|e es He Hes IH]; intros b; [done|].
  cbn [fill_copy fill]. unfold name_fits in He.
  destruct (decide (de_inode e = 0)); [rewrite decide_True by tauto; apply IH|].
  rewrite (proj2 (Z.leb_gt _ _)) by lia.
  destruct (decide (de_name e = [])); [rewrite decide_True by tauto; apply IH|].
  rewrite decide_False by tauto. destruct (fst _ =? 0); [apply IH|done].
Qed.

Lemma fill_copy_overflow es1 e es2 b :
  (forall b nm off, fst (filler b nm off) = 0) -> Forall name_fits es1 ->
  de_inode e <> 0 -> ~ name_fits e -> fill_copy (es1 ++ e :: es2) b = Err UB.
Proof.
  intros Hf H1 He Hlong. unfold name_fits in *. revert b.
  induction H1 as [|x es Hx Hes IH]; intros b; cbn [app fill_copy].
  - rewrite decide_False by done. by rewrite (proj2 (Z.leb_le _ _)) by lia.
  - case_decide; [apply IH|]. rewrite (proj2 (Z.leb_gt _ _)) by lia.
    case_decide; [apply IH|]. rewrite Hf. apply IH.
Qed.

(** Copying a name of at most 254 characters into the array. *)
Lemma printable_ok inode content off name_buf nl :
  dir_repr E inode content -> 0 <= off < zlen content -> nl = le_at (off + 6) 1 content ->
  off mod bs + 8 + nl <= bs -> zlen name_buf = EXT4_NAME_LEN ->
  let nm := slice (off + 8) nl content in
  if EXT4_NAME_LEN <=? nl
  then get_printable_name name_buf (dentry_at E content off) = Err UB
  else exists rest, get_printable_name name_buf (dentry_at E content off)
                      = Ok (nm ++ Byte.x00 :: rest) /\
         zlen (nm ++ Byte.x00 :: rest) = EXT4_NAME_LEN.
Proof.
  intros Hd Hoff Hnl Hfit Hbuf nm. unfold get_printable_name, EXT4_NAME_LEN in *.
  pose proof (le_at_range (off + 6) 1 content ltac:(lia)) as Hr. rewrite <- Hnl in Hr.
  destruct (dentry_fields E Hwf inode content off nl Hd Hoff ltac:(lia) Hfit)
    as (_ & _ & -> & Hin & Hname). rewrite <- Hnl. cbn [rbind]. rewrite Hin, Hname. fold nm.
  assert (Hlen : zlen nm = nl).
  { pose proof (block_inside E Hwf _ _ _ Hd Hoff). pose proof (bsize_range _ Hwf).
    pose proof (Z.div_mod off bs ltac:(lia)). apply zlen_slice; lia. }
  unfold store. rewrite (in_range_true 0) by lia. cbn [rbind].
  assert (Hs : zlen (splice 0 nm name_buf) = 255) by (rewrite zlen_splice; lia).
  change (zlen [Byte.x00]) with 1 in *. destruct (Z.leb_spec 255 nl).
  - by rewrite (in_range_false nl) by (rewrite Hs; lia).
  - rewrite (in_range_true nl) by (rewrite ?Hs; lia).
    exists (drop (length nm + 1) name_buf).
    assert (He : splice nl [Byte.x00] (splice 0 nm name_buf)
                 = nm ++ Byte.x00 :: drop (length nm + 1) name_buf).
    { rewrite <- Hlen. change (zlen nm) with (0 + zlen nm).
      rewrite splice_splice by (change (zlen [Byte.x00]) with 1; lia).
      unfold splice. change (Z.to_nat 0) with 0%nat. rewrite take_0. cbn [app Nat.add].
      rewrite length_app, <- app_assoc. done. }
    rewrite He. split; [done|]. rewrite <- He, zlen_splice; [done|lia|].
    change (zlen [Byte.x00]) with 1. lia.
Qed.

(** Names are strings. *)
Definition no_nul (e : dirent) : Prop := Byte.x00 ∉ de_name e.

Lemma readdir_loop_ok inode content off es fuel name_buf lb b :
  dir_repr E inode content -> dir_entries bs content off es -> Forall no_nul es ->
  (length es < fuel)%nat -> zlen name_buf = EXT4_NAME_LEN ->
  evals E (readdir_loop filler fuel inode name_buf off (dctx E content lb) b) (fill_copy es b).
Proof.
  intros Hd Hes. revert fuel name_buf lb b.
  induction Hes as [|off es Hoff rec_len name_len Hrec Hfit Hes IH]; intros fuel name_buf lb b Hnul Hf Hbuf;
    (destruct fuel as [|fuel]; [cbn in Hf; lia|]); cbn [readdir_loop].
  - eapply evals_bind; [apply (inode_dentry_get_run E Hwf); [done|pose proof (zlen_nonneg content); lia]|].
    cbv beta. rewrite Z.eqb_refl. cbn [fst]. apply evals_ret.
  - eapply evals_bind; [apply (inode_dentry_get_run E Hwf); [done|lia]|]. cbv beta.
    destruct (Z.eqb_spec off (zlen content)); [lia|]. cbn [fst snd].
    pose proof (le_at_range (off + 6) 1 content ltac:(lia)) as Hnl. fold name_len in Hnl.
    destruct (dentry_fields E Hwf inode content off name_len Hd Hoff ltac:(lia) Hfit)
      as (-> & -> & _). fold rec_len. do 2 epure.
    pose proof (dir_entries_range E _ _ _ Hes). pose proof (dr_bound _ _ _ Hd).
    rewrite s64_small by lia. cbn [fill_copy de_inode de_name de_next length] in Hf |- *.
    apply Forall_cons in Hnul. destruct Hnul as [Hn Hnul]. unfold no_nul in Hn. cbn [de_name] in Hn.
    destruct (Z.eqb_spec (le_at off 4 content) 0) as [Hz|Hnz].
    { rewrite decide_True by done. apply IH; [done|lia|done]. }
    rewrite decide_False by done.
    pose proof (printable_ok inode content off name_buf name_len Hd Hoff eq_refl Hfit Hbuf) as Hp.
    cbv zeta in Hp. set (nm := slice (off + 8) name_len content) in *.
    assert (Hlen : zlen nm = name_len).
    { pose proof (block_inside E Hwf _ _ _ Hd Hoff). pose proof (bsize_range _ Hwf).
      pose proof (Z.div_mod off bs ltac:(lia)). apply zlen_slice; lia. }
    rewrite Hlen. destruct (EXT4_NAME_LEN <=? name_len).
    { rewrite Hp. apply evals_bind_err, (evals_lift E (Err UB)). }
    destruct Hp as (rest & -> & Hbuf'). epure.
    rewrite load_ok by (unfold EXT4_NAME_LEN in Hbuf'; lia). epure.
    rewrite cstr_app by done. unfold le_at, slice. change (Z.to_nat 0) with 0%nat.
    rewrite drop_0. change (Z.to_nat 1) with 1%nat. clearbody nm.
    destruct nm as [|c nm]; cbn [app take le_decode].
    { rewrite decide_True by done. apply IH; [done|lia|done]. }
    rewrite decide_False by done. rewrite Z.mul_0_r, Z.add_0_r.
    rewrite (proj2 (Z.eqb_neq (byte_val c) 0)).
    2:{ intros Hz. apply Hn, elem_of_cons. left. rewrite <- (byte_of_val c), Hz. done. }
    destruct (fst _ =? 0); cbn [negb]; [apply IH; [done|lia|done]|apply evals_ret].
Qed.

Lemma readdir_inode_evals name_buf ino content off es b :
  dir_repr E ino content -> dir_entries bs content off es -> Forall no_nul es ->
  zlen name_buf = EXT4_NAME_LEN ->
  evals E (readdir_inode filler name_buf off b (0, ino))
    (match fill_copy es b with Ok b' => Ok (0, b') | Err e => Err e end).
Proof.
  intros Hd Hes Hnul Hbuf. unfold readdir_inode. cbn [fst snd]. change (0 <? 0) with false. cbv iota.
  pose proof (bsize_range _ Hwf). pose proof (dr_bound _ _ _ Hd).
  assert (Hctx : evals E (inode_dir_ctx_reset ino) (Ok (dctx E content 0)))
    by (apply (evals_dir_ctx_update E Hwf ino content 0 Hd); lia).
  assert (Hfuel : (length es < dir_fuel ino)%nat).
  { unfold dir_fuel. destruct (inode_size_ok ino (dr_inode _ _ _ Hd)) as [-> _].
    rewrite (dr_size _ _ _ Hd). pose proof (dir_entries_count E content off es Hes).
    pose proof (dir_entries_range E _ _ _ Hes). unfold zlen in *. lia. }
  estep Hctx. pose proof (readdir_loop_ok ino content off es _ name_buf 0 b Hd Hes Hnul Hfuel Hbuf) as Hl.
  destruct (fill_copy es b) as [b'|e]; [|by apply evals_bind_err]. estep Hl. epure.
Qed.

Lemma wpx_readdir path name_buf n ino content off es b Q F (s : fs R) :
  names path n -> lookup_inv E T s ->
  evals E (inode_get_by_number n) (Ok (0, ino)) -> dir_repr E ino content ->
  dir_entries bs content off es -> Forall no_nul es -> zlen name_buf = EXT4_NAME_LEN ->
  (forall b' s', fill_copy es b = Ok b' -> lookup_inv E T s' -> Q (0, b') s') ->
  (forall e, fill_copy es b = Err e -> F e) ->
  wpx (op_readdir filler path name_buf off b) Q F s.
Proof.
  intros Hn Hs Hget Hd Hes Hnul Hbuf HQ HF. unfold op_readdir.
  eapply wp_get_by_path; [done..|]. intros s1 Hs1.
  eapply (wpx_evals _ _ _ _ _ (readdir_inode_evals name_buf ino content off es b Hd Hes Hnul Hbuf) Hs1);
    destruct (fill_copy es b) as [b'|e]; try done.
  - intros v s2 [= <-]. by apply HQ.
  - intros e' [= <-]. by apply HF.
Qed.

Lemma op_readdir_run path name_buf n ino content off es b (s : fs R) :
  names path n -> lookup_inv E T s ->
  evals E (inode_get_by_number n) (Ok (0, ino)) -> dir_repr E ino content ->
  dir_entries bs content off es -> Forall no_nul es -> Forall name_fits es ->
  zlen name_buf = EXT4_NAME_LEN ->
  wp (op_readdir filler path name_buf off b)
    (fun r s' => r = (0, fill es b) /\ lookup_inv E T s') s.
Proof.
  intros Hn Hs Hget Hd Hes Hnul Hfit Hbuf. pose proof (fill_copy_fits es b Hfit) as Hfill.
  eapply wpx_readdir; [done..| |].
  - intros b' s' Hb' Hs'. rewrite Hfill in Hb'. by injection Hb' as <-.
  - intros e He. congruence.
Qed.


(** A live entry with a name of 255 characters, which ext4 allows, makes
    the listing write the terminating NUL behind the end of [name_buf]. *)
Theorem op_readdir_overflow path name_buf n ino content off es1 e es2 b (s : fs R) :
  names path n -> lookup_inv E T s ->
  evals E (inode_get_by_number n) (Ok (0, ino)) -> dir_repr E ino content ->
  dir_entries bs content off (es1 ++ e :: es2) -> Forall no_nul (es1 ++ e :: es2) ->
  (forall b nm off, fst (filler b nm off) = 0) -> Forall name_fits es1 ->
  de_inode e <> 0 -> zlen (de_name e) = 255 -> zlen name_buf = EXT4_NAME_LEN ->
  wpx (op_readdir filler path name_buf off b) (fun _ _ => False) (fun f => f = UB) s.
Proof.
  intros Hn Hs Hget Hd Hes Hnul Hf H1 He Hlong Hbuf.
  assert (Hfill : fill_copy (es1 ++ e :: es2) b = Err UB).
  { apply fill_copy_overflow; try done. unfold name_fits, EXT4_NAME_LEN. lia. }
  eapply wpx_readdir; [done..| |]; congruence.
Qed.
End fill.

(** ** Symbolic links *)

(** The text of a link: in the inode up to 60 characters, otherwise at the
    start of the first block, followed by a NUL. *)
Definition link_text (ino target : bytes) : Prop :=
  i_size ino = zlen target /\
  if i_size ino <=? 60 then slice 40 (i_size ino) ino = target
  else exists pb len rest, evals E (inode_get_data_pblock ino 0) (Ok (pb, len)) /\
    0 <= pb /\ pb * bs + bs <= zlen img /\
    slice (pb * bs) bs img = target ++ Byte.x00 :: rest.

(** [strncpy] of a string that fits: the string and NULs. *)
Lemma strncpy_fits str rest n :
  Byte.x00 ∉ str -> (length str < n)%nat ->
  strncpy_bytes (str ++ Byte.x00 :: rest) n = Ok (str ++ replicate (n - length str) Byte.x00).
Proof.
  revert n. induction str as [|c str IH]; intros [|n] Hn Hl; cbn [length] in Hl; try lia;
    cbn [app strncpy_bytes].
  - by rewrite decide_True.
  - rewrite elem_of_cons in Hn. rewrite decide_False by (intros ->; tauto).
    rewrite IH by (tauto || lia). done.
Qed.

Lemma cstr_terminated str l n :
  Byte.x00 ∉ str -> take (length str) l = str -> zlen str = n -> n < zlen l ->
  exists l', store n [Byte.x00] l = Ok l' /\ cstr l' = Some str /\ zlen l' = zlen l.
Proof.
  intros Hn Ht Hl Hfit. pose proof (zlen_nonneg str). unfold store.
  change (zlen [Byte.x00]) with 1. rewrite in_range_true by lia. eexists. split; [done|].
  split; [|apply zlen_splice; change (zlen [Byte.x00]) with 1; lia].
  unfold splice. replace (Z.to_nat n) with (length str) by (unfold zlen in Hl; lia).
  rewrite Ht. cbn [app]. by apply cstr_app.
Qed.

Lemma take_splice (str more l : bytes) :
  zlen (str ++ more) <= zlen l -> take (length str) (splice 0 (str ++ more) l) = str.
Proof.
  intros _. unfold splice. change (Z.to_nat 0) with 0%nat. rewrite take_0. cbn [app].
  rewrite <- app_assoc. by rewrite take_app_length.
Qed.

Lemma get_link_dest_ok ino target buf bufsize :
  128 <= zlen ino -> link_text ino target -> Byte.x00 ∉ target -> zlen img < 2 ^ 62 ->
  zlen target < bufsize - 1 -> zlen buf = bufsize -> bufsize < 2 ^ 31 ->
  exists buf', evals E (get_link_dest ino buf bufsize) (Ok (zlen target + 1, buf')) /\
    cstr buf' = Some target /\ zlen buf' = bufsize.
Proof.
  intros Hl [Hsz Htext] Hnul Himg Hfit Hbuf H31. unfold get_link_dest.
  pose proof (zlen_nonneg target). rewrite (proj1 (inode_size_ok ino Hl)).
  assert (Hret : s32 (u64 (i_size ino + 1)) = zlen target + 1)
    by (rewrite Hsz, u64_small by lia; apply s32_small; lia).
  destruct (Z.leb_spec (i_size ino) 60) as [Hfast|Hslow].
  - destruct (cstr_terminated target (splice 0 (target ++ []) buf) (i_size ino) Hnul)
      as (buf' & Hst & Hc & Hz); [apply take_splice; rewrite app_nil_r; lia|done|
        rewrite app_nil_r, zlen_splice; lia|].
    rewrite app_nil_r in *. rewrite zlen_splice in Hz by lia.
    exists buf'. split; [|split; [done|lia]].
    epure. rewrite Hret, (proj2 (Z.leb_le (i_size ino) 60) Hfast).
    eapply evals_bind; [|rewrite Hst; cbv beta; epure; epure].
    unfold require. rewrite in_range_true by lia. epure. rewrite Htext. unfold store.
    rewrite in_range_true by lia. apply (evals_lift E (Ok _)).
  - destruct Htext as (pb & len & rest & Hpb & Hpb0 & Hin & Htext).
    set (pad := replicate (Z.to_nat (bufsize - 1) - length target) Byte.x00).
    assert (Hpad : zlen (target ++ pad) = bufsize - 1)
      by (unfold pad, zlen in *; rewrite length_app, length_replicate; lia).
    destruct (cstr_terminated target (splice 0 (target ++ pad) buf) (i_size ino) Hnul)
      as (buf' & Hst & Hc & Hz); [apply take_splice; lia|done|rewrite zlen_splice; lia|].
    rewrite zlen_splice in Hz by lia. exists buf'. split; [|split; [done|lia]].
    epure. rewrite Hret, (proj2 (Z.leb_gt (i_size ino) 60) Hslow).
    eapply evals_bind; [|rewrite Hst; cbv beta; epure; epure].
    estep Hpb. cbn [fst]. eapply evals_bind; [by apply (evals_disk_read_block E Hwf)|]. cbv beta.
    cbn [snd]. rewrite Htext. rewrite u64_small by lia.
    rewrite strncpy_fits by (done || unfold zlen in *; lia). epure. fold pad. unfold store.
    rewrite in_range_true by lia. apply (evals_lift E (Ok _)).
Qed.

Lemma readlink_inode_evals ino target buf bufsize :
  128 <= zlen ino -> link_text ino target -> Byte.x00 ∉ target -> zlen img < 2 ^ 62 ->
  zlen target < bufsize - 1 -> zlen buf = bufsize -> bufsize < 2 ^ 31 ->
  S_ISLNK (le_at 0 2 ino) = true ->
  exists buf', evals E (readlink_inode buf bufsize (0, ino)) (Ok (0, buf')) /\
    cstr buf' = Some target /\ zlen buf' = bufsize.
Proof.
  intros Hl Htext Hnul Himg Hfit Hbuf H31 Hlnk.
  destruct (get_link_dest_ok ino target buf bufsize Hl Htext Hnul Himg Hfit Hbuf H31)
    as (buf' & He & Hc & Hz). exists buf'. split; [|done]. unfold readlink_inode. cbn [snd].
  rewrite (fld_ok ext4_inode "i_mode" 0 U16) by (reflexivity || (cbn [csize]; lia)).
  cbn [csize]. epure. rewrite Hlnk. cbn [negb]. estep He. epure.
Qed.

Lemma readlink_inode_other ino buf bufsize :
  128 <= zlen ino -> S_ISLNK (le_at 0 2 ino) = false ->
  evals E (readlink_inode buf bufsize (0, ino)) (Ok (- EINVAL, buf)).
Proof.
  intros Hl Hlnk. unfold readlink_inode. cbn [snd].
  rewrite (fld_ok ext4_inode "i_mode" 0 U16) by (reflexivity || (cbn [csize]; lia)).
  cbn [csize]. epure. rewrite Hlnk. cbn [negb]. epure.
Qed.

Lemma op_readlink_run path n ino target buf bufsize (s : fs R) :
  names path n -> lookup_inv E T s -> evals E (inode_get_by_number n) (Ok (0, ino)) ->
  128 <= zlen ino -> link_text ino target -> Byte.x00 ∉ target -> zlen img < 2 ^ 62 ->
  zlen target < bufsize - 1 -> zlen buf = bufsize -> bufsize < 2 ^ 31 ->
  wp (op_readlink path buf bufsize)
    (fun r s' => lookup_inv E T s' /\
       if S_ISLNK (le_at 0 2 ino)
       then fst r = 0 /\ cstr (snd r) = Some target /\ zlen (snd r) = bufsize
       else r = (-22, buf)) s.
Proof.
  intros Hn Hs Hget Hl Htext Hnul Himg Hfit Hbuf H31. unfold op_readlink.
  eapply wp_get_by_path; [done..|]. intros s' Hs'. destruct (S_ISLNK (le_at 0 2 ino)) eqn:Hlnk.
  - destruct (readlink_inode_evals ino target buf bufsize Hl Htext Hnul Himg Hfit Hbuf H31 Hlnk)
      as (buf' & He & Hc & Hz).
    eapply (wpx_evals _ _ _ _ _ He Hs'); [|done]. by intros v s2 [= <-] Hs2.
  - eapply (wpx_evals _ _ _ _ _ (readlink_inode_other ino buf bufsize Hl Hlnk) Hs'); [|done].
    by intros v s2 [= <-] Hs2.
Qed.

(** Reading a link whose text fits the buffer, with the inode or a block
    as its place, leaves the text of the link in the buffer as a
    NUL-terminated string; any other file is refused with EINVAL. *)
Theorem op_readlink_ok path n ino target buf bufsize (s : fs R) :
  names path n -> lookup_inv E T s -> evals E (inode_get_by_number n) (Ok (0, ino)) ->
  128 <= zlen ino -> link_text ino target -> Byte.x00 ∉ target -> zlen img < 2 ^ 62 ->
  zlen target < bufsize - 1 -> zlen buf = bufsize -> bufsize < 2 ^ 31 ->
  wp (op_readlink path buf bufsize)
    (fun r s' => lookup_inv E T s' /\
       if S_ISLNK (le_at 0 2 ino)
       then fst r = 0 /\ cstr (snd r) = Some target /\ zlen (snd r) = bufsize
       else r = (-22, buf)) s.
Proof. by apply op_readlink_run. Qed.

(** [op_readlink] does not look at the result of the lookup, so for a
    path that does not exist it reads the mode of an inode that was never
    filled in; and a link in the inode whose text is as long as the buffer is
    written behind its end. *)
Theorem op_readlink_unchecked path n ino buf bufsize (s : fs R) :
  names path n -> lookup_inv E T s ->
  evals E (inode_get_by_number n) (Ok (if n =? 0 then (-2, []) else (0, ino))) ->
  (n <> 0 -> 128 <= zlen ino /\ S_ISLNK (le_at 0 2 ino) = true /\
     zlen buf <= i_size ino <= 60) ->
  wpx (op_readlink path buf bufsize) (fun _ _ => False) (fun f => f = UB) s.
Proof.
  intros Hn Hs Hget Hino. unfold op_readlink, readlink_inode.
  eapply wp_get_by_path; [done..|]. intros s' Hs'. destruct (Z.eqb_spec n 0) as [He|Hne]; [done|].
  cbn [snd]. destruct (Hino Hne) as (Hl & Hlnk & Hlong).
  rewrite (fld_ok ext4_inode "i_mode" 0 U16) by (reflexivity || (cbn [csize]; lia)).
  cbn [csize]. wstep. wstep. rewrite Hlnk. cbn [negb]. wstep.
  unfold get_link_dest. rewrite (proj1 (inode_size_ok ino Hl)). wsteps.
  rewrite (proj2 (Z.leb_le (i_size ino) 60)) by lia. unfold require.
  pose proof (zlen_nonneg buf). rewrite in_range_true by lia.
  assert (Hz : zlen (slice 40 (i_size ino) ino) = i_size ino) by (apply zlen_slice; lia).
  wsteps. destruct (store 0 _ buf) as [b|e] eqn:Hst.
  - wsteps. unfold store in *. rewrite Hz in Hst.
    destruct (in_range 0 (i_size ino) buf) eqn:Hr; [|done]. injection Hst as <-.
    change (zlen [Byte.x00]) with 1. apply in_range_inv in Hr.
    by rewrite in_range_false by (rewrite zlen_splice; lia).
  - unfold store in Hst. destruct (in_range _ _ _); by simplify_eq.
Qed.
End path_ops.
