(* ===== verification/Session.v ===== *)
(** * The mounted file system: any sequence of requests

    libfuse calls the operations of [e4f_ops] one request after the other.  The
    contract of the program is a [volume], a file tree with contents that never
    changes: [spec] says what a request is answered from the volume alone, and
    the theorems here that the operations, with their cache and their readers
    underneath, implement it for every sequence of requests. *)
From Stdlib Require Import ZArith Lia Strings.Byte.
From stdpp Require Import base numbers list option gmap strings.
From S2P Require Import Prelude Clib Layout Disk Dcache State Super Extents Inode Lookup Ops.

Definition ENOENT : Z := 2.

(** A request of the kernel, with the memory libfuse gives to the operation:
    the buffer of read and readlink, the uninitialised [name_buf] of readdir.
    A handle is what open left in [fi->fh]. *)
Inductive request : Type :=
| Getattr (path : bytes)
| Open (path : bytes) (flags : Z)
| Read (fh : Z) (buf : bytes) (offset : Z)
| Readlink (path buf : bytes)
| Readdir (path name_buf : bytes) (offset : Z).

Section session.
Context {R : Type} `{RL : ReadLayer R}.
(** libfuse's filler and the reply it starts from. *)
Context {B : Type} (filler : B -> bytes -> Z -> Z * B) (b0 : B).

Inductive response : Type :=
| RGetattr (r : Z * stat)
| ROpen (r : Z * Z)
| RRead (r : Z * bytes)
| RReadlink (r : Z * bytes)
| RReaddir (r : Z * B).

(** [struct fuse_operations], the members the program sets. *)
Record fuse_operations : Type := mkOps {
  getattr : bytes -> M (fs R) (Z * stat);
  readdir : bytes -> bytes -> Z -> B -> M (fs R) (Z * B);
  open : bytes -> Z -> Z -> M (fs R) (Z * Z);
  read : bytes -> Z -> Z -> Z -> M (fs R) (Z * bytes);
  readlink : bytes -> bytes -> Z -> M (fs R) (Z * bytes);
  init : M (fs R) unit }.
Definition e4f_ops : fuse_operations := {|
  getattr := op_getattr;
  readdir := op_readdir filler;
  open := op_open;
  read := op_read;
  readlink := op_readlink;
  init := op_init |}.

(** The call a request leads to; libfuse clears [fi] before open. *)
Definition serve (ops : fuse_operations) (q : request) : M (fs R) response :=
  match q with
  | Getattr path => let* r := getattr ops path in ret (RGetattr r)
  | Open path flags => let* r := open ops path flags 0 in ret (ROpen r)
  | Read fh buf offset => let* r := read ops buf (zlen buf) offset fh in ret (RRead r)
  | Readlink path buf => let* r := readlink ops path buf (zlen buf) in ret (RReadlink r)
  | Readdir path name_buf offset =>
      let* r := readdir ops path name_buf offset b0 in ret (RReaddir r)
  end.
Fixpoint serve_all (ops : fuse_operations) (qs : list request) : M (fs R) (list response) :=
  match qs with
  | [] => ret []
  | q :: qs => let* r := serve ops q in let* rs := serve_all ops qs in ret (r :: rs)
  end.

(** *** Looking up the path, and the rest

    An operation looks up its path first, if it has one to look up; all it does
    afterwards is to read. *)
Definition request_path (q : request) : option bytes :=
  match q with
  | Getattr path | Readlink path _ | Readdir path _ _ => Some path
  | Open path flags => if negb (Z.land flags 3 =? O_RDONLY) then None else Some path
  | Read _ _ _ => None
  end.
Definition serve_at (q : request) (n : Z) : M (fs R) response :=
  match q with
  | Getattr _ => let* g := inode_get_by_number n in let* r := getattr_inode g in ret (RGetattr r)
  | Open _ flags =>
      if negb (Z.land flags 3 =? O_RDONLY) then ret (ROpen (- EACCES, 0)) else ret (ROpen (0, n))
  | Read fh buf offset => let* r := op_read buf (zlen buf) offset fh in ret (RRead r)
  | Readlink _ buf =>
      let* g := inode_get_by_number n in
      let* r := readlink_inode buf (zlen buf) g in ret (RReadlink r)
  | Readdir _ name_buf offset =>
      let* g := inode_get_by_number n in
      let* r := readdir_inode filler name_buf offset b0 g in ret (RReaddir r)
  end.

Lemma serve_split q s :
  serve e4f_ops q s =
  match request_path q with
  | Some path => (let* n := inode_get_idx_by_path path in serve_at q n) s
  | None => serve_at q 0 s
  end.
Proof.
  destruct q as [path|path flags|fh buf offset|path buf|path name_buf offset]; cbn [request_path]; try done;
    cbn [serve e4f_ops getattr readlink readdir open];
    unfold op_getattr, op_open, op_readlink, op_readdir, inode_get_by_path, serve_at;
    try (rewrite !bind_bind; apply bind_ext; intros; by rewrite ?bind_bind).
  destruct (Z.land flags 3 =? O_RDONLY); cbn [negb]; [|done].
  rewrite bind_bind. by apply bind_ext.
Qed.

(** ** The specification *)

(** What the image is a picture of: the directories, the inodes as bytes, the
    contents of the regular files and the texts of the symbolic links. *)
Record volume : Type := mkVolume {
  v_tree : Z -> option (list dirent);
  v_inode : Z -> option bytes;
  v_content : Z -> option bytes;
  v_link : Z -> option bytes }.

Definition find_path (V : volume) (path : bytes) : option Z :=
  resolve (v_tree V) ROOT_INODE_N (components path).

(** The attributes, without the permissions to write. *)
Definition attributes (ino : bytes) : stat :=
  mkStat (Z.ldiff (le_at 0 2 ino) 146) (le_at 26 2 ino) (s64 (i_size ino)) (le_at 28 4 ino)
    (le_at 2 2 ino) (le_at 24 2 ino) (le_at 8 4 ino) (le_at 16 4 ino) (le_at 12 4 ino).

(** The entries behind the one that ends at [off]. *)
Fixpoint entries_after (es : list dirent) (off : Z) : option (list dirent) :=
  match es with
  | [] => None
  | e :: es' => if de_next e =? off then Some es' else entries_after es' off
  end.
Definition entries_from (es : list dirent) (off : Z) : option (list dirent) :=
  if off =? 0 then Some es else entries_after es off.

Inductive answer : Type :=
| Error (errno : Z)
| Attr (st : stat)
| Handle (fh : Z)
| Data (d : bytes)
| Target (t : bytes)
| Listing (b : B).

Definition spec (V : volume) (q : request) : answer :=
  match q with
  | Getattr path =>
      match find_path V path ≫= v_inode V with
      | Some ino => Attr (attributes ino)
      | None => Error ENOENT
      end
  | Open path flags =>
      if Z.land flags 3 =? O_RDONLY then Handle (default 0 (find_path V path)) else Error EACCES
  | Read fh buf offset =>
      match v_content V fh with
      | Some c => Data (slice offset (read_count c (zlen buf) offset) c)
      | None => Error ENOENT
      end
  | Readlink path buf =>
      match find_path V path ≫= v_link V with
      | Some t => Target t
      | None => Error EINVAL
      end
  | Readdir path _ offset =>
      match find_path V path ≫= v_tree V with
      | Some es => Listing (fill filler (default [] (entries_from es offset)) b0)
      | None => Error ENOENT
      end
  end.

(** The response says the answer; data and text are in the buffer. *)
Definition says (r : response) (a : answer) : Prop :=
  match r, a with
  | RGetattr (e, _), Error n | ROpen (e, _), Error n | RRead (e, _), Error n
  | RReadlink (e, _), Error n | RReaddir (e, _), Error n => e = - n
  | RGetattr (e, st), Attr st' => e = 0 /\ st = st'
  | ROpen (e, fh), Handle fh' => e = 0 /\ fh = fh'
  | RRead (n, buf), Data d => n = zlen d /\ slice 0 n buf = d
  | RReadlink (e, buf), Target t => e = 0 /\ cstr buf = Some t
  | RReaddir (e, b), Listing b' => e = 0 /\ b = b'
  | _, _ => False
  end.
End session.
Arguments fuse_operations R B : clear implicits.

(** The requests the specification speaks about, where [is_mapped] says which
    blocks of an inode are not in a hole.  A path is absolute, its components fit
    in the cache and it does not lead through a file; what it leads to is missing
    or in the volume, a directory for a listing, an existing inode for a link; a
    read is of a file of the volume or of handle 0 and starts at a block or in a
    mapped block below 4 GiB; a link fits in the buffer; a listing starts at the
    beginning or behind an entry. *)
Definition request_within (bs : Z) (is_mapped : bytes -> Z -> Prop) (V : volume)
    (q : request) : Prop :=
  match q with
  | Getattr path => exists n, names (v_tree V) path n /\ (n = 0 \/ is_Some (v_inode V n))
  | Open path _ => exists n, names (v_tree V) path n
  | Read fh buf offset => 0 <= offset < 2 ^ 62 /\ zlen buf < 2 ^ 31 /\
      (fh = 0 \/ exists c ino, v_content V fh = Some c /\ v_inode V fh = Some ino /\
      (0 < read_count c (zlen buf) offset ->
       offset mod bs = 0 \/ (offset < 2 ^ 32 /\ is_mapped ino (offset / bs))))
  | Readlink path buf => exists n ino, names (v_tree V) path n /\ v_inode V n = Some ino /\
      zlen buf < 2 ^ 31 /\ forall t, v_link V n = Some t -> zlen t < zlen buf - 1
  | Readdir path name_buf offset => exists n, names (v_tree V) path n /\
      zlen name_buf = EXT4_NAME_LEN /\
      (n = 0 \/ exists es, v_tree V n = Some es /\ is_Some (entries_from es offset))
  end.

Section session_facts.
Context {R : Type} `{RLO : ReadLayerOk R}.
Context {B : Type} (filler : B -> bytes -> Z -> Z * B) (b0 : B).
Context (E : env).

(** The volume is what the image holds. *)
Record volume_repr (V : volume) : Prop := {
  vr_super : super_wf (e_super E);
  vr_img : zlen (e_img E) < 2 ^ 62;
  vr_tree : fs_repr E (v_tree V);
  vr_names : forall n es, v_tree V n = Some es -> Forall no_nul es /\ Forall name_fits es;
  vr_inode : forall n ino, v_inode V n = Some ino ->
    n <> 0 /\ 128 <= zlen ino /\ evals E (inode_get_by_number n) (Ok (0, ino));
  vr_content : forall n c, v_content V n = Some c ->
    0 <= n < 2 ^ 32 /\ exists ino, v_inode V n = Some ino /\ file_repr E ino c;
  vr_link : forall n t, v_link V n = Some t ->
    Byte.x00 ∉ t /\ exists ino, v_inode V n = Some ino /\ link_text E ino t;
  vr_islink : forall n ino, v_inode V n = Some ino ->
    S_ISLNK (le_at 0 2 ino) = bool_decide (is_Some (v_link V n)) }.

Context (V : volume).
Local Abbreviation bs := (bsize (e_super E)).
Local Abbreviation T := (v_tree V).

Definition request_ok (q : request) : Prop := request_within bs (mapped E) V q.

Context (HV : volume_repr V).

Lemma zero_tree : T 0 = None.
Proof.
  destruct (T 0) eqn:H0; [|done]. by destruct (vr_tree _ HV 0 l H0) as [? _].
Qed.
Lemma zero_inode : v_inode V 0 = None.
Proof.
  destruct (v_inode V 0) eqn:H0; [|done]. by destruct (vr_inode _ HV 0 l H0) as [? _].
Qed.
Lemma zero_content : v_content V 0 = None.
Proof.
  destruct (v_content V 0) eqn:H0; [|done].
  destruct (vr_content _ HV 0 l H0) as (_ & ino & Hi & _). by rewrite zero_inode in Hi.
Qed.

Lemma dir_entries_after content o es off es' :
  dir_entries bs content o es -> entries_after es off = Some es' -> dir_entries bs content off es'.
Proof.
  induction 1 as [|o es Ho rec_len name_len Hrec Hfit Hes IH]; [done|]. cbn [entries_after de_next].
  destruct (Z.eqb_spec (o + rec_len) off) as [<-|_]; [|done]. by intros [= <-].
Qed.

Lemma entries_after_suffix es off es' :
  entries_after es off = Some es' -> exists pre, es = pre ++ es'.
Proof.
  induction es as [|e es IH]; [done|]. cbn [entries_after]. destruct (_ =? _).
  - intros [= <-]. by exists [e].
  - intros [pre ->]%IH. by exists (e :: pre).
Qed.

Lemma entries_from_suffix es off es' :
  entries_from es off = Some es' -> exists pre, es = pre ++ es'.
Proof.
  unfold entries_from. destruct (off =? 0); [intros [= <-]; by exists []|apply entries_after_suffix].
Qed.

Local Abbreviation ops := (e4f_ops filler).

(** The rest of a request whose path stands for [n] gives the answer. *)
Definition answers_at (q : request) (n : Z) : Prop :=
  exists r, evals E (serve_at filler b0 q n) (Ok r) /\ says r (spec filler b0 V q).

Lemma names_find path n : names T path n -> find_path V path = Some n.
Proof. apply nm_resolve. Qed.

Lemma getattr_at path n : names T path n -> n = 0 \/ is_Some (v_inode V n) ->
  answers_at (Getattr path) n.
Proof.
  intros Hn Hino. unfold answers_at. cbn [spec serve_at]. rewrite (names_find _ _ Hn). cbn [mbind option_bind].
  destruct (Z.eq_dec n 0) as [->|Hne].
  - rewrite zero_inode. exists (RGetattr (-2, stat_zero)). split; [|done]. eapply evals_bind; [apply evals_inode_0|].
    eapply evals_bind; [apply evals_ret|]. apply evals_ret.
  - destruct Hino as [?|[ino Hino]]; [done|]. rewrite Hino.
    destruct (vr_inode _ HV n ino Hino) as (_ & Hl & Hget).
    destruct (getattr_inode_evals E ino Hl) as (st & He & Hmode & H1).
    eexists. split; [estep Hget; estep He; apply evals_ret|]. split; [done|]. unfold attributes.
    destruct H1 as (<- & <- & <- & <- & <- & <- & <- & <-).
    assert (Hm : st_mode st = Z.ldiff (le_at 0 2 ino) 146).
    { apply Z.bits_inj'. intros i Hi. rewrite Hmode, Z.ldiff_spec by done. do 2 f_equal.
      destruct (Z.lt_ge_cases i 8) as [Hlt|Hge].
      - assert (Hc : i = 0 \/ i = 1 \/ i = 2 \/ i = 3 \/ i = 4 \/ i = 5 \/ i = 6 \/ i = 7) by lia.
        by repeat destruct Hc as [->|Hc]; [..|subst i].
      - rewrite Z.bits_above_log2 by (cbn; lia). repeat zcase; lia || done. }
    rewrite <- Hm. by destruct st.
Qed.

Lemma open_at path flags n : names T path n -> answers_at (Open path flags) n.
Proof.
  intros Hn. unfold answers_at. cbn [spec serve_at]. rewrite (names_find _ _ Hn).
  destruct (_ =? O_RDONLY); eexists; (split; [apply evals_ret|done]).
Qed.

Lemma read_count_range (c : bytes) size offset : 0 <= offset -> 0 <= size ->
  0 <= read_count c size offset <= size /\
  (0 < read_count c size offset -> offset + read_count c size offset <= zlen c).
Proof. intros Ho Hs. unfold read_count. pose proof (zlen_nonneg c). lia. Qed.

Lemma slice_splice_front (new l : bytes) : slice 0 (zlen new) (splice 0 new l) = new.
Proof.
  unfold slice, splice, zlen. rewrite Nat2Z.id. change (Z.to_nat 0) with 0%nat.
  rewrite drop_0, take_0. cbn [app]. apply take_app_length.
Qed.

Lemma read_at fh buf offset n : request_ok (Read fh buf offset) -> answers_at (Read fh buf offset) n.
Proof.
  intros (Hoff & Hbuf & Hfh). unfold answers_at. cbn [spec serve_at].
  destruct Hfh as [->|(c & ino & Hc & Hi & Hal)].
  - rewrite zero_content. exists (RRead (-2, buf)). split; [|done].
    apply (evals_bind _ _ _ (-2, buf)); [|apply evals_ret].
    unfold op_read. rewrite (proj2 (Z.leb_le 0 offset)) by lia. epure.
    change (u32 0) with 0. eapply evals_bind; [apply evals_inode_0|]. apply evals_ret.
  - rewrite Hc. destruct (vr_content _ HV fh c Hc) as (Hr & ino' & Hi' & Hf).
    rewrite Hi in Hi'. injection Hi' as <-.
    destruct (vr_inode _ HV fh ino Hi) as (_ & _ & Hget). pose proof (zlen_nonneg buf).
    pose proof (read_count_range c (zlen buf) offset ltac:(lia) ltac:(lia)) as [Hn Hin].
    set (k := read_count c (zlen buf) offset) in *.
    exists (RRead (k, splice 0 (slice offset k c) buf)). split.
    + apply (evals_bind _ _ _ (k, splice 0 (slice offset k c) buf)); [|apply evals_ret].
      apply (op_read_run E (vr_super _ HV) ino c (zlen buf) offset fh buf);
        [by rewrite u32_small by lia|done|lia|lia|done|done].
    + assert (Hl : zlen (slice offset k c) = k).
      { destruct (Z.eq_dec k 0) as [->|]; [by rewrite slice_0|]. apply zlen_slice; lia. }
      split; [done|]. rewrite <- Hl at 1. apply slice_splice_front.
Qed.

Lemma readlink_at path buf n ino :
  names T path n -> v_inode V n = Some ino -> zlen buf < 2 ^ 31 ->
  (forall t, v_link V n = Some t -> zlen t < zlen buf - 1) -> answers_at (Readlink path buf) n.
Proof.
  intros Hn Hi Hbuf Hfit. unfold answers_at. cbn [spec serve_at]. rewrite (names_find _ _ Hn).
  cbn [mbind option_bind]. destruct (vr_inode _ HV n ino Hi) as (_ & Hl & Hget).
  pose proof (vr_islink _ HV n ino Hi) as Hlnk. destruct (v_link V n) as [t|] eqn:Ht.
  - destruct (vr_link _ HV n t Ht) as (Hnul & ino' & Hi' & Htext). rewrite Hi in Hi'. injection Hi' as <-.
    destruct (readlink_inode_evals E (vr_super _ HV) ino t buf (zlen buf) Hl Htext Hnul (vr_img _ HV)
      (Hfit t eq_refl) eq_refl Hbuf) as (buf' & He & Hc & _); [by rewrite Hlnk|].
    eexists. split; [estep Hget; estep He; apply evals_ret|done].
  - eexists. split; [estep Hget; eapply evals_bind;
      [apply (readlink_inode_other E ino buf (zlen buf) Hl); by rewrite Hlnk|apply evals_ret]|done].
Qed.

Lemma readdir_at path name_buf offset n :
  names T path n -> zlen name_buf = EXT4_NAME_LEN ->
  n = 0 \/ (exists es, T n = Some es /\ is_Some (entries_from es offset)) ->
  answers_at (Readdir path name_buf offset) n.
Proof.
  intros Hn Hbuf Hes. unfold answers_at. cbn [spec serve_at]. rewrite (names_find _ _ Hn).
  cbn [mbind option_bind]. destruct (Z.eq_dec n 0) as [->|Hne].
  - rewrite zero_tree. exists (RReaddir (-2, b0)). split; [|done]. eapply evals_bind; [apply evals_inode_0|].
    eapply evals_bind; [apply evals_ret|]. apply evals_ret.
  - destruct Hes as [?|(es & HT & es' & Hfrom)]; [done|]. rewrite HT, Hfrom. cbn [default].
    destruct (vr_tree _ HV n es HT) as (_ & ino & content & Hget & Hdir & Hrep & Hents).
    destruct (vr_names _ HV n es HT) as [Hnul Hnm].
    destruct (entries_from_suffix es offset es' Hfrom) as [pre Hpre].
    rewrite Hpre in Hnul, Hnm. apply Forall_app in Hnul as [_ Hnul], Hnm as [_ Hnm].
    assert (Hoff : dir_entries bs content offset es').
    { unfold entries_from in Hfrom. destruct (Z.eqb_spec offset 0) as [->|_].
      - by injection Hfrom as <-.
      - by apply (dir_entries_after content 0 es). }
    pose proof (readdir_inode_evals E (vr_super _ HV) filler name_buf ino content offset es' b0
      Hrep Hoff Hnul Hbuf) as He. rewrite fill_copy_fits in He by done.
    eexists. split; [estep Hget; estep He; apply evals_ret|done].
Qed.

(** A request that looks a path up asks for one that resolves, and then the
    rest of the request answers; the other ones answer at once. *)
Lemma request_at q : request_ok q ->
  match request_path q with
  | Some path => exists n, names T path n /\ answers_at q n
  | None => answers_at q 0
  end.
Proof.
  destruct q as [path|path flags|fh buf offset|path buf|path name_buf offset]; cbn [request_ok request_path].
  - intros (n & Hn & Hino). exists n. split; [done|by apply getattr_at].
  - intros (n & Hn). destruct (Z.land flags 3 =? O_RDONLY) eqn:Hf; cbn [negb].
    + exists n. split; [done|by apply open_at].
    + destruct (open_at path flags n Hn) as (r & Hr & Hsays). exists r. split; [|done].
      cbn [serve_at] in *. by rewrite Hf in *.
  - by apply read_at.
  - intros (n & ino & Hn & Hi & Hbuf & Hfit). exists n. split; [done|by apply (readlink_at path buf n ino)].
  - intros (n & Hn & Hbuf & Hes). exists n. split; [done|by apply readdir_at].
Qed.

(** What one request does: the answer of the specification, the invariant kept. *)
Lemma serve_run q s : request_ok q -> lookup_inv E T s ->
  wp (serve b0 ops q) (fun r s' => lookup_inv E T s' /\ says r (spec filler b0 V q)) s.
Proof.
  intros Hq%request_at Hs.
  assert (Hat : forall n s, answers_at q n -> lookup_inv E T s ->
    wp (serve_at filler b0 q n) (fun r s' => lookup_inv E T s' /\ says r (spec filler b0 V q)) s).
  { intros n s1 (r & Hr & Hsays) Hs1. eapply (wpx_evals E T _ _ _ _ _ Hr Hs1); [|done].
    by intros v s2 [= <-] Hs2. }
  unfold wpx. rewrite serve_split. destruct (request_path q) as [path|]; [|by apply Hat].
  destruct Hq as (n & [Hp Ha Hr] & Hq).
  pose proof (inode_get_idx_by_path_run E (vr_super _ HV) T path s n (vr_tree _ HV) Hs Hp Ha Hr) as Hw.
  apply wp_run in Hw. destruct Hw as (m & s1 & Hrun & -> & Hs1). rewrite (bind_Ok _ _ _ _ _ Hrun). by apply Hat.
Qed.

Lemma serve_all_run qs s :
  Forall request_ok qs -> lookup_inv E T s ->
  wp (serve_all b0 ops qs) (fun rs s' => lookup_inv E T s' /\
    Forall2 (fun q r => says r (spec filler b0 V q)) qs rs) s.
Proof.
  intros Hqs. revert s. induction Hqs as [|q qs Hq Hqs IH]; intros s Hs; cbn [serve_all].
  - apply wpx_ret. by split.
  - apply wpx_bind. eapply wpx_mono; [by apply (serve_run q)| |done].
    intros r s1 [Hs1 Hr]. apply wpx_bind. eapply wpx_mono; [by apply IH| |done].
    intros rs s2 [Hs2 Hrs]. apply wpx_ret. split; [done|]. by constructor.
Qed.

(** C3: the file system refines its specification on the requests within its
    terms ([request_ok]: absolute paths that do not lead through a file, with
    components shorter than 40 characters, to what is missing or in the volume;
    reads of less than 2 GiB of its files, or of handle 0, at a block, or in a mapped block below
    4 GiB; links of existing inodes that fit in the buffer; listings of directories
    from the start or behind an entry, with names up to 254 characters in the
    volume).  Once it is mounted, any
    sequence of such requests is answered as the volume in the image says, by
    getattr, open, read, readlink and readdir alike, whatever was asked before, and
    none of them aborts, loops or uses memory wrongly. *)
Theorem session_refines_volume qs s :
  Forall request_ok qs -> lookup_inv E T s ->
  wp (serve_all b0 ops qs) (fun rs s' => lookup_inv E T s' /\
    Forall2 (fun q r => says r (spec filler b0 V q)) qs rs) s.
Proof. apply serve_all_run. Qed.
End session_facts.

(** ** Listings in pages *)

(** The reply of one readdir call: an entry is added with its name and the
    offset to go on from, or is refused because the reply is full. *)
Definition reply : Type := list (bytes * Z).
Record paging (filler : reply -> bytes -> Z -> Z * reply) : Prop := {
  pg_accept : forall b nm off, fst (filler b nm off) = 0 -> snd (filler b nm off) = b ++ [(nm, off)];
  pg_full : forall b nm off, fst (filler b nm off) <> 0 -> snd (filler b nm off) = b;
  pg_first : forall nm off, fst (filler [] nm off) = 0 }.

(** The live entries of a directory. *)
Fixpoint live (es : list dirent) : reply :=
  match es with
  | [] => []
  | e :: es' =>
      if decide (de_inode e = 0 \/ de_name e = []) then live es'
      else (de_name e, de_next e) :: live es'
  end.

Lemma live_app es1 es2 : live (es1 ++ es2) = live es1 ++ live es2.
Proof.
  induction es1 as [|e es IH]; [done|]. cbn [app live]. case_decide; [done|]. cbn. by rewrite IH.
Qed.

Section listing.
Context {R : Type} `{RLO : ReadLayerOk R}.
Context (filler : reply -> bytes -> Z -> Z * reply) (Hpg : paging filler).

(** What a reader of the directory does: ask again from the offset of the last
    entry until nothing more comes. *)
Fixpoint list_dir (fuel : nat) (path name_buf : bytes) (offset : Z) : M (fs R) reply :=
  match fuel with
  | O => fail NoFuel
  | S fuel' =>
      let* r := op_readdir filler path name_buf offset [] in
      match list.last (snd r) with
      | None => ret []
      | Some (_, o) =>
          let* rest := list_dir fuel' path name_buf o in ret (snd r ++ rest)
      end
  end.

(** One page: nothing is left, or it ends with a live entry. *)
Lemma fill_page es b :
  (fill filler es b = b /\ (live es = [] \/ b <> [])) \/
  exists es0 e es2, es = es0 ++ e :: es2 /\ live [e] = [(de_name e, de_next e)] /\
    fill filler es b = b ++ live (es0 ++ [e]).
Proof.
  revert b. induction es as [|e es IH]; intros b; [by left; split; [|left]|].
  cbn [fill live]. destruct (decide (de_inode e = 0 \/ de_name e = [])) as [Hd|Hd].
  - destruct (IH b) as [Hl|(es0 & e' & es2 & -> & He & Hf)]; [by left|]. right.
    exists (e :: es0), e', es2. split; [done|]. split; [done|]. rewrite Hf. cbn [app live].
    by rewrite decide_True.
  - assert (He : live [e] = [(de_name e, de_next e)]) by (cbn; by rewrite decide_False).
    destruct (Z.eqb_spec (fst (filler b (de_name e) (de_next e))) 0) as [Hz|Hz].
    + rewrite (pg_accept _ Hpg) by done. right.
      destruct (IH (b ++ [(de_name e, de_next e)])) as [[Hf _]|(es0 & e' & es2 & -> & He' & Hf)].
      * exists [], e, es. split; [done|]. split; [done|]. cbn [app]. by rewrite Hf, He.
      * exists (e :: es0), e', es2. split; [done|]. split; [done|]. rewrite Hf. cbn [app live].
        rewrite decide_False by done. by rewrite <- app_assoc.
    + left. rewrite (pg_full _ Hpg) by done. split; [done|]. right. intros ->.
      apply Hz, (pg_first _ Hpg).
Qed.

Lemma dir_entries_behind bs content off es0 e es2 :
  dir_entries bs content off (es0 ++ e :: es2) -> dir_entries bs content (de_next e) es2.
Proof.
  remember (es0 ++ e :: es2) as es eqn:Hes. intros Hd. revert es0 Hes.
  induction Hd as [|off es Hoff rec_len name_len Hrec Hfit Hd IH]; intros es0 Hes.
  - by destruct es0.
  - destruct es0 as [|e0 es0]; cbn [app] in Hes; injection Hes as <- ->; [done|by apply (IH es0)].
Qed.

Context (E : env) (V : volume) (HV : volume_repr E V).
Local Abbreviation T := (v_tree V).

Lemma list_dir_run path name_buf n ino content off es fuel s :
  names T path n -> evals E (inode_get_by_number n) (Ok (0, ino)) -> dir_repr E ino content ->
  dir_entries (bsize (e_super E)) content off es -> Forall no_nul es -> Forall name_fits es ->
  zlen name_buf = EXT4_NAME_LEN -> (length es < fuel)%nat -> lookup_inv E T s ->
  wp (list_dir fuel path name_buf off) (fun r s' => r = live es /\ lookup_inv E T s') s.
Proof.
  intros Hn Hget Hd. revert off es s. induction fuel as [|fuel IH];
    intros off es s Hes Hnul Hfit Hbuf Hf Hs; [lia|]. cbn [list_dir].
  apply wpx_bind. eapply wpx_mono; [| |done].
  { by apply (op_readdir_run E (vr_super _ _ HV) T (vr_tree _ _ HV) filler path name_buf n ino
      content off es [] s). }
  intros r s1 [-> Hs1]. cbn [snd].
  destruct (fill_page es []) as [[Hp Hl]|(es0 & e & es2 & -> & He & Hp)]; rewrite Hp.
  - destruct Hl as [Hl|?]; [|done]. cbn [list.last]. apply wpx_ret. by rewrite Hl.
  - cbn [app]. rewrite live_app, He, last_snoc.
    change (es0 ++ e :: es2) with (es0 ++ [e] ++ es2) in *.
    rewrite app_assoc in *. rewrite !Forall_app in *. rewrite !length_app in *. cbn [length] in Hf.
    apply wpx_bind. eapply wpx_mono; [apply (IH (de_next e) es2)| |done]; try done.
    + rewrite <- app_assoc in Hes. by apply (dir_entries_behind _ _ off es0 e).
    + tauto.
    + tauto.
    + lia.
    + intros rest s2 [-> Hs2]. apply wpx_ret. split; [|done]. by rewrite !live_app, He.
Qed.

End listing.
