(* ===== verification/OpReads.v ===== *)
(** * The trees of the operations

    What an operation does after its path has been looked up only reads.  So
    the responses of a request come from the image alone. *)
From Stdlib Require Import ZArith Lia Strings.Byte.
From stdpp Require Import base numbers list option gmap.
From S2P Require Import Prelude Clib Layout Disk Dcache State Threads Super Reads Extents Inode Lookup InodeReads Ops Session.

#[export] Typeclasses Opaque
  first_read read_loop op_read getattr_inode readdir_loop readdir_inode get_link_dest readlink_inode serve_at.

(** ** op_read.c, op_getattr.c, op_readlink.c *)

#[export] Instance Reads_first_read inode buf size offset :
    Reads (fun R (RL : ReadLayer R) => first_read inode buf size offset).
Proof. unfold first_read. reads. Defined.
#[export] Instance Reads_read_loop fuel inode size lblock ret_ buf :
    Reads (fun R (RL : ReadLayer R) => read_loop fuel inode size lblock ret_ buf).
Proof. revert lblock ret_ buf. induction fuel as [|fuel IH]; intros lblock ret_ buf; cbn [read_loop]; reads. Defined.
#[export] Instance Reads_op_read buf size offset fh :
    Reads (fun R (RL : ReadLayer R) => op_read buf size offset fh).
Proof. unfold op_read. reads. Defined.
#[export] Instance Reads_getattr_inode r : Reads (fun R (RL : ReadLayer R) => getattr_inode r).
Proof. unfold getattr_inode. reads. Defined.
#[export] Instance Reads_get_link_dest inode buf bufsize :
    Reads (fun R (RL : ReadLayer R) => get_link_dest inode buf bufsize).
Proof. unfold get_link_dest. reads. Defined.
#[export] Instance Reads_readlink_inode buf bufsize r :
    Reads (fun R (RL : ReadLayer R) => readlink_inode buf bufsize r).
Proof. unfold readlink_inode. reads. Defined.

(** ** op_readdir.c and the rest of a request *)

Section filler.
Context {B : Type} (filler : B -> bytes -> Z -> Z * B) (b0 : B).

#[export] Instance Reads_readdir_loop fuel inode name_buf offset dctx b :
    Reads (fun R (RL : ReadLayer R) => readdir_loop filler fuel inode name_buf offset dctx b).
Proof.
  revert name_buf offset dctx b.
  induction fuel as [|fuel IH]; intros name_buf offset dctx b; cbn [readdir_loop]; reads.
Defined.
#[export] Instance Reads_readdir_inode name_buf offset b r :
    Reads (fun R (RL : ReadLayer R) => readdir_inode filler name_buf offset b r).
Proof. unfold readdir_inode. reads. Defined.
#[export] Instance Reads_serve_at q n : Reads (fun R (RL : ReadLayer R) => serve_at filler b0 q n).
Proof. unfold serve_at. reads. Defined.
End filler.
