(* ===== verification/Volume.v ===== *)
(** * The volume in the bytes of an image

    What an ext2/3/4 image stands for, said of its bytes without the functions
    that read them: where the descriptor of a group, an inode and a block are, which
    block of the disk holds a block of an inode, and which bytes a directory, a
    file or a link consists of.  A [volume] that is on the disk in this sense is
    what the code reads, over any read layer.

    Where the code does not read what the image means, the bytes have no meaning
    here either, so a [volume] on the disk leaves them out: images with meta block
    groups, or descriptors of another size than 32 and 64 bytes; inodes of a last
    partial group, and tables behind block 2^32; unwritten extents, holes in front
    of an extent and those that zero pointers to index blocks make; inline data;
    links of 60 characters. *)
From Stdlib Require Import ZArith Lia Strings.Byte.
From stdpp Require Import base numbers list option gmap strings.
From S2P Require Import Prelude Clib Layout Disk Dcache State Super Reads Extents Inode Lookup Ops Session OpReads.

Section layout.
Context (img : bytes).
Local Abbreviation sb := (image_super img).
Local Abbreviation bs := (bsize (image_super img)).
Local Abbreviation ipg := (sb_get "s_inodes_per_group" (image_super img)).
Local Abbreviation isize := (sb_get "s_inode_size" (image_super img)).

(** The group descriptors have the size that the super block says, or 32 bytes;
    the table follows the block of the super block. *)
Definition descriptor_size : Z :=
  if sb_get "s_desc_size" sb =? 0 then 32 else sb_get "s_desc_size" sb.
Definition descriptors : Z := (1024 / bs + 1) * bs.
(** The inode table of a group begins at the block that the descriptor of the
    group names at its offset 8; inode [n] is number [n - 1] of all groups. *)
Definition table_block (g : Z) : Z := le_at (descriptors + g * descriptor_size + 8) 4 img.
Definition inode_at (n : Z) : Z := table_block ((n - 1) / ipg) * bs + (n - 1) mod ipg * isize.

(** The bytes of an inode, as far as the struct of the program goes. *)
Record inode_on (n : Z) (ino : bytes) : Prop := {
  io_number : 0 < n < 2 ^ 32;
  io_group : (n - 1) / ipg < n_groups sb;
  io_high : descriptor_size = 64 -> le_at (descriptors + (n - 1) / ipg * 64 + 40) 4 img = 0;
  io_inside : inode_at n + Z.min isize 156 <= zlen img;
  io_bytes : ino = slice (inode_at n) (Z.min isize 156) img }.

(** The data are in blocks, not in the inode (EXT4_INLINE_DATA_FL). *)
Definition inline_data (ino : bytes) : bool := negb (Z.land (i_flags ino) 0x10000000 =? 0).

(** The pointers to index blocks on the way are not 0. *)
Fixpoint pointers_set (a : Z) (level : nat) (rel blk : Z) : Prop :=
  match level with
  | O => True
  | S l => blk <> 0 /\ pointers_set a l (rel mod a ^ Z.of_nat l)
                         (le_at (blk * bs + rel / a ^ Z.of_nat l * 4) 4 img)
  end.
(** Block [lb] of an inode is block [pb] of the disk, and so are the [len]
    blocks from there on: in an extent of its tree (an unwritten one has a length
    above 32768), in a hole behind the last one, or by the block pointers of ext2
    and ext3, where 0 is a hole. *)
Inductive block_on (ino : bytes) (lb : Z) : Z -> Z -> Prop :=
| on_extent d xs x :
    uses_extents ino = true -> etree img bs d (slice 40 60 ino) xs -> x ∈ xs ->
    covers x lb -> x_start x <> 0 -> x_len x <= 32768 ->
    block_on ino lb (x_start x + (lb - x_block x)) (x_block x + x_len x - lb)
| on_tail d xs :
    uses_extents ino = true -> etree img bs d (slice 40 60 ino) xs ->
    (d = 0%nat \/ xs <> []) -> (forall x, x ∈ xs -> x_block x + x_len x <= lb) ->
    block_on ino lb 0 1
| on_pointer level rel blk :
    uses_extents ino = false -> inline_data ino = false ->
    block_path (bs / 4) lb ino = Some (level, rel, blk) ->
    ind_in img bs (bs / 4) level rel blk -> pointers_set (bs / 4) level rel blk ->
    block_on ino lb (ind_walk img bs (bs / 4) level rel blk) 1.

Definition mapped_on (ino : bytes) (lb : Z) : Prop := exists pb len, block_on ino lb pb len /\ pb <> 0.

(** Byte [i] of the contents is byte [i mod bs] of the block it is in, or 0 in a
    hole. *)
Definition contents_on (ino content : bytes) : Prop :=
  forall i, 0 <= i < zlen content -> exists pb len, block_on ino (i / bs) pb len /\
    content !! Z.to_nat i =
      if pb =? 0 then Some Byte.x00 else img !! Z.to_nat (pb * bs + i mod bs).

(** The contents of a directory: whole blocks without holes. *)
Record dir_on (ino content : bytes) : Prop := {
  do_mode : S_ISDIR (le_at 0 2 ino) = true;
  do_size : i_size ino = zlen content;
  do_bound : 0 < zlen content < 2 ^ 32;
  do_blocks : zlen content mod bs = 0;
  do_contents : contents_on ino content;
  do_mapped : forall lb, 0 <= lb -> lb * bs < zlen content -> mapped_on ino lb }.

Record file_on (ino content : bytes) : Prop := {
  fo_size : i_size ino = zlen content;
  fo_bound : zlen content < 2 ^ 42;
  fo_contents : contents_on ino content }.

(** A link: a text that fits with its NUL in the place of the block pointers is
    there, otherwise the first block holds it, the NUL and anything behind.  A text
    of 60 characters is in a block, but the code takes the pointers for it. *)
Definition link_on (ino target : bytes) : Prop :=
  i_size ino = zlen target /\ zlen target <> 60 /\
  if zlen target <=? 60 then slice 40 (zlen target) ino = target
  else exists rest, let block := target ++ Byte.x00 :: rest in
    zlen block = bs /\ contents_on ino block /\ mapped_on ino 0.

(** The volume is in the image. *)
Record volume_on (V : volume) : Prop := {
  vo_super : super_wf sb;
  vo_gdt : gdt_wf img sb;
  vo_img : zlen img < 2 ^ 62;
  vo_meta : Z.land (sb_get "s_feature_incompat" sb) 0x10 = 0;
  vo_desc : sb_get "s_desc_size" sb = 0 \/ sb_get "s_desc_size" sb = 64;
  vo_isize : 128 <= isize;
  vo_table : ipg * isize <= 2 ^ 32;
  vo_inode : forall n ino, v_inode V n = Some ino -> inode_on n ino;
  vo_tree : forall n es, v_tree V n = Some es -> exists ino content,
    v_inode V n = Some ino /\ dir_on ino content /\ dir_entries bs content 0 es /\
    Forall no_nul es /\ Forall name_fits es;
  vo_content : forall n c, v_content V n = Some c ->
    exists ino, v_inode V n = Some ino /\ file_on ino c;
  vo_link : forall n t, v_link V n = Some t ->
    (Byte.x00 ∉ t) /\ exists ino, v_inode V n = Some ino /\ link_on ino t;
  vo_islink : forall n ino, v_inode V n = Some ino ->
    S_ISLNK (le_at 0 2 ino) = bool_decide (is_Some (v_link V n)) }.

Definition request_on (V : volume) (q : request) : Prop := request_within bs mapped_on V q.

(** ** What the code makes of them *)

Local Abbreviation E := (image_env img).

(** The blocks that follow in the same extent. *)
Lemma block_on_next ino lb pb len i :
  block_on ino lb pb len -> 0 <= i < len -> block_on ino (lb + i) (pb + i) (len - i).
Proof.
  intros [d xs x Hu Ht Hx [Hc1 Hc2] Hnz Hlen|d xs Hu Ht Hd Hall|level rel blk Hu Hnl Hp Hin Hset] Hi.
  - replace (x_start x + (lb - x_block x) + i) with (x_start x + (lb + i - x_block x)) by lia.
    replace (x_block x + x_len x - lb - i) with (x_block x + x_len x - (lb + i)) by lia.
    apply (on_extent _ _ d xs); [done..| |done|done]. split; lia.
  - replace i with 0 by lia. rewrite !Z.add_0_r. by apply (on_tail _ _ d xs).
  - replace i with 0 by lia. rewrite !Z.add_0_r. by apply on_pointer.
Qed.

Section layers.
Context {R : Type} `{RLO : ReadLayerOk R}.
Context (Hwf : super_wf sb).

Lemma ind_walk_nonneg a level rel blk : 0 <= blk -> 0 <= ind_walk img bs a level rel blk.
Proof.
  revert rel blk. induction level as [|level IH]; intros rel blk Hb; [done|]. cbn [ind_walk].
  apply IH. apply le_at_range. lia.
Qed.
Lemma block_path_nonneg a lb ino level rel blk :
  block_path a lb ino = Some (level, rel, blk) -> 0 <= blk.
Proof. unfold block_path, i_block. intros. repeat case_match; simplify_eq; apply le_at_range; lia. Qed.

Lemma block_on_range ino lb pb len :
  block_on ino lb pb len -> 0 <= pb /\ 1 <= len < 2 ^ 32 /\ (pb = 0 -> len = 1).
Proof.
  intros [d xs x Hu Ht Hx Hc Hnz Hlen|d xs Hu Ht Hd Hall|level rel blk Hu Hnl Hp Hin Hset]; [|lia|].
  - pose proof (etree_range E d _ xs x Ht Hx). unfold covers in Hc. lia.
  - split; [|lia]. eapply ind_walk_nonneg, block_path_nonneg, Hp.
Qed.

(** The block map of the code. *)
Lemma block_on_evals ino lb pb len :
  128 <= zlen ino -> 0 <= lb < 2 ^ 32 -> lb <= blocks_of (i_size ino) bs ->
  block_on ino lb pb len -> evals E (inode_get_data_pblock ino lb) (Ok (pb, len)).
Proof.
  intros Hl Hlb Hsz [d xs x Hu Ht Hx Hc Hnz Hlen|d xs Hu Ht Hd Hall|level rel blk Hu Hnl Hp Hin Hset].
  - apply evals_pblock_extents; [done..|]. pose proof (etree_fuel _ _ _ _ _ Ht).
    by apply (extent_mapped_run E Hwf d _ xs x).
  - apply evals_pblock_extents; [done..|]. pose proof (etree_fuel _ _ _ _ _ Ht).
    by apply (extent_beyond_run E Hwf d _ xs).
  - pose proof (pblock_indirect_run E Hwf ino lb Hl Hu Hlb Hsz) as Hr.
    change (e_super E) with sb in Hr. rewrite Hp in Hr. by apply Hr.
Qed.
End layers.

(** So there is at most one. *)
Lemma block_on_det ino lb pb len pb' len' :
  super_wf sb -> zlen img < 2 ^ 62 ->
  128 <= zlen ino -> 0 <= lb < 2 ^ 32 -> lb <= blocks_of (i_size ino) bs ->
  block_on ino lb pb len -> block_on ino lb pb' len' -> pb = pb' /\ len = len'.
Proof.
  intros Hwf Himg Hl Hlb Hsz H1 H2.
  pose proof (block_on_evals (RLO := direct_ok) Hwf ino lb pb len Hl Hlb Hsz H1) as He1.
  pose proof (block_on_evals (RLO := direct_ok) Hwf ino lb pb' len' Hl Hlb Hsz H2) as He2.
  pose proof (evals_det E _ _ _ (direct_state E Himg) He1 He2). by simplify_eq.
Qed.

(** ** From bytes to runs of blocks *)

Section contents.
Context (Hwf : super_wf sb) (Himg : zlen img < 2 ^ 62).
Context (ino content : bytes) (Hl : 128 <= zlen ino).
Context (Hin : forall lb, 0 <= lb -> lb * bs < zlen content -> lb < 2 ^ 32 /\ lb <= blocks_of (i_size ino) bs).
Context (Hc : contents_on ino content).

Lemma contents_byte lb pb len j :
  block_on ino lb pb len -> 0 <= lb -> 0 <= j < len * bs -> lb * bs + j < zlen content ->
  content !! Z.to_nat (lb * bs + j) = if pb =? 0 then Some Byte.x00 else img !! Z.to_nat (pb * bs + j).
Proof.
  intros Hb Hlb Hj Hlt. pose proof (bsize_range _ Hwf) as Hbs.
  pose proof (block_on_range _ _ _ _ Hb) as (Hpb & Hlen & Hz).
  destruct (Hc (lb * bs + j) ltac:(nia)) as (pb' & len' & Hb' & ->).
  rewrite Z.div_add_l in Hb' by lia.
  replace ((lb * bs + j) mod bs) with (j mod bs) by (rewrite Z.add_comm, Z.mod_add; lia).
  assert (Hq : 0 <= j / bs < len) by (split; [apply Z.div_pos; lia|apply Z.div_lt_upper_bound; lia]).
  pose proof (Z.div_mod j bs ltac:(lia)) as Hdm. pose proof (Z.mod_pos_bound j bs ltac:(lia)).
  destruct (Hin (lb + j / bs) ltac:(lia) ltac:(nia)) as [H32 Hsz].
  destruct (block_on_det ino (lb + j / bs) _ _ _ _ Hwf Himg Hl ltac:(lia) Hsz Hb'
    (block_on_next _ _ _ _ _ Hb Hq)) as [-> _].
  destruct (Z.eqb_spec pb 0) as [->|Hnz].
  - assert (j / bs = 0) as -> by lia. done.
  - rewrite (proj2 (Z.eqb_neq _ _)) by lia. do 2 f_equal. lia.
Qed.

Lemma contents_run lb pb len k :
  block_on ino lb pb len -> pb <> 0 -> 0 <= lb -> 0 < k <= len * bs -> lb * bs + k <= zlen content ->
  pb * bs + k <= zlen img /\ slice (lb * bs) k content = slice (pb * bs) k img.
Proof.
  intros Hb Hnz Hlb Hk Hlt. pose proof (bsize_range _ Hwf) as Hbs.
  pose proof (block_on_range _ _ _ _ Hb) as (Hpb & _).
  assert (Hbyte : forall j, 0 <= j < k ->
    content !! Z.to_nat (lb * bs + j) = img !! Z.to_nat (pb * bs + j)).
  { intros j Hj. rewrite (contents_byte lb pb len j) by (done || lia).
    by rewrite (proj2 (Z.eqb_neq pb 0)). }
  assert (Hfit : pb * bs + k <= zlen img).
  { pose proof (Hbyte (k - 1) ltac:(lia)) as Hlast.
    destruct (lookup_lt_is_Some_2 content (Z.to_nat (lb * bs + (k - 1)))) as [x Hx]; [unfold zlen in *; lia|].
    rewrite Hx in Hlast. symmetry in Hlast. apply lookup_lt_Some in Hlast. unfold zlen. lia. }
  split; [done|]. apply (list_eq_same_length _ _ (Z.to_nat k)).
  - pose proof (zlen_slice (pb * bs) k img ltac:(nia) ltac:(lia) Hfit). unfold zlen in *. lia.
  - pose proof (zlen_slice (lb * bs) k content ltac:(nia) ltac:(lia) Hlt). unfold zlen in *. lia.
  - intros i x y Hi. rewrite !slice_lookup by lia.
    replace (Z.to_nat (lb * bs) + i)%nat with (Z.to_nat (lb * bs + Z.of_nat i)) by nia.
    replace (Z.to_nat (pb * bs) + i)%nat with (Z.to_nat (pb * bs + Z.of_nat i)) by nia.
    rewrite Hbyte by lia. congruence.
Qed.

Lemma contents_hole lb k :
  block_on ino lb 0 1 -> 0 <= lb -> 0 <= k <= bs -> lb * bs + k <= zlen content ->
  slice (lb * bs) k content = zeros k.
Proof.
  intros Hb Hlb Hk Hlt. pose proof (bsize_range _ Hwf) as Hbs.
  apply (list_eq_same_length _ _ (Z.to_nat k)).
  - unfold zeros. by rewrite length_replicate.
  - pose proof (zlen_slice (lb * bs) k content ltac:(nia) ltac:(lia) Hlt). unfold zlen in *. lia.
  - intros i x y Hi. rewrite slice_lookup by lia.
    replace (Z.to_nat (lb * bs) + i)%nat with (Z.to_nat (lb * bs + Z.of_nat i)) by nia.
    rewrite (contents_byte lb 0 1 (Z.of_nat i)) by (done || lia). cbn [Z.eqb].
    unfold zeros. intros [= <-] [-> _]%lookup_replicate. done.
Qed.
End contents.

(** ** The representations the operations rely on *)

Section volume.
Context (V : volume) (HV : volume_on V).

Lemma inode_on_length n ino : inode_on n ino -> 128 <= zlen ino.
Proof.
  intros [Hn Hg _ Hin ->]. pose proof (vo_isize _ HV). pose proof (bsize_range _ (vo_super _ HV)).
  rewrite zlen_slice; [lia| |lia|done]. unfold inode_at, table_block.
  pose proof (le_at_range (descriptors + (n - 1) / ipg * descriptor_size + 8) 4 img ltac:(lia)).
  pose proof (Z.mod_pos_bound (n - 1) ipg (wf_ipg _ (vo_super _ HV))). nia.
Qed.
Lemma volume_inode n ino : v_inode V n = Some ino -> 128 <= zlen ino.
Proof. intros Hi. by eapply inode_on_length, vo_inode. Qed.

(** Blocks in front of the end of the file have a place in the block map. *)
Lemma blocks_in ino (content : bytes) :
  i_size ino = zlen content -> zlen content < 2 ^ 42 ->
  forall lb, 0 <= lb -> lb * bs < zlen content -> lb < 2 ^ 32 /\ lb <= blocks_of (i_size ino) bs.
Proof.
  intros Hs Hb lb Hlb Hlt. pose proof (bsize_range _ (vo_super _ HV)) as Hbs. split; [nia|].
  rewrite Hs. unfold blocks_of. apply Z.div_le_lower_bound; lia.
Qed.

(** The code finds the table of descriptors, and the inode tables. *)
Lemma descriptors_at : descriptors = gdt_off sb /\ descriptor_size = desc_size sb.
Proof.
  split.
  - unfold descriptors, gdt_off. destruct (bsize_pow _ (vo_super _ HV)) as (k & Hk & ->).
    destruct (Z.eq_dec k 10) as [->|Hne]; [done|].
    assert (2048 <= 2 ^ k) by (change 2048 with (2 ^ 11); apply Z.pow_le_mono_r; lia).
    rewrite Z.div_small by lia. lia.
  - unfold descriptor_size, desc_size. by destruct (vo_desc _ HV) as [-> | ->].
Qed.

Lemma inode_off_at n : 0 < n -> (n - 1) / ipg < n_groups sb -> inode_off E n = inode_at n.
Proof.
  intros Hn Hg. pose proof (wf_ipg _ (vo_super _ HV)) as Hipg.
  assert (H0 : 0 <= (n - 1) / ipg) by (apply Z.div_pos; lia).
  unfold inode_off, inode_at, itable_off. cbn [e_gdesc e_super image_env]. unfold gdt.
  rewrite list_lookup_fmap, lookup_seq_lt by lia. cbn [fmap option_fmap option_map].
  rewrite Nat.add_0_l, Z2Nat.id by done. pose proof (desc_size_cases sb) as Hds.
  unfold table_block. destruct descriptors_at as [-> ->].
  by rewrite le_at_slice by (unfold gdt_off; nia).
Qed.

Section layers.
Context {R : Type} `{RLO : ReadLayerOk R}.

Lemma inode_on_evals n ino : inode_on n ino -> evals E (inode_get_by_number n) (Ok (0, ino)).
Proof.
  intros [Hn Hg _ Hin ->]. pose proof (vo_isize _ HV).
  pose proof (inode_get_by_number_run E (vo_super _ HV) n eq_refl (vo_gdt _ HV) ltac:(lia)
    (vo_img _ HV) Hg ltac:(cbn [e_super image_env]; lia) (vo_table _ HV)) as Hr.
  unfold inode_bytes in Hr. rewrite inode_off_at in Hr by (done || lia).
  rewrite (proj2 (Z.eqb_neq n 0)) in Hr by lia. by apply Hr.
Qed.

Lemma dir_on_repr n ino content :
  v_inode V n = Some ino -> dir_on ino content -> dir_repr E ino content.
Proof.
  intros Hi [Hmode Hsize Hbound Hblocks Hcont Hmap]. pose proof (volume_inode n ino Hi) as Hl.
  pose proof (bsize_range _ (vo_super _ HV)) as Hbs.
  pose proof (blocks_in ino content Hsize ltac:(lia)) as Hin.
  split; [done..|apply (vo_img _ HV)|]. intros lb Hlb Hlt.
  destruct (Hmap lb Hlb Hlt) as (pb & len & Hb & Hnz). exists pb, len.
  pose proof (block_on_range _ _ _ _ Hb) as (Hpb & Hlen & _).
  assert (Hfull : lb * bs + bs <= zlen content).
  { pose proof (Z.div_mod (zlen content) bs ltac:(lia)) as Hdm. rewrite Hblocks, Z.add_0_r in Hdm.
    cbn [e_super image_env] in Hlt. assert (lb < zlen content / bs) by nia. nia. }
  destruct (Hin lb Hlb Hlt) as [H32 Hsz].
  split; [by apply block_on_evals; [apply (vo_super _ HV)| |lia|..]|]. split; [done|].
  by apply (contents_run (vo_super _ HV) (vo_img _ HV) ino content Hl Hin Hcont lb pb len bs);
    [..|nia|].
Qed.

Lemma file_on_repr n ino c : v_inode V n = Some ino -> file_on ino c -> file_repr E ino c.
Proof.
  intros Hi [Hsize Hbound Hcont]. pose proof (volume_inode n ino Hi) as Hl.
  pose proof (bsize_range _ (vo_super _ HV)) as Hbs. pose proof (blocks_in ino c Hsize Hbound) as Hin.
  split; [done..|apply (vo_img _ HV)|]. intros lb Hlb Hlt. cbn [e_super image_env] in *.
  destruct (Hcont (lb * bs) ltac:(nia)) as (pb & len & Hb & _). rewrite Z.div_mul in Hb by lia.
  pose proof (block_on_range _ _ _ _ Hb) as (Hpb & Hlen & Hz).
  destruct (Hin lb Hlb Hlt) as [H32 Hsz]. exists pb, len.
  split; [by apply block_on_evals; [apply (vo_super _ HV)| |lia|..]|].
  do 2 (split; [done|]). cbv zeta. cbn [e_super e_img image_env]. split.
  - intros ->. rewrite Hz in Hb |- * by done. rewrite Z.mul_1_l. split; [done|].
    apply (contents_hole (vo_super _ HV) (vo_img _ HV) ino c Hl Hin Hcont); [done|lia..].
  - intros Hnz. apply (contents_run (vo_super _ HV) (vo_img _ HV) ino c Hl Hin Hcont lb pb len);
      [done..|nia|lia].
Qed.

Lemma link_on_text n ino t : v_inode V n = Some ino -> link_on ino t -> link_text E ino t.
Proof.
  intros Hi (Hsize & _ & Ht). pose proof (volume_inode n ino Hi) as Hl.
  pose proof (bsize_range _ (vo_super _ HV)) as Hbs. split; [done|]. rewrite Hsize.
  destruct (zlen t <=? 60); [done|]. destruct Ht as (rest & Hlen & Hcont & pb & len & Hb & Hnz).
  set (block := t ++ Byte.x00 :: rest) in *.
  pose proof (block_on_range _ _ _ _ Hb) as (Hpb & Hlen' & _).
  assert (Hsz : 0 <= blocks_of (i_size ino) bs).
  { unfold blocks_of. apply Z.div_pos; [|lia]. rewrite Hsize. pose proof (zlen_nonneg t). lia. }
  assert (Hin : forall lb, 0 <= lb -> lb * bs < zlen block ->
    lb < 2 ^ 32 /\ lb <= blocks_of (i_size ino) bs) by (intros lb ??; nia).
  destruct (contents_run (vo_super _ HV) (vo_img _ HV) ino block Hl Hin Hcont 0 pb len bs)
    as [Hfit Heq]; [done..|nia|lia|].
  exists pb, len, rest. split; [by apply block_on_evals; [apply (vo_super _ HV)| |lia|..]|].
  cbn [e_super e_img image_env]. split; [done|]. split; [done|].
  rewrite <- Heq, <- Hlen. apply slice_all.
Qed.

Lemma volume_on_repr : volume_repr E V.
Proof.
  split; [apply (vo_super _ HV)|apply (vo_img _ HV)|..].
  - intros n es HT. destruct (vo_tree _ HV n es HT) as (ino & content & Hi & Hd & Hes & _).
    pose proof (vo_inode _ HV n ino Hi) as Hon. split; [destruct Hon; lia|].
    exists ino, content. split; [by apply inode_on_evals|]. split; [apply Hd|].
    split; [by eapply dir_on_repr|done].
  - intros n es HT. by destruct (vo_tree _ HV n es HT) as (ino & content & _ & _ & _ & Hnames).
  - intros n ino Hi. pose proof (vo_inode _ HV n ino Hi) as Hon. split; [destruct Hon; lia|].
    split; [by eapply volume_inode|by apply inode_on_evals].
  - intros n c Hc. destruct (vo_content _ HV n c Hc) as (ino & Hi & Hf).
    destruct (vo_inode _ HV n ino Hi). split; [lia|]. exists ino. split; [done|by eapply file_on_repr].
  - intros n t Ht. destruct (vo_link _ HV n t Ht) as (Hn & ino & Hi & Hlk).
    split; [done|]. exists ino. split; [done|by eapply link_on_text].
  - apply (vo_islink _ HV).
Qed.

(** A request that starts inside a block of the file which is mapped on the disk. *)
Lemma request_on_ok q : request_on V q -> request_ok E V q.
Proof.
  destruct q as [| |fh buf offset| |]; try done. intros (Ho & Hb & Hfh).
  split; [done|]. split; [done|]. destruct Hfh as [?|(c & ino & Hc & Hi & Hal)]; [by left|right].
  exists c, ino. split; [done|]. split; [done|]. intros Hpos.
  destruct (Hal Hpos) as [?|[H32 (pb & len & Hblock & Hnz)]]; [by left|right]. split; [done|].
  exists pb, len. split; [|done]. pose proof (bsize_range _ (vo_super _ HV)) as Hbs.
  destruct (vo_content _ HV fh c Hc) as (ino' & Hi' & [Hsize Hbound _]). simplify_eq.
  assert (Hlt : offset < zlen c) by (unfold read_count in Hpos; lia).
  assert (Hq : 0 <= offset / bs) by (apply Z.div_pos; lia).
  pose proof (Z.mul_div_le offset bs ltac:(lia)).
  destruct (blocks_in ino c Hsize Hbound (offset / bs)) as [H1 H2]; [done|lia|].
  apply block_on_evals; [apply (vo_super _ HV)|by eapply volume_inode|by split|done..].
Qed.
End layers.
End volume.

(** C40: the volume that the bytes of the image say (where the layout of ext2, 3
    and 4 has the inodes, which blocks their trees and pointers name, byte by byte
    what directories, files and links consist of) is the one the functions of the
    program show over any read layer, and requests whose bounds are said of
    those bytes are within the terms of the operations.  What [volume_on] leaves
    out is listed at the top of this file. *)
Theorem volume_on_disk_repr {R : Type} `{RLO : ReadLayerOk R} V :
  volume_on V -> volume_repr E V /\ forall q, request_on V q -> request_ok E V q.
Proof. intros HV. split; [by apply volume_on_repr|by intros; apply request_on_ok]. Qed.
End layout.
