(* ===== verification/SessionConc.v ===== *)
(** * The mounted file system under threads

    libfuse may answer the requests of Session on several threads at once.  Each
    request is a program of Threads, its path lookup the one of LookupConc and
    the rest of it the reads of OpReads; the threads start as requests come in, after op_init,
    and share the cache and the disk.  Every response is still the one of the
    volume. *)
From Stdlib Require Import ZArith Lia Strings.Byte.
From stdpp Require Import base numbers list option gmap relations.
From S2P Require Import Prelude Clib Layout Disk Dcache DcacheConc State Threads DiskMutex Super Extents Inode Lookup.
From S2P Require Import Reads Progress LookupConc Ops Session OpReads.

Section programs.
Context {R : Type} `{RL : ReadLayer R}.
Context {B : Type} (filler : B -> bytes -> Z -> Z * B) (b0 : B).

Definition serve_prog (q : request) : prog (response (B := B)) :=
  match request_path q with
  | Some path => pbind (lookup_prog path) (fun n => reads_of (fun _ _ => serve_at filler b0 q n))
  | None => reads_of (fun _ _ => serve_at filler b0 q 0)
  end.

Lemma run_serve_prog q s : run_prog (serve_prog q) s = serve b0 (e4f_ops filler) q s.
Proof.
  rewrite serve_split. unfold serve_prog. destruct (request_path q) as [path|]; [|by rewrite run_reads].
  rewrite run_pbind. unfold bind. rewrite run_lookup_prog.
  destruct (inode_get_idx_by_path path s) as [[n s1]|]; [|done]. by rewrite run_reads.
Qed.

(** C9: a request whose thread is not interrupted gets the response that the
    operation gives as a function, and leaves the same cache and disk. *)
Theorem request_thread_sequential q s r s' :
  serve b0 (e4f_ops filler) q s = Ok (r, s') ->
  rtc malone (Outside (Running (serve_prog q)), (s, None)) (Outside (Running (PRet r)), (s', None)).
Proof. rewrite <- run_serve_prog. intros Hrun. by apply lalone_malone, run_prog_alone. Qed.
End programs.

Section concurrent.
Context {R : Type} `{RLO : ReadLayerOk R}.
Context {B : Type} (filler : B -> bytes -> Z -> Z * B) (b0 : B).
Context (img : bytes) (V : volume).
Local Abbreviation E := (image_env img).
(** What the image holds, whatever layer reads it. *)
Context (HV : volume_repr (RLO := direct_ok) E V).

Lemma serve_good q d par :
  request_ok (RLO := direct_ok) E V q -> inode_of d root = Some ROOT_INODE_N ->
  good E (edge (v_tree V)) (serve_prog filler b0 q) d par (fun _ r => says r (spec filler b0 V q)).
Proof.
  intros Hq%(request_at (RLO := direct_ok) filler b0 E V HV) Hroot.
  assert (Hat : forall n d par, answers_at (RLO := direct_ok) filler b0 E V q n ->
    good E (edge (v_tree V)) (reads_of (fun _ _ => serve_at filler b0 q n)) d par
      (fun _ r => says r (spec filler b0 V q))).
  { intros n d1 par1 (r & Hr & Hs).
    eapply (good_reads E _ (fun _ _ => serve_at filler b0 q n)); [apply (vr_img _ _ HV)|exact Hr|done]. }
  unfold serve_prog. destruct (request_path q) as [path|]; [|by apply Hat].
  destruct Hq as (n & [Hp Ha Hr] & Hq). eapply good_pbind.
  - exact (lookup_good E (vr_super _ _ HV) (vr_img _ _ HV) (v_tree V) (vr_tree _ _ HV) path d par n Hp Ha Hr Hroot).
  - intros d' par' a _ ->. by apply Hat.
Qed.

(** Whatever requests come, as long as they are within the terms. *)
Lemma concurrent_session_run (Q : request -> Prop) s :
  (forall q, Q q -> request_ok (RLO := direct_ok) E V q) ->
  disk_ok img (st_disk s) -> st_dcache s = dcache_statics -> 2048 <= zlen img ->
  gdt_wf img (image_super img) ->
  exists s0, op_init s = Ok (tt, s0) /\
    forall s' ts q x,
      rtc (mpool_step (serve_prog filler b0) Q) ((s0, None), []) (s', ts) -> (q, x) ∈ ts ->
      ~ mfailed x /\ forall r, mreturned x = Some r -> says r (spec filler b0 V q).
Proof.
  intros HQ Hd Hc Hl Hg.
  destruct (op_init_fresh img s Hd Hc Hl (vr_super _ _ HV) Hg) as (s0 & Hrun & Henv & Hd0).
  exists s0. split; [done|]. intros s' ts q x.
  apply (mpool_safe E (edge (v_tree V)) (serve_prog filler b0) Q
    (fun q r => says r (spec filler b0 V q)) ROOT_INODE_N); [|done|by split].
  intros q' d par Hq Hroot. apply serve_good; [by apply HQ|done].
Qed.

(** C4: the mounted file system under threads refines the volume, on the
    requests within its terms ([request_ok], as in [session_refines_volume]).
    op_init does not abort, and after it, however many such requests come in and
    however their threads take turns at the single accesses to the cache, at the
    lock of the disk and its reads: none of them aborts or uses memory wrongly, and
    each response is what the volume in the image says, as if its request were the
    only one. *)
Theorem concurrent_session_refines_volume s :
  disk_ok img (st_disk s) -> st_dcache s = dcache_statics -> 2048 <= zlen img ->
  gdt_wf img (image_super img) ->
  exists s0, op_init s = Ok (tt, s0) /\
    forall s' ts q x,
      rtc (mpool_step (serve_prog filler b0) (request_ok (RLO := direct_ok) E V)) ((s0, None), []) (s', ts) -> (q, x) ∈ ts ->
      ~ mfailed x /\ forall r, mreturned x = Some r -> says r (spec filler b0 V q).
Proof. intros Hd Hc Hl Hg. by apply concurrent_session_run. Qed.

Lemma simple_request q :
  request_ok (RLO := direct_ok) E V q -> request_path q = None ->
  exists r, denote E (serve_prog filler b0 q) = Ok r /\ says r (spec filler b0 V q).
Proof.
  intros Hok%(request_at (RLO := direct_ok) filler b0 E V HV) Hnone. unfold serve_prog. rewrite Hnone in *.
  destruct Hok as (r & Hr & Hs). exists r. split; [|done].
  eapply direct_denote; [apply (vr_img _ _ HV)|exact Hr].
Qed.

(** C6: a request within the terms of [request_ok] that needs no path lookup, such
    as a read at a block or in a mapped block below 4 GiB, is always answered: from
    wherever it stands in a pool of requests within these terms, and however the
    threads take turns from then on, a number of its own moves that only depends on
    the request and the image takes it to its response, which is right.  A turn in
    which it waits for the lock of the disk is no move. *)
Theorem read_requests_end s :
  disk_ok img (st_disk s) -> st_dcache s = dcache_statics -> 2048 <= zlen img ->
  gdt_wf img (image_super img) ->
  exists s0, op_init s = Ok (tt, s0) /\
    forall c i q x sched,
      rtc (mpool_step (serve_prog filler b0) (request_ok (RLO := direct_ok) E V)) ((s0, None), []) c ->
      snd c !! i = Some (q, x) -> request_path q = None ->
      (cost E (serve_prog filler b0 q) <= moves i sched c)%nat ->
      exists r, snd (fold_left (fun c i => run_mjob i c) sched c) !! i = Some (q, Outside (Running (PRet r))) /\
        says r (spec filler b0 V q).
Proof.
  intros Hd Hc Hl Hg.
  destruct (op_init_fresh img s Hd Hc Hl (vr_super _ _ HV) Hg) as (s0 & Hrun & Henv & Hd0).
  exists s0. split; [done|]. intros c i q x sched Hsteps Hi Hq Hm.
  apply (simple_ends E (edge (v_tree V)) (serve_prog filler b0) (request_ok (RLO := direct_ok) E V)
    (fun q r => says r (spec filler b0 V q)) ROOT_INODE_N (fun q d par => serve_good q d par)
    (fun q => request_path q = None) (fun q r => says r (spec filler b0 V q)) simple_request s0 c i q x sched);
    [done|by split|done..].
Qed.
End concurrent.
