(* ===== verification/FuseMain.v ===== *)
(** * fs/ext4/fuse-main.c, fs/fuse_implementation.c, main.c: starting up

    The command line is taken apart by libfuse's [fuse_opt_parse], which calls
    [e4f_opt_proc] back, the magic number of the image decides whether the
    implementation supports it, and libfuse's [fuse_main] serves the requests
    until the file system is unmounted.  Both functions of libfuse are
    parameters ([Libfuse]); what fopen and signal give is the environment. *)
From Stdlib Require Import ZArith Lia Strings.Byte Strings.String.
From stdpp Require Import base numbers list option gmap relations strings.
From S2P Require Import Prelude Clib Logging Layout Disk Dcache State Threads DiskMutex Super Extents Inode Lookup Ops.
From S2P Require Import Session Reads SessionConc.

Definition EXIT_FAILURE : Z := 1.
(** fuse_opt.h *)
Definition FUSE_OPT_KEY_OPT : Z := -1.
Definition FUSE_OPT_KEY_NONOPT : Z := -2.
Definition NO_SUPPORTED_FUSE_IMPLEMENTATION : Z := -1.

(** A function returns, or calls [exit]. *)
Inductive outcome : Type := Returned (z : Z) | Exited (z : Z).

Section fuse_main.
Context {R : Type} `{RL : ReadLayer R}.
Context {B : Type} (filler : B -> bytes -> Z -> Z * B) (b0 : B).

(** The static [e4f], the strings that [strdup] allocated, the log, the statics
    of the file system, what was printed on stderr, and what libfuse and the
    program have said to each other. *)
Record process : Type := mkProcess {
  p_disk : option nat;
  p_logfile : option bytes;
  strs : gmap nat bytes;
  p_log : logging;
  p_fs : fs R;
  p_stderr : bytes;
  p_trace : list (request * response (B := B)) }.

Definition set_e4f_disk (a : option nat) (p : process) : process :=
  mkProcess a (p_logfile p) (strs p) (p_log p) (p_fs p) (p_stderr p) (p_trace p).
Definition set_logfile (f : option bytes) (p : process) : process :=
  mkProcess (p_disk p) f (strs p) (p_log p) (p_fs p) (p_stderr p) (p_trace p).
Definition set_strs (h : gmap nat bytes) (p : process) : process :=
  mkProcess (p_disk p) (p_logfile p) h (p_log p) (p_fs p) (p_stderr p) (p_trace p).
Definition set_log (l : logging) (p : process) : process :=
  mkProcess (p_disk p) (p_logfile p) (strs p) l (p_fs p) (p_stderr p) (p_trace p).
Definition set_fs (s : fs R) (p : process) : process :=
  mkProcess (p_disk p) (p_logfile p) (strs p) (p_log p) s (p_stderr p) (p_trace p).
Definition set_stderr (e : bytes) (p : process) : process :=
  mkProcess (p_disk p) (p_logfile p) (strs p) (p_log p) (p_fs p) e (p_trace p).
Definition set_trace (t : list (request * response (B := B))) (p : process) : process :=
  mkProcess (p_disk p) (p_logfile p) (strs p) (p_log p) (p_fs p) (p_stderr p) t.

Definition in_fs {A : Type} (m : M (fs R) A) : M process A := zoom p_fs set_fs m.
Definition eprint (s : bytes) : M process unit := modify (fun p => set_stderr (p_stderr p ++ s) p).
(** The text a string pointer leads to. *)
Definition text (a : nat) : M process bytes := fun p =>
  match strs p !! a with Some s => Ok (s, p) | None => Err UB end.
Definition strdup (s : bytes) : M process nat := fun p =>
  let a := fresh (dom (strs p)) in Ok (a, set_strs (<[a := s]> (strs p)) p).
Definition free (a : nat) : M process unit := fun p =>
  match strs p !! a with
  | Some _ => Ok (tt, set_strs (delete a (strs p)) p)
  | None => Err UB
  end.

(** An option template and the member its value goes to. *)
Record fuse_opt : Type := mkOpt { templ : bytes; fo_set : bytes -> M process unit }.

Class Libfuse : Type := {
  fuse_opt_parse : list fuse_opt -> (bytes -> Z -> M process Z) -> list bytes ->
    M process (Z * list bytes);
  fuse_main : list bytes -> fuse_operations R B ->
    M (fs R) (Z * list (request * response (B := B))) }.
Context `{LF : Libfuse}.

(** What the system does: [signal] accepts the handler; [fopen(path, "r")] with
    the [fileno] of the stream; whether [fopen(path, "w")] succeeds; the texts
    of the error number and of the version. *)
Record environment : Type := mkEnvironment {
  env_signal : bool;
  env_open : bytes -> option (FILE * Z);
  env_create : bytes -> bool;
  env_strerror : bytes;
  env_version : bytes }.
Context (sys : environment).

Definition e4f_opts : list fuse_opt :=
  [mkOpt (str "logfile=%s") (fun v => modify (set_logfile (Some v)))].

Definition e4f_opt_proc (arg : bytes) (key : Z) : M process Z :=
  if key =? FUSE_OPT_KEY_OPT then ret 1 else
  if key =? FUSE_OPT_KEY_NONOPT then
    let* p := get in
    match p_disk p with
    | None =>
        let* a := strdup arg in
        do* modify (set_e4f_disk (Some a)) in
        ret 0
    | Some _ => ret 1
    end
  else do* eprint (str "internal error" ++ [Byte.x0a]) in fail Abort.

(** The handler ends in [abort]; the backtrace is only printed. *)
Definition signal_handle_sigsegv : M process unit :=
  let* _ := in_fs (on_disk disk_close) in fail Abort.

Definition disk_magic_offset : Z :=
  BOOT_SECTOR_SIZE + offsetof ext4_super_block "s_magic".
(** The magic number; [None] when [disk_read] says that it failed. *)
Definition read_disk_magic : M process (option Z) :=
  let* r := in_fs (disk_read disk_magic_offset 2) in
  if fst r <? 0 then ret None else
  let* m := lift (load 0 2 (snd r)) in
  ret (Some m).

Definition ext4fuse_main (argv : list bytes) : M process outcome :=
  if negb (env_signal sys)
  then do* eprint (str "Failed to initialize signals" ++ [Byte.x0a]) in ret (Returned EXIT_FAILURE)
  else
  do* modify (set_e4f_disk None) in
  do* modify (set_logfile DEFAULT_LOG_FILE) in
  let* r := fuse_opt_parse e4f_opts e4f_opt_proc argv in
  if fst r =? -1 then ret (Returned EXIT_FAILURE) else
  let* p := get in
  match p_disk p with
  | None =>
      let* argv0 := non_null (argv !! 0%nat) in
      do* eprint (str "Version: " ++ env_version sys ++ [Byte.x0a]) in
      do* eprint (str "Usage: " ++ argv0 ++ str " <disk> <mountpoint>" ++ [Byte.x0a]) in
      ret (Exited 1)
  | Some a =>
      let* l := zoom p_log set_log
                  (logging_open (p_logfile p) (env_create sys (default [] (p_logfile p)))) in
      if l <? 0 then
        do* eprint (str "Failed to initialize logging" ++ [Byte.x0a]) in ret (Returned EXIT_FAILURE)
      else
      let* path := text a in
      let* o := in_fs (on_disk (disk_open (env_open sys path))) in
      if o <? 0 then
        do* eprint (str "disk_open: " ++ path ++ str ": " ++ env_strerror sys ++ [Byte.x0a]) in
        ret (Returned EXIT_FAILURE)
      else
      let* m := read_disk_magic in
      match m with
      | None =>
          do* eprint (str "Failed to read disk: " ++ path ++ [Byte.x0a]) in
          ret (Returned EXIT_FAILURE)
      | Some disk_magic =>
          if negb (disk_magic =? 0xEF53) then
            do* eprint (str "Partition doesn't contain EXT4 filesystem" ++ [Byte.x0a]) in
            ret (Returned EXIT_FAILURE)
          else
          let* res := in_fs (fuse_main (snd r) (e4f_ops filler)) in
          do* modify (fun p => set_trace (p_trace p ++ snd res) p) in
          do* free a in
          ret (Returned (fst res))
      end
  end.

Definition ext4fuse_is_supported (argv : list bytes) : M process bool :=
  do* modify (set_e4f_disk None) in
  do* modify (set_logfile DEFAULT_LOG_FILE) in
  let* r := fuse_opt_parse e4f_opts e4f_opt_proc argv in
  if fst r =? -1 then ret false else
  let* p := get in
  match p_disk p with
  | None => ret false
  | Some a =>
      let* path := text a in
      let* o := in_fs (on_disk (disk_open (env_open sys path))) in
      if o <? 0 then ret false else
      let* m := read_disk_magic in
      match m with
      | None => ret false
      | Some disk_magic =>
          if negb (disk_magic =? 0xEF53) then ret false else
          do* free a in
          let* _ := in_fs (on_disk disk_close) in
          ret true
      end
  end.

(** ** fs/fuse_implementation.c and fs/constructors.h *)

Record FuseImplementation : Type := mkImplementation {
  is_supported : list bytes -> M process bool;
  start : list bytes -> M process outcome }.
Definition available_fuse_implementations : list FuseImplementation :=
  [mkImplementation ext4fuse_is_supported ext4fuse_main].

Fixpoint get_supported_fuse_impl (available : list FuseImplementation) (argv : list bytes)
    : M process (option FuseImplementation) :=
  match available with
  | [] => ret None
  | i :: rest =>
      let* b := is_supported i argv in
      if b : bool then ret (Some i) else get_supported_fuse_impl rest argv
  end.

Definition start_fuse (argv : list bytes) : M process outcome :=
  let* fuse_impl := get_supported_fuse_impl available_fuse_implementations argv in
  match fuse_impl with
  | None => ret (Returned NO_SUPPORTED_FUSE_IMPLEMENTATION)
  | Some i => start i argv
  end.

(** ** main.c: the exit status of the process; falling off the end of [main]
    returns 0. *)
Definition main (argv : list bytes) : M process Z :=
  let* r := start_fuse argv in
  match r with
  | Exited z => ret z
  | Returned z =>
      do* (if negb (z =? 0) then eprint (str "Usage: Disk Mountpoint" ++ [Byte.x0a]) else ret tt) in
      ret 0
  end.
End fuse_main.
Arguments process R B : clear implicits.
Arguments Libfuse R B : clear implicits.

(** ** What the documentation of libfuse says *)

(** [fuse_opt_parse] goes through the arguments in order: one that matches a
    template sets its member, every other one is given to the callback with its
    key, and is kept when that returns 1 and dropped when it returns 0. *)
Inductive opt_event : Type :=
| Matched (i : nat) (v : bytes)
| Unmatched (arg : bytes) (key : Z).

Section contract.
Context {R : Type} `{RL : ReadLayer R}.
Context {B : Type} (filler : B -> bytes -> Z -> Z * B) (b0 : B).
Local Abbreviation PM := (M (process R B)).

Fixpoint run_events (opts : list fuse_opt) (proc : bytes -> Z -> PM Z) (evs : list opt_event)
    : PM (Z * list bytes) :=
  match evs with
  | [] => ret (0, [])
  | Matched i v :: evs' =>
      match opts !! i with
      | Some o => do* fo_set o v in run_events opts proc evs'
      | None => fail UB
      end
  | Unmatched arg key :: evs' =>
      let* r := proc arg key in
      if r =? -1 then ret (-1, []) else
      let* rest := run_events opts proc evs' in
      ret (fst rest, if r =? 0 then snd rest else arg :: snd rest)
  end.

Context `{LF : !Libfuse R B}.

(** The command line is well formed and consists of these arguments. *)
Definition parses_as (argv : list bytes) (evs : list opt_event) : Prop :=
  forall p, fuse_opt_parse e4f_opts e4f_opt_proc argv p = run_events e4f_opts e4f_opt_proc evs p.
(** [fuse_main] mounts, calls init, then an operation for each request that
    arrives until the file system is unmounted, and returns [status]. *)
Definition serves (args : list bytes) (qs : list request) (status : Z) : Prop :=
  forall s, fuse_main args (e4f_ops filler) s =
    (do* init (e4f_ops filler) in
     let* rs := serve_all b0 (e4f_ops filler) qs in
     ret (status, zip qs rs)) s.

(** Without the option -s the requests, among those with [Q], are answered by
    threads: libfuse chooses which come and how they take turns, and reports
    responses that were returned, unless an operation ends the process. *)
Definition serves_threads (args : list bytes) (Q : request -> Prop) (status : Z) : Prop :=
  let run s0 := rtc (mpool_step (serve_prog filler b0) Q) ((s0, None), []) in
  forall s s0, init (e4f_ops filler) s = Ok (tt, s0) ->
    (forall s1 ts q x, run s0 (s1, ts) -> (q, x) ∈ ts -> ~ mfailed x) ->
    exists s1 lock ts tr, run s0 ((s1, lock), ts) /\
      fuse_main args (e4f_ops filler) s = Ok ((status, tr), s1) /\
      Forall (fun qr => (fst qr, Outside (Running (PRet (snd qr)))) ∈ ts) tr.

(** Keys of this program: the templates have none of their own. *)
Definition event_ok (e : opt_event) : Prop :=
  match e with
  | Matched i _ => i = 0%nat
  | Unmatched _ key => key = FUSE_OPT_KEY_OPT \/ key = FUSE_OPT_KEY_NONOPT
  end.

(** The image: the first argument that is no option. *)
Fixpoint image_path (evs : list opt_event) : option bytes :=
  match evs with
  | [] => None
  | Matched _ _ :: evs' => image_path evs'
  | Unmatched arg key :: evs' =>
      if key =? FUSE_OPT_KEY_NONOPT then Some arg else image_path evs'
  end.
(** The log file: the last one given. *)
Fixpoint log_path (evs : list opt_event) (f : option bytes) : option bytes :=
  match evs with
  | [] => f
  | Matched _ v :: evs' => log_path evs' (Some v)
  | Unmatched _ _ :: evs' => log_path evs' f
  end.
(** What is left for [fuse_main]. *)
Fixpoint kept (found : bool) (evs : list opt_event) : list bytes :=
  match evs with
  | [] => []
  | Matched _ _ :: evs' => kept found evs'
  | Unmatched arg key :: evs' =>
      if negb found && (key =? FUSE_OPT_KEY_NONOPT) then kept true evs' else arg :: kept found evs'
  end.

(** Once the image is known, nothing changes but the log file. *)
Lemma run_events_found evs a p :
  Forall event_ok evs -> p_disk p = Some a ->
  run_events e4f_opts e4f_opt_proc evs p
  = Ok ((0, kept true evs), set_logfile (log_path evs (p_logfile p)) p).
Proof.
  intros Hevs. revert p. induction Hevs as [|[i v|arg key] evs He Hevs IH]; intros p Hp;
    cbn [run_events kept log_path event_ok] in *.
  - by destruct p.
  - subst i. cbn [e4f_opts lookup list_lookup fo_set]. rewrite (bind_Ok _ _ p tt _) by done.
    by rewrite IH.
  - assert (Hproc : e4f_opt_proc arg key p = Ok (1, p)).
    { unfold e4f_opt_proc. destruct He as [-> | ->]; [done|].
      cbn. unfold bind, get. by rewrite Hp. }
    rewrite (bind_Ok _ _ _ _ _ Hproc). change (1 =? -1) with false. cbv beta iota.
    by rewrite (bind_Ok _ _ _ _ _ (IH p Hp)).
Qed.

(** The whole command line. *)
Definition parsed (evs : list opt_event) (p : process R B) : process R B :=
  match image_path evs with
  | None => set_logfile (log_path evs (p_logfile p)) p
  | Some path =>
      let a := fresh (dom (strs p)) in
      set_logfile (log_path evs (p_logfile p))
        (set_e4f_disk (Some a) (set_strs (<[a := path]> (strs p)) p))
  end.

Lemma run_events_ok evs p :
  Forall event_ok evs -> p_disk p = None ->
  run_events e4f_opts e4f_opt_proc evs p = Ok ((0, kept false evs), parsed evs p).
Proof.
  intros Hevs. revert p. induction Hevs as [|[i v|arg key] evs He Hevs IH]; intros p Hp;
    unfold parsed; cbn [run_events kept log_path image_path event_ok] in *.
  - by destruct p.
  - subst i. cbn [e4f_opts lookup list_lookup fo_set]. rewrite (bind_Ok _ _ p tt _) by done.
    rewrite IH by done. unfold parsed. by destruct (image_path evs).
  - unfold e4f_opt_proc. destruct He as [-> | ->].
    + change (FUSE_OPT_KEY_OPT =? FUSE_OPT_KEY_NONOPT) with false. cbn [negb andb].
      rewrite (bind_Ok _ _ p 1 p) by done. change (1 =? -1) with false. cbv beta iota.
      by rewrite (bind_Ok _ _ _ _ _ (IH p Hp)).
    + change (FUSE_OPT_KEY_NONOPT =? FUSE_OPT_KEY_NONOPT) with true. cbn [negb andb].
      set (a := fresh (dom (strs p))).
      rewrite (bind_Ok _ _ p 0 (set_e4f_disk (Some a) (set_strs (<[a := arg]> (strs p)) p))).
      2:{ unfold bind, get. cbn. by rewrite Hp. }
      change (0 =? -1) with false. cbv beta iota.
      by rewrite (bind_Ok _ _ _ _ _ (run_events_found evs a
        (set_e4f_disk (Some a) (set_strs (<[a := arg]> (strs p)) p)) Hevs eq_refl)).
Qed.
End contract.

(** ** Starting up on an image *)

Section start_up.
Context {R : Type} `{RLO : ReadLayerOk R}.
Context {B : Type} (filler : B -> bytes -> Z -> Z * B) (b0 : B).
Context `{LF : !Libfuse R B} (sys : environment).

(** The command line names the file [path], which opens as a stream of the
    image [img]. *)
Record starts_on (argv : list bytes) (evs : list opt_event) (path img : bytes) : Prop := {
  so_argv : parses_as (R := R) (B := B) argv evs;
  so_evs : Forall event_ok evs;
  so_path : image_path evs = Some path;
  so_len : 1082 <= zlen img < 2 ^ 62;
  so_open : exists f fd, env_open sys path = Some (f, fd) /\ 0 <= fd /\ rl_inv img f rl_init }.

Definition image_magic (img : bytes) : Z := le_at 1080 2 img.

(** Nothing is open yet, or no longer. *)
Definition disk_closed (p : process R B) : Prop := read_layer (st_disk (p_fs p)) = rl_init.

Context (argv : list bytes) (evs : list opt_event) (path img : bytes).
Context (Hso : starts_on argv evs path img).

Lemma open_image_run p :
  disk_closed p -> exists d,
  in_fs (on_disk (disk_open (env_open sys path))) p = Ok (0, set_fs (set_disk d (p_fs p)) p) /\
  disk_ok img d.
Proof.
  intros Hp. destruct (so_open _ _ _ _ Hso) as (f & fd & Ho & Hfd & Hinv).
  pose proof (so_len _ _ _ _ Hso).
  destruct (disk_open_run img f fd (st_disk (p_fs p)) Hinv Hp ltac:(lia) Hfd) as (d & Hr & Hd).
  exists d. split; [|done]. unfold in_fs, on_disk, zoom. by rewrite Ho, Hr.
Qed.

Lemma read_disk_magic_run (p : process R B) :
  disk_ok img (st_disk (p_fs p)) -> exists d,
  read_disk_magic p = Ok (Some (image_magic img), set_fs (set_disk d (p_fs p)) p) /\ disk_ok img d.
Proof.
  intros Hd. pose proof (so_len _ _ _ _ Hso).
  destruct (__disk_read_ok img _ 1080 2 Hd ltac:(lia) ltac:(lia) ltac:(lia)) as (d & Hr & Hok).
  exists d. split; [|done]. unfold read_disk_magic, disk_magic_offset.
  change (BOOT_SECTOR_SIZE + offsetof ext4_super_block "s_magic") with 1080.
  rewrite (bind_Ok _ _ p (2, slice 1080 2 img) (set_fs (set_disk d (p_fs p)) p)).
  2:{ unfold in_fs, disk_read, on_disk, zoom. by rewrite Hr. }
  cbn [fst snd]. change (2 <? 0) with false. unfold bind, lift, ret.
  rewrite load_ok by (rewrite ?zlen_slice; lia). unfold image_magic.
  by rewrite le_at_slice, Z.add_0_r by lia.
Qed.

(** The process when the command line has been taken apart. *)
Definition begun (p : process R B) : process R B :=
  parsed evs (set_logfile DEFAULT_LOG_FILE (set_e4f_disk None p)).

Lemma begun_disk p : p_disk (begun p) = Some (fresh (dom (strs p))).
Proof. unfold begun, parsed. by rewrite (so_path _ _ _ _ Hso). Qed.
Lemma begun_strs p : strs (begun p) = <[fresh (dom (strs p)) := path]> (strs p).
Proof. unfold begun, parsed. by rewrite (so_path _ _ _ _ Hso). Qed.
Lemma begun_fs p : p_fs (begun p) = p_fs p.
Proof. unfold begun, parsed. by rewrite (so_path _ _ _ _ Hso). Qed.

Lemma fresh_none (h : gmap nat bytes) : h !! fresh (dom h) = None.
Proof. apply not_elem_of_dom, is_fresh. Qed.

Lemma free_path_run (p p' : process R B) :
  strs p' = strs (begun p) ->
  free (fresh (dom (strs p))) p' = Ok (tt, set_strs (strs p) p').
Proof.
  intros Hs. unfold free. rewrite Hs, begun_strs, lookup_insert_eq.
  rewrite delete_insert_id; [done|apply fresh_none].
Qed.

(** What both functions begin with. *)
Lemma begin_run {A} (k : Z * list bytes -> M (process R B) A) p :
  (do* modify (set_e4f_disk None) in
   do* modify (set_logfile DEFAULT_LOG_FILE) in
   let* r := fuse_opt_parse e4f_opts e4f_opt_proc argv in k r) p = k (0, kept false evs) (begun p).
Proof.
  rewrite (bind_Ok _ _ p tt _) by done. rewrite (bind_Ok _ _ _ tt _) by done.
  rewrite (bind_Ok (fuse_opt_parse e4f_opts e4f_opt_proc argv) _ _ (0, kept false evs) (begun p)); [done|].
  rewrite (so_argv _ _ _ _ Hso). by apply run_events_ok; [apply (so_evs _ _ _ _ Hso)|].
Qed.

Definition supported_state (p : process R B) (d : disk R) : process R B :=
  if image_magic img =? 0xEF53
  then set_strs (strs p) (set_fs (set_disk disk_statics (p_fs p)) (begun p))
  else set_fs (set_disk d (p_fs p)) (begun p).

Lemma is_supported_run p :
  disk_closed p -> exists d, disk_ok img d /\
  ext4fuse_is_supported sys argv p = Ok (image_magic img =? 0xEF53, supported_state p d).
Proof.
  intros Hp. unfold ext4fuse_is_supported. rewrite begin_run. cbn [fst].
  change (0 =? -1) with false. cbv iota.
  rewrite (bind_Ok get _ _ (begun p) (begun p)) by done. rewrite begun_disk.
  rewrite (bind_Ok (text _) _ _ path (begun p)).
  2:{ unfold text. by rewrite begun_strs, lookup_insert_eq. }
  destruct (open_image_run (begun p)) as (d1 & Ho & Hd1); [by unfold disk_closed; rewrite begun_fs|].
  rewrite (bind_Ok _ _ _ _ _ Ho). change (0 <? 0) with false. cbv iota.
  destruct (read_disk_magic_run (set_fs (set_disk d1 (p_fs (begun p))) (begun p)) Hd1)
    as (d2 & Hr & Hd2).
  rewrite (bind_Ok _ _ _ _ _ Hr). exists d2. split; [done|]. unfold supported_state.
  cbn [p_fs set_fs] in *. rewrite begun_fs. destruct (_ =? 0xEF53); [|done]. cbn [negb].
  rewrite (bind_Ok _ _ _ _ _ (free_path_run p (set_fs (set_disk d2 (set_disk d1 (p_fs p)))
    (set_fs (set_disk d1 (p_fs p)) (begun p))) eq_refl)).
  rewrite (bind_Ok _ _ _ 1 (set_strs (strs p) (set_fs (set_disk disk_statics (p_fs p)) (begun p)))); [done|].
  unfold in_fs, on_disk, zoom. cbn [p_fs set_fs set_strs st_disk set_disk].
  by rewrite (disk_close_run img d2 Hd2).
Qed.

Definition usage : bytes := str "Usage: Disk Mountpoint" ++ [Byte.x0a].

(** [main] on what [start_fuse] returned. *)
Lemma main_returned p z p' :
  start_fuse filler sys argv p = Ok (Returned z, p') ->
  main filler sys argv p
  = Ok (0, set_stderr (p_stderr p' ++ if z =? 0 then [] else usage) p').
Proof.
  intros Hs. unfold main. rewrite (bind_Ok _ _ _ _ _ Hs). destruct (z =? 0); cbn [negb].
  - rewrite app_nil_r. by destruct p'.
  - done.
Qed.

(** What libfuse makes of the operations once the image is open. *)
Definition session_gives (status : Z) (P : list (request * response (B := B)) -> Prop) : Prop :=
  forall d, disk_ok img d -> exists tr s',
    fuse_main (kept false evs) (e4f_ops filler) (set_disk d fs_statics) = Ok ((status, tr), s') /\ P tr.

(** The second half: the log, the image and its magic number again, then the
    session. *)
Lemma ext4fuse_main_run p status P :
  env_signal sys = true -> p_fs p = fs_statics ->
  (forall f, log_path evs None = Some f -> env_create sys f = true) ->
  image_magic img = 0xEF53 -> session_gives status P ->
  exists p' tr, ext4fuse_main filler sys argv p = Ok (Returned status, p') /\ P tr /\
    p_trace p' = p_trace p ++ tr /\ strs p' = strs p /\ p_stderr p' = p_stderr p.
Proof.
  intros Hsig Hp Hlog Hmag Hsession. unfold ext4fuse_main. rewrite Hsig. cbn [negb].
  rewrite begin_run. cbn [fst snd]. change (0 =? -1) with false. cbv iota.
  rewrite (bind_Ok get _ _ (begun p) (begun p)) by done. rewrite begun_disk.
  assert (Hlf : p_logfile (begun p) = log_path evs None)
    by (unfold begun, parsed; by rewrite (so_path _ _ _ _ Hso)).
  assert (Hl : exists l, zoom p_log set_log (logging_open (p_logfile (begun p))
    (env_create sys (default [] (p_logfile (begun p))))) (begun p) = Ok (0, set_log l (begun p))).
  { rewrite Hlf. destruct (log_path evs None) as [fl|].
    - change (default [] (Some fl)) with fl. rewrite (Hlog fl) by done. by eexists.
    - by eexists. }
  destruct Hl as [l Hl]. rewrite (bind_Ok _ _ _ _ _ Hl). change (0 <? 0) with false. cbv iota.
  rewrite (bind_Ok (text _) _ _ path (set_log l (begun p))).
  2:{ unfold text. cbn [strs set_log]. by rewrite begun_strs, lookup_insert_eq. }
  destruct (open_image_run (set_log l (begun p))) as (d1 & Ho & Hd1);
    [by unfold disk_closed; cbn [p_fs set_log]; rewrite begun_fs, Hp|].
  rewrite (bind_Ok _ _ _ _ _ Ho). change (0 <? 0) with false. cbv iota.
  destruct (read_disk_magic_run (set_fs (set_disk d1 (p_fs (set_log l (begun p)))) (set_log l (begun p))) Hd1)
    as (d2 & Hr & Hd2).
  rewrite (bind_Ok _ _ _ _ _ Hr), Hmag. change (0xEF53 =? 0xEF53) with true. cbn [negb].
  set (p2 := set_fs (set_disk d2 _) _).
  assert (Hfs2 : p_fs p2 = set_disk d2 fs_statics) by (cbn; by rewrite begun_fs, Hp).
  destruct (Hsession d2 Hd2) as (tr & s' & Hserve & HP).
  rewrite (bind_Ok (in_fs _) _ _ (status, tr) (set_fs s' p2)) by (unfold in_fs, zoom; by rewrite Hfs2, Hserve).
  rewrite (bind_Ok _ _ _ tt (set_trace (p_trace p2 ++ tr) (set_fs s' p2))) by done.
  rewrite (bind_Ok _ _ _ _ _ (free_path_run p (set_trace (p_trace p2 ++ tr) (set_fs s' p2)) eq_refl)).
  eexists _, tr. split; [done|]. split; [done|]. cbn. unfold begun, parsed. by rewrite (so_path _ _ _ _ Hso).
Qed.


(** A whole run of the program over any read layer, whatever a session is. *)
Lemma main_run status P p :
  env_signal sys = true -> p_fs p = fs_statics ->
  (forall f, log_path evs None = Some f -> env_create sys f = true) ->
  image_magic img = 0xEF53 -> session_gives status P ->
  exists p' tr, main filler sys argv p = Ok (0, p') /\ P tr /\ p_trace p' = p_trace p ++ tr /\
    strs p' = strs p /\ p_stderr p' = p_stderr p ++ if status =? 0 then [] else usage.
Proof.
  intros Hsig Hp Hlog Hmag Hsession.
  destruct (is_supported_run p) as (d0 & _ & Hsup); [unfold disk_closed; by rewrite Hp|].
  set (p1 := supported_state p d0) in *.
  assert (Hp1 : p_fs p1 = fs_statics /\ strs p1 = strs p /\ p_stderr p1 = p_stderr p /\
                p_trace p1 = p_trace p).
  { unfold p1, supported_state. rewrite Hmag. change (0xEF53 =? 0xEF53) with true. cbn.
    rewrite Hp. unfold begun, parsed. by rewrite (so_path _ _ _ _ Hso). }
  destruct Hp1 as (Hfs1 & Hstrs1 & Herr1 & Htr1).
  destruct (ext4fuse_main_run p1 status P Hsig Hfs1 Hlog Hmag Hsession)
    as (p' & tr & Hmain & HP & Htr & Hstrs & Herr).
  assert (Hstart : start_fuse filler sys argv p = Ok (Returned status, p')).
  { unfold start_fuse, available_fuse_implementations, get_supported_fuse_impl.
    cbn [is_supported].
    rewrite (bind_Ok _ _ p (Some (mkImplementation (ext4fuse_is_supported sys)
      (ext4fuse_main filler sys))) p1); [exact Hmain|].
    rewrite (bind_Ok _ _ _ _ _ Hsup), Hmag. done. }
  eexists _, tr. split; [by apply main_returned|]. split; [done|].
  cbn [p_trace set_stderr strs p_stderr]. by rewrite Htr, Htr1, Hstrs, Hstrs1, Herr, Herr1.
Qed.

(** Requests one after the other. *)
Lemma sequential_session V qs status :
  serves filler b0 (kept false evs) qs status -> 2048 <= zlen img -> gdt_wf img (image_super img) ->
  volume_repr (image_env img) V -> Forall (request_ok (image_env img) V) qs ->
  session_gives status (fun tr => exists rs, tr = zip qs rs /\
    Forall2 (fun q r => says r (spec filler b0 V q)) qs rs).
Proof.
  intros Hserve Hl Hg HV Hqs d Hd. rewrite Hserve.
  pose proof (op_init_run img (v_tree V) (set_disk d fs_statics) Hd eq_refl Hl
    (vr_super _ _ HV) Hg) as Hi. apply wp_run in Hi as ([] & s1 & Hi & Hs1).
  pose proof (serve_all_run filler b0 (image_env img) V HV qs s1 Hqs Hs1) as Hw.
  apply wp_run in Hw as (rs & s2 & Hw & _ & Hrs). exists (zip qs rs), s2.
  rewrite (bind_Ok (init (e4f_ops filler)) _ _ tt s1 Hi), (bind_Ok _ _ _ _ _ Hw). split; [done|by exists rs].
Qed.

(** Requests on threads. *)
Lemma threads_session V Q status :
  serves_threads filler b0 (kept false evs) Q status -> 2048 <= zlen img -> gdt_wf img (image_super img) ->
  volume_repr (RLO := direct_ok) (image_env img) V ->
  (forall q, Q q -> request_ok (RLO := direct_ok) (image_env img) V q) ->
  session_gives status (Forall (fun qr => says (snd qr) (spec filler b0 V (fst qr)))).
Proof.
  intros Hserve Hl Hg HV HQ d Hd.
  destruct (concurrent_session_run filler b0 img V HV Q (set_disk d fs_statics) HQ Hd eq_refl Hl Hg)
    as (s0 & Hi & Hsafe).
  destruct (Hserve _ s0 Hi) as (s1 & lock & ts & tr & Hrun & Hmain & Htr).
  { intros s1 ts q x Hrun Hx. by destruct (Hsafe s1 ts q x Hrun Hx). }
  exists tr, s1. split; [done|]. eapply Forall_impl; [exact Htr|]. intros [q r] Hin.
  by apply (Hsafe (s1, lock) ts q _ Hrun Hin).
Qed.
End start_up.

(** ** Refusals *)

Section refusals.
Context {R : Type} `{RLO : ReadLayerOk R}.
Context {B : Type} (filler : B -> bytes -> Z -> Z * B) (b0 : B).
Context `{LF : !Libfuse R B} (sys : environment).

(** Why there may be nothing to mount. *)
Inductive refused (argv : list bytes) (evs : list opt_event) : Prop :=
| no_image : image_path evs = None -> refused argv evs
| no_file path : image_path evs = Some path -> env_open sys path = None -> refused argv evs
| no_ext4 path img : starts_on sys argv evs path img -> image_magic img <> 0xEF53 ->
    refused argv evs.

Lemma is_supported_refused argv evs p :
  disk_closed p -> parses_as argv evs -> Forall event_ok evs -> refused argv evs ->
  exists p', ext4fuse_is_supported sys argv p = Ok (false, p') /\
    p_stderr p' = p_stderr p /\ p_trace p' = p_trace p.
Proof.
  intros Hp Hargv Hevs Hr.
  assert (Hbegin : forall k : Z * list bytes -> M (process R B) bool,
    (do* modify (set_e4f_disk None) in
     do* modify (set_logfile DEFAULT_LOG_FILE) in
     let* r := fuse_opt_parse e4f_opts e4f_opt_proc argv in k r) p
    = k (0, kept false evs) (begun evs p)).
  { intros k. rewrite (bind_Ok _ _ p tt _) by done. rewrite (bind_Ok _ _ _ tt _) by done.
    rewrite (bind_Ok (fuse_opt_parse e4f_opts e4f_opt_proc argv) _ _ (0, kept false evs) (begun evs p));
      [done|]. rewrite Hargv. by apply run_events_ok. }
  destruct Hr as [Hn|path Hpath Ho|path img Hso Hm].
  - unfold ext4fuse_is_supported. rewrite Hbegin. cbn [fst]. change (0 =? -1) with false. cbv iota.
    rewrite (bind_Ok get _ _ (begun evs p) (begun evs p)) by done.
    unfold begun, parsed. rewrite Hn. by eexists.
  - unfold ext4fuse_is_supported. rewrite Hbegin. cbn [fst]. change (0 =? -1) with false. cbv iota.
    rewrite (bind_Ok get _ _ (begun evs p) (begun evs p)) by done.
    unfold begun, parsed. rewrite Hpath. cbn [p_disk set_logfile set_e4f_disk].
    set (p0 := set_logfile DEFAULT_LOG_FILE _). set (p1 := set_logfile _ _).
    rewrite (bind_Ok (text _) _ _ path p1).
    2:{ unfold text, p1. cbn [strs set_logfile set_e4f_disk set_strs]. by rewrite lookup_insert_eq. }
    rewrite Ho. unfold in_fs, on_disk, zoom, bind. cbn. by eexists.
  - destruct (is_supported_run sys argv evs path img Hso p Hp) as (d & _ & Hrun).
    eexists. split; [rewrite Hrun, (proj2 (Z.eqb_neq _ _) Hm); done|].
    unfold supported_state. rewrite (proj2 (Z.eqb_neq _ _) Hm). cbn.
    unfold begun, parsed. by rewrite (so_path _ _ _ _ _ Hso).
Qed.

End refusals.
