(* ===== verification/Spotlight.v ===== *)
(** * The whole program

    main.c over fuse-main.c, the file system, the read layer and the readers of
    constructors.h: what a user of the program gets. *)
From Stdlib Require Import ZArith Lia Strings.Byte.
From stdpp Require Import base numbers list option gmap.
From S2P Require Import Prelude Clib Logging Layout Disk Reader XzReader GzipReader Constructors.
From S2P Require Import State Super Reads Inode Lookup Ops Session OpReads Volume FuseMain.

(** The volume is in the bytes of the image, and the requests are within its terms
    ([request_on], the bounds of [request_within]). *)
Definition holds (img : bytes) (V : volume) (qs : list request) : Prop :=
  volume_on img V /\ Forall (request_on img V) qs.
(** The same when the requests are among those with [Q]. *)
Definition holds_all (img : bytes) (V : volume) (Q : request -> Prop) : Prop :=
  volume_on img V /\ forall q, Q q -> request_on img V q.

Section spotlight.
Context `{LZ : Lzma} `{ZL : Zlib} (ndebug : bool) (fuel : nat) (junk : bytes).
#[local] Instance image_layer : ReadLayer (option CompressionReader) :=
  layer ndebug (available_readers ndebug fuel junk).
Context {B : Type} (filler : B -> bytes -> Z -> Z * B) (b0 : B).
Context `{LF : !Libfuse (option CompressionReader) B} (sys : environment).

(** What the readers make of the file is the image, for the rest of the program. *)
Lemma starts_with argv evs path c fd img :
  parses_as argv evs -> Forall event_ok evs -> image_path evs = Some path ->
  env_open sys path = Some (fopen_content c None, fd) -> 0 <= fd ->
  6 <= zlen c -> compressed_as fuel junk c img -> 2048 <= zlen img < 2 ^ 62 ->
  exists i (H : ReaderOk i),
    let RLO := layer_ok ndebug (available_readers ndebug fuel junk) i in
    starts_on (RLO := RLO) sys argv evs path img.
Proof.
  intros Hargv Hevs Hpath Hopen Hfd Hl Hc Himg.
  destruct (selects_run ndebug fuel junk c img Hl Hc) as (i & H & Hinv). exists i, H.
  split; [done|done|done|lia|]. exists (fopen_content c None), fd.
  split; [done|]. split; [done|]. by exists c.
Qed.

(** C1: Spotlight, with requests one after the other.  The file is a plain, xz or
    gzip file of an ext4 image as [compressed_as] says: gzip of an image below
    1 MiB, of one chunk of 16 KiB or of independent blocks; xz with blocks of at most
    64 MiB, footers whose byte 2 is not zero and padding in multiples of 12 bytes.
    The volume is in the bytes of the image, and the requests are within the terms
    of [request_within]: absolute paths that do not lead through a file, with
    components shorter than 40 characters, to what is missing or in the volume;
    reads of less than 2 GiB of its files, or of handle 0, that start at a block, or in a mapped block
    below 4 GiB; links of existing inodes that fit in the buffer; listings of
    directories from the start or behind an entry, of names up to 254 characters.  Then the program recognises
    the compression and the file system, mounts it and answers each of these
    requests as the volume says; it frees the copies of the image path, keeps the
    image and its reader open to its end, and its exit status is 0 whatever libfuse
    returned. *)
Theorem main_serves_volume argv evs path c fd img V qs status p :
  parses_as argv evs -> Forall event_ok evs -> image_path evs = Some path ->
  env_open sys path = Some (fopen_content c None, fd) -> 0 <= fd ->
  6 <= zlen c -> compressed_as fuel junk c img -> 2048 <= zlen img < 2 ^ 62 ->
  env_signal sys = true ->
  (forall f, log_path evs None = Some f -> env_create sys f = true) ->
  serves filler b0 (kept false evs) qs status -> p_fs p = fs_statics ->
  image_magic img = 0xEF53 -> holds img V qs ->
  exists p' rs, main filler sys argv p = Ok (0, p') /\
    p_trace p' = p_trace p ++ zip qs rs /\
    Forall2 (fun q r => says r (spec filler b0 V q)) qs rs /\
    strs p' = strs p /\ p_stderr p' = p_stderr p ++ if status =? 0 then [] else usage.
Proof.
  intros Hargv Hevs Hpath Hopen Hfd Hl Hc Himg Hsig Hlog Hserve Hp Hmag Hholds.
  destruct (starts_with argv evs path c fd img Hargv Hevs Hpath Hopen Hfd Hl Hc Himg) as (i & H & Hstart).
  destruct Hholds as [HV Hqs].
  pose (RLO := layer_ok ndebug (available_readers ndebug fuel junk) i).
  destruct (main_run (RLO := RLO) filler sys argv evs path img Hstart status
    (fun tr => exists rs, tr = zip qs rs /\ Forall2 (fun q r => says r (spec filler b0 V q)) qs rs) p)
    as (p' & tr & Hrun & (rs & -> & Hrs) & Htr & Hrest); try done; [|by exists p', rs].
  apply (sequential_session (RLO := RLO) filler b0 evs img V qs status Hserve);
    [lia|apply (vo_gdt _ _ HV)|exact (volume_on_repr (RLO := RLO) img V HV)|].
  eapply Forall_impl; [exact Hqs|]. exact (request_on_ok (RLO := RLO) img V HV).
Qed.

(** C2: Spotlight without libfuse's option -s, on the files of
    [main_serves_volume] and with requests within the same terms: in whatever order
    and on however many threads they come, and however these take turns at the
    cache, at the lock of the disk and its reads, the program mounts the image, none
    of them ends it, and every response that libfuse passes on is the one of the
    volume in the bytes of the image. *)
Theorem main_serves_threads argv evs path c fd img V Q status p :
  parses_as argv evs -> Forall event_ok evs -> image_path evs = Some path ->
  env_open sys path = Some (fopen_content c None, fd) -> 0 <= fd ->
  6 <= zlen c -> compressed_as fuel junk c img -> 2048 <= zlen img < 2 ^ 62 ->
  env_signal sys = true ->
  (forall f, log_path evs None = Some f -> env_create sys f = true) ->
  serves_threads filler b0 (kept false evs) Q status -> p_fs p = fs_statics ->
  image_magic img = 0xEF53 -> holds_all img V Q ->
  exists p' tr, main filler sys argv p = Ok (0, p') /\ p_trace p' = p_trace p ++ tr /\
    Forall (fun qr => says (snd qr) (spec filler b0 V (fst qr))) tr /\
    strs p' = strs p /\ p_stderr p' = p_stderr p ++ if status =? 0 then [] else usage.
Proof.
  intros Hargv Hevs Hpath Hopen Hfd Hl Hc Himg Hsig Hlog Hserve Hp Hmag Hholds.
  destruct (starts_with argv evs path c fd img Hargv Hevs Hpath Hopen Hfd Hl Hc Himg) as (i & H & Hstart).
  destruct Hholds as [HV HQ].
  pose (RLO := layer_ok ndebug (available_readers ndebug fuel junk) i).
  destruct (main_run (RLO := RLO) filler sys argv evs path img Hstart status
    (Forall (fun qr => says (snd qr) (spec filler b0 V (fst qr)))) p)
    as (p' & tr & Hrun & Hrs & Htr & Hrest); try done; [|by exists p', tr].
  apply (threads_session (RLO := RLO) filler b0 evs img V Q status Hserve);
    [lia|apply (vo_gdt _ _ HV)|exact (volume_on_repr (RLO := direct_ok) img V HV)|].
  intros q Hq. exact (request_on_ok (RLO := direct_ok) img V HV q (HQ q Hq)).
Qed.

(** A read that the file is too short for. *)
Lemma pread_cut f n off :
  f_bad f = None -> 0 <= off -> 0 < n -> zlen (f_content f) < off + n ->
  exists k d, pread f n off = (k, d) /\ 0 <= k < n.
Proof.
  intros Hb Ho Hn Hl. unfold pread, io_data, io_fault, io_end. rewrite Hb.
  rewrite (proj2 (Z.ltb_ge off 0)) by lia. cbn [andb]. do 2 eexists. split; [done|].
  pose proof (zlen_nonneg (slice off (Z.min n (zlen (f_content f) - off)) (f_content f))).
  split; [done|]. destruct (Z.le_gt_cases 0 (Z.min n (zlen (f_content f) - off))) as [Hm|Hm].
  - pose proof (zlen_slice_le off (Z.min n (zlen (f_content f) - off)) (f_content f) Hm). lia.
  - unfold slice. rewrite (Z2Nat.nonpos (Z.min _ _)), take_0 by lia. rewrite zlen_nil. lia.
Qed.

(** C36: a plain file that ends in front of the magic number: the probe does not
    get to its tests of the result of [disk_read], because an assertion of
    [__disk_read] aborts the process. *)
Theorem main_aborts_on_short_image argv evs path c fd p :
  parses_as argv evs -> Forall event_ok evs -> image_path evs = Some path ->
  env_open sys path = Some (fopen_content c None, fd) -> 0 <= fd ->
  6 <= zlen c < 1082 -> ~ is_gzip c -> ~ is_xz c -> p_fs p = fs_statics ->
  main filler sys argv p = Err Abort.
Proof.
  intros Hargv Hevs Hpath Hopen Hfd Hl Hg Hx Hp. unfold main. apply bind_Err.
  unfold start_fuse, get_supported_fuse_impl, available_fuse_implementations.
  cbn [FuseMain.is_supported]. do 2 apply bind_Err. unfold ext4fuse_is_supported.
  rewrite (bind_Ok _ _ p tt _) by done. rewrite (bind_Ok _ _ _ tt _) by done.
  rewrite (bind_Ok (fuse_opt_parse e4f_opts e4f_opt_proc argv) _ _ (0, kept false evs) (begun evs p)).
  2:{ rewrite Hargv. by apply run_events_ok. }
  cbn [fst]. change (0 =? -1) with false. cbv iota.
  rewrite (bind_Ok get _ _ (begun evs p) (begun evs p)) by done.
  set (p1 := begun evs p).
  assert (H1 : p_disk p1 = Some (fresh (dom (strs p))) /\
     strs p1 = <[fresh (dom (strs p)) := path]> (strs p) /\ p_fs p1 = fs_statics)
    by (unfold p1, begun, parsed; by rewrite Hpath).
  destruct H1 as (H1 & H2 & H3). rewrite H1.
  rewrite (bind_Ok (text _) _ _ path p1) by (unfold text; by rewrite H2, lookup_insert_eq).
  set (d := mkDisk fd (Some (fopen_content c None)) (rl_init : option CompressionReader)).
  rewrite (bind_Ok _ _ _ 0 (set_fs (set_disk d fs_statics) p1)).
  2:{ unfold in_fs, on_disk, zoom, disk_open. rewrite Hopen, H3.
      by rewrite (proj2 (Z.ltb_ge fd 0)) by lia. }
  change (0 <? 0) with false. cbv iota. apply bind_Err. unfold read_disk_magic.
  change disk_magic_offset with 1080. apply bind_Err.
  destruct (raw_layer_inv ndebug fuel junk c ltac:(lia) Hg Hx) as (Hsel & _).
  destruct (compression_reader_alloc_run ndebug (available_readers ndebug fuel junk) c raw_impl c
    Hsel (eq_refl : @ro_decodes raw_impl raw_ok c c)) as (st & f & Halloc & _ & Hfc & Hfb).
  destruct (pread_cut f 2 1080 Hfb ltac:(lia) ltac:(lia) ltac:(rewrite Hfc; lia)) as (k & data & Hk & Hr).
  unfold in_fs, disk_read, on_disk, zoom. cbn [p_fs set_fs st_disk set_disk].
  assert (Hread : __disk_read 1080 2 d = Err Abort).
  { unfold __disk_read. rewrite (bind_Ok get _ d d d) by done.
    unfold d at 1. cbn [disk_fd]. rewrite (proj2 (Z.leb_le 0 fd)) by lia.
    rewrite (bind_Ok (ASSERT true) _ d tt d) by done. unfold pread_wrapper.
    rewrite (bind_Ok _ _ d (k, data) (mkDisk fd (Some f) (Some (existT raw_impl st)))).
    - apply bind_Err. cbn [fst]. rewrite u64_small by lia.
      by rewrite (proj2 (Z.eqb_neq k 2)) by lia.
    - unfold _pread, d. cbn [disk_file read_layer rl_read_wrapper rl_init image_layer layer].
      unfold read_wrapper, bind, get, zoom, modify, ret. cbn [fst snd]. rewrite Halloc.
      cbn [fst snd]. unfold compression_read. cbn [fst snd raw_impl Reader.read].
      unfold raw_read_read, bind, get, ret. cbn [fst]. rewrite Hk. cbn [disk_fd].
      by rewrite s32_small by lia. }
  by rewrite Hread.
Qed.
End spotlight.
