(* ===== verification/Witness.v ===== *)
(** * A concrete image

    A file system of seven blocks of 1024 bytes: boot block, super block, group
    descriptors, an inode table of 8 inodes, the root directory, one file block
    and a directory with a long name; read through the raw reader.  The theorems of the development are
    applied to it, which shows that their hypotheses hold together. *)
From Stdlib Require Import ZArith Lia Strings.Byte.
From stdpp Require Import base numbers list option gmap strings.
From S2P Require Import Prelude Clib Layout Disk Reader Dcache State Super Extents Inode Lookup Ops.

(** ** The image *)
Definition w_super : bytes := Eval vm_compute in
  set_fld ext4_super_block "s_blocks_count_lo" 7
  (set_fld ext4_super_block "s_blocks_per_group" 8192
  (set_fld ext4_super_block "s_inodes_per_group" 8
  (set_fld ext4_super_block "s_inode_size" 128
  (set_fld ext4_super_block "s_magic" 0xEF53 (zeros 1024))))).

Definition w_gdesc : bytes := Eval vm_compute in
  set_fld ext4_group_desc "bg_inode_table_lo" 3 (zeros 32).

(** Inode 2: the root directory, by block pointers. *)
Definition w_root : bytes := Eval vm_compute in
  set_fld ext4_inode "i_mode" 0x41ED (set_fld ext4_inode "i_links_count" 2
  (set_fld ext4_inode "i_size_lo" 1024 (splice 40 (le_encode 4 4) (zeros 128)))).
(** Inode 3: a file of five bytes, by one extent. *)
Definition w_file : bytes := Eval vm_compute in
  set_fld ext4_inode "i_mode" 0x81A4 (set_fld ext4_inode "i_links_count" 1
  (set_fld ext4_inode "i_size_lo" 5 (set_fld ext4_inode "i_flags" EXT4_EXTENTS_FL
  (splice 40 (le_encode 2 EXT4_EXT_MAGIC ++ le_encode 2 1)
  (splice 52 (le_encode 4 0 ++ le_encode 2 1 ++ le_encode 2 0 ++ le_encode 4 5)
     (zeros 128)))))).
(** Inode 4: a symbolic link to "f". *)
Definition w_link : bytes := Eval vm_compute in
  set_fld ext4_inode "i_mode" 0xA1FF (set_fld ext4_inode "i_links_count" 1
  (set_fld ext4_inode "i_size_lo" 1 (splice 40 [Byte.x66] (zeros 128)))).
(** Inode 5: a file of 1500 bytes without blocks. *)
Definition w_sparse : bytes := Eval vm_compute in
  set_fld ext4_inode "i_mode" 0x81A4 (set_fld ext4_inode "i_size_lo" 1500 (zeros 128)).

(** Inode 6: a directory. *)
Definition w_subdir : bytes := Eval vm_compute in
  set_fld ext4_inode "i_mode" 0x41ED (set_fld ext4_inode "i_links_count" 2
  (set_fld ext4_inode "i_size_lo" 1024 (splice 40 (le_encode 4 6) (zeros 128)))).

Definition w_dent (ino rec_len : Z) (nm : bytes) : bytes :=
  le_encode 4 ino ++ le_encode 2 rec_len ++ le_encode 1 (zlen nm) ++ [Byte.x00] ++ nm.
Definition w_dir : bytes := Eval vm_compute in
  splice 0 (w_dent 2 12 [Byte.x2e])
  (splice 12 (w_dent 2 12 [Byte.x2e; Byte.x2e])
  (splice 24 (w_dent 3 12 [Byte.x66])
  (splice 36 (w_dent 4 12 [Byte.x6c])
  (splice 48 (w_dent 6 976 [Byte.x64]) (zeros 1024))))).
Definition w_entries : list dirent := [
  mkDirent 2 [Byte.x2e] 12; mkDirent 2 [Byte.x2e; Byte.x2e] 24;
  mkDirent 3 [Byte.x66] 36; mkDirent 4 [Byte.x6c] 48; mkDirent 6 [Byte.x64] 1024].
(** One name of 255 characters. *)
Definition w_long : bytes := replicate 255 Byte.x61.
Definition w_dir2 : bytes := Eval vm_compute in splice 0 (w_dent 3 1024 w_long) (zeros 1024).
Definition w_entries2 : list dirent := [mkDirent 3 w_long 1024].
Definition w_hello : bytes := [Byte.x68; Byte.x65; Byte.x6c; Byte.x6c; Byte.x6f].

Definition w_img : bytes := Eval vm_compute in
  replicate 1024 Byte.x55 ++ w_super ++ splice 0 w_gdesc (zeros 1024) ++
  splice 128 (w_root ++ w_file ++ w_link ++ w_sparse ++ w_subdir) (zeros 1024) ++ w_dir ++
  splice 0 w_hello (zeros 1024) ++ w_dir2.

Definition w_env : env := image_env w_img.
Definition w_tree (n : Z) : option (list dirent) :=
  if n =? 2 then Some w_entries else if n =? 6 then Some w_entries2 else None.

Lemma w_zlen : zlen w_img = 7168.
Proof. reflexivity. Qed.

Lemma w_image_super : image_super w_img = w_super.
Proof. reflexivity. Qed.

Lemma w_super_wf : super_wf w_super.
Proof. split; by vm_compute. Qed.
Lemma w_env_wf : super_wf (e_super w_env).
Proof. apply w_super_wf. Qed.
Lemma w_bsize : bsize (e_super w_env) = 1024.
Proof. reflexivity. Qed.

Lemma w_gdt_wf : gdt_wf w_img w_super.
Proof. split; by vm_compute. Qed.

(** ** Its inodes, through any reader *)

Section w_image.
Context {R : Type} `{RLO : ReadLayerOk R}.

Lemma w_inode n ino :
  2 <= n <= 8 -> inode_bytes w_env n = ino ->
  inode_off w_env n + 128 <= 7168 -> evals w_env (inode_get_by_number n) (Ok (0, ino)).
Proof.
  intros Hn <- Hoff.
  pose proof (inode_get_by_number_run w_env w_env_wf n eq_refl w_gdt_wf ltac:(lia)) as Hr.
  cbv zeta in Hr. change (zlen (e_img w_env)) with 7168 in Hr.
  change (sb_get "s_inodes_per_group" (e_super w_env)) with 8 in Hr.
  change (sb_get "s_inode_size" (e_super w_env)) with 128 in Hr.
  change (n_groups (e_super w_env)) with 1 in Hr. change (Z.min 128 156) with 128 in Hr.
  destruct (Z.eqb_spec n 0); [lia|]. apply Hr; try lia.
  apply Z.div_lt_upper_bound; lia.
Qed.

Lemma w_inode_root : evals w_env (inode_get_by_number 2) (Ok (0, w_root)).
Proof. apply w_inode; [lia|reflexivity|by vm_compute]. Qed.
Lemma w_inode_file : evals w_env (inode_get_by_number 3) (Ok (0, w_file)).
Proof. apply w_inode; [lia|reflexivity|by vm_compute]. Qed.
Lemma w_inode_link : evals w_env (inode_get_by_number 4) (Ok (0, w_link)).
Proof. apply w_inode; [lia|reflexivity|by vm_compute]. Qed.
Lemma w_inode_subdir : evals w_env (inode_get_by_number 6) (Ok (0, w_subdir)).
Proof. apply w_inode; [lia|reflexivity|by vm_compute]. Qed.
Lemma w_inode_sparse : evals w_env (inode_get_by_number 5) (Ok (0, w_sparse)).
Proof. apply w_inode; [lia|reflexivity|by vm_compute]. Qed.

(** A direct block pointer. *)
Lemma w_direct ino lb pb :
  128 <= zlen ino -> uses_extents ino = false -> 0 <= lb < 12 ->
  lb <= blocks_of (i_size ino) 1024 -> i_block ino lb = pb ->
  evals w_env (inode_get_data_pblock ino lb) (Ok (pb, 1)).
Proof.
  intros Hl Hu Hlb Hsize <-. pose proof (pblock_indirect_run w_env w_env_wf ino lb Hl Hu) as Hr.
  rewrite w_bsize in Hr. unfold block_path in Hr.
  rewrite (proj2 (Z.ltb_lt lb 12)) in Hr by lia. by apply Hr; [lia| |].
Qed.

(** A directory of one block. *)
Lemma w_one_block ino pb content :
  128 <= zlen ino -> uses_extents ino = false -> i_size ino = 1024 -> i_block ino 0 = pb ->
  zlen content = 1024 -> 0 <= pb <= 6 -> slice (pb * 1024) 1024 w_img = content ->
  dir_repr w_env ino content.
Proof.
  intros Hl Hu Hs Hb Hc Hpb Hsl.
  split; rewrite ?w_bsize; change (zlen (e_img w_env)) with 7168; rewrite ?Hc; try done.
  intros lb Hlb Hlt. assert (lb = 0) as -> by lia. exists pb, 1.
  split; [apply w_direct; [done|done|lia| |done]; by rewrite Hs|].
  split; [lia|]. split; [lia|]. change (e_img w_env) with w_img. rewrite Hsl.
  change (0 * 1024) with 0. rewrite <- Hc. apply slice_all.
Qed.

Lemma w_dir_repr : dir_repr w_env w_root w_dir.
Proof. by apply (w_one_block w_root 4). Qed.
Lemma w_dir2_repr : dir_repr w_env w_subdir w_dir2.
Proof. by apply (w_one_block w_subdir 6). Qed.

Lemma w_dir_entries : dir_entries (bsize (e_super w_env)) w_dir 0 w_entries.
Proof.
  rewrite w_bsize.
  apply (dir_entry 1024 w_dir 0); [by vm_compute|by vm_compute|by vm_compute|].
  apply (dir_entry 1024 w_dir 12); [by vm_compute|by vm_compute|by vm_compute|].
  apply (dir_entry 1024 w_dir 24); [by vm_compute|by vm_compute|by vm_compute|].
  apply (dir_entry 1024 w_dir 36); [by vm_compute|by vm_compute|by vm_compute|].
  apply (dir_entry 1024 w_dir 48); [by vm_compute|by vm_compute|by vm_compute|].
  apply dir_end.
Qed.
Lemma w_dir2_entries : dir_entries (bsize (e_super w_env)) w_dir2 0 w_entries2.
Proof.
  rewrite w_bsize. apply (dir_entry 1024 w_dir2 0); [by vm_compute|by vm_compute|by vm_compute|].
  apply dir_end.
Qed.

Lemma w_fs_repr : fs_repr w_env w_tree.
Proof.
  intros n es. unfold w_tree.
  destruct (Z.eqb_spec n 2) as [->|]; [|destruct (Z.eqb_spec n 6) as [->|]; [|done]];
    intros [= <-]; (split; [done|]).
  - exists w_root, w_dir. split; [apply w_inode_root|]. split; [reflexivity|].
    split; [apply w_dir_repr|apply w_dir_entries].
  - exists w_subdir, w_dir2. split; [apply w_inode_subdir|]. split; [reflexivity|].
    split; [apply w_dir2_repr|apply w_dir2_entries].
Qed.

Lemma w_etree : etree w_img 1024 0 (slice 40 60 w_file) [mkExtent 0 1 5].
Proof.
  exists 1. split; [split; by vm_compute|]. split; [|reflexivity].
  split; intros i; intros; assert (i = 0) as -> by lia; [reflexivity|split; by vm_compute|lia].
Qed.

Lemma w_file_repr : file_repr w_env w_file w_hello.
Proof.
  apply (file_repr_extents w_env w_env_wf w_file w_hello 0 [mkExtent 0 1 5]);
    [by vm_compute|reflexivity|by vm_compute|by vm_compute|reflexivity|apply w_etree|by left|].
  rewrite w_bsize. change (zlen w_hello) with 5. intros lb Hlb Hlt.
  assert (lb = 0) as -> by lia. left. exists (mkExtent 0 1 5).
  split; [apply elem_of_cons; by left|]. split; [by vm_compute|]. split; [done|].
  split; [by vm_compute|reflexivity].
Qed.

End w_image.

(** ** The stack under it *)
Definition w_readers : list CompressionReaderImpl := [raw_impl].
#[global] Instance w_layer : ReadLayer (option CompressionReader) := layer true w_readers.
#[global] Instance w_layer_ok : ReadLayerOk (option CompressionReader) :=
  layer_ok true w_readers raw_impl.

Definition w_disk : disk (option CompressionReader) :=
  mkDisk 3 (Some (fopen_content w_img None)) None.
Definition w_boot : fs (option CompressionReader) := mkFs w_disk (zeros 1024) [] dcache_statics.
Definition w_fs : fs (option CompressionReader) :=
  mkFs w_disk w_super (gdt w_img w_super) init_dcache.
Lemma w_disk_ok : disk_ok w_img w_disk.
Proof.
  split; [done|]. rewrite w_zlen. split; [done|]. exists (fopen_content w_img None).
  split; [done|]. exists w_img. split; [|done]. apply sel_here.
  intros f Hc Hb _ _. by exists f.
Qed.

Lemma w_st_env : st_env w_env w_fs.
Proof. split; [apply w_disk_ok|]. by split. Qed.

Lemma w_lookup_inv : lookup_inv w_env w_tree w_fs.
Proof.
  split; [apply w_st_env|]. exists (fun _ => []).
  apply init_dcache_sound.
Qed.

(** ** The theorems applied *)

Definition w_path (c : Byte.byte) : bytes := [SLASH; c].

Lemma w_names c n :
  c <> SLASH -> c <> Byte.x00 -> resolve w_tree 2 [[c]] = Some n -> names w_tree (w_path c) n.
Proof.
  intros Hs H0 Hr. assert (Hc : components (w_path c) = [[c]]).
  { unfold components, w_path. cbn [comps_acc]. rewrite decide_True by done.
    by rewrite decide_False by done. }
  split; [split| |]; [| |done|].
  - unfold w_path. rewrite !elem_of_cons. intros [?|[?|?%elem_of_nil]]; done || congruence.
  - rewrite Hc. by repeat constructor.
  - by rewrite Hc.
Qed.

Lemma w_names_f : names w_tree (w_path Byte.x66) 3.
Proof. by apply w_names. Qed.
Lemma w_names_l : names w_tree (w_path Byte.x6c) 4.
Proof. by apply w_names. Qed.
Lemma w_names_d : names w_tree (w_path Byte.x64) 6.
Proof. by apply w_names. Qed.
Lemma w_names_missing : names w_tree (w_path Byte.x78) 0.
Proof. by apply w_names. Qed.
Lemma w_names_root : names w_tree [SLASH] 2.
Proof. split; [split| |]; [|constructor|done|done]. intros Hi. by apply elem_of_cons in Hi as [?|?%elem_of_nil]. Qed.

Lemma op_read_witness :
  evals w_env (op_read (zeros 8) 8 0 3) (Ok (5, w_hello ++ zeros 3)).
Proof.
  exact (op_read_ok w_env w_env_wf w_file w_hello 8 0 3 (zeros 8) w_inode_file w_file_repr
    ltac:(lia) ltac:(lia) eq_refl (fun _ => or_introl eq_refl)).
Defined.

Lemma inode_get_idx_by_path_witness :
  wp (inode_get_idx_by_path (w_path Byte.x66)) (resolved w_env w_tree 3) w_fs.
Proof.
  exact (inode_get_idx_by_path_ok w_env w_env_wf w_tree (w_path Byte.x66) w_fs 3 w_fs_repr
    w_lookup_inv (nm_short _ _ _ w_names_f) (nm_abs _ _ _ w_names_f) (nm_resolve _ _ _ w_names_f)).
Defined.

Lemma op_init_witness : wp op_init (fun _ s' => lookup_inv w_env w_tree s') w_boot.
Proof.
  exact (op_init_ok w_img w_tree w_boot w_disk_ok eq_refl ltac:(by rewrite w_zlen)
    w_super_wf w_gdt_wf).
Defined.

(** A filler that collects the names and never stops. *)
Definition w_filler (b : list bytes) (nm : bytes) (off : Z) : Z * list bytes := (0, b ++ [nm]).

Lemma w_no_nul : Forall no_nul w_entries.
Proof. unfold no_nul. apply (bool_decide_unpack _). by vm_compute. Qed.


Lemma read_wrapper_witness :
  exists f' r', read_wrapper true w_readers 2048 32 (fopen_content w_img None, None)
      = Ok ((32, w_gdesc), (f', r')) /\ layer_inv w_readers w_img w_img raw_impl f' r'.
Proof.
  exact (read_wrapper_ok true w_readers w_img w_img raw_impl (fopen_content w_img None) None 2048 32
    (conj (sel_here w_img raw_impl [] (fun f Hc Hb _ _ => ex_intro _ f (conj eq_refl (conj Hc Hb))))
       (conj eq_refl eq_refl))
    ltac:(lia) ltac:(lia) ltac:(by rewrite w_zlen)).
Defined.

Lemma extent_get_pblock_mapped_witness :
  evals w_env (extent_get_pblock 1 (slice 40 60 w_file) 0 1) (Ok (5, 1)).
Proof.
  exact (extent_get_pblock_mapped w_env w_env_wf 0 _ _ (mkExtent 0 1 5) 0 1 1 w_etree
    ltac:(apply elem_of_cons; by left) ltac:(lia) ltac:(by vm_compute) ltac:(lia)).
Defined.

Lemma extent_get_pblock_beyond_witness :
  evals w_env (extent_get_pblock 1 (slice 40 60 w_file) 7 1) (Ok (0, 1)).
Proof.
  apply (extent_get_pblock_beyond w_env w_env_wf 0 _ _ 7 1 1 w_etree); [by left|lia| |lia].
  intros x Hx. apply elem_of_cons in Hx as [->|Hx]; [by vm_compute|by apply elem_of_nil in Hx].
Defined.

Lemma inode_get_data_pblock_indirect_witness :
  evals w_env (inode_get_data_pblock w_root 0) (Ok (4, 1)).
Proof.
  exact (inode_get_data_pblock_indirect w_env w_env_wf w_root 0 ltac:(by vm_compute) eq_refl
    ltac:(lia) ltac:(by vm_compute) I).
Defined.

Lemma inode_dentry_get_witness :
  evals w_env (inode_dentry_get w_root 24 (dctx w_env w_dir 0))
    (Ok (Some (drop 24 w_dir), dctx w_env w_dir 0)).
Proof.
  exact (inode_dentry_get_ok w_env w_env_wf w_root w_dir 24 0 w_dir_repr ltac:(by vm_compute)).
Defined.

Lemma inode_get_by_number_witness : evals w_env (inode_get_by_number 3) (Ok (0, w_file)).
Proof.
  exact (inode_get_by_number_ok w_env w_env_wf 3 eq_refl w_gdt_wf ltac:(lia) ltac:(by vm_compute)
    ltac:(by vm_compute) ltac:(by vm_compute) ltac:(by vm_compute) ltac:(by vm_compute)).
Defined.

Lemma w_init_rep : dcache_rep init_dcache (fun _ => []).
Proof. apply (init_dcache_sound w_tree). Qed.
Definition w_f : bytes := [Byte.x66].
Lemma w_token : token w_f 1.
Proof. split; [by vm_compute|]. apply (bool_decide_unpack _). by vm_compute. Qed.

(** The cache with "f" under the root. *)
Definition w_dcache : dcache := inserted init_dcache root (set_inode 2 calloc_entry) w_f 1 3.
Lemma w_dcache_rep : dcache_rep w_dcache (<[root := [1%nat]]> (fun _ => [])).
Proof.
  exact (inserted_rep init_dcache _ root (set_inode 2 calloc_entry) w_f 1 3 w_init_rep eq_refl
    w_token ltac:(by vm_compute)).
Qed.

Lemma dcache_lookup_witness :
  exists d', dcache_lookup None w_f 1 w_dcache = Ok (Some 1%nat, d') /\ same_nodes w_dcache d' /\
    dcache_rep d' (<[root := [1%nat]]> (<[root := [1%nat]]> (fun _ => []))).
Proof.
  exact (dcache_lookup_refines w_dcache _ None w_f 1 w_dcache_rep (ex_intro _ _ eq_refl) w_token).
Defined.

Lemma dcache_insert_witness :
  exists d', dcache_insert None w_f 1 3 init_dcache = Ok (Some 1%nat, d') /\
    dcache_rep d' (<[root := [1%nat]]> (fun _ => [])) /\
    name_of d' 1 = Some w_f /\ inode_of d' 1 = Some 3 /\ next_addr d' = 2%nat /\
    forall b, b <> 1%nat -> name_of d' b = name_of init_dcache b /\
      inode_of d' b = inode_of init_dcache b.
Proof.
  exact (proj1 (dcache_insert_refines init_dcache _ None (set_inode 2 calloc_entry) w_f 1 3
    w_init_rep eq_refl (fun _ => ltac:(done)) w_token) ltac:(by vm_compute)).
Defined.

Lemma dcache_insert_lookup_witness :
  wp (let* a := dcache_insert None w_f 1 3 in
      let* b := dcache_lookup None w_f 1 in
      let* i := dcache_get_inode b in ret (a, b, i))
     (fun r d' => same_nodes w_dcache d' /\ r = (Some 1%nat, Some 1%nat, 3)) init_dcache.
Proof.
  exact (dcache_insert_lookup init_dcache _ None (set_inode 2 calloc_entry) w_f 1 3
    w_init_rep eq_refl (fun _ => ltac:(done)) w_token ltac:(done)).
Defined.

Lemma super_group_fill_witness :
  exists d, super_group_fill w_fs = Ok (0, set_disk d (set_gdesc [w_gdesc] w_fs)) /\ disk_ok w_img d.
Proof.
  exact (super_group_fill_ok w_img w_super w_fs w_disk_ok eq_refl w_super_wf w_gdt_wf).
Defined.

Lemma super_group_inode_table_offset_witness :
  evals w_env (super_group_inode_table_offset 2) (Ok 3072).
Proof.
  exact (proj1 (super_group_inode_table_offset_spec w_env 2 w_env_wf eq_refl w_gdt_wf ltac:(lia))
    ltac:(by vm_compute)).
Defined.

Lemma ALIGN_TO_witness : ALIGN_TO 1500 (2 ^ 10) = Ok 2048.
Proof. exact (proj1 (ALIGN_TO_spec 1500 10 ltac:(lia) ltac:(lia)) ltac:(lia)). Defined.

Lemma get_path_token_len_witness : get_path_token_len w_f = Ok 1.
Proof.
  exact (proj1 (get_path_token_len_spec w_f ltac:(apply (bool_decide_unpack _); by vm_compute))
    ltac:(by vm_compute)).
Defined.

Lemma op_open_witness :
  wp (op_open (w_path Byte.x66) 0 9) (fun r s' => lookup_inv w_env w_tree s' /\ r = (0, 3)) w_fs.
Proof.
  exact (op_open_ok w_env w_env_wf w_tree w_fs_repr (w_path Byte.x66) 3 0 9 w_fs w_names_f
    w_lookup_inv).
Defined.

Lemma op_getattr_witness :
  wp (op_getattr (w_path Byte.x78))
    (fun r s' => lookup_inv w_env w_tree s' /\ r = (-2, stat_zero)) w_fs.
Proof.
  exact (op_getattr_ok w_env w_env_wf w_tree w_fs_repr (w_path Byte.x78) 0 w_file w_fs
    w_names_missing w_lookup_inv ltac:(by vm_compute) (evals_inode_0 w_env)).
Defined.

Lemma w_link_text : link_text w_env w_link w_f.
Proof. split; [reflexivity|]. change (i_size w_link) with 1. reflexivity. Qed.
Lemma w_no_nul_f : Byte.x00 ∉ w_f.
Proof. apply (bool_decide_unpack _). by vm_compute. Qed.

Lemma op_readlink_witness :
  wp (op_readlink (w_path Byte.x6c) (zeros 16) 16)
    (fun r s' => lookup_inv w_env w_tree s' /\
       fst r = 0 /\ cstr (snd r) = Some w_f /\ zlen (snd r) = 16) w_fs.
Proof.
  pose proof (op_readlink_ok w_env w_env_wf w_tree w_fs_repr (w_path Byte.x6c) 4 w_link w_f
    (zeros 16) 16 w_fs w_names_l w_lookup_inv w_inode_link ltac:(by vm_compute) w_link_text
    w_no_nul_f ltac:(by vm_compute) ltac:(by vm_compute) eq_refl ltac:(lia)) as Hw.
  assert (Hm : S_ISLNK (le_at 0 2 w_link) = true) by reflexivity.
  rewrite Hm in Hw. exact Hw.
Defined.

Lemma pread_wrapper_freebsd_witness :
  exists d', pread_wrapper_freebsd 32 2048 w_disk = Ok ((32, w_gdesc), d') /\ disk_ok w_img d'.
Proof.
  exact (pread_wrapper_freebsd_ok w_img w_disk 2048 32 w_disk_ok ltac:(lia) ltac:(lia)
    ltac:(by vm_compute)).
Defined.

Lemma w_long_token : token w_long 255.
Proof. split; [by vm_compute|]. apply (bool_decide_unpack _). by vm_compute. Qed.

Lemma long_name_poisons_witness :
  exists a d' d'',
    (let* dc_entry := dcache_insert None w_long 255 3 in dcache_insert dc_entry w_f 1 7) init_dcache
      = Ok (Some a, d') /\
    dcache_lookup None w_f 1 d' = Ok (Some a, d'') /\
    dcache_get_inode (Some a) d'' = Ok (7, d'').
Proof.
  exact (long_name_poisons_root w_tree init_dcache (fun _ => []) None w_long 255 3 w_f 1 7
    (init_dcache_sound w_tree) (ex_intro _ _ eq_refl)
    w_long_token ltac:(by vm_compute) w_token ltac:(by vm_compute)).
Defined.

(** A leaf with one extent, for block 3. *)
Definition w_leaf : bytes :=
  le_encode 2 EXT4_EXT_MAGIC ++ le_encode 2 1 ++ zeros 8 ++
  le_encode 4 3 ++ le_encode 2 1 ++ le_encode 2 0 ++ le_encode 4 5.
Lemma extent_get_pblock_hole_witness :
  evals w_env (extent_get_pblock 1 w_leaf 0 1) (Ok (2, 4)).
Proof.
  refine (proj1 (extent_get_pblock_hole w_env w_leaf 1 0 0 1 0 _ _ _ _ _ _)).
  - split; by vm_compute.
  - split; intros i; intros; assert (i = 0) as -> by lia; [reflexivity|split; by vm_compute|lia].
  - lia.
  - lia.
  - by vm_compute.
  - lia.
Defined.

Lemma first_read_hole_witness :
  evals w_env (first_read w_sparse (zeros 4) 4 100) (Ok (4, replicate 4 Byte.x55)).
Proof.
  exact (first_read_hole w_env w_env_wf w_sparse 4 100 (zeros 4)
    (w_direct w_sparse 0 0 ltac:(by vm_compute) eq_refl ltac:(lia) ltac:(by vm_compute) eq_refl)
    ltac:(lia) ltac:(by vm_compute) ltac:(by vm_compute) ltac:(lia) ltac:(by vm_compute) eq_refl
    ltac:(by vm_compute)).
Defined.

Lemma op_readdir_overflow_witness :
  wpx (op_readdir w_filler (w_path Byte.x64) (zeros 255) 0 []) (fun _ _ => False)
    (fun f => f = UB) w_fs.
Proof.
  exact (op_readdir_overflow w_env w_env_wf w_tree w_fs_repr w_filler (w_path Byte.x64) (zeros 255) 6
    w_subdir w_dir2 0 [] (mkDirent 3 w_long 1024) [] [] w_fs w_names_d w_lookup_inv w_inode_subdir
    w_dir2_repr w_dir2_entries ltac:(unfold no_nul; apply (bool_decide_unpack _); by vm_compute)
    (fun _ _ _ => eq_refl) (Forall_nil_2 _) ltac:(by vm_compute) eq_refl eq_refl).
Defined.

Lemma op_readlink_unchecked_witness :
  wpx (op_readlink (w_path Byte.x78) (zeros 16) 16) (fun _ _ => False) (fun f => f = UB) w_fs.
Proof.
  exact (op_readlink_unchecked w_env w_env_wf w_tree w_fs_repr (w_path Byte.x78) 0 [] (zeros 16) 16
    w_fs w_names_missing w_lookup_inv (evals_inode_0 w_env) ltac:(done)).
Defined.
