(* ===== verification/LookupConcWitness.v ===== *)
(** * Two interleaved path lookups on the image of Witness

    Both threads search the root directory and insert their entry next to each
    other, with their steps, reads and accesses to the cache alike, taking turns. *)
From Stdlib Require Import ZArith Lia Strings.Byte.
From stdpp Require Import base numbers list option relations.
From S2P Require Import Prelude Clib Disk Reader Dcache DcacheConc State Threads DiskMutex Reads Inode Lookup LookupConc Witness.

Definition conc_pool : Type := mpool (option CompressionReader) Z bytes.
Definition conc_start : conc_pool :=
  ((w_fs, None), [(w_path Byte.x66, Outside (Running (lookup_prog (w_path Byte.x66))));
                  (w_path Byte.x64, Outside (Running (lookup_prog (w_path Byte.x64))))]).
Definition take_turns : list nat := concat (replicate 60 [0; 1]%nat).
Definition conc_run (sched : list nat) : conc_pool := fold_left (fun c i => run_mjob i c) sched conc_start.

Lemma conc_path c n : c <> SLASH -> c <> Byte.x00 -> resolve w_tree 2 [[c]] = Some n -> path_ok w_tree (w_path c).
Proof.
  intros H1 H2 H3. destruct (w_names c n H1 H2 H3) as [Hs Ha Hr]. split; [done|]. split; [done|]. by exists n.
Qed.

Lemma conc_reachable sched : rtc (mpool_step lookup_prog (path_ok w_tree)) ((w_fs, None), []) (conc_run sched).
Proof.
  etrans; [|apply run_mjobs_steps].
  eapply rtc_l; [apply mpool_start, (conc_path Byte.x66 3); done|].
  eapply rtc_l; [apply mpool_start, (conc_path Byte.x64 6); done|]. done.
Qed.

Lemma conc_returned :
  (fun q => (fst q, mreturned (snd q))) <$> snd (conc_run take_turns)
  = [(w_path Byte.x66, Some 3); (w_path Byte.x64, Some 6)].
Proof. by vm_compute. Qed.

Lemma conc_fresh_w : just_mounted w_env ROOT_INODE_N w_fs.
Proof. split; [apply w_st_env|done]. Qed.

Lemma conc_second : exists ts0,
  snd (conc_run take_turns) = ts0 ++ [(w_path Byte.x64, Outside (Running (PRet 6)))].
Proof.
  pose proof conc_returned as H. destruct (snd (conc_run take_turns)) as [|[p1 x1] [|[p2 x2] [|]]]; try done.
  exists [(p1, x1)]. injection H as _ _ -> Hx. destruct x2 as [[[n| | | | |]|]| | |]; cbn in Hx; try done. by injection Hx as ->.
Qed.

Lemma concurrent_lookups_witness : exists s ts,
  rtc (mpool_step lookup_prog (path_ok w_tree)) ((w_fs, None), []) (s, ts) /\
  (w_path Byte.x64, Outside (Running (PRet 6))) ∈ ts /\
  resolve w_tree ROOT_INODE_N (components (w_path Byte.x64)) = Some 6.
Proof.
  destruct conc_second as [ts0 Hts]. pose proof (conc_reachable take_turns) as Hreach.
  destruct (conc_run take_turns) as [s ts]. cbn [snd] in Hts. subst ts.
  assert (Hin : (w_path Byte.x64, Outside (Running (PRet 6))) ∈ ts0 ++ [(w_path Byte.x64, Outside (Running (PRet 6)))])
    by (apply elem_of_app; right; by apply list_elem_of_singleton).
  exists s, (ts0 ++ [(w_path Byte.x64, Outside (Running (PRet 6)))]). split; [exact Hreach|]. split; [exact Hin|].
  exact (proj2 (concurrent_lookups_ok w_env w_tree w_fs s _ _ _ w_env_wf
    (w_fs_repr (RLO := direct_ok)) conc_fresh_w Hreach Hin) 6 eq_refl).
Defined.

Lemma lookup_thread_witness : exists s',
  rtc malone (Outside (Running (lookup_prog (w_path Byte.x64))), (w_fs, None)) (Outside (Running (PRet 6)), (s', None)).
Proof.
  eexists. apply lookup_thread_sequential. vm_compute. reflexivity.
Defined.

(** Threads that read in one step never fail. *)
Lemma conc_none_failed c : rtc (pool_step lookup_prog (path_ok w_tree)) (w_fs, []) c -> none_failed c.
Proof.
  destruct c as [s ts]. intros Hc. apply Forall_forall. intros [p x] Hx. cbn [snd].
  exact (proj1 (pool_safe w_env (edge w_tree) lookup_prog (path_ok w_tree) _ ROOT_INODE_N
    (lookup_start w_env w_env_wf ltac:(by vm_compute) w_tree (w_fs_repr (RLO := direct_ok)))
    w_fs s ts p x ltac:(done) conc_fresh_w Hc Hx)).
Qed.

(** After 24 steps the first thread reads its directory and the second one waits. *)
Definition conc_waits (c : conc_pool) : bool :=
  match c with
  | ((_, Some O), [(_, Reading _ _ _ _); (_, Waiting _ _ _)]) => true
  | _ => false
  end.
Lemma disk_mutex_refines_witness :
  let c := conc_run (take 24 take_turns) in
  conc_waits c = true /\ mutex_ok c /\ rtc (pool_step lookup_prog (path_ok w_tree)) (w_fs, []) (erase_pool c) /\
  snd (fst (run_mjob 0 (run_mjob 0 c))) = None.
Proof.
  intros c. destruct (disk_mutex_refines lookup_prog (path_ok w_tree) w_fs c conc_none_failed
    (conc_reachable (take 24 take_turns))) as (Hok & Hs & Hfree).
  split; [vm_compute; reflexivity|]. split; [exact Hok|]. split; [exact Hs|].
  apply Hfree. vm_compute. reflexivity.
Defined.
