(* ===== verification/XzWitness.v ===== *)
(** * Small xz-like files

    The parameters of XzReader at a format with the container layout of xz and
    blocks that store their data: one file has a stream with two blocks and
    decompresses to five bytes, the other one has another stream behind it and
    padding behind both.  They show that what the theorems of XzFacts rely on can
    hold together. *)
From Stdlib Require Import ZArith Lia Strings.Byte.
From stdpp Require Import base numbers list option gmap.
From S2P Require Import Prelude Clib Disk Reader DList XzCache XzReader XzFacts.

(** The index field is a list of pairs: the decompressed size of a block and
    its size in the file. *)
Fixpoint sx_blocks (uoff coff : Z) (l : bytes) : list iter_block :=
  match l with
  | u :: p :: l' => mkIterBlock uoff (byte_val u) coff (byte_val p) 1 ::
                    sx_blocks (uoff + byte_val u) (coff + byte_val p) l'
  | _ => []
  end.
Fixpoint sx_total (l : bytes) : Z :=
  match l with _ :: p :: l' => byte_val p + sx_total l' | _ => 0 end.
Fixpoint sx_usize (l : bytes) : Z :=
  match l with u :: _ :: l' => byte_val u + sx_usize l' | _ => 0 end.

(** An index in memory: the blocks, the sizes of their data and of themselves,
    and the size of the streams with their padding. *)
Record sx_idx : Type := mkSxIdx {
  si_blocks : list iter_block; si_usize : Z; si_total : Z; si_file : Z }.
Definition sx_decoded (l : bytes) : sx_idx :=
  mkSxIdx (sx_blocks 0 12 l) (sx_usize l) (sx_total l) (24 + sx_total l + zlen l).
Definition sx_pad (i : sx_idx) (pad : Z) : sx_idx :=
  mkSxIdx (si_blocks i) (si_usize i) (si_total i) (si_file i + pad).
(** The streams of [o] behind those of [i]. *)
Definition sx_behind (i : sx_idx) (b : iter_block) : iter_block :=
  mkIterBlock (si_usize i + uncompressed_file_offset b) (uncompressed_size b)
    (si_file i + compressed_file_offset b) (unpadded_size b) (check b).
Definition sx_cat (i o : sx_idx) : sx_idx :=
  mkSxIdx (si_blocks i ++ (sx_behind i <$> si_blocks o)) (si_usize i + si_usize o)
    (si_total i + si_total o) (si_file i + si_file o).

(** A block's data are [st] bytes of the input, as they are. *)
Definition sx_code (st : Z) (inp : bytes) (avail_out : Z) : Z * Z * bytes * Z :=
  let w := take (Z.to_nat (Z.min st avail_out)) inp in
  (if st <=? zlen w then LZMA_STREAM_END else LZMA_OK, zlen w, w, st - zlen w).

#[export] Instance stored_xz : Lzma := {|
  lzma_index := sx_idx;
  lzma_stream_flags := Z;
  lzma_block := Z;
  index_stream := bytes;
  block_stream := Z;
  flags_version f := 0;
  flags_backward_size f := f;
  lzma_stream_footer_decode b :=
    if decide (slice 10 2 b = [Byte.x59; Byte.x5a]) then inr (le_at 4 4 b) else inl 7;
  lzma_stream_header_decode b :=
    if decide (slice 0 6 b = XZ_MAGIC_HEADER) then inr 0 else inl 7;
  lzma_stream_flags_compare _ _ := LZMA_OK;
  lzma_index_decoder := inr [];
  index_code st inp := (LZMA_STREAM_END, zlen inp, st ++ inp);
  index_decoded := sx_decoded;
  lzma_index_total_size := si_total;
  lzma_index_stream_flags i _ := (LZMA_OK, i);
  lzma_index_stream_padding i pad := (LZMA_OK, sx_pad i pad);
  lzma_index_cat i o := inr (sx_cat i o);
  lzma_index_iter_locate i off :=
    snd <$> list_find (fun b => uncompressed_file_offset b <= off <
                                uncompressed_file_offset b + uncompressed_size b) (si_blocks i);
  lzma_index_blocks := si_blocks;
  lzma_block_header_size_decode b := 4 * b;
  lzma_block_header_decode _ _ header := inr (le_at 1 1 header);
  block_uncompressed_size b := b;
  lzma_block_compressed_size b _ := inr b;
  lzma_block_decoder b := inr b;
  block_code := sx_code |}.

(** Header, the blocks "hel" and "lo", index, footer. *)
Definition sx_index : bytes := [Byte.x03; Byte.x07; Byte.x02; Byte.x06].
Definition sx_footer : bytes := [
  Byte.x11; Byte.x22; Byte.x33; Byte.x44; Byte.x04; Byte.x00; Byte.x00; Byte.x00; Byte.x00; Byte.x01;
  Byte.x59; Byte.x5a].
Definition sx_body : bytes :=
  XZ_MAGIC_HEADER ++ zeros 6 ++
  [Byte.x01; Byte.x03; Byte.x00; Byte.x00; Byte.x68; Byte.x65; Byte.x6c] ++
  [Byte.x01; Byte.x02; Byte.x00; Byte.x00; Byte.x6c; Byte.x6f] ++ sx_index.
Definition sx_file : bytes := Eval vm_compute in sx_body ++ sx_footer.
Definition sx_img : bytes := [Byte.x68; Byte.x65; Byte.x6c; Byte.x6c; Byte.x6f].
Definition sx_joined : sx_idx := Eval vm_compute in sx_decoded sx_index.
(** The same file with a zero byte in the footer's checksum. *)
Definition sx_file0 : bytes := Eval vm_compute in sx_body ++ <[2%nat := Byte.x00]> sx_footer.

Lemma sx_decodes n inp :
  (0 < n <= length inp)%nat -> block_decodes (Z.of_nat n) inp (take n inp).
Proof.
  revert inp. induction n as [n IH] using lt_wf_ind. intros inp Hn.
  assert (Hl : zlen (take n inp) = Z.of_nat n) by (unfold zlen; rewrite length_take; lia).
  apply block_step.
  - intros ->. cbn in Hn. lia.
  - intros k av code used w st' Hk _ Hav. cbn [block_code stored_xz]. unfold sx_code.
    rewrite Hl in Hav. rewrite Z.min_l by lia. rewrite Nat2Z.id, take_take. intros [= <- <- <- <-].
    unfold zlen in *. rewrite length_take. split; [lia|].
    destruct (Z.leb_spec (Z.of_nat n) (Z.of_nat ((n `min` Z.to_nat k) `min` length inp))) as [H|H].
    + left. split; [done|]. by replace (n `min` Z.to_nat k)%nat with n by lia.
    + right. split; [done|]. split; [lia|]. exists (drop (n `min` Z.to_nat k) (take n inp)).
      rewrite <- (take_drop (n `min` Z.to_nat k) (take n inp)) at 1.
      rewrite take_take. do 2 f_equal. lia.
  - intros k av used w st' out' Hk _ Hav. cbn [block_code stored_xz]. unfold sx_code.
    rewrite Hl in Hav. rewrite Z.min_l by lia. rewrite Nat2Z.id, take_take.
    intros [= Hc <- <- <-] Hout. unfold zlen in *. rewrite length_take in *.
    destruct (Z.leb_spec (Z.of_nat n) (Z.of_nat ((n `min` Z.to_nat k) `min` length inp))) as [H|H]; [done|].
    assert (Hmin : ((n `min` Z.to_nat k) `min` length inp = Z.to_nat k)%nat) by lia.
    rewrite Hmin, Nat2Z.id. replace (n `min` Z.to_nat k)%nat with (Z.to_nat k) in Hout by lia.
    assert (out' = take (n - Z.to_nat k) (drop (Z.to_nat k) inp)) as ->.
    { rewrite <- skipn_firstn_comm. rewrite Hout.
      rewrite drop_app_ge by (rewrite length_take; lia). rewrite length_take.
      replace (Z.to_nat k - Z.to_nat k `min` length inp)%nat with 0%nat by lia. done. }
    replace (Z.of_nat n - Z.of_nat (Z.to_nat k)) with (Z.of_nat (n - Z.to_nat k)) by lia.
    apply IH; [lia|]. rewrite length_drop. lia.
Qed.

Definition sx_b1 : iter_block := mkIterBlock 0 3 12 7 1.
Definition sx_b2 : iter_block := mkIterBlock 3 2 19 6 1.

Lemma sx_at1 off : 0 <= off < 3 -> block_at sx_file sx_img off sx_b1 4 3 3 3.
Proof.
  intros Hoff. split; [exact Hoff|done|done|done|done|done|by split|done|done|done|done|].
  apply (sx_decodes 3). vm_compute. lia.
Qed.
Lemma sx_at2 off : 3 <= off < 5 -> block_at sx_file sx_img off sx_b2 4 2 2 2.
Proof.
  intros Hoff. split; [exact Hoff|done|done|done|done|done|by split|done|done|done|done|].
  apply (sx_decodes 2). vm_compute. lia.
Qed.

Lemma sx_locate1 off : 0 <= off < 3 -> lzma_index_iter_locate sx_joined off = Some sx_b1.
Proof. intros Hoff. cbn. rewrite decide_True; [done|cbn; lia]. Qed.
Lemma sx_locate2 off : 3 <= off < 5 -> lzma_index_iter_locate sx_joined off = Some sx_b2.
Proof. intros Hoff. cbn. rewrite decide_False, decide_True; [done|cbn; lia..]. Qed.

Lemma sx_index_ok : xz_index_ok sx_file sx_img sx_joined.
Proof.
  split; [done|done|..].
  - intros off Hoff. change (zlen sx_img) with 5 in Hoff. destruct (Z.lt_ge_cases off 3).
    + exists sx_b1, 4, 3, 3, 3. split; [apply sx_locate1|apply sx_at1]; lia.
    + exists sx_b2, 4, 2, 2, 2. split; [apply sx_locate2|apply sx_at2]; lia.
  - intros off Hoff. change (zlen sx_img) with 5 in Hoff. cbn. rewrite !decide_False; [done|cbn; lia..].
Qed.

Lemma sx_streams : xz_streams sx_file (zlen sx_file) None sx_joined.
Proof.
  apply (xs_first (LZ := stored_xz) sx_file 41 0 None sx_joined sx_joined 4 0 [] sx_index); [|done].
  split; try done. by apply idx_last.
Qed.

Lemma sx_xz_decodes : xz_decodes sx_file sx_img.
Proof. exists sx_joined. split; [apply sx_streams|apply sx_index_ok]. Qed.

(** A second stream behind it, with the block "!", and padding behind both. *)
Definition sx2_index : bytes := [Byte.x01; Byte.x05].
Definition sx2_file : bytes := Eval vm_compute in
  sx_file ++ zeros 12 ++ XZ_MAGIC_HEADER ++ zeros 6 ++
  [Byte.x01; Byte.x01; Byte.x00; Byte.x00; Byte.x21] ++ sx2_index ++
  <[4%nat := Byte.x02]> sx_footer ++ zeros 12.
Definition sx2_img : bytes := sx_img ++ [Byte.x21].
Definition sx2_b3 : iter_block := mkIterBlock 5 1 65 5 1.
Definition sx2_joined : sx_idx := mkSxIdx [sx_b1; sx_b2; sx2_b3] 6 18 96.

Lemma sx2_streams : xz_streams sx2_file (zlen sx2_file) None sx2_joined.
Proof.
  apply (xs_more (LZ := stored_xz) sx2_file 53 84 12 None (sx_pad (sx_decoded sx2_index) 12)
    (sx_pad (sx_decoded sx2_index) 12) sx2_joined 2 0 [] sx2_index); [|done|done|].
  - split; try done. by apply idx_last.
  - apply (xs_first (LZ := stored_xz) sx2_file 41 12 (Some (sx_pad (sx_decoded sx2_index) 12))
      (sx_pad sx_joined 12) sx2_joined 4 0 [] sx_index); [|done].
    split; try done. by apply idx_last.
Qed.

Lemma sx2_at off iter n :
  (n = 3%nat /\ iter = sx_b1) \/ (n = 2%nat /\ iter = sx_b2) \/ (n = 1%nat /\ iter = sx2_b3) ->
  uncompressed_file_offset iter <= off < uncompressed_file_offset iter + uncompressed_size iter ->
  block_at sx2_file sx2_img off iter 4 (Z.of_nat n) (Z.of_nat n) (Z.of_nat n).
Proof.
  intros Hn Hoff. destruct Hn as [[-> ->]|[[-> ->]|[-> ->]]];
    (split; [exact Hoff|done|done|done|done|done|by split|done|done|done|done|]).
  - apply (sx_decodes 3). vm_compute. lia.
  - apply (sx_decodes 2). vm_compute. lia.
  - apply (sx_decodes 1). vm_compute. lia.
Qed.

Lemma sx2_index_ok : xz_index_ok sx2_file sx2_img sx2_joined.
Proof.
  split; [done|done|..].
  - intros off Hoff. change (zlen sx2_img) with 6 in Hoff.
    destruct (Z.lt_ge_cases off 3); [|destruct (Z.lt_ge_cases off 5)].
    + exists sx_b1, 4, 3, 3, 3. split; [|apply (sx2_at off sx_b1 3); [by left|cbn; lia]].
      cbn. by rewrite decide_True by (cbn; lia).
    + exists sx_b2, 4, 2, 2, 2. split; [|apply (sx2_at off sx_b2 2); [by right; left|cbn; lia]].
      cbn. rewrite decide_False, decide_True by (cbn; lia). done.
    + exists sx2_b3, 4, 1, 1, 1. split; [|apply (sx2_at off sx2_b3 1); [by right; right|cbn; lia]].
      cbn. rewrite !decide_False, decide_True by (cbn; lia). done.
  - intros off Hoff. change (zlen sx2_img) with 6 in Hoff. cbn. by rewrite !decide_False by (cbn; lia).
Qed.

Lemma sx2_xz_decodes : xz_decodes sx2_file sx2_img.
Proof. exists sx2_joined. split; [apply sx2_streams|apply sx2_index_ok]. Qed.

(** The reader after allocation, and with its first block cached. *)
Definition sx_reader : XzReader :=
  mkXzReader (Some 0%nat) 0 (mkXzMem (mkXzCache 0 None None) ∅ ∅ 0) {[0%nat := sx_joined]} 1.
Definition sx_cached : xz_mem :=
  mkXzMem (mkXzCache 1 (Some 1%nat) (Some 1%nat)) {[1%nat := mkCell (mkXzEntry 0 3 0) None None]}
    {[0%nat := [Byte.x68; Byte.x65; Byte.x6c]]} 2.
Definition sx_reader1 : XzReader :=
  mkXzReader (Some 0%nat) 0 sx_cached {[0%nat := sx_joined]} 1.

Lemma sx_cached_rep : cache_rep sx_cached [] [1%nat] [mkXzEntry 0 3 0].
Proof.
  split; cbn [sx_cached entries cache blocks brk c_first c_last num_blocks]; try done.
  - split; [|done]. by exists (mkCell (mkXzEntry 0 3 0) None None).
  - apply NoDup_singleton.
  - intros a. rewrite list_elem_of_singleton. split.
    + by intros [c [<- _]%lookup_singleton_Some].
    + intros ->. rewrite lookup_singleton_eq. eauto.
  - by constructor.
  - apply NoDup_singleton.
  - intros d. cbn. rewrite list_elem_of_singleton. split.
    + by intros [c [<- _]%lookup_singleton_Some].
    + intros ->. rewrite lookup_singleton_eq. eauto.
  - intros a [[c [<- _]%lookup_singleton_Some]|[c [<- _]%lookup_singleton_Some]]; lia.
Qed.

Lemma sx_inv : xz_inv sx_file sx_img (fopen_content sx_file None) sx_reader1.
Proof.
  split; [done|]. split; [exists 0%nat, sx_joined; by split_and!; [..|apply sx_index_ok]|].
  exists [1%nat], [mkXzEntry 0 3 0]. split; [apply sx_cached_rep|]. by constructor.
Qed.

(** ** The theorems at this file *)

Lemma xz_read_witness : exists f' r',
  xz_read true 1 4 (fopen_content sx_file None, sx_reader1)
    = Ok ((4, [Byte.x65; Byte.x6c; Byte.x6c; Byte.x6f]), (f', r')) /\
  xz_inv sx_file sx_img f' r'.
Proof.
  exact (xz_read_ok true sx_file sx_img _ _ 1 4 sx_inv ltac:(lia) ltac:(lia) ltac:(by vm_compute)).
Defined.

(** Two streams with padding. *)
Lemma xz_reader_alloc_witness : exists r f',
  xz_reader_alloc true 7 (fopen_content sx2_file None) = Ok (Some r, f') /\ xz_inv sx2_file sx2_img f' r.
Proof. exact (xz_reader_alloc_ok true sx2_file sx2_img 7 sx2_xz_decodes). Defined.

Lemma xz_reader_free_witness : exists r',
  xz_reader_free false (fopen_content sx_file None, sx_reader1)
    = Ok (tt, (fopen_content sx_file None, r')) /\
  xr_indexes r' = ∅ /\ entries (xr_mem r') = ∅ /\ blocks (xr_mem r') = ∅.
Proof. exact (xz_reader_free_ok false sx_file sx_img _ _ sx_inv). Defined.

Lemma xz_is_supported_witness : exists f',
  xz_is_supported true (fopen_content sx_file None) = Ok (true, f') /\ file_ok sx_file f'.
Proof.
  exact (proj2 (xz_is_supported_ok true sx_file (fopen_content sx_file None) (conj eq_refl eq_refl)
    eq_refl ltac:(by vm_compute)) eq_refl sx_img sx_joined sx_streams sx_index_ok).
Defined.

Lemma xz_read_past_end_witness : exists f' r',
  xz_read true 3 4 (fopen_content sx_file None, sx_reader1)
    = Ok ((1, [Byte.x6c; Byte.x6f]), (f', r')) /\ xz_inv sx_file sx_img f' r'.
Proof.
  exact (xz_read_past_end true sx_file sx_img _ _ 3 4 sx_inv ltac:(by vm_compute) ltac:(by vm_compute)
    ltac:(by vm_compute)).
Defined.

Lemma sx_no_footer p : 12 <= p < zlen sx_file0 - 12 ->
  exists e, e <> LZMA_OK /\ lzma_stream_footer_decode (slice p 12 sx_file0) = inl e.
Proof.
  change (zlen sx_file0) with 41. intros Hp. exists 7. split; [done|].
  cbn. rewrite decide_False; [done|]. rewrite slice_slice by lia. intros He.
  assert (Hin : slice (p + 10) 2 sx_file0 !! 0%nat = Some Byte.x59) by (by rewrite He).
  rewrite slice_lookup in Hin by lia.
  assert (Hall : forall i, (22 <= i < 39)%nat -> sx_file0 !! i <> Some Byte.x59).
  { intros i Hi. do 39 (destruct i as [|i]; [try lia; done|]). lia. }
  apply (Hall (Z.to_nat (p + 10) + 0)%nat); [lia|done].
Qed.

Lemma xz_footer_missed_witness : exists f',
  xz_is_supported true (fopen_content sx_file0 None) = Ok (false, f').
Proof.
  exact (xz_footer_missed true sx_file0 (fopen_content sx_file0 None) (conj eq_refl eq_refl) eq_refl
    eq_refl ltac:(by vm_compute) eq_refl sx_no_footer).
Defined.

(** The file with 8 bytes of padding. *)
Definition sx_file8 : bytes := Eval vm_compute in sx_file ++ zeros 8.
Lemma xz_padding_missed_witness : exists f',
  xz_is_supported true (fopen_content sx_file8 None) = Ok (false, f').
Proof.
  exact (xz_padding_missed true sx_file8 (fopen_content sx_file8 None) 41 0 7 (conj eq_refl eq_refl)
    eq_refl eq_refl ltac:(lia) eq_refl eq_refl eq_refl eq_refl eq_refl ltac:(done)).
Defined.

(** The first data byte of the second block cannot be read. *)
Lemma xz_read_bad_sector_witness :
  xz_read true 3 2 (fopen_content sx_file (Some 23), sx_reader) = Err UB.
Proof.
  exact (xz_read_bad_sector true sx_file sx_img (fopen_content sx_file (Some 23)) sx_reader 0 sx_joined 3 2
    sx_b2 4 2 2 2 23 eq_refl eq_refl eq_refl eq_refl eq_refl (sx_locate2 3 ltac:(lia)) (sx_at2 3 ltac:(lia))
    eq_refl ltac:(by vm_compute) ltac:(by vm_compute)).
Defined.

Lemma get_cache_block_witness : exists s' l',
  get_cache_block false 2 sx_cached = Ok (Some (0%nat, 0, 3), s') /\
  cache_rep s' [] l' [mkXzEntry 0 3 0] /\ blocks s' = blocks sx_cached.
Proof.
  exact (get_cache_block_refines false sx_cached [] [1%nat] [mkXzEntry 0 3 0] 2 sx_cached_rep
    ltac:(by repeat constructor)).
Defined.

Lemma add_new_block_witness :
  let s := mkXzMem (cache sx_cached) (entries sx_cached)
             (<[brk sx_cached := [Byte.x6c; Byte.x6f]]> (blocks sx_cached)) (S (brk sx_cached)) in
  exists s' l', add_new_block false 2 3 2 s = Ok (true, s') /\
    cache_rep s' [] l' [mkXzEntry 3 2 2; mkXzEntry 0 3 0] /\ 2 <= MAX_NUM_BLOCKS_CACHE /\
    forall d b, blocks s' !! d = Some b -> blocks s !! d = Some b.
Proof.
  exact (add_new_block_refines false _ [] [1%nat] [mkXzEntry 0 3 0] 2 3 2
    (malloc_rep sx_cached [] [1%nat] [mkXzEntry 0 3 0] [Byte.x6c; Byte.x6f] sx_cached_rep)).
Defined.
