(* ===== verification/GzipWitness.v ===== *)
(** * A small gzip-like file

    The parameter of GzipReader at a format with a two-byte header, one length
    byte and stored data.  It shows that what the theorems of GzipFacts rely on
    can hold together. *)
From Stdlib Require Import ZArith Lia Strings.Byte.
From stdpp Require Import base numbers list option gmap.
From S2P Require Import Prelude Clib Disk Reader DList GzipReader GzipFacts GzipIndex.

(** Is the header still to come, and how many bytes of the block are left when
    its length byte was read? *)
Definition sg_stream : Type := bool * option Z.
Definition sg_inflate (st : sg_stream) (flush : Z) (inp : bytes) (avail_out : Z)
    : Z * Z * bytes * Z * sg_stream :=
  match st with
  | (true, _) => (Z_OK, 2, [], 128, (false, None))
  | (false, None) =>
      match inp with
      | b :: _ => (Z_OK, 1, [], 0, (false, Some (byte_val b)))
      | [] => (Z_DATA_ERROR, 0, [], 0, st)
      end
  | (false, Some k) =>
      let w := take (Z.to_nat (Z.min k avail_out)) inp in
      (if k <=? zlen w then Z_STREAM_END else Z_OK, zlen w, w, 0, (false, Some (k - zlen w)))
  end.

#[export] Instance stored_gzip : Zlib := {|
  z_stream := sg_stream;
  inflateInit2 w := (Z_OK, (w =? GZIP_WINDOW_BITS, None));
  inflatePrime st _ _ := st;
  inflateSetDictionary st _ := st;
  inflate := sg_inflate |}.

Definition sg_img : bytes := [Byte.x68; Byte.x65; Byte.x6c; Byte.x6c; Byte.x6f].
Definition sg_file : bytes := GZIP_MAGIC_HEADER ++ [Byte.x05] ++ sg_img ++ [Byte.x00].

Lemma sg_block n inp :
  (0 < n <= length inp)%nat -> inflates (false, Some (Z.of_nat n)) inp (take n inp).
Proof.
  revert inp. induction n as [n IH] using lt_wf_ind. intros inp Hn. apply inflates_step.
  - intros ->. cbn in Hn. lia.
  - intros k av code used w dt st' Hk _ Hav. cbn [inflate stored_gzip sg_inflate]. rewrite take_take.
    intros [= <- <- <- _ _]. unfold zlen in *. rewrite length_take. split; [lia|]. split; [lia|].
    destruct (Z.leb_spec (Z.of_nat n)
      (Z.of_nat ((Z.to_nat (Z.min (Z.of_nat n) av) `min` Z.to_nat k) `min` length inp))) as [H|H].
    + left. split; [done|]. f_equal. lia.
    + right. split; [done|]. split; [lia|].
      exists (drop (Z.to_nat (Z.min (Z.of_nat n) av) `min` Z.to_nat k) (take n inp)).
      rewrite <- (take_drop (Z.to_nat (Z.min (Z.of_nat n) av) `min` Z.to_nat k) (take n inp)) at 1.
      rewrite take_take. do 2 f_equal. lia.
  - intros k av used w dt st' out' Hk _ Hav. cbn [inflate stored_gzip sg_inflate]. rewrite take_take.
    set (j := (Z.to_nat (Z.min (Z.of_nat n) av) `min` Z.to_nat k)%nat).
    intros [= Hc <- <- _ <-] Hout. unfold zlen in *. rewrite length_take in *.
    destruct (Z.leb_spec (Z.of_nat n) (Z.of_nat (j `min` length inp))) as [H|H]; [done|].
    assert (Hmin : (j `min` length inp = j)%nat) by lia. rewrite Hmin, Nat2Z.id.
    assert (out' = take (n - j) (drop j inp)) as ->.
    { rewrite <- skipn_firstn_comm, Hout, drop_app_ge by (rewrite length_take; lia).
      rewrite length_take, Hmin, Nat.sub_diag. done. }
    replace (Z.of_nat n - Z.of_nat j) with (Z.of_nat (n - j)) by lia.
    apply IH; [lia|]. rewrite length_drop. lia.
Qed.

Lemma sg_decodes : inflates (false, None) ([Byte.x05] ++ sg_img ++ [Byte.x00]) sg_img.
Proof.
  apply inflates_step; [done|..].
  - intros k av code used w dt st' Hk _ Hav. destruct (Z.to_nat k) as [|k'] eqn:E; [lia|].
    cbn. intros [= <- <- <- _ _]. split; [lia|]. change (zlen (@nil Byte.byte)) with 0. split; [lia|]. right. split; [done|].
    split; [lia|]. by exists sg_img.
  - intros k av used w dt st' out' Hk _ Hav. destruct (Z.to_nat k) as [|k'] eqn:E; [lia|].
    cbn. intros [= <- <- _ <-]. cbn [app]. intros <-. apply (sg_block 5). vm_compute. lia.
Qed.

Lemma sg_point ctx : point_ok sg_file sg_img (mkPoint 0 2 0 ctx).
Proof.
  split; cbn [raw_byte_address bits compressed_byte_address].
  - by vm_compute.
  - lia.
  - by vm_compute.
  - exact sg_decodes.
Qed.

Lemma sg_header : gz_header sg_file sg_img.
Proof.
  split; [by vm_compute|by vm_compute|done|].
  exists (true, None), 2, 128, (false, None). split; [done|]. split; [done|]. split; [by vm_compute|].
  split; [done|]. split; [done|]. intros ctx _. apply sg_point.
Qed.

(** A new reader, and one with the first access point. *)
Definition sg_new : GzipReader := mkGzipReader create_access_point_list ∅ 0.
Definition sg_reader : GzipReader :=
  mkGzipReader (mkPoints 1 (Some 0%nat) (Some 0%nat)) {[0%nat := mkCell (mkPoint 0 2 0 []) None None]} 1.
Definition sg_junk : bytes := zeros WINDOW_SIZE.

Lemma sg_junk_len : zlen sg_junk = WINDOW_SIZE.
Proof. apply zlen_zeros. unfold WINDOW_SIZE. lia. Qed.

Lemma sg_rep : list_rep sg_reader [0%nat] [mkPoint 0 2 0 []].
Proof.
  split; cbn [sg_reader heap points first last list_length g_brk]; try done.
  - split; [|done]. by exists (mkCell (mkPoint 0 2 0 []) None None).
  - apply NoDup_singleton.
  - intros a. rewrite list_elem_of_singleton. split.
    + by intros [c [<- _]%lookup_singleton_Some].
    + intros ->. rewrite lookup_singleton_eq. eauto.
  - by constructor.
  - intros a ->%list_elem_of_singleton. lia.
Qed.

Lemma sg_inv : gz_inv 100 true sg_file sg_img (fopen_content sg_file None) sg_new.
Proof.
  split; [apply sg_header|]. split; [by vm_compute|]. left. split; [apply list_rep_new|done].
Qed.

(** ** The theorems at this file *)

Lemma gzip_read_indexed_witness : exists code f',
  _gzip_read true 100 1 3 (fopen_content sg_file None, sg_reader)
    = Ok ((code, [Byte.x65; Byte.x6c; Byte.x6c]), (f', sg_reader)) /\
  (code = Z_OK \/ code = Z_STREAM_END) /\ gfile_ok sg_file f'.
Proof.
  exact (gzip_read_indexed_ok true 100 sg_file sg_img (fopen_content sg_file None) sg_reader [0%nat]
    [mkPoint 0 2 0 []] (mkPoint 0 2 0 []) 1 3 sg_rep eq_refl ltac:(by vm_compute)
    ltac:(constructor; [apply sg_point|constructor]) (conj eq_refl (conj eq_refl eq_refl)) eq_refl
    ltac:(by vm_compute) ltac:(by vm_compute) ltac:(by vm_compute)).
Defined.

Lemma gzip_read_past_end_witness : exists f' r' data,
  gzip_read true 100 sg_junk 3 6 (fopen_content sg_file None, sg_new) = Ok ((6, data), (f', r')) /\
  zlen data = 2 /\ zlen data < 6 /\ gz_inv 100 true sg_file sg_img f' r'.
Proof.
  exact (gzip_read_past_end true 100 sg_junk true sg_file sg_img (fopen_content sg_file None) sg_new 3 6
    sg_inv sg_junk_len ltac:(lia) ltac:(lia) ltac:(left; by vm_compute) ltac:(by vm_compute)).
Defined.

Lemma add_access_point_witness :
  exists e r1 r', create_access_point_entry 7 9 3 WINDOW_SIZE sg_junk sg_reader = Ok (e, r1) /\
    append_access_point_list e r1 = Ok (tt, r') /\
    list_rep r' [0%nat; e] [mkPoint 0 2 0 []; mkPoint 7 9 3 (sg_junk ++ [])] /\
    (WINDOW_SIZE <= 0 -> sg_junk ++ [] = drop (0 - Z.to_nat WINDOW_SIZE) []).
Proof.
  exact (add_access_point_ok sg_reader [0%nat] [mkPoint 0 2 0 []] sg_junk [] WINDOW_SIZE sg_junk 7 9 3
    sg_rep ltac:(by vm_compute) sg_junk_len (buf_start sg_junk)).
Defined.

Lemma free_access_point_list_witness : exists r',
  free_access_point_list false sg_reader = Ok (tt, r') /\ heap r' = ∅.
Proof. exact (free_access_point_list_ok false sg_reader [0%nat] [mkPoint 0 2 0 []] sg_rep). Defined.
