(* ===== verification/GzipIndexWitness.v ===== *)
(** * A compressed file of several large blocks that refer to each other

    A file of one chunk in the format of GzipTokens: runs longer than the distance
    of the access points, of which every other one repeats the last byte in front
    of its block.  The theorems of GzipIndex on files with more than one access
    point are applied to it. *)
From Stdlib Require Import ZArith Lia Strings.Byte.
From stdpp Require Import base numbers list option gmap.
From S2P Require Import Prelude Clib Disk Reader DList GzipReader GzipFacts GzipIndex GzipTokens.

#[local] Instance ix_zlib : Zlib := tk_gzip 2 SPAN.

(** "A" 1 MiB times, "b" once, "b" 1 MiB times, "C" twice 1 MiB times. *)
Definition ix_codes : bytes :=
  [Byte.x41; Byte.x62; Byte.x02; Byte.x01; Byte.x43; Byte.x02; Byte.x01].
Local Abbreviation ix_file := (tk_file 2 ix_codes).
Local Abbreviation ix_img := (tk_img SPAN ix_codes).
Definition ix_fuel : nat := S (length ix_file + length ix_img).
Definition ix_junk : bytes := zeros WINDOW_SIZE.
Definition ix_new : GzipReader := mkGzipReader create_access_point_list ∅ 0.

Lemma ix_codes_ok : Forall is_code ix_codes.
Proof. by repeat constructor. Qed.
Lemma ix_no_ref : no_ref ix_codes.
Proof. by split. Qed.
Lemma ix_header_len : 2 <= 2 <= CHUNK.
Proof. by vm_compute. Qed.
Lemma ix_junk_len : zlen ix_junk = WINDOW_SIZE.
Proof. by apply zlen_zeros. Qed.
Lemma ix_span_pos : 0 < SPAN.
Proof. done. Qed.

(** The image, run by run. *)
Lemma ix_img_runs : ix_img = replicate (Z.to_nat SPAN) Byte.x41 ++ [Byte.x62] ++
  replicate (Z.to_nat SPAN) Byte.x62 ++ replicate (Z.to_nat SPAN) Byte.x43 ++
  replicate (Z.to_nat SPAN) Byte.x43 ++ [].
Proof. unfold ix_codes. tk_decodes. done. Qed.

Lemma ix_img_len : zlen ix_img = 4 * SPAN + 1.
Proof.
  rewrite ix_img_runs, !zlen_app, !zlen_replicate by (unfold SPAN; lia).
  change (zlen [Byte.x62]) with 1. change (zlen (@nil Byte.byte)) with 0. lia.
Qed.

Lemma ix_slice : slice 2000000 4 ix_img = [Byte.x62; Byte.x62; Byte.x62; Byte.x62].
Proof.
  rewrite ix_img_runs, app_assoc.
  assert (Hl : zlen (replicate (Z.to_nat SPAN) Byte.x41 ++ [Byte.x62]) = SPAN + 1)
    by (rewrite zlen_app, zlen_replicate by (unfold SPAN; lia); done).
  etrans; [exact (slice_run 2000000 4 SPAN Byte.x62 _ _ ltac:(rewrite Hl; unfold SPAN; lia) ltac:(lia)
    ltac:(rewrite Hl; unfold SPAN; lia))|done].
Qed.

Lemma ix_inv : gz_inv ix_fuel false ix_file ix_img (fopen_content ix_file None) ix_new.
Proof.
  split.
  - apply (tk_header 2 SPAN ix_span_pos ix_header_len ix_codes ix_codes_ok ix_no_ref); [done|].
    rewrite ix_img_len. by unfold SPAN.
  - split; [unfold ix_fuel, zlen; lia|]. left. split; [apply list_rep_new|done].
Qed.
Lemma ix_whole : gz_whole false ix_file ix_img.
Proof.
  split; [|right; by vm_compute].
  by apply (tk_blocks 2 SPAN ix_span_pos ix_header_len ix_codes ix_codes_ok ix_no_ref).
Qed.

Lemma gzip_read_witness : exists f' r',
  gzip_read false ix_fuel ix_junk 2000000 4 (fopen_content ix_file None, ix_new)
    = Ok ((4, [Byte.x62; Byte.x62; Byte.x62; Byte.x62]), (f', r')) /\
  gz_inv ix_fuel false ix_file ix_img f' r'.
Proof.
  destruct (gzip_read_ok false ix_fuel ix_junk false ix_file ix_img
    (fopen_content ix_file None) ix_new 2000000 4 ix_inv ix_junk_len) as (f' & r' & Hread & _ & Hinv).
  - lia.
  - lia.
  - right. exact ix_whole.
  - rewrite ix_img_len. unfold SPAN. lia.
  - rewrite ix_slice in Hread. exact (ex_intro _ f' (ex_intro _ r' (conj Hread Hinv))).
Defined.

