(* ===== verification/GzipWindow.v ===== *)
(** * gzip_reader.c: the window at the start of a chunk

    [index_next_chunk] sets [next_out] back to the start of the window buffer for
    every chunk of input, wherever the chunk before it stopped.  An access point
    that is made before a whole window has come out of the chunk gets a window
    whose parts are in the wrong order.  The file here, in the format of
    GzipTokens, is three bytes longer than a chunk; its second chunk starts with
    the end of a block, and the block that follows repeats the last byte of the
    one before. *)
From Stdlib Require Import ZArith Lia Strings.Byte.
From stdpp Require Import base numbers list option gmap.
From S2P Require Import Prelude Clib Disk Reader DList GzipReader GzipFacts GzipIndex GzipTokens.

Definition wl_header : Z := CHUNK - 2.
#[local] Instance wl_zlib : Zlib := tk_gzip wl_header SPAN.

(** "A" 1 MiB times and "b" in the first chunk, then "b" 1 MiB times. *)
Definition wl_codes : bytes := [Byte.x41; Byte.x62; Byte.x02; Byte.x01].
Local Abbreviation wl_file := (tk_file wl_header wl_codes).
Local Abbreviation wl_img := (tk_img SPAN wl_codes).
Definition wl_new : GzipReader := mkGzipReader create_access_point_list ∅ 0.

Lemma wl_codes_ok : Forall is_code wl_codes.
Proof. by repeat constructor. Qed.
Lemma wl_no_ref : no_ref wl_codes.
Proof. by split. Qed.
Lemma wl_header_len : 2 <= wl_header <= CHUNK.
Proof. by vm_compute. Qed.
Lemma wl_span_pos : 0 < SPAN.
Proof. done. Qed.

Lemma wl_img_runs : wl_img =
  (replicate (Z.to_nat SPAN) Byte.x41 ++ [Byte.x62]) ++ replicate (Z.to_nat SPAN) Byte.x62 ++ [].
Proof. unfold wl_codes. tk_decodes. by rewrite <- app_assoc. Qed.

Lemma wl_pre_len : zlen (replicate (Z.to_nat SPAN) Byte.x41 ++ [Byte.x62]) = SPAN + 1.
Proof. rewrite zlen_app, zlen_replicate by (unfold SPAN; lia). done. Qed.

Lemma wl_img_len : zlen wl_img = 2 * SPAN + 1.
Proof.
  rewrite wl_img_runs, !(zlen_app (_ ++ _)), wl_pre_len, zlen_app, zlen_replicate by (unfold SPAN; lia).
  change (zlen (@nil Byte.byte)) with 0. lia.
Qed.

Lemma wl_last_byte : slice (2 * SPAN) 1 wl_img = [Byte.x62].
Proof.
  rewrite wl_img_runs. pose proof wl_pre_len as Hl. revert Hl. generalize (replicate (Z.to_nat SPAN) Byte.x41 ++ [Byte.x62]).
  intros pre Hl. etrans; [apply (slice_run (2 * SPAN) 1 SPAN Byte.x62 pre []); rewrite ?Hl; unfold SPAN; lia|done].
Qed.

(** What the code answers for the last byte of the image. *)
Lemma wl_read : match gzip_read false 100 (zeros WINDOW_SIZE) (2 * SPAN) 1 (fopen_content wl_file None, wl_new) with
  | Ok (r, _) => r = (1, [Byte.x41])
  | Err _ => False
  end.
Proof. vm_compute. reflexivity. Qed.

(** C29: the restriction of [gzip_read_ok] to files of one chunk, or of blocks
    that can be decoded with any window, is one of the code: for a well-formed
    file three bytes longer than a chunk, whose blocks decode with the last
    32 KiB of output in front of them, a read inside the image is reported as
    successful and gives a wrong byte. *)
Theorem gzip_window_lost :
  gz_header wl_file wl_img /\ gz_blocks false wl_file wl_img /\
  zlen wl_file = CHUNK + 3 /\ zlen wl_img = 2 * SPAN + 1 /\
  exists s, gzip_read false 100 (zeros WINDOW_SIZE) (2 * SPAN) 1 (fopen_content wl_file None, wl_new)
      = Ok ((1, [Byte.x41]), s) /\ slice (2 * SPAN) 1 wl_img = [Byte.x62].
Proof.
  split.
  { apply (tk_header _ SPAN wl_span_pos wl_header_len wl_codes wl_codes_ok wl_no_ref); [done|].
    rewrite wl_img_len. by unfold SPAN. }
  split; [by apply (tk_blocks _ SPAN wl_span_pos wl_header_len wl_codes wl_codes_ok wl_no_ref)|].
  split; [rewrite zlen_tk_file by apply wl_header_len; done|]. split; [apply wl_img_len|].
  pose proof wl_read as Hread. destruct (gzip_read _ _ _ _ _ _) as [[r s]|e]; [|done].
  exists s. rewrite Hread. split; [done|apply wl_last_byte].
Qed.
