(* ===== verification/LayerWitness.v ===== *)
(** * The read layer on the small compressed files *)
From Stdlib Require Import ZArith Lia Strings.Byte.
From stdpp Require Import base numbers list option gmap.
From S2P Require Import Prelude Clib Disk Reader XzReader XzFacts GzipReader GzipFacts GzipIndex Constructors.
From S2P Require Import XzWitness GzipWitness.

Lemma sx_compressed : compressed_as 100 sg_junk sx_file sx_img.
Proof.
  apply as_xz; [done|]. exists sx_joined. split; [apply sx_streams|]. split; [apply sx_index_ok|done].
Qed.
Lemma sg_compressed : compressed_as 100 sg_junk sg_file sg_img.
Proof.
  apply as_gzip; [done|]. split; [apply sg_header|]. split; [done|]. split; [apply sg_junk_len|by left].
Qed.

Lemma available_readers_witness :
  (exists inv : FILE -> option CompressionReader -> Prop,
    inv (fopen_content sx_file None) None /\
    forall f r off n, inv f r -> 0 <= off -> 0 < n < 2 ^ 31 -> off + n <= zlen sx_img ->
    exists f' r', read_wrapper true (available_readers true 100 sg_junk) off n (f, r)
        = Ok ((n, slice off n sx_img), (f', r')) /\ inv f' r') /\
  (exists inv : FILE -> option CompressionReader -> Prop,
    inv (fopen_content sg_file None) None /\
    forall f r off n, inv f r -> 0 <= off -> 0 < n < 2 ^ 31 -> off + n <= zlen sg_img ->
    exists f' r', read_wrapper false (available_readers false 100 sg_junk) off n (f, r)
        = Ok ((n, slice off n sg_img), (f', r')) /\ inv f' r').
Proof.
  exact (conj
    (available_readers_ok true 100 sg_junk sx_file sx_img ltac:(by vm_compute) sx_compressed)
    (available_readers_ok false 100 sg_junk sg_file sg_img ltac:(by vm_compute) sg_compressed)).
Defined.
