(* ===== verification/SessionWitness.v ===== *)
(** * The program on the concrete image

    The volume that the image of Witness holds, a libfuse that treats every
    argument as a file name and passes five requests on, and the theorems on
    sessions and on the whole program applied to them. *)
From Stdlib Require Import ZArith Lia Strings.Byte Strings.String.
From stdpp Require Import base numbers list option gmap strings.
From S2P Require Import Prelude Clib Logging Layout Disk Reader XzReader GzipReader Constructors Example.
From S2P Require Import Dcache State Super Reads Extents Inode Lookup Ops Session Volume FuseMain Spotlight.
From S2P Require Import Witness XzWitness GzipWitness LayerWitness.

(** ** The volume *)

Definition wv_tree (n : Z) : option (list dirent) := if n =? 2 then Some w_entries else None.
Definition wv : volume := mkVolume wv_tree
  (fun n => if n =? 2 then Some w_root else if n =? 3 then Some w_file
            else if n =? 4 then Some w_link else None)
  (fun n => if n =? 3 then Some w_hello else None)
  (fun n => if n =? 4 then Some w_f else None).

Definition w_filler_page (b : reply) (nm : bytes) (off : Z) : Z * reply :=
  if (length b <? 2)%nat then (0, b ++ [(nm, off)]) else (1, b).
Lemma w_paging : paging w_filler_page.
Proof.
  split; unfold w_filler_page; intros *; try (case_match; cbn; done || lia).
Qed.

(** The blocks of an inode with direct pointers. *)
Lemma w_block_on ino lb pb :
  uses_extents ino = false -> inline_data ino = false -> 0 <= lb < 12 -> i_block ino lb = pb -> block_on w_img ino lb pb 1.
Proof.
  intros Hu Hn Hlb <-. apply (on_pointer w_img ino lb 0 0 (i_block ino lb)); [done|done| |done|done].
  unfold block_path. by rewrite (proj2 (Z.ltb_lt lb 12)) by lia.
Qed.

Lemma w_inode_on n ino :
  2 <= n <= 8 -> inode_at w_img n + 128 <= 7168 -> slice (inode_at w_img n) 128 w_img = ino ->
  inode_on w_img n ino.
Proof.
  intros Hn Hin <-. split; [lia| |done|done|done].
  change (sb_get "s_inodes_per_group" (image_super w_img)) with 8.
  change (n_groups (image_super w_img)) with 1. apply Z.div_lt_upper_bound; lia.
Qed.

(** One block of an inode. *)
Lemma w_contents ino content pb len :
  zlen content <= 1024 -> block_on w_img ino 0 pb len -> pb <> 0 ->
  slice (pb * 1024) (zlen content) w_img = content -> 0 <= pb -> contents_on w_img ino content.
Proof.
  intros Hl Hb Hnz Hs Hpb i Hi. change (bsize (image_super w_img)) with 1024.
  exists pb, len. rewrite Z.div_small by lia. split; [done|].
  rewrite (proj2 (Z.eqb_neq pb 0)) by done. rewrite Z.mod_small, <- Hs at 1 by lia.
  rewrite slice_lookup by lia. f_equal. lia.
Qed.

Lemma w_dir_on : dir_on w_img w_root w_dir.
Proof.
  assert (Hb : block_on w_img w_root 0 4 1) by (apply w_block_on; [reflexivity|reflexivity|lia|reflexivity]).
  split; [reflexivity|reflexivity|by vm_compute|reflexivity|..].
  - by apply (w_contents w_root w_dir 4 1).
  - change (zlen w_dir) with 1024. change (bsize (image_super w_img)) with 1024.
    intros lb Hlb Hlt. assert (lb = 0) as -> by lia. by exists 4, 1.
Qed.

Lemma w_file_on : file_on w_img w_file w_hello.
Proof.
  split; [reflexivity|by vm_compute|]. apply (w_contents w_file w_hello 5 1); try done.
  apply (on_extent w_img w_file 0 0 [mkExtent 0 1 5] (mkExtent 0 1 5)).
  - reflexivity.
  - apply w_etree.
  - apply elem_of_cons. by left.
  - by split.
  - done.
  - done.
Qed.

Lemma wv_on : volume_on w_img wv.
Proof.
  split.
  - apply w_super_wf.
  - apply w_gdt_wf.
  - by vm_compute.
  - reflexivity.
  - by left.
  - by vm_compute.
  - by vm_compute.
  - intros n ino. cbn [v_inode wv].
    destruct (Z.eqb_spec n 2) as [->|]; [intros [= <-]; apply w_inode_on; [lia|by vm_compute|reflexivity]|].
    destruct (Z.eqb_spec n 3) as [->|]; [intros [= <-]; apply w_inode_on; [lia|by vm_compute|reflexivity]|].
    destruct (Z.eqb_spec n 4) as [->|]; [intros [= <-]; apply w_inode_on; [lia|by vm_compute|reflexivity]|done].
  - intros n es. cbn [v_tree wv]. unfold wv_tree. destruct (Z.eqb_spec n 2) as [->|]; [|done].
    intros [= <-]. exists w_root, w_dir. split; [reflexivity|]. split; [apply w_dir_on|].
    split; [apply w_dir_entries|]. split; [apply w_no_nul|]. by repeat constructor.
  - intros n c. cbn [v_content v_inode wv].
    destruct (Z.eqb_spec n 3) as [->|]; [|done]. intros [= <-]. exists w_file.
    split; [reflexivity|apply w_file_on].
  - intros n t. cbn [v_link v_inode wv].
    destruct (Z.eqb_spec n 4) as [->|]; [|done]. intros [= <-]. split; [apply w_no_nul_f|].
    exists w_link. by split.
  - intros n ino. cbn [v_link v_inode wv].
    destruct (Z.eqb_spec n 2) as [->|]; [intros [= <-]; reflexivity|].
    destruct (Z.eqb_spec n 3) as [->|]; [intros [= <-]; reflexivity|].
    destruct (Z.eqb_spec n 4) as [->|]; [intros [= <-]; reflexivity|done].
Qed.

Lemma wv_names c n :
  c <> SLASH -> c <> Byte.x00 -> resolve w_tree 2 [[c]] = Some n -> names wv_tree (w_path c) n.
Proof.
  intros Hs H0 Hr. destruct (w_names c n Hs H0 Hr) as [H1 H2 H3]. split; [done|done|].
  destruct H1 as [_ _]. assert (Hc : components (w_path c) = [[c]]).
  { unfold components, w_path. cbn [comps_acc]. rewrite decide_True by done.
    by rewrite decide_False by done. }
  rewrite Hc in *. exact H3.
Qed.

Definition w_requests : list request :=
  [Getattr (w_path Byte.x66); Open (w_path Byte.x66) 0; Read 3 (zeros 8) 0;
   Readlink (w_path Byte.x6c) (zeros 16); Readdir [SLASH] (zeros 255) 24;
   Getattr (w_path Byte.x78)].

Lemma w_requests_on : Forall (request_on w_img wv) w_requests.
Proof.
  unfold w_requests.
  apply Forall_cons; split.
  { exists 3. split; [by apply wv_names|]. right. by exists w_file. }
  apply Forall_cons; split.
  { exists 3. by apply wv_names. }
  apply Forall_cons; split.
  { split; [lia|]. split; [by vm_compute|]. right. exists w_hello, w_file.
    split; [reflexivity|]. split; [reflexivity|]. intros _. by left. }
  apply Forall_cons; split.
  { exists 4, w_link. split; [by apply wv_names|]. split; [reflexivity|]. split; [by vm_compute|].
    intros t [= <-]. by vm_compute. }
  apply Forall_cons; split.
  { exists 2. split; [|split; [reflexivity|]].
    - destruct w_names_root as [H1 H2 H3]. by split.
    - right. exists w_entries. split; [reflexivity|]. by eexists. }
  apply Forall_cons; split.
  { exists 0. split; [by apply wv_names|by left]. }
  apply Forall_nil_2.
Qed.

(** The same through a read layer. *)
Section volume_facts.
Context {R : Type} `{RLO : ReadLayerOk R}.
Lemma wv_repr : volume_repr w_env wv.
Proof. apply volume_on_repr, wv_on. Qed.
Lemma w_requests_ok : Forall (request_ok w_env wv) w_requests.
Proof.
  eapply Forall_impl; [apply w_requests_on|]. exact (request_on_ok (RLO := RLO) w_img wv wv_on).
Qed.
End volume_facts.

Lemma volume_on_disk_witness :
  volume_repr w_env wv /\ forall q, request_on w_img wv q -> request_ok w_env wv q.
Proof. exact (volume_on_disk_repr (RLO := w_layer_ok) w_img wv wv_on). Defined.

Lemma w_session_inv : lookup_inv w_env (v_tree wv) w_fs.
Proof. split; [apply w_st_env|]. exists (fun _ => []). apply init_dcache_sound. Qed.

Lemma session_refines_volume_witness :
  wp (serve_all [] (e4f_ops w_filler_page) w_requests)
    (fun rs s' => lookup_inv w_env (v_tree wv) s' /\
       Forall2 (fun q r => says r (spec w_filler_page [] wv q)) w_requests rs) w_fs.
Proof.
  exact (session_refines_volume w_filler_page [] w_env wv wv_repr w_requests w_fs
    w_requests_ok w_session_inv).
Defined.


(** ** The program *)

(** A libfuse without options, and its requests. *)
#[local] Instance w_libfuse : Libfuse (option CompressionReader) reply := {|
  fuse_opt_parse opts proc argv :=
    run_events opts proc ((fun a => Unmatched a FUSE_OPT_KEY_NONOPT) <$> tail argv);
  fuse_main args ops :=
    do* init ops in
    let* rs := serve_all [] ops w_requests in
    ret (0, zip w_requests rs) |}.

Definition w_argv : list bytes := [str "spotlight"; str "image"; str "mnt"].
Definition w_events : list opt_event :=
  [Unmatched (str "image") FUSE_OPT_KEY_NONOPT; Unmatched (str "mnt") FUSE_OPT_KEY_NONOPT].
(** The file [image], nothing else can be opened. *)
Definition w_system (c : bytes) : environment :=
  mkEnvironment true
    (fun path => if decide (path = str "image") then Some (fopen_content c None, 3) else None)
    (fun _ => true) [] [].
Definition w_process : process (option CompressionReader) reply :=
  mkProcess None None ∅ (logging_statics false) (fs_statics (RL := image_layer true 100 sg_junk)) [] [].

Lemma w_parses : parses_as (R := option CompressionReader) (B := reply) w_argv w_events.
Proof. intros p. reflexivity. Qed.
Lemma w_events_ok : Forall event_ok w_events.
Proof. apply Forall_cons; split; [by right|]. apply Forall_cons; split; [by right|apply Forall_nil_2]. Qed.
Lemma w_plain : ~ is_gzip w_img /\ ~ is_xz w_img.
Proof. split; intros H; vm_compute in H; discriminate H. Qed.
Lemma w_compressed : compressed_as 100 sg_junk w_img w_img.
Proof. apply as_raw; [apply w_plain|apply w_plain|reflexivity]. Qed.
Lemma w_serves :
  serves (RL := image_layer true 100 sg_junk) w_filler_page [] (kept false w_events) w_requests 0.
Proof. intros s. reflexivity. Qed.

Lemma main_serves_volume_witness : exists p' rs,
  FuseMain.main (RL := image_layer true 100 sg_junk) w_filler_page (w_system w_img) w_argv w_process
    = Ok (0, p') /\
  p_trace p' = zip w_requests rs /\
  Forall2 (fun q r => says r (spec w_filler_page [] wv q)) w_requests rs /\
  strs p' = ∅ /\ p_stderr p' = [].
Proof.
  exact (main_serves_volume true 100 sg_junk w_filler_page [] (w_system w_img) w_argv w_events
    (str "image") w_img 3 w_img wv w_requests 0 w_process w_parses w_events_ok eq_refl eq_refl
    ltac:(lia) ltac:(rewrite w_zlen; lia) w_compressed ltac:(rewrite w_zlen; lia) eq_refl
    (fun f H => eq_refl) w_serves eq_refl eq_refl (conj wv_on w_requests_on)).
Defined.

Definition w_process1 : process (option CompressionReader) reply :=
  mkProcess None None ∅ (logging_statics false) (fs_statics (RL := w_layer)) [] [].

Lemma w_starts : starts_on (w_system w_img) w_argv w_events (str "image") w_img.
Proof.
  split; [apply w_parses|apply w_events_ok|reflexivity|rewrite w_zlen; lia|].
  exists (fopen_content w_img None), 3. split; [reflexivity|]. split; [lia|].
  destruct w_disk_ok as (_ & _ & f & Hf & Hinv). injection Hf as <-. exact Hinv.
Qed.


(** Another name for the image, which cannot be opened. *)
Definition w_argv2 : list bytes := [str "spotlight"; str "x"; str "mnt"].
Definition w_events2 : list opt_event :=
  [Unmatched (str "x") FUSE_OPT_KEY_NONOPT; Unmatched (str "mnt") FUSE_OPT_KEY_NONOPT].
Lemma w_events2_ok : Forall event_ok w_events2.
Proof. apply Forall_cons; split; [by right|]. apply Forall_cons; split; [by right|apply Forall_nil_2]. Qed.


Definition w_short : bytes := zeros 100.
Lemma w_short_len : zlen w_short = 100.
Proof. reflexivity. Qed.
Lemma w_short_plain : ~ is_gzip w_short /\ ~ is_xz w_short.
Proof. split; intros H; vm_compute in H; discriminate H. Qed.

Lemma main_aborts_on_short_image_witness :
  FuseMain.main (RL := image_layer true 100 sg_junk) w_filler_page (w_system w_short) w_argv
    w_process = Err Abort.
Proof.
  apply (main_aborts_on_short_image true 100 sg_junk w_filler_page (w_system w_short) w_argv
    w_events (str "image") w_short 3 w_process w_parses w_events_ok eq_refl).
  - reflexivity.
  - lia.
  - rewrite w_short_len. lia.
  - apply w_short_plain.
  - apply w_short_plain.
  - reflexivity.
Defined.

(** Three bytes of the small xz file. *)
Lemma example_main_witness :
  Example.main true (available_readers true 100 sg_junk) (fun _ => Some (fopen_content sx_file None))
    (fun n => zeros n) [[]; []; str "1"; str "3"] None
  = Ok ((0, slice 1 3 sx_img), None).
Proof.
  exact (example_main_ok true 100 sg_junk (fun _ => Some (fopen_content sx_file None))
    (fun n => zeros n) (fun n H => zlen_zeros n H) [] [] (str "1") (str "3") sx_file sx_img 1 3
    eq_refl eq_refl eq_refl ltac:(by vm_compute) sx_compressed ltac:(lia) ltac:(by vm_compute)
    ltac:(by vm_compute)).
Defined.
