(* ===== verification/SessionConcWitness.v ===== *)
(** * Six interleaved requests on the image of Witness

    The requests of SessionWitness, all at once: their threads take turns after
    the image has been mounted; then the whole program with a libfuse that
    answers them in this way. *)
From Stdlib Require Import ZArith Lia Strings.Byte.
From stdpp Require Import base numbers list option gmap relations strings.
From S2P Require Import Prelude Clib Logging Layout Disk Reader XzReader GzipReader Constructors.
From S2P Require Import Dcache DcacheConc State Threads DiskMutex Super Reads Progress Inode Lookup LookupConc Ops Session SessionConc.
From S2P Require Import FuseMain Spotlight Witness XzWitness GzipWitness LayerWitness SessionWitness.

Section runs.
Context {R : Type} `{RL : ReadLayer R}.

Definition sc_prog := serve_prog w_filler_page [].
Definition sc_pool : Type := mpool R (response (B := reply)) request.
Definition sc_start (s : fs R) : sc_pool :=
  ((s, None), (fun q => (q, Outside (Running (sc_prog q)))) <$> w_requests).
Definition sc_turns : list nat := concat (replicate 150 (seq 0 6)).
Definition sc_after (sched : list nat) (s : fs R) : sc_pool :=
  fold_left (fun c i => run_mjob i c) sched (sc_start s).
Definition sc_run (s : fs R) : sc_pool := sc_after sc_turns s.

Lemma sc_reachable_by (Q : request -> Prop) s sched :
  Forall Q w_requests ->
  rtc (mpool_step sc_prog Q) ((s, None), []) (sc_after sched s).
Proof.
  intros HQ. enough (Hs : rtc (mpool_step sc_prog Q) ((s, None), []) (sc_start s))
    by (etrans; [exact Hs|]; exact (run_mjobs_steps _ _ sched (sc_start s))).
  assert (Hall : forall qs ts, Forall Q qs ->
    rtc (mpool_step sc_prog Q) ((s, None), ts)
      ((s, None), ts ++ ((fun q => (q, Outside (Running (sc_prog q)))) <$> qs))).
  { intros qs ts Hqs. revert ts. induction Hqs as [|q qs Hq _ IH]; intros ts.
    - by rewrite app_nil_r.
    - eapply rtc_l; [by apply mpool_start|]. specialize (IH (ts ++ [(q, Outside (Running (sc_prog q)))])).
      by rewrite <- app_assoc in IH. }
  exact (Hall w_requests [] HQ).
Qed.
Lemma sc_reachable (Q : request -> Prop) s :
  Forall Q w_requests -> rtc (mpool_step sc_prog Q) ((s, None), []) (sc_run s).
Proof. intros HQ. exact (sc_reachable_by Q s sc_turns HQ). Qed.

(** In the middle of the run. *)
Definition sc_mid (s : fs R) : sc_pool := sc_after (take 60 sc_turns) s.
Lemma sc_mid_reachable (Q : request -> Prop) s :
  Forall Q w_requests -> rtc (mpool_step sc_prog Q) ((s, None), []) (sc_mid s).
Proof. intros HQ. exact (sc_reachable_by Q s (take 60 sc_turns) HQ). Qed.
Lemma sc_mid_run s : fold_left (fun c i => run_mjob i c) (drop 60 sc_turns) (sc_mid s) = sc_run s.
Proof. unfold sc_run, sc_mid, sc_after. by rewrite <- fold_left_app, take_drop. Qed.

Lemma sc_third s sched :
  exists x, snd (sc_after sched s) !! 2%nat = Some (Read 3 (zeros 8) 0, x).
Proof.
  assert (Hstep : forall (c : sc_pool) x, snd c !! 2%nat = Some (Read 3 (zeros 8) 0, x) ->
    exists y, snd (fold_left (fun c i => run_mjob i c) sched c) !! 2%nat = Some (Read 3 (zeros 8) 0, y)).
  { induction sched as [|i sched IH]; intros c x Hx; [by exists x|]. cbn [fold_left].
    destruct (decide (i = 2%nat)) as [->|Hne].
    - eapply IH, (run_mjob_lookup 2 c _ x Hx).
    - eapply IH. by rewrite run_mjob_other. }
  exact (Hstep (sc_start s) _ eq_refl).
Qed.

Lemma sc_mid_third s : exists x, snd (sc_mid s) !! 2%nat = Some (Read 3 (zeros 8) 0, x).
Proof. apply sc_third. Qed.

(** What the threads have returned. *)
Definition sc_answer (qx : request * mthread R (response (B := reply))) : option (request * response) :=
  (fun r => (fst qx, r)) <$> mreturned (snd qx).
Lemma sc_answers ts : Forall (fun qr => (fst qr, Outside (Running (PRet (snd qr)))) ∈ ts) (omap sc_answer ts).
Proof.
  apply Forall_forall. intros [q r] ([q' x] & Hin & Hx)%list_elem_of_omap. unfold sc_answer in Hx. cbn [fst snd] in *.
  destruct x as [[[r'| | | | |]|]| | |]; cbn in Hx; try done. by injection Hx as -> ->.
Qed.
End runs.

(** The threads have all returned. *)
Lemma sc_returned : match op_init w_boot with
  | Ok (_, s) => forallb (fun qx => match mreturned (snd qx) with Some _ => true | None => false end)
                   (snd (sc_run s))
  | Err _ => false
  end = true.
Proof. by vm_compute. Qed.

Lemma concurrent_session_witness : exists s0, op_init w_boot = Ok (tt, s0) /\
  Forall (fun qx => exists r, mreturned (snd qx) = Some r /\
    says r (spec w_filler_page [] wv (fst qx))) (snd (sc_run s0)).
Proof.
  destruct (concurrent_session_refines_volume w_filler_page [] w_img wv
    (wv_repr (RLO := direct_ok)) w_boot w_disk_ok
    eq_refl ltac:(by rewrite w_zlen) w_gdt_wf) as (s0 & Hrun & Hsafe).
  exists s0. split; [exact Hrun|]. pose proof sc_returned as Hret. rewrite Hrun in Hret.
  pose proof (sc_reachable _ s0 (w_requests_ok (RLO := direct_ok))) as Hreach. destruct (sc_run s0) as [s ts]. cbn [snd] in *.
  rewrite forallb_forall in Hret. apply Forall_forall. intros [q x] Hin.
  destruct (Hsafe s ts q x Hreach Hin) as [_ Hsays]. specialize (Hret (q, x)).
  cbn [fst snd] in *. destruct (mreturned x) as [r|] eqn:Hx.
  - exists r. split; [done|by apply Hsays].
  - by discriminate (Hret (proj1 (list_elem_of_In ts (q, x)) Hin)).
Defined.

(** A single request, from its start to its response. *)
Lemma request_thread_witness : exists r s',
  rtc malone (Outside (Running (sc_prog (Getattr (w_path Byte.x66)))), (w_fs, None))
    (Outside (Running (PRet r)), (s', None)) /\
  says r (spec w_filler_page [] wv (Getattr (w_path Byte.x66))).
Proof.
  do 2 eexists. split; [apply request_thread_sequential; vm_compute; reflexivity|].
  vm_compute. split; reflexivity.
Defined.

(** The third request is a read; from the middle on it makes enough moves. *)
Lemma sc_moves : match op_init w_boot with
  | Ok (_, s) =>
      match mreturned <$> (snd <$> snd (sc_mid s) !! 2%nat) with Some None => true | _ => false end &&
      (cost w_env (sc_prog (Read 3 (zeros 8) 0)) <=? moves 2 (drop 60 sc_turns) (sc_mid s))%nat
  | Err _ => false
  end = true.
Proof. by vm_compute. Qed.

Lemma read_requests_end_witness : exists s0 r, op_init w_boot = Ok (tt, s0) /\
  snd (sc_run s0) !! 2%nat = Some (Read 3 (zeros 8) 0, Outside (Running (PRet r))) /\
  says r (spec w_filler_page [] wv (Read 3 (zeros 8) 0)).
Proof.
  destruct (read_requests_end w_filler_page [] w_img wv (wv_repr (RLO := direct_ok)) w_boot w_disk_ok
    eq_refl ltac:(by rewrite w_zlen) w_gdt_wf) as (s0 & Hrun & Hend).
  pose proof sc_moves as Hm. rewrite Hrun in Hm. apply andb_true_iff in Hm as [_ Hm%Nat.leb_le].
  destruct (sc_mid_third s0) as [x Hi].
  destruct (Hend (sc_mid s0) 2%nat _ x (drop 60 sc_turns)
    (sc_mid_reachable _ s0 (w_requests_ok (RLO := direct_ok))) Hi eq_refl Hm) as (r & Hr & Hs).
  exists s0, r. split; [exact Hrun|]. split; [|exact Hs]. rewrite <- sc_mid_run. exact Hr.
Defined.

(** ** The program *)

(** A libfuse that runs the six requests on threads which take turns. *)
#[local] Instance w_libfuse_threads : Libfuse (option CompressionReader) reply := {|
  fuse_opt_parse opts proc argv :=
    run_events opts proc ((fun a => Unmatched a FUSE_OPT_KEY_NONOPT) <$> tail argv);
  fuse_main args ops :=
    do* init ops in
    fun s => let c := sc_run (RL := image_layer true 100 sg_junk) s in
      Ok ((0, omap sc_answer (snd c)), fst (fst c)) |}.

Lemma w_serves_threads :
  serves_threads (RL := image_layer true 100 sg_junk) w_filler_page [] (kept false w_events)
    (fun q => q ∈ w_requests) 0.
Proof.
  unfold serves_threads. cbv zeta. intros s s0 Hinit _. cbn [fuse_main w_libfuse_threads].
  pose proof (sc_reachable (RL := image_layer true 100 sg_junk) (fun q => q ∈ w_requests) s0
    ltac:(apply Forall_forall; done)) as Hreach.
  exists (fst (fst (sc_run (RL := image_layer true 100 sg_junk) s0))),
    (snd (fst (sc_run (RL := image_layer true 100 sg_junk) s0))),
    (snd (sc_run (RL := image_layer true 100 sg_junk) s0)),
    (omap sc_answer (snd (sc_run (RL := image_layer true 100 sg_junk) s0))).
  split; [by destruct (sc_run s0) as [[]]|]. split; [|apply sc_answers].
  by rewrite (bind_Ok (init (e4f_ops w_filler_page)) _ s tt s0 Hinit).
Qed.

Lemma main_serves_threads_witness : exists p' tr,
  FuseMain.main (RL := image_layer true 100 sg_junk) w_filler_page (w_system w_img) w_argv w_process
    = Ok (0, p') /\
  p_trace p' = tr /\ Forall (fun qr => says (snd qr) (spec w_filler_page [] wv (fst qr))) tr /\
  strs p' = ∅ /\ p_stderr p' = [].
Proof.
  exact (main_serves_threads true 100 sg_junk w_filler_page [] (w_system w_img) w_argv w_events
    (str "image") w_img 3 w_img wv (fun q => q ∈ w_requests) 0 w_process (fun p => eq_refl) w_events_ok
    eq_refl eq_refl ltac:(lia) ltac:(rewrite w_zlen; lia) w_compressed ltac:(rewrite w_zlen; lia) eq_refl
    (fun f H => eq_refl) w_serves_threads eq_refl eq_refl
    (conj wv_on (proj1 (Forall_forall _ _) w_requests_on))).
Defined.
